(** * SFTfileIO: a shallow embedding of the SFT file-format I/O layer

    The development follows [SFTfileIO.c] function by function.  Machine
    integers are [Z] with their wrap-around written out, [REAL8] is the
    kernel's IEEE-754 binary64 type, files are byte lists read through an
    explicit file position, and C strings are [string]s without a NUL.

    Conventions of the model (the x86-64 ABI the library is built for):
    little-endian host, [CHAR] is signed, no padding inside
    [_SFT_header_v2_t] (its fields are naturally aligned, 48 bytes). *)

From Stdlib Require Import ZArith List Bool Lia.
From Stdlib.Strings Require Import String Ascii Byte.
From Stdlib Require Import Floats Uint63 Sorted Permutation QArith.
Import ListNotations.

Local Close Scope Q_scope.
Local Open Scope Z_scope.

(* ------------------------------------------------------------------ *)
(** ** Machine integers *)

Definition UINT4_MOD : Z := 2 ^ 32.
Definition UINT8_MOD : Z := 2 ^ 64.

(** Conversion of a mathematical integer to [UINT4] / [UINT8]. *)
Definition to_UINT4 (z : Z) : Z := z mod UINT4_MOD.
Definition to_UINT8 (z : Z) : Z := z mod UINT8_MOD.

(** Conversion to the two's-complement [INT4]. *)
Definition to_INT4 (z : Z) : Z :=
  let u := z mod UINT4_MOD in
  if u <? 2 ^ 31 then u else u - UINT4_MOD.

(* ------------------------------------------------------------------ *)
(** ** Bytes *)

Definition Z_of_byte (b : byte) : Z := Z.of_N (Byte.to_N b).

Definition byte_of_Z (z : Z) : byte :=
  match Byte.of_N (Z.to_N (z mod 256)) with
  | Some b => b
  | None => x00
  end.

(** Little-endian image of the low [n] bytes of [z]. *)
Fixpoint le_bytes (n : nat) (z : Z) : list byte :=
  match n with
  | O => []
  | S k => byte_of_Z z :: le_bytes k (z / 256)
  end.

(** Unsigned value of a little-endian byte image. *)
Fixpoint le_value (l : list byte) : Z :=
  match l with
  | [] => 0
  | b :: r => Z_of_byte b + 256 * le_value r
  end.

(** Signed reading of a 4-byte image ([INT4]). *)
Definition le_INT4 (l : list byte) : Z := to_INT4 (le_value l).

(** [endian_swap(pdata, dsize, 1)]: the bytes of one element reversed. *)
Definition endian_swap (pdata : list byte) : list byte := rev pdata.

(** A [CHAR] widened to [UINT8]: sign extension of a signed char. *)
Definition CHAR_to_UINT8 (b : byte) : Z :=
  let v := Z_of_byte b in
  if v <? 128 then v else to_UINT8 (v - 256).

(* ------------------------------------------------------------------ *)
(** ** CRC64 engine *)

Definition POLY64 : Z := 0xd800000000000000.
Definition TABLELEN : Z := 256.

(** One round of the inner table loop: [part = (part & 1) ? (part >> 1) ^ POLY64 : part >> 1]. *)
Definition crc_table_round (part : Z) : Z :=
  if Z.testbit part 0 then Z.lxor (Z.shiftr part 1) POLY64
  else Z.shiftr part 1.

(** [CRCTable[i]], the result of eight rounds started from [i]. *)
Definition CRCTable (i : Z) : Z :=
  Nat.iter 8 crc_table_round i.

(** One iteration of the checksum loop over [data[i]]. *)
Definition crc64_step (crc : Z) (d : byte) : Z :=
  let temp1 := Z.shiftr crc 8 in
  let temp2 := CRCTable (Z.land (Z.lxor crc (CHAR_to_UINT8 d)) 0xff) in
  Z.lxor temp1 temp2.

Definition crc64_bytes (l : list byte) (crc : Z) : Z :=
  fold_left crc64_step l crc.

(** [calc_crc64(data, length, crc)].  [data = None] is the NULL pointer.
    The loop reads [data[0 .. length-1]]; a length beyond the buffer is
    undefined in C, the model reads the bytes that exist. *)
Definition calc_crc64 (data : option (list byte)) (length : Z) (crc : Z) : Z :=
  match data with
  | None => crc
  | Some l =>
      if length =? 0 then crc
      else crc64_bytes (firstn (Z.to_nat length) l) crc
  end.

(* ------------------------------------------------------------------ *)
(** ** REAL8 and its memory image *)

Local Open Scope float_scope.

(** [(REAL8) z] for an integer that fits 63 bits. *)
Definition REAL8_of_Z (z : Z) : float :=
  if (z <? 0)%Z then - of_uint63 (Uint63.of_Z (- z))
  else of_uint63 (Uint63.of_Z z).

(** The 64-bit pattern of a binary64 value: sign, biased exponent (11
    bits), fraction (52 bits). *)
Definition SF_to_bits (x : spec_float) : Z :=
  match x with
  | S754_zero s => if s then 2 ^ 63 else 0
  | S754_infinity s => (if s then 2 ^ 63 else 0) + 0x7FF0000000000000
  | S754_nan => 0x7FF8000000000000
  | S754_finite s m e =>
      (if s then 2 ^ 63 else 0) +
      (if Z.pos m <? 2 ^ 52 then Z.pos m
       else (e + 1075) * 2 ^ 52 + (Z.pos m - 2 ^ 52))
  end%Z.

(** The binary64 value a 64-bit pattern denotes. *)
Definition bits_to_SF (b : Z) : spec_float :=
  let s := Z.testbit b 63 in
  let ex := ((b / 2 ^ 52) mod 2 ^ 11)%Z in
  let m := (b mod 2 ^ 52)%Z in
  if (ex =? 0)%Z then
    if (m =? 0)%Z then S754_zero s else S754_finite s (Z.to_pos m) (-1074)
  else if (ex =? 2047)%Z then
    if (m =? 0)%Z then S754_infinity s else S754_nan
  else S754_finite s (Z.to_pos (m + 2 ^ 52)) (ex - 1075).

Definition REAL8_to_bits (x : float) : Z := SF_to_bits (Prim2SF x).
Definition REAL8_of_bits (b : Z) : float := SF2Prim (bits_to_SF b).

(** Integer part functions of a finite binary float [(-1)^s * m * 2^e]. *)
Definition SF_floor_Z (x : spec_float) : option Z :=
  match x with
  | S754_zero _ => Some 0%Z
  | S754_finite s m e =>
      let v := if s then Z.neg m else Z.pos m in
      Some (if (0 <=? e)%Z then v * 2 ^ e else v / 2 ^ (- e))%Z
  | _ => None
  end.

Definition SF_ceil_Z (x : spec_float) : option Z :=
  match x with
  | S754_zero _ => Some 0%Z
  | S754_finite s m e =>
      let v := if s then Z.neg m else Z.pos m in
      Some (if (0 <=? e)%Z then v * 2 ^ e else - ((- v) / 2 ^ (- e)))%Z
  | _ => None
  end.

(** [lround]: nearest integer, halfway cases away from zero. *)
Definition SF_lround_Z (x : spec_float) : option Z :=
  match x with
  | S754_zero _ => Some 0%Z
  | S754_finite s m e =>
      let a := (if (0 <=? e)%Z then Z.pos m * 2 ^ e
                else (2 * Z.pos m + 2 ^ (- e)) / (2 * 2 ^ (- e)))%Z in
      Some (if s then - a else a)%Z
  | _ => None
  end.

(** [floor], [ceil] and [lround] of libm, as integers.  On NaN and the
    infinities the conversions that follow them in the source are
    undefined; the model yields 0 there. *)
Definition REAL8_floor (x : float) : Z :=
  match SF_floor_Z (Prim2SF x) with Some z => z | None => 0%Z end.
Definition REAL8_ceil (x : float) : Z :=
  match SF_ceil_Z (Prim2SF x) with Some z => z | None => 0%Z end.
Definition lround (x : float) : Z :=
  match SF_lround_Z (Prim2SF x) with Some z => z | None => 0%Z end.

(** The rational number a finite [REAL8] denotes. *)
Definition SF_to_Q (x : spec_float) : option Q :=
  match x with
  | S754_zero _ => Some (inject_Z 0)
  | S754_finite s m e =>
      let v := if s then Z.neg m else Z.pos m in
      Some (if (0 <=? e)%Z then inject_Z (v * 2 ^ e) else Qmake v (2 ^ Z.to_pos (- e)))
  | _ => None
  end.

Definition REAL8_to_Q (x : float) : option Q := SF_to_Q (Prim2SF x).

(** [x] is finite and denotes a number equal to [q]. *)
Definition REAL8_denotes (x : float) (q : Q) : Prop :=
  match REAL8_to_Q x with
  | Some q' => Qeq q' q
  | None => False
  end.

(** The greatest integer not above, and the least integer not below, a
    rational number. *)
Definition is_floor_of (q : Q) (n : Z) : Prop :=
  (inject_Z n <= q)%Q /\ (q < inject_Z (n + 1))%Q.

Definition is_ceil_of (q : Q) (n : Z) : Prop :=
  (inject_Z (n - 1) < q)%Q /\ (q <= inject_Z n)%Q.

(** Modelled from the spec: [LAL_REAL8_EPS] of [LALConstants.h], the REAL8
    machine epsilon [2^-52]. *)
Definition LAL_REAL8_EPS : float := Eval cbv in Z.ldexp 1 (-52)%Z.

Definition fudge_up : float := 1 + 10 * LAL_REAL8_EPS.
Definition fudge_down : float := 1 - 10 * LAL_REAL8_EPS.

Local Close Scope float_scope.

(* ------------------------------------------------------------------ *)
(** ** C strings and buffers *)

Definition NUL : byte := x00.

Definition is_NUL (b : byte) : bool := Byte.eqb b NUL.

(** The characters of a buffer up to (not including) its first NUL. *)
Fixpoint until_NUL (l : list byte) : list byte :=
  match l with
  | [] => []
  | b :: r => if is_NUL b then [] else b :: until_NUL r
  end.

(** The C string stored at the start of a buffer. *)
Definition cstring_of_buffer (l : list byte) : string :=
  string_of_list_byte (until_NUL l).

(** The characters of a string, and the string with its terminator. *)
Definition chars (s : string) : list byte := list_byte_of_string s.
Definition chars0 (s : string) : list byte := chars s ++ [NUL].

(** [strlen] of a model string. *)
Definition strlen (s : string) : Z := Z.of_nat (String.length s).

(** A well-formed C string holds no NUL character. *)
Definition no_NUL (s : string) : Prop := Forall (fun b => b <> NUL) (chars s).

(** [s[i]] of a NUL-terminated string. *)
Definition char_at (s : string) (i : nat) : byte := nth i (chars0 s) NUL.

Definition zeros (n : Z) : list byte := repeat NUL (Z.to_nat n).

(* ------------------------------------------------------------------ *)
(** ** Streams *)

(** An open [FILE*]: the bytes of the file and the file position. *)
Record FILE := mkFILE { contents : list byte; fpos : Z }.

Definition file_length (fp : FILE) : Z := Z.of_nat (List.length (contents fp)).

Definition ftell (fp : FILE) : Z := fpos fp.

(** [fseek(fp, off, SEEK_SET)]: fails (-1) on a negative offset. *)
Definition fseek_SET (fp : FILE) (off : Z) : option FILE :=
  if off <? 0 then None else Some (mkFILE (contents fp) off).

(** [fseek(fp, off, SEEK_CUR)]. *)
Definition fseek_CUR (fp : FILE) (off : Z) : option FILE :=
  fseek_SET fp (fpos fp + off).

(** [fread] of one item of [n] bytes: the item when the file holds it,
    otherwise a short read that leaves the position at the end of file. *)
Definition fread (n : Z) (fp : FILE) : option (list byte) * FILE :=
  if (0 <=? fpos fp) && (fpos fp + n <=? file_length fp) then
    (Some (firstn (Z.to_nat n) (skipn (Z.to_nat (fpos fp)) (contents fp))),
     mkFILE (contents fp) (fpos fp + n))
  else (None, mkFILE (contents fp) (Z.max (fpos fp) (file_length fp))).

(** The file system seen by [fopen(fname, "rb")]. *)
Definition FileSystem := string -> option (list byte).

Definition fopen (fs : FileSystem) (fname : string) : option FILE :=
  match fs fname with
  | Some bytes => Some (mkFILE bytes 0)
  | None => None
  end.

(* ------------------------------------------------------------------ *)
(** ** LAL data types *)

Inductive XLALErrno : Type :=
| XLAL_EIO | XLAL_ENOMEM | XLAL_EINVAL | XLAL_EDOM | XLAL_EFUNC
| XLAL_EDATA | XLAL_EFAILED.

(** The result of a function that reports failure through [XLAL_ERROR]. *)
Inductive XLALResult (A : Type) : Type :=
| XLAL_OK : A -> XLALResult A
| XLAL_ERROR : XLALErrno -> XLALResult A.
Arguments XLAL_OK {A} _.
Arguments XLAL_ERROR {A} _.

Record LIGOTimeGPS := mkGPS { gpsSeconds : Z; gpsNanoSeconds : Z }.

(** One SFT bin, by the 32-bit images of its real and imaginary [REAL4]. *)
Record COMPLEX8 := mkC8 { re_bits : Z; im_bits : Z }.

(** [SFTtype] is [COMPLEX8FrequencySeries]; [sft_data = None] is a NULL
    data pointer. *)
Record SFTtype := mkSFT {
  sft_name : string;
  sft_epoch : LIGOTimeGPS;
  sft_f0 : float;
  sft_deltaF : float;
  sft_data : option (list COMPLEX8)
}.

Record SFTLocator := mkLocator {
  loc_fname : string;
  loc_offset : Z;
  loc_isft : Z
}.

Record SFTDescriptor := mkDesc {
  desc_locator : SFTLocator;
  desc_header : SFTtype;
  desc_comment : option (list byte);
  desc_numBins : Z;
  desc_version : Z;
  desc_crc64 : Z
}.

Definition SFTCatalog := list SFTDescriptor.

(** [_SFT_header_v2_t] *)
Record SFT_header_v2_t := mkRaw {
  raw_version : float;
  raw_gps_sec : Z;
  raw_gps_nsec : Z;
  raw_tbase : float;
  raw_first_frequency_index : Z;
  raw_nsamples : Z;
  raw_crc64 : Z;
  raw_detector : list byte;
  raw_padding : list byte;
  raw_comment_length : Z
}.

Definition sizeof_rawheader : Z := 48.

(** The memory image of a raw header, as [fwrite(&rawheader, ...)] emits it. *)
Definition rawheader_bytes (h : SFT_header_v2_t) : list byte :=
  le_bytes 8 (REAL8_to_bits (raw_version h)) ++
  le_bytes 4 (raw_gps_sec h) ++
  le_bytes 4 (raw_gps_nsec h) ++
  le_bytes 8 (REAL8_to_bits (raw_tbase h)) ++
  le_bytes 4 (raw_first_frequency_index h) ++
  le_bytes 4 (raw_nsamples h) ++
  le_bytes 8 (raw_crc64 h) ++
  firstn 2 (raw_detector h ++ [NUL; NUL]) ++
  firstn 2 (raw_padding h ++ [NUL; NUL]) ++
  le_bytes 4 (raw_comment_length h).

(** Bytes [off .. off+n) of a memory image. *)
Definition field (off n : nat) (img : list byte) : list byte :=
  firstn n (skipn off img).

(** The memory image with the [crc64] field (bytes 32..39) set to zero. *)
Definition zero_crc_field (img : list byte) : list byte :=
  firstn 32 img ++ repeat NUL 8 ++ skipn 40 img.

(** The fields of a raw header read from its memory image; [swap] applies
    [endian_swap] to every numeric field first, as the reader does for a
    file of the other byte order. *)
Definition rawheader_of_bytes (swap : bool) (img : list byte) : SFT_header_v2_t :=
  let num off n := let f := field off n img in if swap then endian_swap f else f in
  mkRaw (REAL8_of_bits (le_value (num 0 8)%nat))
        (le_INT4 (num 8 4)%nat)
        (le_INT4 (num 12 4)%nat)
        (REAL8_of_bits (le_value (num 16 8)%nat))
        (le_INT4 (num 24 4)%nat)
        (le_INT4 (num 28 4)%nat)
        (le_value (num 32 8)%nat)
        (field 40 2 img)
        (field 42 2 img)
        (le_INT4 (num 44 4)%nat).

(** The memory image of the payload: REAL, IMAG, REAL, IMAG, ... *)
Definition COMPLEX8_bytes (c : COMPLEX8) : list byte :=
  le_bytes 4 (re_bits c) ++ le_bytes 4 (im_bits c).

Definition payload_bytes (d : list COMPLEX8) : list byte :=
  flat_map COMPLEX8_bytes d.

(** Functions of [SFTutils.c] that this module calls; their code is not
    part of the module, so the development is parameterised by them. *)
Class SFTutils := {
  XLALIsValidCWDetector : string -> bool;
  TSFTfromDFreq : float -> float
}.

Section SFTfileIO.
Context {U : SFTutils}.

(* ------------------------------------------------------------------ *)
(** ** Writer *)

Definition ALL_ONES : Z := UINT8_MOD - 1.

(** The raw header [XLALWriteSFT2fp] fills out, before the checksum. *)
Definition fill_rawheader (sft : SFTtype) (length comment_len pad_len : Z)
  : SFT_header_v2_t :=
  mkRaw 2%float
        (gpsSeconds (sft_epoch sft))
        (gpsNanoSeconds (sft_epoch sft))
        (TSFTfromDFreq (sft_deltaF sft))
        (to_INT4 (lround (sft_f0 sft / sft_deltaF sft)%float))
        (to_INT4 length)
        0
        [char_at (sft_name sft) 0; char_at (sft_name sft) 1]
        [NUL; NUL]
        (to_INT4 (comment_len + pad_len)).

Definition set_crc64 (h : SFT_header_v2_t) (crc : Z) : SFT_header_v2_t :=
  mkRaw (raw_version h) (raw_gps_sec h) (raw_gps_nsec h) (raw_tbase h)
        (raw_first_frequency_index h) (raw_nsamples h) crc
        (raw_detector h) (raw_padding h) (raw_comment_length h).

(** The comment field the writer composes: [sft->name], then ["; "] and the
    caller's comment when there is one. *)
Definition composed_comment (sft : SFTtype) (SFTcomment : option string) : string :=
  match SFTcomment with
  | Some c => sft_name sft ++ "; " ++ c
  | None => sft_name sft
  end.

(** [comment_len]: [strlen(sft->name) + 1], plus [strlen(SFTcomment) + 2]
    when a comment is given. *)
Definition comment_len_of (sft : SFTtype) (SFTcomment : option string) : Z :=
  to_UINT4 (strlen (sft_name sft) + 1 +
            match SFTcomment with Some c => strlen c + 2 | None => 0 end).

(** [pad_len = (8 - (comment_len % 8)) % 8] *)
Definition pad_len_of (comment_len : Z) : Z :=
  to_UINT4 (to_UINT4 (8 - comment_len mod 8) mod 8).

(** The bytes one call of the writer emits for a checked SFT: header (with
    the checksum of header, comment, padding and payload), comment,
    padding, payload. *)
Definition SFT_block (sft : SFTtype) (data : list COMPLEX8)
    (SFTcomment : option string) : list byte :=
  let length := Z.of_nat (List.length data) in
  let comment_len := comment_len_of sft SFTcomment in
  let _SFTcomment := chars0 (composed_comment sft SFTcomment) in
  let pad_len := pad_len_of comment_len in
  let pad := repeat NUL 7 in
  let rawheader := fill_rawheader sft length comment_len pad_len in
  let crc := calc_crc64 (Some (rawheader_bytes rawheader)) sizeof_rawheader ALL_ONES in
  let crc := calc_crc64 (Some _SFTcomment) comment_len crc in
  let crc := calc_crc64 (Some pad) pad_len crc in
  let crc := calc_crc64 (Some (payload_bytes data)) (to_UINT4 (length * 8)) crc in
  let rawheader := set_crc64 rawheader crc in
  rawheader_bytes rawheader
    ++ firstn (Z.to_nat comment_len) _SFTcomment
    ++ firstn (Z.to_nat pad_len) pad
    ++ payload_bytes data.

(** [XLALWriteSFT2fp(sft, fp, SFTcomment)].  [fp] is the content of the
    stream so far ([None]: a NULL [FILE*]); the result is the stream after
    the call.  Write failures of the device are outside the model. *)
Definition XLALWriteSFT2fp (sft : option SFTtype) (fp : option (list byte))
    (SFTcomment : option string) : XLALResult (list byte) :=
  match sft with
  | None => XLAL_ERROR XLAL_EINVAL
  | Some sft =>
  match sft_data sft with
  | None => XLAL_ERROR XLAL_EINVAL
  | Some data =>
    if (sft_deltaF sft <=? 0)%float || (sft_f0 sft <? 0)%float
       || (Z.of_nat (List.length data) =? 0)
    then XLAL_ERROR XLAL_EINVAL
    else if negb ((0 <=? gpsSeconds (sft_epoch sft)) && (0 <=? gpsNanoSeconds (sft_epoch sft)))
    then XLAL_ERROR XLAL_EINVAL
    else if negb (gpsNanoSeconds (sft_epoch sft) <? 1000000000)
    then XLAL_ERROR XLAL_EINVAL
    else if negb (XLALIsValidCWDetector (sft_name sft))
    then XLAL_ERROR XLAL_EINVAL
    else
    match fp with
    | None => XLAL_ERROR XLAL_EINVAL
    | Some stream => XLAL_OK (stream ++ SFT_block sft data SFTcomment)
    end
  end
  end.

(* ------------------------------------------------------------------ *)
(** ** Header reader *)

Definition MIN_SFT_VERSION : Z := 2.
Definition MAX_SFT_VERSION : Z := 2.

(** The versions the detection loop tries, from [MAX_SFT_VERSION] down to
    [MIN_SFT_VERSION]. *)
Definition SFT_versions : list Z :=
  rev (map (fun k => MIN_SFT_VERSION + Z.of_nat k)
           (seq 0 (Z.to_nat (MAX_SFT_VERSION - MIN_SFT_VERSION + 1)))).

Definition bytes_eqb (a b : list byte) : bool :=
  if list_eq_dec Byte.byte_eq_dec a b then true else false.

(** The body of the detection loop: the first version whose [REAL8] image
    equals the eight bytes read, in native or in swapped order. *)
Fixpoint match_version (ver : list byte) (versions : list Z) : option (Z * bool) :=
  match versions with
  | [] => None
  | v :: rest =>
      let vertest := le_bytes 8 (REAL8_to_bits (REAL8_of_Z v)) in
      if bytes_eqb ver vertest then Some (v, false)
      else if bytes_eqb ver (endian_swap vertest) then Some (v, true)
      else match_version ver rest
  end.

(** Restoring the file position on a failure path; a failing [fseek] only
    prints a message. *)
Definition restore (fp : FILE) (save_filepos : Z) : FILE :=
  match fseek_SET fp save_filepos with
  | Some fp' => fp'
  | None => fp
  end.

(** [read_SFTversion_from_fp(&version, &need_swap, fp)] *)
Definition read_SFTversion_from_fp (fp : FILE) : option (Z * bool) * FILE :=
  let save_filepos := ftell fp in
  if save_filepos =? -1 then (None, fp)
  else
    match fread 8 fp with
    | (None, fp1) => (None, restore fp1 save_filepos)
    | (Some ver, fp1) =>
        match match_version ver SFT_versions with
        | None => (None, restore fp1 save_filepos)
        | Some r =>
            match fseek_SET fp1 save_filepos with
            | None => (None, restore fp1 save_filepos)
            | Some fp2 => (Some r, fp2)
            end
        end
    end.

(** What [read_v2_header_from_fp] hands back through its pointers. *)
Record v2_header := mkV2 {
  v2_header_ : SFTtype;
  v2_nsamples : Z;
  v2_header_crc64 : Z;
  v2_ref_crc64 : Z;
  v2_SFTcomment : option (list byte)
}.

(** The check that follows [strchr(comm, 0)]: every byte from the first NUL
    up to (not including) the last byte of the buffer is NUL. *)
Fixpoint only_NUL_after_end (l : list byte) : bool :=
  match l with
  | [] => true
  | b :: r => if is_NUL b then forallb is_NUL (removelast r) else only_NUL_after_end r
  end.

(** The C string that starts at [rawheader.detector]: the field is not
    terminated, so the string runs on through [padding] and
    [comment_length]. *)
Definition detector_cstring (h : SFT_header_v2_t) : string :=
  cstring_of_buffer (firstn 2 (raw_detector h ++ [NUL; NUL]) ++
                     firstn 2 (raw_padding h ++ [NUL; NUL]) ++
                     le_bytes 4 (raw_comment_length h)).

(** [read_v2_header_from_fp(fp, &header, &nsamples, &header_crc64,
    &ref_crc64, &SFTcomment, swapEndian)], called with valid pointers. *)
Definition read_v2_header_from_fp (fp : FILE) (swapEndian : bool)
  : option v2_header * FILE :=
  let save_filepos := ftell fp in
  if save_filepos =? -1 then (None, fp)
  else
    match fread sizeof_rawheader fp with
    | (None, fp1) => (None, restore fp1 save_filepos)
    | (Some img, fp1) =>
      let crc := calc_crc64 (Some (zero_crc_field img)) sizeof_rawheader ALL_ONES in
      let rawheader := rawheader_of_bytes swapEndian img in
      if negb (raw_version rawheader =? 2)%float then (None, restore fp1 save_filepos)
      else if raw_nsamples rawheader <=? 0 then (None, restore fp1 save_filepos)
      else if raw_comment_length rawheader <? 0 then (None, restore fp1 save_filepos)
      else if negb (Z.rem (raw_comment_length rawheader) 8 =? 0) then (None, restore fp1 save_filepos)
      else if negb (XLALIsValidCWDetector (detector_cstring rawheader))
      then (None, restore fp1 save_filepos)
      else
        let finish (comm : option (list byte)) (crc : Z) (fp2 : FILE) :=
          (Some (mkV2 (mkSFT (cstring_of_buffer (firstn 2 (raw_detector rawheader)))
                             (mkGPS (raw_gps_sec rawheader) (raw_gps_nsec rawheader))
                             (REAL8_of_Z (raw_first_frequency_index rawheader) / raw_tbase rawheader)%float
                             (1 / raw_tbase rawheader)%float
                             None)
                      (to_UINT4 (raw_nsamples rawheader))
                      crc
                      (raw_crc64 rawheader)
                      comm), fp2) in
        if raw_comment_length rawheader =? 0 then finish None crc fp1
        else
          match fread (raw_comment_length rawheader) fp1 with
          | (None, fp2) => (None, restore fp2 save_filepos)
          | (Some comm, fp2) =>
            if negb (is_NUL (last comm NUL)) then (None, restore fp2 save_filepos)
            else if negb (only_NUL_after_end comm) then (None, restore fp2 save_filepos)
            else
              let comment_len := to_UINT4 (Z.of_nat (List.length (until_NUL comm)) + 1) in
              let pad_len := pad_len_of comment_len in
              let crc := calc_crc64 (Some comm) comment_len crc in
              let crc := calc_crc64 (Some (repeat NUL 7)) pad_len crc in
              finish (Some comm) crc fp2
          end
    end.

(** What [read_sft_header_from_fp] hands back through its pointers. *)
Record sft_header := mkHdr {
  hdr_header : SFTtype;
  hdr_version : Z;
  hdr_crc64 : Z;
  hdr_swapEndian : bool;
  hdr_SFTcomment : option (list byte);
  hdr_numBins : Z
}.

(** [read_sft_header_from_fp(fp, &header, &version, &crc64, &swapEndian,
    SFTcomment, &numBins)].  [want_comment] tells whether the caller passed
    a place for the comment ([SFTcomment != NULL]). *)
Definition read_sft_header_from_fp (fp : FILE) (want_comment : bool)
  : option sft_header * FILE :=
  let save_filepos := ftell fp in
  if save_filepos =? -1 then (None, fp)
  else
    match read_SFTversion_from_fp fp with
    | (None, fp1) => (None, fp1)
    | (Some (ver, need_swap), fp1) =>
      if ver =? 2 then
        match read_v2_header_from_fp fp1 need_swap with
        | (None, fp2) => (None, restore fp2 save_filepos)
        | (Some r, fp2) =>
          let head := v2_header_ r in
          if (gpsSeconds (sft_epoch head) <? 0) || (gpsNanoSeconds (sft_epoch head) <? 0)
             || (1000000000 <=? gpsNanoSeconds (sft_epoch head))
          then (None, restore fp2 save_filepos)
          else if (sft_deltaF head <=? 0)%float then (None, restore fp2 save_filepos)
          else if (sft_f0 head <? 0)%float then (None, restore fp2 save_filepos)
          else
            (Some (mkHdr head ver (v2_ref_crc64 r) need_swap
                         (if want_comment then v2_SFTcomment r else None)
                         (v2_nsamples r)), fp2)
        end
      else (None, restore fp1 save_filepos)
    end.

(* ------------------------------------------------------------------ *)
(** ** Checksum validation *)

(** [BLOCKSIZE]; the macro expands to the unparenthesised [8192 * 8]. *)
Definition BLOCKSIZE : Z := 8192 * 8.

(** The block loop of [has_valid_v2_crc64].  It reads [toread] bytes per
    round; [fuel] bounds the number of rounds ([data_len] decreases by at
    least one each round, so [data_len] rounds are always enough). *)
Fixpoint crc_block_loop (fuel : nat) (fp : FILE) (data_len : Z) (computed_crc : Z)
  : option Z :=
  if data_len <=? 0 then Some computed_crc
  else
    match fuel with
    | O => None
    | S fuel' =>
        let toread := if BLOCKSIZE <? data_len then BLOCKSIZE else data_len in
        match fread toread fp with
        | (None, _) => None
        | (Some block, fp') =>
            crc_block_loop fuel' fp' (data_len - toread)
                           (calc_crc64 (Some block) toread computed_crc)
        end
    end.

(** [has_valid_v2_crc64(fp)].  The function is declared [BOOLEAN]
    (unsigned char); its [return -1] paths therefore yield 255. *)
Definition has_valid_v2_crc64 (fp : option FILE) : Z :=
  match fp with
  | None => 0
  | Some fp =>
    if ftell fp =? -1 then 255
    else
      match read_SFTversion_from_fp fp with
      | (None, _) => 255
      | (Some (version, need_swap), fp1) =>
        if negb (version =? 2) then 255
        else
          match read_v2_header_from_fp fp1 need_swap with
          | (None, _) => 0
          | (Some r, fp2) =>
            let data_len := to_UINT4 (v2_nsamples r * 8) in
            match crc_block_loop (Z.to_nat data_len) fp2 data_len (v2_header_crc64 r) with
            | None => 0
            | Some computed_crc => if computed_crc =? v2_ref_crc64 r then 1 else 0
            end
          end
      end
  end.

(** [fopen_SFTLocator(locator)] *)
Definition fopen_SFTLocator (fs : FileSystem) (locator : option SFTLocator)
  : option FILE :=
  match locator with
  | None => None
  | Some locator =>
      match fopen fs (loc_fname locator) with
      | None => None
      | Some fp => fseek_SET fp (loc_offset locator)
      end
  end.

Definition XLAL_SUCCESS : Z := 0.
Definition XLAL_FAILURE : Z := -1.

(** [XLALCheckCRCSFTCatalog(&crc_check, catalog)], called with valid
    pointers: the returned status and the final value of [*crc_check]. *)
Fixpoint XLALCheckCRCSFTCatalog_loop (fs : FileSystem) (catalog : SFTCatalog)
    (crc_check : bool) : Z * bool :=
  match catalog with
  | [] => (XLAL_SUCCESS, crc_check)
  | d :: rest =>
      if desc_version d =? 1 then XLALCheckCRCSFTCatalog_loop fs rest crc_check
      else if desc_version d =? 2 then
        match fopen_SFTLocator fs (Some (desc_locator d)) with
        | None => (XLAL_FAILURE, crc_check)
        | Some fp =>
            if negb (negb (has_valid_v2_crc64 (Some fp) =? 0))
            then (XLAL_SUCCESS, false)
            else XLALCheckCRCSFTCatalog_loop fs rest crc_check
        end
      else (XLAL_FAILURE, crc_check)
  end.

Definition XLALCheckCRCSFTCatalog (fs : FileSystem) (catalog : SFTCatalog) : Z * bool :=
  XLALCheckCRCSFTCatalog_loop fs catalog true.

End SFTfileIO.

(* ------------------------------------------------------------------ *)
(** ** Sorting with [qsort] *)

(** Insertion of [x] in front of the first element it does not compare
    greater than. *)
Fixpoint qsort_insert {A : Type} (compar : A -> A -> Z) (x : A) (l : list A) : list A :=
  match l with
  | [] => [x]
  | y :: r => if compar x y <=? 0 then x :: y :: r else y :: qsort_insert compar x r
  end.

(** [qsort(base, n, size, compar)] of libc: the array rearranged in
    ascending order of [compar].  The C standard leaves the algorithm
    open; the model is insertion sort. *)
Definition qsort {A : Type} (compar : A -> A -> Z) (l : list A) : list A :=
  fold_right (qsort_insert compar) [] l.

(** [strcmp], by its sign: strings compare as sequences of unsigned chars. *)
Definition strcmp (a b : string) : Z :=
  match String.compare a b with
  | Lt => -1
  | Eq => 0
  | Gt => 1
  end.

(** Modelled from the spec: [XLALSortStringVector] of [StringVector.c],
    which sorts the vector alphabetically in place ([qsort] by [strcmp]). *)
Definition XLALSortStringVector (v : list string) : list string :=
  qsort strcmp v.

(* ------------------------------------------------------------------ *)
(** ** The glob matcher

    Strings are the characters before the terminator; a read at or past
    the terminator yields NUL ([hd NUL]) and the pointer stays ([tl]). *)

(** A [char] as the [int] it promotes to. *)
Definition schar (b : byte) : Z :=
  let v := Z_of_byte b in if v <? 128 then v else v - 256.

Definition char_eqb (a b : byte) : bool := Byte.eqb a b.

Definition ch_star : byte := Eval cbv in byte_of_ascii "*"%char.
Definition ch_question : byte := Eval cbv in byte_of_ascii "?"%char.
Definition ch_lbracket : byte := Eval cbv in byte_of_ascii "["%char.
Definition ch_rbracket : byte := Eval cbv in byte_of_ascii "]"%char.
Definition ch_backslash : byte := Eval cbv in byte_of_ascii "\"%char.
Definition ch_hyphen : byte := Eval cbv in byte_of_ascii "-"%char.
Definition NEGATE : byte := Eval cbv in byte_of_ascii "^"%char.

(** [is_pattern(c)]: the string holds a ['*'], ['?'] or ['[']. *)
Definition is_pattern (c : string) : bool :=
  existsb (fun b => char_eqb b ch_star || char_eqb b ch_question || char_eqb b ch_lbracket)
          (chars c).

(** How the loop over a character set ends: with [return FALSE], or with
    the value of [match] and the pattern pointer. *)
Inductive cset_result : Type :=
| Cset_return_FALSE
| Cset_done (matched : bool) (p : list byte).

(** The loop [while (!match && (c = *p++))] of the character-set case,
    entered with [match = FALSE]; [s] is the character at [str]. *)
Fixpoint cset_loop (s : byte) (p : list byte) : cset_result :=
  match p with
  | [] => Cset_done false []
  | c :: p1 =>
    match p1 with
    | [] => Cset_return_FALSE
    | d :: p2 =>
      if char_eqb d ch_hyphen then
        match p2 with
        | [] => Cset_return_FALSE
        | e :: _ =>
          if negb (char_eqb e ch_rbracket) then
            if char_eqb s c || char_eqb s e || ((schar c <? schar s) && (schar s <? schar e))
            then Cset_done true p2
            else cset_loop s p2
          else Cset_done (schar c <=? schar s) p2
        end
      else
        if negb (char_eqb d ch_rbracket) then
          if char_eqb c s || char_eqb d s then Cset_done true p1
          else cset_loop s p1
        else Cset_done (char_eqb c s) p1
    end
  end.

(** The loop that advances [p] to the next [']'] (or to the terminator). *)
Fixpoint skip_to_rbracket (p : list byte) : list byte :=
  match p with
  | [] => []
  | c :: r => if char_eqb c ch_rbracket then p else skip_to_rbracket r
  end.

(** The loop that advances [p] over a run of ['*']. *)
Fixpoint skip_stars (p : list byte) : list byte :=
  match p with
  | [] => []
  | c :: r => if char_eqb c ch_star then skip_stars r else p
  end.

(** The loop that advances [str] to the first occurrence of [*p]. *)
Fixpoint skip_to_char (c : byte) (str : list byte) : list byte :=
  match str with
  | [] => []
  | s :: r => if char_eqb c s then str else skip_to_char c r
  end.

(** [amatch(str, p)].  Every round of the outer loop and every recursive
    call works on a strictly shorter pattern; [fuel] counts them down, and
    [None] is returned only when it runs out. *)
Fixpoint amatch_fuel (fuel : nat) (str p : list byte) : option bool :=
  match fuel with
  | O => None
  | S fuel' =>
    match p with
    | [] => Some (match str with [] => true | _ => false end)
    | c :: p1 =>
      if (match str with [] => true | _ => false end) && negb (char_eqb c ch_star)
      then Some false
      else if char_eqb c ch_star then
        let p2 := skip_stars p1 in
        match p2 with
        | [] => Some true
        | d :: _ =>
          let str1 :=
            if negb (char_eqb d ch_question) && negb (char_eqb d ch_lbracket)
               && negb (char_eqb d ch_backslash)
            then skip_to_char d str else str in
          (fix star_loop (str : list byte) : option bool :=
             match str with
             | [] => Some false
             | _ :: r =>
               match amatch_fuel fuel' str p2 with
               | None => None
               | Some true => Some true
               | Some false => star_loop r
               end
             end) str1
        end
      else if char_eqb c ch_question then
        match str with
        | [] => Some false
        | _ :: str' => amatch_fuel fuel' str' p1
        end
      else if char_eqb c ch_lbracket then
        let negate := char_eqb (hd NUL p1) NEGATE in
        let p2 := if negate then tl p1 else p1 in
        match cset_loop (hd NUL str) p2 with
        | Cset_return_FALSE => Some false
        | Cset_done matched p3 =>
          if Bool.eqb negate matched then Some false
          else
            match skip_to_rbracket p3 with
            | [] => Some false
            | _ :: p4 => amatch_fuel fuel' (tl str) p4
            end
        end
      else
        let '(c', p2) :=
          if char_eqb c ch_backslash then
            match p1 with
            | [] => (c, p1)
            | e :: r => (e, r)
            end
          else (c, p1) in
        if negb (char_eqb c' (hd NUL str)) then Some false
        else amatch_fuel fuel' (tl str) p2
    end
  end.

Definition amatch (str p : string) : bool :=
  match amatch_fuel (S (List.length (chars p))) (chars str) (chars p) with
  | Some b => b
  | None => false
  end.

(* ------------------------------------------------------------------ *)
(** ** File/Glob resolver *)

(** What the resolver sees of the disk: regular files, the entries of a
    directory in [readdir] order ([None]: [opendir] fails), and the lines
    of a list file as [XLALParseDataFile] tokenizes them ([None]: the file
    cannot be parsed). *)
Record Disk := mkDisk {
  disk_files : FileSystem;
  disk_readdir : string -> option (list string);
  disk_list_lines : string -> option (list string)
}.

Definition FILE_SEPARATOR : ascii := ";"%char.
Definition DIR_SEPARATOR : ascii := "/"%char.

(** The pieces of a string between occurrences of [sep], as the scan with
    [strchr(ptr1, sep)] meets them; the last piece is what follows the
    last separator. *)
Fixpoint split_on (sep : ascii) (s : string) : list string :=
  match s with
  | EmptyString => [EmptyString]
  | String a r =>
      if Ascii.eqb a sep then EmptyString :: split_on sep r
      else match split_on sep r with
           | [] => [String a EmptyString]
           | x :: xs => String a x :: xs
           end
  end.

Definition has_char (c : ascii) (s : string) : bool :=
  existsb (Ascii.eqb c) (list_ascii_of_string s).

(** [strrchr(s, c)]: the text before and after the last [c]. *)
Fixpoint split_last (c : ascii) (s : string) : option (string * string) :=
  match s with
  | EmptyString => None
  | String a r =>
      match split_last c r with
      | Some (before, after) => Some (String a before, after)
      | None => if Ascii.eqb a c then Some (EmptyString, r) else None
      end
  end.

(** [ptr += strlen(prefix) - 1] when [ptr] starts with [prefix]. *)
Definition strip_prefix_keep_slash (pfx s : string) : option string :=
  if String.prefix pfx s
  then Some (substring (String.length pfx - 1) (String.length s - (String.length pfx - 1)) s)
  else None.

(** A line of a list file with the [ligo_data_find] prefixes removed. *)
Definition strip_file_prefix (line : string) : string :=
  match strip_prefix_keep_slash "file://localhost/" line with
  | Some s => s
  | None =>
      match strip_prefix_keep_slash "file:///" line with
      | Some s => s
      | None => line
      end
  end.

Definition LIST_PREFIX : string := "list:".

(** The end of [XLALFindFiles]: no file is an error, more than one file is
    sorted. *)
Definition finish_filelist (filelist : list string) : XLALResult (list string) :=
  match filelist with
  | [] => XLAL_ERROR XLAL_EINVAL
  | [_] => XLAL_OK filelist
  | _ => XLAL_OK (XLALSortStringVector filelist)
  end.

(** The multi-pattern loop: every pattern before a separator must resolve
    ([XLAL_EFUNC] otherwise); the pattern after the last separator may
    resolve to nothing. *)
Fixpoint multi_pattern_loop (self : string -> XLALResult (list string))
    (patterns : list string) (filelist : list string) : XLALResult (list string) :=
  match patterns with
  | [] => XLAL_OK filelist
  | [last_pattern] =>
      match self last_pattern with
      | XLAL_OK ret => XLAL_OK (filelist ++ ret)
      | XLAL_ERROR _ => XLAL_OK filelist
      end
  | thisFname :: rest =>
      match self thisFname with
      | XLAL_OK ret => multi_pattern_loop self rest (filelist ++ ret)
      | XLAL_ERROR _ => XLAL_ERROR XLAL_EFUNC
      end
  end.

(** [XLALFindFiles(globstring)]; [depth] bounds the nesting of the
    recursive calls, which are made on patterns without a separator. *)
Fixpoint XLALFindFiles_rec (depth : nat) (disk : Disk) (globstring : string)
  : XLALResult (list string) :=
  match depth with
  | O => XLAL_ERROR XLAL_EFAILED
  | S depth' =>
    if has_char FILE_SEPARATOR globstring then
      match multi_pattern_loop (XLALFindFiles_rec depth' disk)
                               (split_on FILE_SEPARATOR globstring) [] with
      | XLAL_OK filelist => finish_filelist filelist
      | XLAL_ERROR e => XLAL_ERROR e
      end
    else if String.prefix LIST_PREFIX globstring then
      let listfname := substring (String.length LIST_PREFIX)
                                 (String.length globstring - String.length LIST_PREFIX)
                                 globstring in
      match disk_list_lines disk listfname with
      | None => XLAL_ERROR XLAL_EFUNC
      | Some [] => XLAL_ERROR XLAL_EINVAL
      | Some tokens => finish_filelist (map strip_file_prefix tokens)
      end
    else if is_pattern globstring then
      let '(dname, fpattern) :=
        match split_last DIR_SEPARATOR globstring with
        | Some (d, f) => (d, f)
        | None => ("."%string, globstring)
        end in
      match disk_readdir disk dname with
      | None => XLAL_ERROR XLAL_EIO
      | Some entries =>
          finish_filelist
            (map (fun thisFname => (dname ++ String DIR_SEPARATOR thisFname)%string)
                 (filter (fun thisFname =>
                            amatch thisFname fpattern
                            && negb (String.eqb thisFname ".")
                            && negb (String.eqb thisFname ".."))
                         entries))
      end
    else finish_filelist [globstring]
  end.

Definition XLALFindFiles (disk : Disk) (globstring : string) : XLALResult (list string) :=
  XLALFindFiles_rec 2 disk globstring.

(* ------------------------------------------------------------------ *)
(** ** GPS times and the frequency-bin convention *)

(** [GPS2REAL8(gps)]: [1.0 * gpsSeconds + 1.e-9 * gpsNanoSeconds]. *)
Definition GPS2REAL8 (gps : LIGOTimeGPS) : float :=
  (1 * REAL8_of_Z (gpsSeconds gps) + 0x1.12e0be826d695p-30 * REAL8_of_Z (gpsNanoSeconds gps))%float.

Definition GPSEQUAL (gps1 gps2 : LIGOTimeGPS) : bool :=
  (gpsSeconds gps1 =? gpsSeconds gps2) && (gpsNanoSeconds gps1 =? gpsNanoSeconds gps2).

Definition GPSZERO (gps : LIGOTimeGPS) : bool :=
  (gpsSeconds gps =? 0) && (gpsNanoSeconds gps =? 0).

(** [XLALCWGPSinRange(gps, minGPS, maxGPS)]: -1 below, 0 within, 1 above
    the half-open range; a NULL bound is no bound. *)
Definition XLALCWGPSinRange (gps : LIGOTimeGPS) (minGPS maxGPS : option LIGOTimeGPS) : Z :=
  if match minGPS with
     | Some m => (GPS2REAL8 gps <? GPS2REAL8 m)%float
     | None => false
     end
  then -1
  else if match maxGPS with
          | Some m => (GPS2REAL8 m <=? GPS2REAL8 gps)%float
          | None => false
          end
  then 1
  else 0.

(** The conversion [(UINT4) x] of a [REAL8] whose integer part is [z], as
    the x86-64 code does it (through a 64-bit integer, low 32 bits kept);
    the C standard defines it only for [0 <= z < 2^32]. *)
Definition REAL8_to_UINT4 (z : Z) : Z := to_UINT4 z.

(** [XLALRoundFrequencyDownToSFTBin(freq, df)] *)
Definition XLALRoundFrequencyDownToSFTBin (freq df : float) : Z :=
  REAL8_to_UINT4 (REAL8_floor (freq / df * fudge_up)%float).

(** [XLALRoundFrequencyUpToSFTBin(freq, df)] *)
Definition XLALRoundFrequencyUpToSFTBin (freq df : float) : Z :=
  REAL8_to_UINT4 (REAL8_ceil (freq / df * fudge_down)%float).

(* ------------------------------------------------------------------ *)
(** ** Catalog builder *)

Record SFTConstraints := mkConstraints {
  cons_detector : option string;
  cons_minStartTime : option LIGOTimeGPS;
  cons_maxStartTime : option LIGOTimeGPS;
  cons_timestamps : option (list LIGOTimeGPS)
}.

(** [timestamp_in_list(timestamp, list)] for a non-NULL list. *)
Definition timestamp_in_list (timestamp : LIGOTimeGPS) (list : list LIGOTimeGPS) : bool :=
  existsb (fun el => (gpsSeconds timestamp =? gpsSeconds el)
                     && (gpsNanoSeconds timestamp =? gpsNanoSeconds el)) list.

(** [name[i]] of the [CHAR name[]] field of a header. *)
Definition name_char (h : SFTtype) (i : nat) : byte := char_at (sft_name h) i.

(** [consistent_mSFT_header(header1, version1, nsamples1, header2,
    version2, nsamples2)] *)
Definition consistent_mSFT_header (header1 : SFTtype) (version1 nsamples1 : Z)
    (header2 : SFTtype) (version2 nsamples2 : Z) : bool :=
  if negb (char_eqb (name_char header1 0) (name_char header2 0))
     || negb (char_eqb (name_char header1 1) (name_char header2 1))
  then false
  else if negb (version1 =? version2) then false
  else if (GPS2REAL8 (sft_epoch header2) <=? GPS2REAL8 (sft_epoch header1))%float then false
  else if negb (sft_deltaF header1 =? sft_deltaF header2)%float then false
  else if negb (sft_f0 header1 =? sft_f0 header2)%float then false
  else if negb (nsamples1 =? nsamples2) then false
  else true.

(** [compareSFTdesc(ptr1, ptr2)]: by GPS epoch, then by start frequency. *)
Definition compareSFTdesc (desc1 desc2 : SFTDescriptor) : Z :=
  let e1 := GPS2REAL8 (sft_epoch (desc_header desc1)) in
  let e2 := GPS2REAL8 (sft_epoch (desc_header desc2)) in
  if (e1 <? e2)%float then -1
  else if (e2 <? e1)%float then 1
  else if (sft_f0 (desc_header desc1) <? sft_f0 (desc_header desc2))%float then -1
  else if (sft_f0 (desc_header desc2) <? sft_f0 (desc_header desc1))%float then 1
  else 0.

(** [strncmp(a, b, n) == 0] *)
Definition strncmp_equal (a b : string) (n : nat) : bool :=
  String.eqb (substring 0 n a) (substring 0 n b).

Section CatalogBuilder.
Context {U : SFTutils}.

(** Does an SFT block satisfy the user constraints ([want_this_block])? *)
Definition want_this_block (constraints : option SFTConstraints) (this_header : SFTtype) : bool :=
  match constraints with
  | None => true
  | Some c =>
      (match cons_detector c with
       | Some det => strncmp_equal det (sft_name this_header) 2
       | None => true
       end)
      && (XLALCWGPSinRange (sft_epoch this_header) (cons_minStartTime c) (cons_maxStartTime c) =? 0)
      && (match cons_timestamps c with
          | Some ts => timestamp_in_list (sft_epoch this_header) ts
          | None => true
          end)
  end.

(** The loop over the SFT blocks of one open file.  [mprev] is the
    previous block of this file ([None] while [mfirst_block] holds), [ret]
    the descriptors collected so far.  Every round that goes on starts at
    a higher file position; [fuel] counts the rounds down and [None] is
    returned only when it runs out. *)
Fixpoint scan_SFT_blocks (fuel : nat) (fname : string) (constraints : option SFTConstraints)
    (fp : FILE) (file_len : Z) (mprev : option (SFTtype * Z * Z))
    (ret : list SFTDescriptor) : option (XLALResult (list SFTDescriptor)) :=
  if negb (ftell fp <? file_len) then Some (XLAL_OK ret)
  else
    match fuel with
    | O => None
    | S fuel' =>
      let this_filepos := ftell fp in
      if this_filepos =? -1 then Some (XLAL_ERROR XLAL_EIO)
      else
        match read_sft_header_from_fp fp true with
        | (None, _) => Some (XLAL_ERROR XLAL_EDATA)
        | (Some this, fp1) =>
          let this_header := hdr_header this in
          let this_version := hdr_version this in
          let this_nsamples := hdr_numBins this in
          if match mprev with
             | Some (mprev_header, mprev_version, mprev_nsamples) =>
                 negb (consistent_mSFT_header mprev_header mprev_version mprev_nsamples
                                              this_header this_version this_nsamples)
             | None => false
             end
          then Some (XLAL_ERROR XLAL_EDATA)
          else
            let ret' :=
              if want_this_block constraints this_header
              then ret ++ [mkDesc (mkLocator fname this_filepos 0) this_header
                                  (hdr_SFTcomment this) this_nsamples this_version
                                  (hdr_crc64 this)]
              else ret in
            if file_len <=? ftell fp1 + this_nsamples * 8 then Some (XLAL_OK ret')
            else
              match fseek_CUR fp1 (to_UINT4 (this_nsamples * 8)) with
              | None => Some (XLAL_ERROR XLAL_EIO)
              | Some fp2 =>
                  scan_SFT_blocks fuel' fname constraints fp2 file_len
                                  (Some (this_header, this_version, this_nsamples)) ret'
              end
        end
    end.

(** The body of the main loop for one matched file. *)
Definition scan_SFT_file (disk : Disk) (constraints : option SFTConstraints)
    (fname : string) (ret : list SFTDescriptor) : XLALResult (list SFTDescriptor) :=
  match fopen (disk_files disk) fname with
  | None => XLAL_ERROR XLAL_EIO
  | Some fp =>
      let file_len := file_length fp in
      if file_len =? 0 then XLAL_ERROR XLAL_EIO
      else
        match scan_SFT_blocks (S (Z.to_nat file_len)) fname constraints fp file_len None ret with
        | Some r => r
        | None => XLAL_ERROR XLAL_EFAILED
        end
  end.

(** The main loop over all matched files. *)
Fixpoint scan_SFT_files (disk : Disk) (constraints : option SFTConstraints)
    (fnames : list string) (ret : list SFTDescriptor) : XLALResult (list SFTDescriptor) :=
  match fnames with
  | [] => XLAL_OK ret
  | fname :: rest =>
      match scan_SFT_file disk constraints fname ret with
      | XLAL_OK ret' => scan_SFT_files disk constraints rest ret'
      | XLAL_ERROR e => XLAL_ERROR e
      end
  end.

(** "Did we find all timestamps that lie within [minStartTime,
    maxStartTime)?" *)
Definition all_timestamps_found (c : SFTConstraints) (ts : list LIGOTimeGPS)
    (ret : list SFTDescriptor) : bool :=
  forallb (fun ts_i =>
             if XLALCWGPSinRange ts_i (cons_minStartTime c) (cons_maxStartTime c) =? 0
             then existsb (fun d =>
                             (gpsSeconds ts_i =? gpsSeconds (sft_epoch (desc_header d)))
                             && (gpsNanoSeconds ts_i =? gpsNanoSeconds (sft_epoch (desc_header d))))
                          ret
             else true)
          ts.

(** "Have all matched SFTs identical dFreq values?" *)
Definition identical_deltaF (ret : list SFTDescriptor) : bool :=
  match ret with
  | [] => true
  | first :: _ =>
      forallb (fun d => (sft_deltaF (desc_header d) =? sft_deltaF (desc_header first))%float) ret
  end.

(** [XLALSFTdataFind(file_pattern, constraints)] *)
Definition XLALSFTdataFind (disk : Disk) (file_pattern : string)
    (constraints : option SFTConstraints) : XLALResult SFTCatalog :=
  if match constraints with
     | Some c => match cons_detector c with
                 | Some det => negb (XLALIsValidCWDetector det)
                 | None => false
                 end
     | None => false
     end
  then XLAL_ERROR XLAL_EDOM
  else
    match XLALFindFiles disk file_pattern with
    | XLAL_ERROR _ => XLAL_ERROR XLAL_EFUNC
    | XLAL_OK fnames =>
        match scan_SFT_files disk constraints fnames [] with
        | XLAL_ERROR e => XLAL_ERROR e
        | XLAL_OK ret =>
            if match constraints with
               | Some c => match cons_timestamps c with
                           | Some ts => negb (all_timestamps_found c ts ret)
                           | None => false
                           end
               | None => false
               end
            then XLAL_ERROR XLAL_EFAILED
            else if negb (identical_deltaF ret) then XLAL_ERROR XLAL_EDATA
            else XLAL_OK (qsort compareSFTdesc ret)
        end
    end.

(** The SFT blocks met when a file is walked block by block from a file
    position: header, version and sample count of each, up to the end of
    the file or the first block that does not decode. *)
Fixpoint SFT_blocks_from (fuel : nat) (fp : FILE) (file_len : Z) : list (SFTtype * Z * Z) :=
  if negb (ftell fp <? file_len) then []
  else
    match fuel with
    | O => []
    | S fuel' =>
        match read_sft_header_from_fp fp true with
        | (None, _) => []
        | (Some this, fp1) =>
            (hdr_header this, hdr_version this, hdr_numBins this) ::
            (if file_len <=? ftell fp1 + hdr_numBins this * 8 then []
             else match fseek_CUR fp1 (to_UINT4 (hdr_numBins this * 8)) with
                  | None => []
                  | Some fp2 => SFT_blocks_from fuel' fp2 file_len
                  end)
        end
    end.

Definition SFT_blocks_of_file (disk : Disk) (fname : string) : list (SFTtype * Z * Z) :=
  match fopen (disk_files disk) fname with
  | None => []
  | Some fp => SFT_blocks_from (S (Z.to_nat (file_length fp))) fp (file_length fp)
  end.

End CatalogBuilder.

(* ------------------------------------------------------------------ *)
(** ** Segment loader *)

(** [compareSFTloc(ptr1, ptr2)]: by start frequency, file name, offset. *)
Definition compareSFTloc (desc1 desc2 : SFTDescriptor) : Z :=
  if (sft_f0 (desc_header desc1) <? sft_f0 (desc_header desc2))%float then -1
  else if (sft_f0 (desc_header desc2) <? sft_f0 (desc_header desc1))%float then 1
  else
    let s := strcmp (loc_fname (desc_locator desc1)) (loc_fname (desc_locator desc2)) in
    if s =? 0 then
      if loc_offset (desc_locator desc1) <? loc_offset (desc_locator desc2) then -1
      else if loc_offset (desc_locator desc2) <? loc_offset (desc_locator desc1) then 1
      else 0
    else s.

(** [SFTReadSegment]: the segments read so far from one SFT. *)
Record SFTReadSegment := mkSegment {
  seg_first : Z;
  seg_last : Z;
  seg_epoch : LIGOTimeGPS;
  seg_lastfrom : option SFTLocator
}.

(** An SFT of the vector under construction.  Its data array is allocated
    by [XLALCreateSFTVector]; a cell no [memcpy] has written yet is [None]. *)
Record loaded_SFT := mkLoaded {
  ld_name : string;
  ld_epoch : LIGOTimeGPS;
  ld_f0 : float;
  ld_deltaF : float;
  ld_data : list (option COMPLEX8)
}.

(** What the loader prints with [XLALPrintError] before it gives up. *)
Inductive load_error : Type :=
| gap_or_overlap_at_first_bin (isft : Z) (expected_bin read_bin : Z) (file : string)
| gap_or_overlap (isft : Z) (last_bin : Z) (last_file : string)
                 (read_bin : Z) (file : string)
| deltaF_mismatch (file : string)
| epoch_mismatch (file : string)
| read_error (code : Z) (file : string)
| data_missing_at_end (isft : Z) (expected_bin last_bin : Z) (last_file : string)
| no_data_read (isft : Z)
| cannot_open (file : string)
| cannot_seek (file : string)
| bad_argument.

Inductive load_result : Type :=
| Loaded (sftVector : list loaded_SFT)
| Load_failed (errnum : XLALErrno) (message : load_error).

(** A bin from its eight bytes; [swap] reverses each [REAL4] first. *)
Definition COMPLEX8_of_bytes (swap : bool) (b : list byte) : COMPLEX8 :=
  let r := firstn 4 b in
  let i := firstn 4 (skipn 4 b) in
  mkC8 (le_value (if swap then endian_swap r else r))
       (le_value (if swap then endian_swap i else i)).

Fixpoint bins_of_bytes (swap : bool) (n : nat) (b : list byte) : list COMPLEX8 :=
  match n with
  | O => []
  | S k => COMPLEX8_of_bytes swap (firstn 8 b) :: bins_of_bytes swap k (skipn 8 b)
  end.

(** Writing [src] into an array from index [at]: [memcpy(dst + at, src, ...)]. *)
Fixpoint store_bins (dst : list (option COMPLEX8)) (at_ : nat) (src : list COMPLEX8)
  : list (option COMPLEX8) :=
  match dst with
  | [] => []
  | cell :: rest =>
      match at_ with
      | S k => cell :: store_bins rest k src
      | O => match src with
             | [] => dst
             | c :: src' => Some c :: store_bins rest O src'
             end
      end
  end.

(** [a[i] = x] on a list (nothing happens out of range). *)
Fixpoint set_nth {A : Type} (i : nat) (x : A) (l : list A) : list A :=
  match l, i with
  | [], _ => []
  | _ :: r, O => x :: r
  | y :: r, S k => y :: set_nth k x r
  end.

Section Loader.
Context {U : SFTutils}.

(** What [read_sft_bins_from_fp] leaves behind: its return value (the last
    bin read), [*firstBinRead], the header now in [*ret] and the bins now
    at the start of [ret->data->data]. *)
Record bins_read := mkBinsRead {
  br_lastBinRead : Z;
  br_firstBinRead : Z;
  br_header : SFTtype;
  br_bins : list COMPLEX8
}.

(** [read_sft_bins_from_fp(ret, &firstBinRead, firstBin2read, lastBin2read,
    fp)] with valid pointers; [ret] is the header part of [*ret] and
    [length] its [data->length]. *)
Definition read_sft_bins_from_fp (ret : SFTtype) (length : Z)
    (firstBin2read lastBin2read : Z) (fp : FILE) : bins_read * FILE :=
  if lastBin2read <? firstBin2read then (mkBinsRead 0 1 ret [], fp)
  else
    match read_sft_header_from_fp fp false with
    | (None, fp1) => (mkBinsRead 0 2 ret [], fp1)
    | (Some h, fp1) =>
      let ret := hdr_header h in
      let numSFTbins := hdr_numBins h in
      let tmp := (sft_f0 ret / sft_deltaF ret)%float in
      let firstSFTbin := to_UINT4 (lround tmp) in
      let lastSFTbin := to_UINT4 (firstSFTbin + numSFTbins - 1) in
      let firstBin2read := if firstBin2read <? firstSFTbin then firstSFTbin else firstBin2read in
      let lastBin2read := if lastSFTbin <? lastBin2read then lastSFTbin else lastBin2read in
      if lastBin2read <? firstBin2read then (mkBinsRead 0 0 ret [], fp1)
      else
        let offsetBins := to_INT4 (firstBin2read - firstSFTbin) in
        let offsetBytes := offsetBins * 2 * 4 in
        let numBins2read := to_UINT4 (lastBin2read - firstBin2read + 1) in
        if length <? numBins2read then (mkBinsRead 0 1 ret [], fp1)
        else
          match fseek_CUR fp1 offsetBytes with
          | None => (mkBinsRead 0 3 ret [], fp1)
          | Some fp2 =>
            match fread (8 * numBins2read) fp2 with
            | (None, fp3) => (mkBinsRead 0 4 ret [], fp3)
            | (Some bytes, fp3) =>
              let ret := mkSFT (sft_name ret) (sft_epoch ret)
                               (1 * REAL8_of_Z firstBin2read * sft_deltaF ret)%float
                               (sft_deltaF ret) (sft_data ret) in
              (mkBinsRead lastBin2read firstBin2read ret
                          (bins_of_bytes (hdr_swapEndian h) (Z.to_nat numBins2read) bytes),
               fp3)
            end
          end
    end.

(** The first pass over the catalog: the index of its SFT ([isft], one per
    change of epoch) is recorded in every locator, and the
    lowest and highest bin of all SFTs are found.  The state is
    [(epoch, nSFTs, minbin, maxbin)]. *)
Fixpoint index_catalog (deltaF : float) (catalog : list SFTDescriptor)
    (epoch : LIGOTimeGPS) (nSFTs minbin maxbin : Z)
  : list SFTDescriptor * (Z * Z * Z) :=
  match catalog with
  | [] => ([], (nSFTs, minbin, maxbin))
  | d :: rest =>
      let firstbin := to_UINT4 (lround (sft_f0 (desc_header d) / deltaF)%float) in
      let lastbin := to_UINT4 (firstbin + desc_numBins d - 1) in
      let minbin := if firstbin <? minbin then firstbin else minbin in
      let maxbin := if maxbin <? lastbin then lastbin else maxbin in
      let changed := negb (GPSEQUAL epoch (sft_epoch (desc_header d))) in
      let epoch := if changed then sft_epoch (desc_header d) else epoch in
      let nSFTs := if changed then to_UINT4 (nSFTs + 1) else nSFTs in
      let d' := mkDesc (mkLocator (loc_fname (desc_locator d)) (loc_offset (desc_locator d))
                                  (to_UINT4 (nSFTs - 1)))
                       (desc_header d) (desc_comment d) (desc_numBins d)
                       (desc_version d) (desc_crc64 d) in
      let '(rest', r) := index_catalog deltaF rest epoch nSFTs minbin maxbin in
      (d' :: rest', r)
  end.

(** The state of the loop over the locators. *)
Record load_state := mkLoadState {
  cur_fname : string;
  cur_fp : option FILE;
  thisSFT : SFTtype;
  segments : list SFTReadSegment;
  sftVector : list loaded_SFT
}.

Definition zero_segment : SFTReadSegment := mkSegment 0 0 (mkGPS 0 0) None.
Definition zero_SFT : SFTtype := mkSFT "" (mkGPS 0 0) 0%float 0%float None.

Definition segment_at (st : load_state) (isft : Z) : SFTReadSegment :=
  nth (Z.to_nat isft) (segments st) zero_segment.

Definition lastfrom_fname (seg : SFTReadSegment) : string :=
  match seg_lastfrom seg with
  | Some l => loc_fname l
  | None => ""
  end.

(** What one round of the loop obtains from the catalog or the file:
    [lastBinRead], [firstBinRead], the header and the bins now in
    [thisSFT], and the file now open. *)
Record fetched := mkFetched {
  f_lastBinRead : Z;
  f_firstBinRead : Z;
  f_thisSFT : SFTtype;
  f_bins : list COMPLEX8;
  f_fname : string;
  f_fp : option FILE
}.

(** The first half of a round: the data of [desc] is taken from the catalog
    when it is there, and read from the file otherwise.  [fseek] on the
    NULL stream left by an empty file name is reported as a failed seek. *)
Definition fetch_segment (fs : FileSystem) (deltaF : float) (firstbin lastbin : Z)
    (st : load_state) (desc : SFTDescriptor) : fetched + (XLALErrno * load_error) :=
  let locator := desc_locator desc in
  let length := to_UINT4 (lastbin + 1 - firstbin) in
  match sft_data (desc_header desc) with
  | Some data =>
      let firstSFTbin := to_UINT4 (lround (sft_f0 (desc_header desc) / deltaF)%float) in
      let lastSFTbin := to_UINT4 (firstSFTbin + desc_numBins desc - 1) in
      let firstBin2read := if firstbin <? firstSFTbin then firstSFTbin else firstbin in
      let lastBin2read := if lastSFTbin <? lastbin then lastSFTbin else lastbin in
      if firstBin2read <=? lastBin2read then
        let offsetBins := to_UINT4 (firstBin2read - firstSFTbin) in
        let numBins2read := to_UINT4 (lastBin2read - firstBin2read + 1) in
        let h := desc_header desc in
        inl (mkFetched lastBin2read firstBin2read
               (mkSFT (sft_name h) (sft_epoch h)
                      (1 * REAL8_of_Z firstBin2read * sft_deltaF h)%float (sft_deltaF h) None)
               (firstn (Z.to_nat numBins2read) (skipn (Z.to_nat offsetBins) data))
               (cur_fname st) (cur_fp st))
      else inl (mkFetched 0 0 (thisSFT st) [] (cur_fname st) (cur_fp st))
  | None =>
      let reopen := negb (strcmp (cur_fname st) (loc_fname locator) =? 0) in
      let fname := if reopen then loc_fname locator else cur_fname st in
      let fp := if reopen then fopen fs (loc_fname locator) else cur_fp st in
      if reopen && (match fp with None => true | Some _ => false end)
      then inr (XLAL_EIO, cannot_open fname)
      else
        let sought : option (option FILE) :=
          if loc_offset locator =? 0 then Some fp
          else match fp with
               | Some fp => match fseek_SET fp (loc_offset locator) with
                            | Some fp' => Some (Some fp')
                            | None => None
                            end
               | None => None
               end in
        match sought with
        | None => inr (XLAL_EIO, cannot_seek fname)
        | Some None => inl (mkFetched 0 1 (thisSFT st) [] fname None)
        | Some (Some fp) =>
            let '(r, fp') := read_sft_bins_from_fp (thisSFT st) length firstbin lastbin fp in
            inl (mkFetched (br_lastBinRead r) (br_firstBinRead r) (br_header r) (br_bins r)
                           fname (Some fp'))
        end
  end.

Definition empty_loaded_SFT : loaded_SFT := mkLoaded "" (mkGPS 0 0) 0%float 0%float [].

(** The second half of a round: what was fetched is checked against the
    segments read so far for the same SFT, and added to it. *)
Definition add_segment (deltaF : float) (firstbin lastbin : Z)
    (st : load_state) (desc : SFTDescriptor) (got : fetched)
  : load_state + (XLALErrno * load_error) :=
  let locator := desc_locator desc in
  let isft := loc_isft locator in
  let lastBinRead := f_lastBinRead got in
  let firstBinRead := f_firstBinRead got in
  let this := f_thisSFT got in
  let fname := f_fname got in
  let seg := segment_at st isft in
  if negb (lastBinRead =? 0) then
    (* data was actually read *)
    let first_check : SFTReadSegment + (XLALErrno * load_error) :=
      if seg_last seg =? 0 then
        if negb (firstBinRead =? firstbin)
        then inr (XLAL_EIO, gap_or_overlap_at_first_bin isft firstbin firstBinRead fname)
        else inl (mkSegment firstBinRead (seg_last seg) (sft_epoch this) (seg_lastfrom seg))
      else if negb (firstBinRead =? to_UINT4 (seg_last seg + 1))
      then inr (XLAL_EIO, gap_or_overlap isft (seg_last seg) (lastfrom_fname seg)
                                         firstBinRead fname)
      else inl seg in
    match first_check with
    | inr e => inr e
    | inl seg =>
      if negb (deltaF =? sft_deltaF this)%float then inr (XLAL_EIO, deltaF_mismatch fname)
      else if negb (GPSEQUAL (seg_epoch seg) (sft_epoch this))
      then inr (XLAL_EIO, epoch_mismatch fname)
      else
        let seg := mkSegment (seg_first seg) lastBinRead (seg_epoch seg) (Some locator) in
        let old := nth (Z.to_nat isft) (sftVector st) empty_loaded_SFT in
        let new := mkLoaded (sft_name (desc_header desc)) (ld_epoch old) (ld_f0 old)
                            (ld_deltaF old)
                            (store_bins (ld_data old)
                                        (Z.to_nat (to_UINT4 (firstBinRead - firstbin)))
                                        (firstn (Z.to_nat (to_UINT4 (lastBinRead - firstBinRead + 1)))
                                                (f_bins got))) in
        inl (mkLoadState fname (f_fp got) this
                         (set_nth (Z.to_nat isft) seg (segments st))
                         (set_nth (Z.to_nat isft) new (sftVector st)))
    end
  else if firstBinRead =? 0 then
    (* no needed data had been in this segment *)
    if GPSZERO (seg_epoch seg) then
      inl (mkLoadState fname (f_fp got) this
                       (set_nth (Z.to_nat isft)
                                (mkSegment (seg_first seg) (seg_last seg) (sft_epoch this)
                                           (seg_lastfrom seg))
                                (segments st))
                       (sftVector st))
    else if negb (GPSEQUAL (seg_epoch seg) (sft_epoch this))
    then inr (XLAL_EIO, epoch_mismatch fname)
    else inl (mkLoadState fname (f_fp got) this (segments st) (sftVector st))
  else inr (XLAL_EIO, read_error firstBinRead fname).

(** One round of the loop over the locators, for the descriptor [desc]. *)
Definition load_one (fs : FileSystem) (deltaF : float) (firstbin lastbin : Z)
    (st : load_state) (desc : SFTDescriptor) : load_state + (XLALErrno * load_error) :=
  match fetch_segment fs deltaF firstbin lastbin st desc with
  | inr e => inr e
  | inl got => add_segment deltaF firstbin lastbin st desc got
  end.

(** The loop over all locators. *)
Fixpoint load_all (fs : FileSystem) (deltaF : float) (firstbin lastbin : Z)
    (st : load_state) (locatalog : list SFTDescriptor)
  : load_state + (XLALErrno * load_error) :=
  match locatalog with
  | [] => inl st
  | desc :: rest =>
      match load_one fs deltaF firstbin lastbin st desc with
      | inl st' => load_all fs deltaF firstbin lastbin st' rest
      | inr e => inr e
      end
  end.

(** "Check that all SFTs are complete". *)
Fixpoint complete_SFTs (deltaF : float) (firstbin lastbin : Z) (isft : Z)
    (segs : list SFTReadSegment) (sfts : list loaded_SFT) : load_result :=
  match segs, sfts with
  | seg :: segs', sft :: sfts' =>
      if seg_last seg =? lastbin then
        match complete_SFTs deltaF firstbin lastbin (isft + 1) segs' sfts' with
        | Loaded rest =>
            Loaded (mkLoaded (ld_name sft) (seg_epoch seg)
                             (1 * REAL8_of_Z firstbin * deltaF)%float deltaF (ld_data sft)
                    :: rest)
        | Load_failed e m => Load_failed e m
        end
      else if negb (seg_last seg =? 0)
      then Load_failed XLAL_EIO
                       (data_missing_at_end isft lastbin (seg_last seg) (lastfrom_fname seg))
      else Load_failed XLAL_EIO (no_data_read isft)
  | _, _ => Loaded []
  end.

(** "Calculate first and last frequency bin to read". *)
Definition requested_firstbin (deltaF : float) (minbin : Z) (fMin : float) : Z :=
  if (fMin <? 0)%float then minbin else XLALRoundFrequencyDownToSFTBin fMin deltaF.

Definition requested_lastbin (deltaF : float) (maxbin : Z) (fMax : float) : Z :=
  if (fMax <? 0)%float then maxbin
  else to_UINT4 (XLALRoundFrequencyUpToSFTBin fMax deltaF - 1).

(** The first block of [XLALLoadSFTs]: the frequency spacing of the first
    descriptor, the catalog with the index of its SFT in every locator,
    the number of SFTs and the lowest and highest bin of the catalog.  The
    function reads [catalog->data[0]] unconditionally; an empty catalog is
    outside its domain and yields [None] here. *)
Record survey := mkSurvey {
  sv_deltaF : float;
  sv_catalog : list SFTDescriptor;
  sv_nSFTs : Z;
  sv_minbin : Z;
  sv_maxbin : Z
}.

Definition catalog_survey (catalog : SFTCatalog) : option survey :=
  match catalog with
  | [] => None
  | d0 :: rest =>
    let deltaF := sft_deltaF (desc_header d0) in
    let firstbin0 := to_UINT4 (lround (sft_f0 (desc_header d0) / deltaF)%float) in
    let lastbin0 := to_UINT4 (firstbin0 + desc_numBins d0 - 1) in
    let d0' := mkDesc (mkLocator (loc_fname (desc_locator d0)) (loc_offset (desc_locator d0)) 0)
                      (desc_header d0) (desc_comment d0) (desc_numBins d0)
                      (desc_version d0) (desc_crc64 d0) in
    let '(rest', (nSFTs, minbin, maxbin)) :=
      index_catalog deltaF rest (sft_epoch (desc_header d0)) 1 firstbin0 lastbin0 in
    Some (mkSurvey deltaF (d0' :: rest') nSFTs minbin maxbin)
  end.

(** From the allocation of the vector to the end of [XLALLoadSFTs]: the
    bins [firstbin .. lastbin] of [nSFTs] SFTs are loaded from the
    descriptors of [catalog]. *)
Definition load_range (fs : FileSystem) (deltaF : float) (nSFTs firstbin lastbin : Z)
    (catalog : list SFTDescriptor) : load_result :=
  let length := to_UINT4 (lastbin + 1 - firstbin) in
  let sftVector0 :=
    repeat (mkLoaded "" (mkGPS 0 0) 0%float 0%float (repeat None (Z.to_nat length)))
           (Z.to_nat nSFTs) in
  let locatalog := qsort compareSFTloc catalog in
  let segments0 := repeat zero_segment (Z.to_nat nSFTs) in
  match load_all fs deltaF firstbin lastbin
                 (mkLoadState "" None zero_SFT segments0 sftVector0) locatalog with
  | inr (e, m) => Load_failed e m
  | inl st => complete_SFTs deltaF firstbin lastbin 0 (segments st) (sftVector st)
  end.

(** [XLALLoadSFTs(catalog, fMin, fMax)] *)
Definition XLALLoadSFTs (fs : FileSystem) (catalog : SFTCatalog) (fMin fMax : float)
  : load_result :=
  match catalog_survey catalog with
  | None => Load_failed XLAL_EINVAL bad_argument
  | Some sv =>
    let deltaF := sv_deltaF sv in
    let firstbin := requested_firstbin deltaF (sv_minbin sv) fMin in
    let lastbin := requested_lastbin deltaF (sv_maxbin sv) fMax in
    if negb (fMax <? 0)%float && (lastbin =? 0) && negb (fMax =? 0)%float
    then Load_failed XLAL_EINVAL bad_argument
    else load_range fs deltaF (sv_nSFTs sv) firstbin lastbin (sv_catalog sv)
  end.

End Loader.

(** A dense array every cell of which has been copied to. *)
Definition completely_filled (data : list (option COMPLEX8)) : Prop :=
  Forall (fun cell => cell <> None) data.

(** What the loop of the loader maintains for an SFT and its segment
    record: the array has the length of the requested range, and once data
    has been recorded ([last] is not 0) the cells from the first requested
    bin up to [last] are filled. *)
Definition segment_filled (firstbin lastbin : Z) (seg : SFTReadSegment) (sft : loaded_SFT)
  : Prop :=
  List.length (ld_data sft) = Z.to_nat (to_UINT4 (lastbin + 1 - firstbin)) /\
  (seg_last seg <> 0 ->
   firstbin <= seg_last seg <= lastbin /\
   forall i : nat, Z.of_nat i <= seg_last seg - firstbin ->
                   (i < List.length (ld_data sft))%nat ->
                   exists c, nth_error (ld_data sft) i = Some (Some c)).


Definition loader_invariant (firstbin lastbin : Z) (st : load_state) : Prop :=
  Forall2 (segment_filled firstbin lastbin) (segments st) (sftVector st).

(** The descriptor holds no data of its own: its bins are read from its
    file. *)
Definition read_from_file (desc : SFTDescriptor) : Prop :=
  sft_data (desc_header desc) = None.

(* ------------------------------------------------------------------ *)
(** ** SFDB importer: science-mode selection *)

Definition SFDB_DET_FIRST : Z := 1.
Definition SFDB_DET_LAST : Z := 4.

(** [SFDB_detector_names[Y]]: entry 0 of the table is a NULL pointer and
    the table ends before [SFDB_DET_LAST]. *)
Definition SFDB_detector_names (Y : Z) : option string :=
  if Y =? 1 then Some "V1"%string
  else if Y =? 2 then Some "H1"%string
  else if Y =? 3 then Some "L1"%string
  else None.

(** The fields of [SFDBHeader] the selection looks at. *)
Record SFDBHeader := mkSFDBHeader {
  sfdb_det : Z;
  sfdb_gps_sec : Z;
  sfdb_gps_nsec : Z;
  sfdb_tbase : float
}.

(** [strstr(haystack, needle) != NULL] *)
Fixpoint strstr (haystack needle : string) : bool :=
  String.prefix needle haystack ||
  match haystack with
  | EmptyString => false
  | String _ rest => strstr rest needle
  end.

(** The detector names appended to [detectors] for one timestamps file:
    the loop over [Y] from [SFDB_DET_FIRST] to [SFDB_DET_LAST]. *)
Definition detectors_named_in (filenameSt : string) : list string :=
  flat_map (fun Y => match SFDB_detector_names Y with
                     | Some name => if strstr filenameSt name then [name] else []
                     | None => []
                     end)
           [1; 2; 3].

(** The search for the detector index: it has no bound, and runs past the
    end of [detectors] ([None]) when the name is not there. *)
Fixpoint detector_index_from (name : string) (detectors : list string)
    (detectorIndex : nat) : option nat :=
  match detectors with
  | [] => None
  | d :: rest =>
      if strcmp name d =? 0 then Some detectorIndex
      else detector_index_from name rest (S detectorIndex)
  end.

(** The loop over [tsIndex]: it goes on while the SFDB starts at or after
    the window's start second, and has no bound either ([None] when it
    reads past the end of a list). *)
Fixpoint science_mode_scan (gps_sec : Z) (SFDBEndTime : float)
    (starts ends : list LIGOTimeGPS) : option bool :=
  match starts with
  | [] => None
  | s :: starts' =>
      if gps_sec >=? gpsSeconds s then
        match ends with
        | [] => None
        | e :: ends' =>
            if (SFDBEndTime <? REAL8_of_Z (gpsSeconds e))%float then Some true
            else science_mode_scan gps_sec SFDBEndTime starts' ends'
        end
      else Some false
  end.

(** [CheckIfSFDBInScienceMode(header, detectors, startingTS, endingTS)] *)
Definition CheckIfSFDBInScienceMode (header : SFDBHeader) (detectors : list string)
    (startingTS endingTS : list (list LIGOTimeGPS)) : option bool :=
  match SFDB_detector_names (sfdb_det header) with
  | None => None
  | Some name =>
      match detector_index_from name detectors 0 with
      | None => None
      | Some detectorIndex =>
          match nth_error startingTS detectorIndex with
          | None => None
          | Some starts =>
              science_mode_scan (sfdb_gps_sec header)
                (REAL8_of_Z (sfdb_gps_sec header) + sfdb_tbase header)%float
                starts (nth detectorIndex endingTS [])
          end
      end
  end.

(** What the setup of [XLALReadSFDB] hands to its later steps when
    timestamps files are given. *)
Record science_segments := mkScience {
  sci_detectors : list string;
  sci_startingTS : list (list LIGOTimeGPS);
  sci_endingTS : list (list LIGOTimeGPS)
}.

(** [flag_timestamps ? CheckIfSFDBInScienceMode(...) : 1], the test that
    decides in both passes over the SFDB files whether a record is used. *)
Definition SFDB_is_used (sci : option science_segments) (header : SFDBHeader)
  : option bool :=
  match sci with
  | None => Some true
  | Some s =>
      CheckIfSFDBInScienceMode header (sci_detectors s) (sci_startingTS s) (sci_endingTS s)
  end.

Section SFDBSetup.

(** [XLALReadTimestampsFile(fname)]: the timestamps a file on the disk
    parses to, or [None] when it cannot be read or parsed. *)
Variable XLALReadTimestampsFile : string -> option (list LIGOTimeGPS).

(** [XLALReadMultiTimestampsFiles(fnames)] *)
Fixpoint read_timestamps_files (fnames : list string) : option (list (list LIGOTimeGPS)) :=
  match fnames with
  | [] => Some []
  | fname :: rest =>
      match XLALReadTimestampsFile fname with
      | None => None
      | Some ts =>
          match read_timestamps_files rest with
          | None => None
          | Some tss => Some (ts :: tss)
          end
      end
  end.

Definition XLALReadMultiTimestampsFiles (fnames : list string)
  : option (list (list LIGOTimeGPS)) :=
  match fnames with
  | [] => None
  | _ => read_timestamps_files fnames
  end.

(** The loop over the timestamps files in the setup of [XLALReadSFDB]: the
    detector names found in the name of each file of starting timestamps
    are collected, and the two lists of each file must be equally long.
    The vectors are used without a NULL check; [None] is the dereference
    of a vector that could not be read. *)
Fixpoint timestamps_files_loop (fnamesStartTS : list string)
    (startingTS endingTS : option (list (list LIGOTimeGPS)))
    (X : nat) (detectors : list string) : option (XLALResult (list string)) :=
  match fnamesStartTS with
  | [] => Some (XLAL_OK detectors)
  | filenameSt :: rest =>
      match detectors_named_in filenameSt with
      | [] => Some (XLAL_ERROR XLAL_EINVAL)
      | found =>
          match startingTS, endingTS with
          | Some sts, Some ets =>
              match nth_error sts X, nth_error ets X with
              | Some s, Some e =>
                  if (List.length s =? List.length e)%nat
                  then timestamps_files_loop rest startingTS endingTS (S X)
                                             (detectors ++ found)
                  else Some (XLAL_ERROR XLAL_EINVAL)
              | _, _ => None
              end
          | _, _ => None
          end
      end
  end.

(** The block "Basic Setup" of [XLALReadSFDB(f_min, f_max, file_pattern,
    timeStampsStarting, timeStampsFinishing)].  Each check that fails
    there makes [XLALReadSFDB] return NULL with the error number given
    here; [XLAL_OK None] stands for [flag_timestamps == FALSE]. *)
Definition XLALReadSFDB_setup (disk : Disk) (file_pattern : string)
    (timeStampsStarting timeStampsFinishing : option string)
  : option (XLALResult (option science_segments)) :=
  match XLALFindFiles disk file_pattern with
  | XLAL_ERROR _ => Some (XLAL_ERROR XLAL_EFUNC)
  | XLAL_OK fnamesSFDB =>
    match timeStampsStarting, timeStampsFinishing with
    | Some _, None => Some (XLAL_ERROR XLAL_EFUNC)
    | None, Some _ => Some (XLAL_ERROR XLAL_EFUNC)
    | None, None => Some (XLAL_OK None)
    | Some starting, Some finishing =>
      match XLALFindFiles disk starting with
      | XLAL_ERROR _ => Some (XLAL_ERROR XLAL_EFUNC)
      | XLAL_OK fnamesStartTS =>
        match XLALFindFiles disk finishing with
        | XLAL_ERROR _ => Some (XLAL_ERROR XLAL_EFUNC)
        | XLAL_OK fnamesEndTS =>
          if negb (List.length fnamesStartTS =? List.length fnamesEndTS)%nat
          then Some (XLAL_ERROR XLAL_EINVAL)
          else if (List.length fnamesStartTS =? 0)%nat then Some (XLAL_ERROR XLAL_EINVAL)
          else
            let startingTS := XLALReadMultiTimestampsFiles fnamesStartTS in
            let endingTS := XLALReadMultiTimestampsFiles fnamesEndTS in
            match timestamps_files_loop fnamesStartTS startingTS endingTS 0 [] with
            | None => None
            | Some (XLAL_ERROR e) => Some (XLAL_ERROR e)
            | Some (XLAL_OK detectors) =>
                match startingTS, endingTS with
                | Some sts, Some ets => Some (XLAL_OK (Some (mkScience detectors sts ets)))
                | _, _ => None
                end
            end
        end
      end
    end
  end.

End SFDBSetup.

(** The rule of qualification as the documentation words it: the interval
    from the epoch of the record to [tbase] later lies inside one of the
    windows from a start to the matching end. *)
Definition interval_inside_a_window (header : SFDBHeader)
    (starts ends : list LIGOTimeGPS) : bool :=
  let epoch := GPS2REAL8 (mkGPS (sfdb_gps_sec header) (sfdb_gps_nsec header)) in
  existsb (fun w => (GPS2REAL8 (fst w) <=? epoch)%float &&
                    (epoch + sfdb_tbase header <=? GPS2REAL8 (snd w))%float)
          (combine starts ends).

(** Windows in the order of their start seconds. *)
Definition starts_ascending : list LIGOTimeGPS -> Prop :=
  StronglySorted (fun a b => gpsSeconds a <= gpsSeconds b).

(** The window [k] of the lists admits the record: it starts at or before
    the second the record starts in, and the record ends before the second
    the window ends in. *)
Definition admitted_by_window (header : SFDBHeader) (starts ends : list LIGOTimeGPS)
    (k : nat) : Prop :=
  exists s e, nth_error starts k = Some s /\ nth_error ends k = Some e /\
    gpsSeconds s <= sfdb_gps_sec header /\
    (REAL8_of_Z (sfdb_gps_sec header) + sfdb_tbase header <? REAL8_of_Z (gpsSeconds e))%float
      = true.

(** The search reaches window [k]: every window before it starts at or
    before the second the record starts in. *)
Definition reached_window (header : SFDBHeader) (starts : list LIGOTimeGPS) (k : nat) : Prop :=
  forall j s, (j < k)%nat -> nth_error starts j = Some s ->
              gpsSeconds s <= sfdb_gps_sec header.

(* ------------------------------------------------------------------ *)
(** * Further functions of the module *)

(** The top byte of a table entry. *)
Definition table_top (i : Z) : Z := Z.shiftr (CRCTable i) 56.

(** The memory image of the version number 2.0 on this host. *)
Definition version_2_image : list byte := le_bytes 8 (REAL8_to_bits 2%float).

(** The conditions a header has to meet for the readers to accept it. *)
Record valid_header (h : sft_header) : Prop := {
  vh_version : hdr_version h = 2;
  vh_numBins : 0 < hdr_numBins h < 2 ^ 31;
  vh_seconds : 0 <= gpsSeconds (sft_epoch (hdr_header h));
  vh_nanoseconds : 0 <= gpsNanoSeconds (sft_epoch (hdr_header h)) < 1000000000;
  vh_deltaF : (sft_deltaF (hdr_header h) <=? 0)%float = false;
  vh_f0 : (sft_f0 (hdr_header h) <? 0)%float = false;
  vh_name : (String.length (sft_name (hdr_header h)) <= 2)%nat;
  vh_data : sft_data (hdr_header h) = None
}.

(** The descriptor [d] is what the header reader yields at the place its
    locator names: the file [bytes], read from [loc_offset]. *)
Definition describes_block {U : SFTutils} (bytes : list byte) (d : SFTDescriptor) : Prop :=
  0 <= loc_offset (desc_locator d) /\
  loc_isft (desc_locator d) = 0 /\
  exists this fp',
    read_sft_header_from_fp (mkFILE bytes (loc_offset (desc_locator d))) true
    = (Some this, fp') /\
    desc_header d = hdr_header this /\
    desc_comment d = hdr_SFTcomment this /\
    desc_numBins d = hdr_numBins this /\
    desc_version d = hdr_version this /\
    desc_crc64 d = hdr_crc64 this.

(** A descriptor of a catalog built over [disk]: its file exists and it
    describes the block at its offset. *)
Definition catalogued {U : SFTutils} (disk : Disk) (d : SFTDescriptor) : Prop :=
  exists bytes, disk_files disk (loc_fname (desc_locator d)) = Some bytes /\
                describes_block bytes d.

(** The epochs of a list with the repetitions of the epoch just before
    left out. *)
Fixpoint epoch_runs (previous : LIGOTimeGPS) (epochs : list LIGOTimeGPS)
  : list LIGOTimeGPS :=
  match epochs with
  | [] => []
  | e :: rest =>
      if GPSEQUAL previous e then epoch_runs previous rest
      else e :: epoch_runs e rest
  end.

(** The number of SFTs a catalog stands for: the first epoch and every
    change of epoch after it. *)
Definition number_of_epochs (catalog : SFTCatalog) : nat :=
  match catalog with
  | [] => O
  | d0 :: rest =>
      S (List.length (epoch_runs (sft_epoch (desc_header d0))
                                 (map (fun d => sft_epoch (desc_header d)) rest)))
  end.

(** The part of the state the loop never changes in size. *)
Definition sized (n L : nat) (st : load_state) : Prop :=
  List.length (segments st) = n /\ List.length (sftVector st) = n /\
  Forall (fun sft => List.length (ld_data sft) = L) (sftVector st).

(** The two halves of a bin are the 32-bit images of its [REAL4] parts. *)
Definition COMPLEX8_in_range (c : COMPLEX8) : Prop :=
  0 <= re_bits c < 2 ^ 32 /\ 0 <= im_bits c < 2 ^ 32.

(** [fopen(fname, "wb")] followed by [fclose]: the file [fname] now holds
    the bytes written to the stream, every other file is as before. *)
Definition store_file (fs : FileSystem) (fname : string) (bytes : list byte) : FileSystem :=
  fun f => if String.eqb f fname then Some bytes else fs f.

(** [XLALWriteSFT2file(sft, fname, SFTcomment)]; [creatable] tells for
    which names [fopen(fname, "wb")] succeeds.  The result of a successful
    call is the file system after [fclose]; a failed call reports its
    error only (the stream it may have opened is never closed). *)
Definition XLALWriteSFT2file {U : SFTutils} (creatable : string -> bool) (fs : FileSystem)
    (sft : option SFTtype) (fname : option string) (SFTcomment : option string)
  : XLALResult FileSystem :=
  match sft with
  | None => XLAL_ERROR XLAL_EINVAL
  | Some s =>
    match sft_data s with
    | None => XLAL_ERROR XLAL_EINVAL
    | Some _ =>
      match fname with
      | None => XLAL_ERROR XLAL_EINVAL
      | Some fname =>
        if negb (XLALIsValidCWDetector (sft_name s)) then XLAL_ERROR XLAL_EINVAL
        else if negb (creatable fname) then XLAL_ERROR XLAL_EIO
        else
          match XLALWriteSFT2fp sft (Some []) SFTcomment with
          | XLAL_OK stream => XLAL_OK (store_file fs fname stream)
          | XLAL_ERROR _ => XLAL_ERROR XLAL_EIO
          end
      end
    end
  end.

(** A file name that [XLALFindFiles] takes as it stands: not empty, no
    [';'], no ["list:"] prefix and no glob character. *)
Definition plain_file_name (fname : string) : Prop :=
  fname <> ""%string /\
  has_char FILE_SEPARATOR fname = false /\
  String.prefix LIST_PREFIX fname = false /\
  is_pattern fname = false.

(** The loop of [XLALWriteSFTVector2NamedFile] over the SFTs of the vector. *)
Fixpoint write_SFT_blocks {U : SFTutils} (sfts : list SFTtype) (stream : list byte)
    (SFTcomment : option string) : XLALResult (list byte) :=
  match sfts with
  | [] => XLAL_OK stream
  | sft :: rest =>
      match XLALWriteSFT2fp (Some sft) (Some stream) SFTcomment with
      | XLAL_OK stream' => write_SFT_blocks rest stream' SFTcomment
      | XLAL_ERROR _ => XLAL_ERROR XLAL_EFUNC
      end
  end.

(** [XLALWriteSFTVector2NamedFile(sftVect, filename, SFTcomment)]; a vector
    without elements stands for [data == NULL] and for [length == 0]. *)
Definition XLALWriteSFTVector2NamedFile {U : SFTutils} (creatable : string -> bool)
    (fs : FileSystem) (sftVect : option (list SFTtype)) (filename : option string)
    (SFTcomment : option string) : XLALResult FileSystem :=
  match sftVect with
  | None => XLAL_ERROR XLAL_EINVAL
  | Some [] => XLAL_ERROR XLAL_EINVAL
  | Some sfts =>
    match filename with
    | None => XLAL_ERROR XLAL_EINVAL
    | Some filename =>
      if negb (creatable filename) then XLAL_ERROR XLAL_EIO
      else
        match write_SFT_blocks sfts [] SFTcomment with
        | XLAL_OK stream => XLAL_OK (store_file fs filename stream)
        | XLAL_ERROR e => XLAL_ERROR e
        end
    end
  end.

(** The bins of an SFT ([sft->data->data]). *)
Definition data_of (sft : SFTtype) : list COMPLEX8 :=
  match sft_data sft with
  | Some data => data
  | None => []
  end.

(** The epochs of a vector ascend, as [consistent_mSFT_header] compares them. *)
Definition epochs_ascend (sfts : list SFTtype) : Prop :=
  Sorted (fun s1 s2 => (GPS2REAL8 (sft_epoch s1) <? GPS2REAL8 (sft_epoch s2))%float = true) sfts.

(** The bytes of a file into which the blocks of a vector were written. *)
Definition merged_image {U : SFTutils} (sfts : list SFTtype) (SFTcomment : option string)
  : list byte :=
  List.concat (map (fun s => SFT_block s (data_of s) SFTcomment) sfts).

(** A character that [amatch] compares as it stands: none of [*], [?],
    [[] and the escape character. *)
Definition plain_char (c : byte) : bool :=
  negb (char_eqb c ch_star || char_eqb c ch_question || char_eqb c ch_lbracket
        || char_eqb c ch_backslash).

(** Text without glob characters. *)
Definition literal (p : string) : Prop := forallb plain_char (chars p) = true.

(** Stands for an array element outside the array: the functions below
    never read one (their indices are those they stored before), the
    value only makes the look-up total. *)
Definition null_descriptor : SFTDescriptor :=
  mkDesc (mkLocator "" 0 0) (mkSFT "" (mkGPS 0 0) 0%float 0%float None) None 0 0 0.

(** One round of the loop over the catalog in [XLALGetMultiSFTCatalogView]:
    the search [for (X = 0; (X < numIFOs) && strncmp(name, ifolist[X], 3); X++)]
    and the update of [ifolist], [sftLocationInCatalog] and
    [numSFTsPerIFO]; a group is the name of an IFO with the locations
    stored for it. *)
Fixpoint add_location (name : string) (k : nat) (groups : list (string * list nat))
  : list (string * list nat) :=
  match groups with
  | [] => [(substring 0 3 name, [k])]
  | (ifo, locs) :: rest =>
      if strncmp_equal name ifo 3 then (ifo, locs ++ [k]) :: rest
      else (ifo, locs) :: add_location name k rest
  end.

(** The loop over the SFTs of the catalog, from index [k] on. *)
Fixpoint locate_SFTs (catalog : list SFTDescriptor) (k : nat)
    (groups : list (string * list nat)) : list (string * list nat) :=
  match catalog with
  | [] => groups
  | d :: rest => locate_SFTs rest (S k) (add_location (sft_name (desc_header d)) k groups)
  end.

(** [compareDetNameCatalogs(ptr1, ptr2)]: by the first two characters of
    the name of the first SFT of each catalog. *)
Definition compareDetNameCatalogs (cat1 cat2 : SFTCatalog) : Z :=
  let name1 := sft_name (desc_header (hd null_descriptor cat1)) in
  let name2 := sft_name (desc_header (hd null_descriptor cat2)) in
  if schar (char_at name1 0) <? schar (char_at name2 0) then -1
  else if schar (char_at name2 0) <? schar (char_at name1 0) then 1
  else if schar (char_at name1 1) <? schar (char_at name2 1) then -1
  else if schar (char_at name2 1) <? schar (char_at name1 1) then 1
  else 0.

(** [XLALGetMultiSFTCatalogView(catalog)].  For an empty catalog every
    array the function allocates has size zero; [zero_size_calloc] tells
    whether [XLALCalloc] returns a pointer for such a request. *)
Definition XLALGetMultiSFTCatalogView (zero_size_calloc : bool) (catalog : option SFTCatalog)
  : XLALResult (list SFTCatalog) :=
  match catalog with
  | None => XLAL_ERROR XLAL_EINVAL
  | Some [] => if zero_size_calloc then XLAL_OK [] else XLAL_ERROR XLAL_ENOMEM
  | Some c =>
      XLAL_OK (qsort compareDetNameCatalogs
                 (map (fun g => map (fun location => nth location c null_descriptor) (snd g))
                      (locate_SFTs c 0 [])))
  end.

(** The name under which a single-IFO catalog of the view is filed: the
    first three characters of the name of its first SFT. *)
Definition ifo_of (g : SFTCatalog) : string :=
  substring 0 3 (sft_name (desc_header (hd null_descriptor g))).

(** [strncmp(d.header.name, ifo, 3) == 0] *)
Definition of_ifo (ifo : string) (d : SFTDescriptor) : bool :=
  strncmp_equal (sft_name (desc_header d)) ifo 3.

(** The loop of [XLALLoadMultiSFTsFromView] over the single-IFO catalogs. *)
Fixpoint load_views {U : SFTutils} (fs : FileSystem) (views : list SFTCatalog)
    (fMin fMax : float) : XLALResult (list (list loaded_SFT)) :=
  match views with
  | [] => XLAL_OK []
  | v :: rest =>
      match XLALLoadSFTs fs v fMin fMax with
      | Load_failed _ _ => XLAL_ERROR XLAL_EFUNC
      | Loaded sfts =>
          match load_views fs rest fMin fMax with
          | XLAL_OK more => XLAL_OK (sfts :: more)
          | XLAL_ERROR e => XLAL_ERROR e
          end
      end
  end.

(** [XLALLoadMultiSFTsFromView(multiCatalogView, fMin, fMax)] *)
Definition XLALLoadMultiSFTsFromView {U : SFTutils} (fs : FileSystem)
    (multiCatalogView : option (list SFTCatalog)) (fMin fMax : float)
  : XLALResult (list (list loaded_SFT)) :=
  match multiCatalogView with
  | None => XLAL_ERROR XLAL_EINVAL
  | Some [] => XLAL_ERROR XLAL_EINVAL
  | Some views => load_views fs views fMin fMax
  end.

(** [XLALLoadMultiSFTs(inputCatalog, fMin, fMax)] *)
Definition XLALLoadMultiSFTs {U : SFTutils} (zero_size_calloc : bool) (fs : FileSystem)
    (inputCatalog : option SFTCatalog) (fMin fMax : float)
  : XLALResult (list (list loaded_SFT)) :=
  match inputCatalog with
  | None => XLAL_ERROR XLAL_EINVAL
  | Some [] => XLAL_ERROR XLAL_EINVAL
  | Some c =>
      match XLALGetMultiSFTCatalogView zero_size_calloc (Some c) with
      | XLAL_ERROR _ => XLAL_ERROR XLAL_EFUNC
      | XLAL_OK multiCatalogView =>
          match XLALLoadMultiSFTsFromView fs (Some multiCatalogView) fMin fMax with
          | XLAL_ERROR _ => XLAL_ERROR XLAL_EFUNC
          | XLAL_OK multiSFTs => XLAL_OK multiSFTs
          end
      end
  end.

(** The memory image of a raw header as a machine of the other byte order
    holds it: the bytes of every numeric field are reversed, the detector
    and padding characters stay. *)
Definition other_endian_header (img : list byte) : list byte :=
  rev (field 0 8 img) ++ rev (field 8 4 img) ++ rev (field 12 4 img) ++
  rev (field 16 8 img) ++ rev (field 24 4 img) ++ rev (field 28 4 img) ++
  rev (field 32 8 img) ++ field 40 2 img ++ field 42 2 img ++ rev (field 44 4 img).

(** The payload of the other byte order: REAL, IMAG, ... with the four
    bytes of every [REAL4] reversed. *)
Definition other_endian_bins (d : list COMPLEX8) : list byte :=
  flat_map (fun c => rev (le_bytes 4 (re_bits c)) ++ rev (le_bytes 4 (im_bits c))) d.

(** The block a writer of the other byte order emits for an SFT: the
    fields of [SFT_block] in the other byte order, with the checksum of
    the bytes as they are stored. *)
Definition SFT_block_other_endian {U : SFTutils} (sft : SFTtype) (data : list COMPLEX8)
    (SFTcomment : option string) : list byte :=
  let length := Z.of_nat (List.length data) in
  let comment_len := comment_len_of sft SFTcomment in
  let _SFTcomment := chars0 (composed_comment sft SFTcomment) in
  let pad_len := pad_len_of comment_len in
  let pad := repeat NUL 7 in
  let rawheader := fill_rawheader sft length comment_len pad_len in
  let crc := calc_crc64 (Some (other_endian_header (rawheader_bytes rawheader)))
                        sizeof_rawheader ALL_ONES in
  let crc := calc_crc64 (Some _SFTcomment) comment_len crc in
  let crc := calc_crc64 (Some pad) pad_len crc in
  let crc := calc_crc64 (Some (other_endian_bins data)) (to_UINT4 (length * 8)) crc in
  let rawheader := set_crc64 rawheader crc in
  other_endian_header (rawheader_bytes rawheader)
    ++ firstn (Z.to_nat comment_len) _SFTcomment
    ++ firstn (Z.to_nat pad_len) pad
    ++ other_endian_bins data.

(* ------------------------------------------------------------------ *)
(** ** A reference instance and sample data *)

Local Open Scope string_scope.

(** Modelled from the spec: the detector check of [SFTutils.c] ("detector
    code is one of the recognized set"), with the two-character codes of
    the interferometers as the recognized set. *)
Definition recognized_detectors : list string :=
  ["G1"; "H1"; "H2"; "K1"; "L1"; "T1"; "V1"].

(** Modelled from the spec: [TSFTfromDFreq] of [SFTutils.c]; the time
    baseline is the reciprocal of the frequency spacing. *)
Definition reciprocal_TSFTfromDFreq (dFreq : float) : float := (1 / dFreq)%float.

#[local] Instance reference_SFTutils : SFTutils := {|
  XLALIsValidCWDetector := fun name => existsb (String.eqb name) recognized_detectors;
  TSFTfromDFreq := reciprocal_TSFTfromDFreq
|}.

(** An SFT of detector H1 at GPS 1000000000 with [deltaF = 1/1800],
    [f0 = 10] and two bins. *)
Definition sample_bins : list COMPLEX8 := [mkC8 0x3f800000 0; mkC8 0x40000000 0x40400000].

Definition sample_SFT : SFTtype :=
  mkSFT "H1" (mkGPS 1000000000 0) 10%float (1 / 1800)%float (Some sample_bins).


(** Two more SFTs of the same detector and band, one and two baselines
    later. *)
Definition sample_SFT_2 : SFTtype :=
  mkSFT "H1" (mkGPS 1000001800 0) 10%float (1 / 1800)%float (Some sample_bins).

Definition sample_SFT_3 : SFTtype :=
  mkSFT "H1" (mkGPS 1000003600 0) 10%float (1 / 1800)%float (Some sample_bins).

(** The stream a sequence of writes leaves behind. *)
Definition written (sfts : list SFTtype) (SFTcomment : option string) : list byte :=
  fold_left (fun stream sft =>
               match XLALWriteSFT2fp (Some sft) (Some stream) SFTcomment with
               | XLAL_OK stream' => stream'
               | XLAL_ERROR _ => stream
               end) sfts [].

(** A merged file of two SFTs, a single-SFT file, and a copy of the latter
    whose last payload byte is damaged. *)
Definition merged_file : list byte :=
  Eval vm_compute in written [sample_SFT; sample_SFT_2] (Some "hello").

Definition single_file : list byte :=
  Eval vm_compute in written [sample_SFT_3] None.

Definition damaged_file : list byte :=
  Eval vm_compute in removelast single_file ++ [x01].

(** A disk with a directory [data] holding the two good files, next to
    the damaged file and a list file. *)
Definition sample_disk : Disk :=
  mkDisk
    (fun fname =>
       if String.eqb fname "data/a.sft" then Some merged_file
       else if String.eqb fname "data/b.sft" then Some single_file
       else if String.eqb fname "damaged.sft" then Some damaged_file
       else None)
    (fun dname =>
       if String.eqb dname "data" then Some ["."; ".."; "b.sft"; "notes.txt"; "a.sft"]
       else None)
    (fun listfname =>
       if String.eqb listfname "files.txt"
       then Some ["file://localhost/data/b.sft"; "data/a.sft"]
       else None).


(** The catalogs of the two good files, and of these and the damaged file. *)
Definition sample_catalog : SFTCatalog :=
  Eval vm_compute in
    match XLALSFTdataFind sample_disk "data/*.sft" None with
    | XLAL_OK catalog => catalog
    | XLAL_ERROR _ => []
    end.

Definition damaged_catalog : SFTCatalog :=
  Eval vm_compute in
    match XLALSFTdataFind sample_disk "data/*.sft;damaged.sft" None with
    | XLAL_OK catalog => catalog
    | XLAL_ERROR _ => []
    end.




Local Close Scope string_scope.

(** A one-bin SFT at zero frequency, the file that holds it, and its
    catalog. *)
Definition DC_SFT : SFTtype :=
  mkSFT "H1" (mkGPS 1000000000 0) 0%float (sft_deltaF sample_SFT)
        (Some [mkC8 1065353216 1073741824]).

Definition DC_file : list byte :=
  Eval vm_compute in
    match XLALWriteSFT2fp (U := reference_SFTutils) (Some DC_SFT) (Some []) None with
    | XLAL_OK bytes => bytes
    | XLAL_ERROR _ => []
    end.

Definition DC_disk : Disk :=
  mkDisk (fun fname => if String.eqb fname "dc.sft" then Some DC_file else None)
         (fun _ => None) (fun _ => None).

Definition DC_catalog : SFTCatalog :=
  Eval vm_compute in
    match XLALSFTdataFind (U := reference_SFTutils) DC_disk "dc.sft" None with
    | XLAL_OK c => c
    | XLAL_ERROR _ => []
    end.

(** Two science segments of H1, and an SFDB record that fills the first
    one exactly. *)
Definition science_starts : list LIGOTimeGPS :=
  [mkGPS 1000000000 0; mkGPS 1000002048 0].
Definition science_ends : list LIGOTimeGPS :=
  [mkGPS 1000001024 0; mkGPS 1000003072 0].

Definition filling_record : SFDBHeader := mkSFDBHeader 2 1000000000 0 1024%float.
Definition inner_record : SFDBHeader := mkSFDBHeader 2 1000000000 0 1000%float.

(** A disk with one SFDB file and timestamps files; the name of
    [segments_start.txt] holds no detector name. *)
Definition SFDB_disk : Disk :=
  mkDisk (fun fname =>
            if String.eqb fname "H1.SFDB09" then Some []
            else if String.eqb fname "H1_start.txt" then Some []
            else if String.eqb fname "H1_end.txt" then Some []
            else if String.eqb fname "segments_start.txt" then Some []
            else None)
         (fun _ => None) (fun _ => None).

Definition SFDB_timestamps (fname : string) : option (list LIGOTimeGPS) :=
  if String.eqb fname "H1_start.txt" then Some science_starts
  else if String.eqb fname "H1_end.txt" then Some science_ends
  else if String.eqb fname "segments_start.txt" then Some science_starts
  else None.

(** The products the two roundings take the floor and the ceiling of, for
    the frequency 18000 and the spacing 1. *)
Definition bin_18000_down : Q :=
  Eval vm_compute in
    match REAL8_to_Q (18000 / 1 * (1 + 10 * LAL_REAL8_EPS))%float with
    | Some q => q
    | None => inject_Z 0
    end.

Definition bin_18000_up : Q :=
  Eval vm_compute in
    match REAL8_to_Q (18000 / 1 * (1 - 10 * LAL_REAL8_EPS))%float with
    | Some q => q
    | None => inject_Z 0
    end.

(** Two narrow-band files of one SFT that leave bin 18002 out. *)
Definition gap_lo_SFT : SFTtype := sample_SFT.
Definition gap_hi_SFT : SFTtype :=
  mkSFT "H1" (mkGPS 1000000000 0) (18003 * sft_deltaF sample_SFT)%float
        (sft_deltaF sample_SFT) (sft_data sample_SFT).

Definition gap_disk : Disk :=
  mkDisk (fun fname =>
            if String.eqb fname "gap_lo.sft" then
              match XLALWriteSFT2fp (U := reference_SFTutils) (Some gap_lo_SFT) (Some []) None with
              | XLAL_OK bytes => Some bytes
              | XLAL_ERROR _ => None
              end
            else if String.eqb fname "gap_hi.sft" then
              match XLALWriteSFT2fp (U := reference_SFTutils) (Some gap_hi_SFT) (Some []) None with
              | XLAL_OK bytes => Some bytes
              | XLAL_ERROR _ => None
              end
            else None)
         (fun _ => None) (fun _ => None).

Definition gap_catalog : SFTCatalog :=
  Eval vm_compute in
    match XLALSFTdataFind (U := reference_SFTutils) gap_disk "gap_lo.sft;gap_hi.sft" None with
    | XLAL_OK c => c
    | XLAL_ERROR _ => []
    end.

(* ------------------------------------------------------------------ *)
(** ** Further sample data *)

(** The first header of the merged sample file, and a file cut off inside
    its first header. *)
Definition merged_first_read : option sft_header * FILE :=
  Eval vm_compute in
    read_sft_header_from_fp (U := reference_SFTutils) (mkFILE merged_file 0) true.

Definition merged_first_header : sft_header :=
  Eval vm_compute in
    match fst merged_first_read with
    | Some h => h
    | None => mkHdr zero_SFT 0 0 false None 0
    end.

Definition truncated_file : list byte := Eval vm_compute in firstn 40 merged_file.

(** The second descriptor of the sample catalog, and a constraint on
    detector, start times and timestamps with the catalog it selects. *)
Definition second_sample_descriptor : SFTDescriptor :=
  Eval vm_compute in
    nth 1 sample_catalog (mkDesc (mkLocator "" 0 0) zero_SFT None 0 0 0).

Definition narrow_constraints : SFTConstraints :=
  mkConstraints (Some "H1"%string) (Some (mkGPS 1000000000 0)) (Some (mkGPS 1000003600 0))
                (Some [mkGPS 1000001800 0; mkGPS 1000003600 0]).

Definition narrow_catalog : SFTCatalog :=
  Eval vm_compute in
    match XLALSFTdataFind (U := reference_SFTutils) sample_disk "data/*.sft"
                          (Some narrow_constraints) with
    | XLAL_OK catalog => catalog
    | XLAL_ERROR _ => []
    end.

Definition narrow_descriptor : SFTDescriptor :=
  Eval vm_compute in
    hd (mkDesc (mkLocator "" 0 0) zero_SFT None 0 0 0) narrow_catalog.

(** What the loader returns for the sample catalog, and the survey of the
    catalog. *)
Definition sample_loaded : list loaded_SFT :=
  Eval vm_compute in
    match XLALLoadSFTs (U := reference_SFTutils) (disk_files sample_disk) sample_catalog
                       (-1) (-1) with
    | Loaded v => v
    | Load_failed _ _ => []
    end.

Definition sample_survey : survey :=
  Eval vm_compute in
    match catalog_survey sample_catalog with
    | Some sv => sv
    | None => mkSurvey 0 [] 0 0 0
    end.

(** The loader on the two files that leave a bin out: the descriptors in
    the order of the loop, the state before the loop and after its first
    round, and what the second round fetches. *)
Definition gap_locatalog : list SFTDescriptor :=
  Eval vm_compute in
    match catalog_survey gap_catalog with
    | Some sv => qsort compareSFTloc (sv_catalog sv)
    | None => []
    end.

Definition gap_first : SFTDescriptor :=
  Eval vm_compute in nth 0 gap_locatalog (mkDesc (mkLocator "" 0 0) zero_SFT None 0 0 0).

Definition gap_second : SFTDescriptor :=
  Eval vm_compute in nth 1 gap_locatalog (mkDesc (mkLocator "" 0 0) zero_SFT None 0 0 0).

Definition gap_state_0 : load_state :=
  mkLoadState "" None zero_SFT [zero_segment]
              [mkLoaded "" (mkGPS 0 0) 0%float 0%float (repeat None 5)].

Definition gap_state_1 : load_state :=
  Eval vm_compute in
    match load_all (U := reference_SFTutils) (disk_files gap_disk) (sft_deltaF sample_SFT)
                   18000 18004 gap_state_0 [gap_first] with
    | inl st => st
    | inr _ => gap_state_0
    end.

Definition gap_fetched : fetched :=
  Eval vm_compute in
    match fetch_segment (U := reference_SFTutils) (disk_files gap_disk) (sft_deltaF sample_SFT)
                        18000 18004 gap_state_1 gap_second with
    | inl got => got
    | inr _ => mkFetched 0 0 zero_SFT [] "" None
    end.

Definition written_disk : Disk :=
  mkDisk (store_file (fun _ => None) "H-1_H1_1800SFT-1000000000-1800.sft"
                     (SFT_block (U := reference_SFTutils) sample_SFT sample_bins (Some "hello"%string)))
         (fun _ => None) (fun _ => None).

(** A second SFT of the same detector and band, one baseline later, with
    bins of its own. *)
Definition later_bins : list COMPLEX8 := [mkC8 0x40800000 0x40a00000; mkC8 0 0x3f800000].

Definition later_SFT : SFTtype :=
  mkSFT "H1" (mkGPS 1000001800 0) 10%float (1 / 1800)%float (Some later_bins).

Definition two_SFT_disk : Disk :=
  mkDisk (store_file (fun _ => None) "merged.sft"
            (merged_image (U := reference_SFTutils) [sample_SFT; later_SFT] None))
         (fun _ => None) (fun _ => None).

Definition listing_disk : Disk :=
  mkDisk (fun _ => None)
         (fun d => if String.eqb d "data" then Some ["."; ".."; "b.sft"; "notes.txt"; "a.sft"]%string
                   else None)
         (fun _ => None).

(** A catalog of two detectors, by descriptors that differ in detector and
    epoch only. *)
Definition two_IFO_catalog : SFTCatalog :=
  map (fun ne => mkDesc (mkLocator "x.sft" 0 0)
                        (mkSFT (fst ne) (mkGPS (snd ne) 0) 10%float (1 / 1800)%float None)
                        None 2 2 0)
      [("L1", 1000000000); ("H1", 1000000000); ("L1", 1000001800)]%string.

(* ------------------------------------------------------------------ *)
(** ** Sample data off the common cases *)

(** An SFT whose start frequency is the product [18092 * deltaF], as the
    loader computes it, and an SFT with the smallest positive [deltaF]. *)
Definition off_grid_SFT : SFTtype :=
  mkSFT "H1" (mkGPS 1000000000 0) (1 * 18092 * (1 / 1800))%float (1 / 1800)%float
        (Some sample_bins).

Definition tiny_deltaF_SFT : SFTtype :=
  mkSFT "H1" (mkGPS 1000000000 0) 0%float 0x1p-1074%float (Some sample_bins).

(** Two files of one SFT each, whose epochs lie fifty nanoseconds apart:
    the later SFT has the lower start frequency. *)
Definition close_epochs_disk : Disk :=
  mkDisk (fun fname =>
            if String.eqb fname "a.sft" then
              Some (SFT_block (U := reference_SFTutils)
                      (mkSFT "H1" (mkGPS 1000000000 50) 10%float (1 / 1800)%float (Some sample_bins))
                      sample_bins None)
            else if String.eqb fname "b.sft" then
              Some (SFT_block (U := reference_SFTutils)
                      (mkSFT "H1" (mkGPS 1000000000 0) 20%float (1 / 1800)%float (Some sample_bins))
                      sample_bins None)
            else None)
         (fun _ => None) (fun _ => None).

(** A merged file whose second block is the earlier one, next to a good
    file. *)
Definition unordered_disk : Disk :=
  mkDisk (fun fname =>
            if String.eqb fname "good.sft" then Some single_file
            else if String.eqb fname "bad.sft" then
              Some (written [sample_SFT_2; sample_SFT] None)
            else None)
         (fun _ => None) (fun _ => None).

(** What the setup builds from [H1_start.txt] and [H1_end.txt]. *)
Definition SFDB_science : science_segments :=
  mkScience ["H1"%string] [science_starts] [science_ends].

(** Windows of V1, timestamps files whose names hold two detector names
    or none, and the segments the setup builds from them. *)
Definition V1_starts : list LIGOTimeGPS := [mkGPS 1000005000 0; mkGPS 1000009000 0].

Definition V1_ends : list LIGOTimeGPS := [mkGPS 1000007000 0; mkGPS 1000010000 0].

Definition shared_timestamps (fname : string) : option (list LIGOTimeGPS) :=
  if String.eqb fname "H1L1_start.txt" then Some science_starts
  else if String.eqb fname "H1L1_end.txt" then Some science_ends
  else if String.eqb fname "V1_start.txt" then Some V1_starts
  else if String.eqb fname "V1_end.txt" then Some V1_ends
  else if String.eqb fname "H1_start.txt" then Some science_starts
  else if String.eqb fname "segments_end.txt" then Some science_ends
  else None.

Definition shared_science : science_segments :=
  mkScience ["H1"; "L1"; "V1"]%string [science_starts; V1_starts] [science_ends; V1_ends].

(** A record of L1 inside the first window of V1, a record of H1 after the
    last window of H1, and windows of H1 that start half a second late. *)
Definition L1_record : SFDBHeader := mkSFDBHeader 3 1000005000 0 1000%float.

Definition late_record : SFDBHeader := mkSFDBHeader 2 1000004000 0 1000%float.

Definition half_second_starts : list LIGOTimeGPS :=
  [mkGPS 1000000000 500000000; mkGPS 1000002048 0].

(* ================================================================== *)
(** * Properties *)

Local Open Scope Z_scope.

(* ------------------------------------------------------------------ *)
(** ** Bytes and little-endian images *)

Lemma Z_of_byte_range b : 0 <= Z_of_byte b < 256.
Proof.
  unfold Z_of_byte. pose proof (Byte.to_N_bounded b). lia.
Qed.

Lemma Z_of_byte_of_Z z : Z_of_byte (byte_of_Z z) = z mod 256.
Proof.
  unfold byte_of_Z, Z_of_byte.
  assert (H : 0 <= z mod 256 < 256) by (apply Z.mod_pos_bound; lia).
  destruct (Byte.of_N (Z.to_N (z mod 256))) eqn:E.
  - apply Byte.to_of_N in E. rewrite E. rewrite Z2N.id; lia.
  - exfalso. apply Byte.of_N_None_iff in E. lia.
Qed.

Lemma byte_of_Z_of_byte b : byte_of_Z (Z_of_byte b) = b.
Proof.
  unfold byte_of_Z. pose proof (Z_of_byte_range b).
  rewrite Z.mod_small by lia. unfold Z_of_byte. rewrite N2Z.id.
  now rewrite Byte.of_to_N.
Qed.

Lemma le_value_le_bytes n z : le_value (le_bytes n z) = z mod 256 ^ Z.of_nat n.
Proof.
  revert z. induction n as [|n IH]; intro z.
  - simpl. now rewrite Z.mod_1_r.
  - cbn [le_bytes le_value]. rewrite Z_of_byte_of_Z, IH.
    rewrite Nat2Z.inj_succ, Z.pow_succ_r by lia.
    rewrite Z.rem_mul_r by lia. lia.
Qed.

Lemma length_le_bytes n z : List.length (le_bytes n z) = n.
Proof. revert z; induction n; intro; simpl; auto. Qed.

Lemma le_INT4_le_bytes z : - 2 ^ 31 <= z < 2 ^ 31 -> le_INT4 (le_bytes 4 z) = z.
Proof.
  intro H. unfold le_INT4. rewrite le_value_le_bytes. unfold to_INT4, UINT4_MOD.
  change (256 ^ Z.of_nat 4) with (2 ^ 32).
  rewrite Z.mod_mod by lia.
  destruct (Z.ltb_spec (z mod 2 ^ 32) (2 ^ 31)).
  - destruct (Z.ltb_spec z 0).
    + rewrite <- (Z.mod_add z 1) in H0 by lia. rewrite Z.mod_small in H0; lia.
    + rewrite Z.mod_small; lia.
  - destruct (Z.ltb_spec z 0).
    + rewrite <- (Z.mod_add z 1) by lia. rewrite Z.mod_small; lia.
    + rewrite Z.mod_small in H0; lia.
Qed.

(* ------------------------------------------------------------------ *)
(** ** The memory image of a REAL8 *)

Lemma digits2_pos_bounds m :
  2 ^ (Z.pos (digits2_pos m) - 1) <= Z.pos m < 2 ^ Z.pos (digits2_pos m).
Proof.
  induction m as [m IH|m IH|]; cbn [digits2_pos].
  - rewrite Pos2Z.inj_succ. replace (Z.succ (Z.pos (digits2_pos m)) - 1) with (Z.succ (Z.pos (digits2_pos m) - 1)) by lia.
    rewrite !Z.pow_succ_r by lia. lia.
  - rewrite Pos2Z.inj_succ. replace (Z.succ (Z.pos (digits2_pos m)) - 1) with (Z.succ (Z.pos (digits2_pos m) - 1)) by lia.
    rewrite !Z.pow_succ_r by lia. lia.
  - simpl. lia.
Qed.

Lemma testbit63 (s : bool) r : 0 <= r < 2 ^ 63 ->
  Z.testbit ((if s then 2 ^ 63 else 0) + r) 63 = s.
Proof.
  intro H. apply Z.b2z_inj. rewrite Z.testbit_spec' by lia.
  destruct s; cbn [Z.b2z].
  - replace (2 ^ 63 + r) with (r + 1 * 2 ^ 63) by lia.
    rewrite Z.div_add by lia. rewrite Z.div_small by lia. reflexivity.
  - rewrite Z.add_0_l, Z.div_small by lia. reflexivity.
Qed.

Lemma bits_to_SF_to_bits x :
  valid_binary x = true -> bits_to_SF (SF_to_bits x) = x.
Proof.
  destruct x as [s|s| |s m e]; intro V.
  - destruct s; reflexivity.
  - destruct s; reflexivity.
  - reflexivity.
  - unfold valid_binary in V. cbn [SpecFloat.valid_binary] in V. unfold bounded, canonical_mantissa in V.
    apply andb_prop in V. destruct V as [V1 V2].
    apply Z.eqb_eq in V1. apply Z.leb_le in V2.
    unfold fexp, emin, emax, prec in *.
    pose proof (digits2_pos_bounds m) as D.
    set (d := Z.pos (digits2_pos m)) in *.
    unfold SF_to_bits.
    destruct (Z.ltb_spec (Z.pos m) (2 ^ 52)) as [Hm|Hm].
    + assert (d <= 52).
      { destruct (Z_le_gt_dec d 52); auto. exfalso.
        assert (2 ^ 52 <= 2 ^ (d - 1)) by (apply Z.pow_le_mono_r; lia). lia. }
      assert (e = -1074) by lia. subst e.
      unfold bits_to_SF.
      rewrite testbit63 by lia.
      assert (E1 : ((if s then 2 ^ 63 else 0) + Z.pos m) / 2 ^ 52 mod 2 ^ 11 = 0).
      { destruct s.
        - replace (2 ^ 63 + Z.pos m) with (Z.pos m + 2 ^ 11 * 2 ^ 52) by lia.
          rewrite Z.div_add by lia. rewrite Z.div_small by lia. reflexivity.
        - rewrite Z.add_0_l, Z.div_small by lia. reflexivity. }
      assert (E2 : ((if s then 2 ^ 63 else 0) + Z.pos m) mod 2 ^ 52 = Z.pos m).
      { destruct s.
        - replace (2 ^ 63 + Z.pos m) with (Z.pos m + 2 ^ 11 * 2 ^ 52) by lia.
          rewrite Z.mod_add by lia. apply Z.mod_small; lia.
        - rewrite Z.add_0_l. apply Z.mod_small; lia. }
      rewrite E1, E2. cbn [Z.eqb]. reflexivity.
    + assert (d = 53).
      { destruct (Z_le_gt_dec d 53).
        - destruct (Z_le_gt_dec 53 d); [lia|]. exfalso.
          assert (2 ^ d <= 2 ^ 52) by (apply Z.pow_le_mono_r; lia). lia.
        - exfalso. lia. }
      assert (Z.pos m < 2 ^ 53) by (replace 53 with d by lia; lia).
      assert (-1074 <= e) by lia.
      set (f := Z.pos m - 2 ^ 52) in *.
      set (ex := e + 1075) in *.
      unfold bits_to_SF.
      rewrite testbit63 by nia.
      assert (E1 : ((if s then 2 ^ 63 else 0) + (ex * 2 ^ 52 + f)) / 2 ^ 52 mod 2 ^ 11 = ex).
      { destruct s.
        - replace (2 ^ 63 + (ex * 2 ^ 52 + f)) with (f + (ex + 2 ^ 11) * 2 ^ 52) by lia.
          rewrite Z.div_add by lia. rewrite Z.div_small by lia.
          rewrite Z.add_0_l. replace (ex + 2 ^ 11) with (ex + 1 * 2 ^ 11) by lia.
          rewrite Z.mod_add by lia. apply Z.mod_small; lia.
        - rewrite Z.add_0_l. replace (ex * 2 ^ 52 + f) with (f + ex * 2 ^ 52) by lia.
          rewrite Z.div_add by lia. rewrite Z.div_small by lia.
          apply Z.mod_small; lia. }
      assert (E2 : ((if s then 2 ^ 63 else 0) + (ex * 2 ^ 52 + f)) mod 2 ^ 52 = f).
      { destruct s.
        - replace (2 ^ 63 + (ex * 2 ^ 52 + f)) with (f + (ex + 2 ^ 11) * 2 ^ 52) by lia.
          rewrite Z.mod_add by lia. apply Z.mod_small; lia.
        - rewrite Z.add_0_l. replace (ex * 2 ^ 52 + f) with (f + ex * 2 ^ 52) by lia.
          rewrite Z.mod_add by lia. apply Z.mod_small; lia. }
      rewrite E1, E2.
      destruct (Z.eqb_spec ex 0); [lia|].
      destruct (Z.eqb_spec ex 2047); [lia|].
      f_equal; [|lia]. unfold f. replace (Z.pos m - 2 ^ 52 + 2 ^ 52) with (Z.pos m) by lia.
      reflexivity.
Qed.

Lemma REAL8_of_bits_to_bits x : REAL8_of_bits (REAL8_to_bits x) = x.
Proof.
  unfold REAL8_of_bits, REAL8_to_bits.
  rewrite bits_to_SF_to_bits by apply Prim2SF_valid.
  apply SF2Prim_Prim2SF.
Qed.

Lemma SF_to_bits_range x : valid_binary x = true -> 0 <= SF_to_bits x < 2 ^ 64.
Proof.
  destruct x as [s|s| |s m e]; intro V; cbn [SF_to_bits].
  - destruct s; lia.
  - destruct s; lia.
  - lia.
  - unfold valid_binary in V. cbn [SpecFloat.valid_binary] in V. unfold bounded, canonical_mantissa in V.
    apply andb_prop in V. destruct V as [V1 V2].
    apply Z.eqb_eq in V1. apply Z.leb_le in V2.
    unfold fexp, emin, emax, prec in *.
    pose proof (digits2_pos_bounds m) as D.
    set (d := Z.pos (digits2_pos m)) in *.
    destruct (Z.ltb_spec (Z.pos m) (2 ^ 52)) as [Hm|Hm].
    + destruct s; lia.
    + assert (d = 53).
      { destruct (Z_le_gt_dec d 53).
        - destruct (Z_le_gt_dec 53 d); [lia|]. exfalso.
          assert (2 ^ d <= 2 ^ 52) by (apply Z.pow_le_mono_r; lia). lia.
        - exfalso. lia. }
      assert (Z.pos m < 2 ^ 53) by (replace 53 with d by lia; lia).
      destruct s; nia.
Qed.

(* ------------------------------------------------------------------ *)
(** ** Streams *)

Lemma firstn_skipn_middle {A} (pre a post : list A) :
  firstn (List.length a) (skipn (List.length pre) (pre ++ a ++ post)) = a.
Proof.
  rewrite skipn_app, skipn_all, Nat.sub_diag. cbn [skipn app].
  rewrite firstn_app, firstn_all, Nat.sub_diag. cbn [firstn]. now rewrite app_nil_r.
Qed.

Lemma fread_middle (pre a post : list byte) n :
  n = Z.of_nat (List.length a) ->
  fread n (mkFILE (pre ++ a ++ post) (Z.of_nat (List.length pre))) =
  (Some a, mkFILE (pre ++ a ++ post) (Z.of_nat (List.length (pre ++ a)))).
Proof.
  intros ->. unfold fread, file_length. cbn [fpos contents].
  rewrite !length_app.
  replace ((0 <=? Z.of_nat (List.length pre)) &&
           (Z.of_nat (List.length pre) + Z.of_nat (List.length a) <=?
            Z.of_nat (List.length pre + (List.length a + List.length post)))) with true
    by (symmetry; apply andb_true_intro; split; apply Z.leb_le; lia).
  rewrite !Nat2Z.id, firstn_skipn_middle. do 2 f_equal. lia.
Qed.

(** ** The CRC accumulates over consecutive chunks *)

Lemma crc64_bytes_app a b crc :
  crc64_bytes (a ++ b) crc = crc64_bytes b (crc64_bytes a crc).
Proof. unfold crc64_bytes. apply fold_left_app. Qed.

Lemma calc_crc64_whole l crc :
  calc_crc64 (Some l) (Z.of_nat (List.length l)) crc = crc64_bytes l crc.
Proof.
  unfold calc_crc64. destruct (Z.eqb_spec (Z.of_nat (List.length l)) 0) as [E|E].
  - destruct l; [reflexivity | cbn [List.length] in E; lia].
  - now rewrite Nat2Z.id, firstn_all.
Qed.

Lemma calc_crc64_prefix a b crc :
  calc_crc64 (Some (a ++ b)) (Z.of_nat (List.length a)) crc = crc64_bytes a crc.
Proof.
  unfold calc_crc64. destruct (Z.eqb_spec (Z.of_nat (List.length a)) 0) as [E|E].
  - destruct a; [reflexivity | cbn [List.length] in E; lia].
  - rewrite Nat2Z.id, firstn_app, firstn_all, Nat.sub_diag. cbn [firstn]. now rewrite app_nil_r.
Qed.

Lemma lxor_below n a b : 0 < n -> 0 <= a < 2 ^ n -> 0 <= b < 2 ^ n -> 0 <= Z.lxor a b < 2 ^ n.
Proof.
  intros Hn Ha Hb. split; [apply Z.lxor_nonneg; lia|].
  destruct (Z.eq_dec (Z.lxor a b) 0) as [E|E]; [rewrite E; lia|].
  assert (0 < Z.lxor a b) by (pose proof (proj2 (Z.lxor_nonneg a b)); lia).
  apply Z.log2_lt_pow2; [lia|].
  eapply Z.le_lt_trans; [apply Z.log2_lxor; lia|].
  apply Z.max_lub_lt.
  - destruct (Z.eq_dec a 0) as [->|]; [simpl; lia|]. apply Z.log2_lt_pow2; lia.
  - destruct (Z.eq_dec b 0) as [->|]; [simpl; lia|]. apply Z.log2_lt_pow2; lia.
Qed.

Lemma crc_table_round_range p : 0 <= p < 2 ^ 64 -> 0 <= crc_table_round p < 2 ^ 64.
Proof.
  intro H. unfold crc_table_round.
  assert (0 <= Z.shiftr p 1 < 2 ^ 63).
  { rewrite Z.shiftr_div_pow2 by lia. split; [apply Z.div_pos; lia|].
    apply Z.div_lt_upper_bound; lia. }
  destruct (Z.testbit p 0).
  - apply lxor_below; [lia| lia | unfold POLY64; lia].
  - lia.
Qed.

Lemma CRCTable_range i : 0 <= i < 2 ^ 64 -> 0 <= CRCTable i < 2 ^ 64.
Proof.
  intro H. unfold CRCTable. cbn [Nat.iter].
  repeat apply crc_table_round_range. exact H.
Qed.

Lemma crc64_step_range crc d : 0 <= crc < 2 ^ 64 -> 0 <= crc64_step crc d < 2 ^ 64.
Proof.
  intro H. unfold crc64_step.
  apply lxor_below; [lia| |].
  - rewrite Z.shiftr_div_pow2 by lia. split; [apply Z.div_pos; lia|].
    apply Z.div_lt_upper_bound; lia.
  - apply CRCTable_range.
    assert (0 <= Z.land (Z.lxor crc (CHAR_to_UINT8 d)) 255 < 256).
    { change 255 with (Z.ones 8). rewrite Z.land_ones by lia. apply Z.mod_pos_bound; lia. }
    lia.
Qed.

Lemma crc64_bytes_range l crc : 0 <= crc < 2 ^ 64 -> 0 <= crc64_bytes l crc < 2 ^ 64.
Proof.
  revert crc. induction l as [|b l IH]; intros crc H; [exact H|].
  cbn [crc64_bytes fold_left]. apply IH, crc64_step_range, H.
Qed.

(* ------------------------------------------------------------------ *)
(** ** The layout of the raw header *)

Ltac list_of_length l H :=
  repeat (destruct l as [|? l]; [discriminate H|]; cbn [List.length] in H;
          apply Nat.succ_inj in H);
  destruct l; [clear H | discriminate H].

Lemma rawheader_layout (a1 a2 a3 a4 a5 a6 a7 a8 a9 a10 : list byte) :
  List.length a1 = 8%nat -> List.length a2 = 4%nat -> List.length a3 = 4%nat ->
  List.length a4 = 8%nat -> List.length a5 = 4%nat -> List.length a6 = 4%nat ->
  List.length a7 = 8%nat -> List.length a8 = 2%nat -> List.length a9 = 2%nat ->
  List.length a10 = 4%nat ->
  let img := a1 ++ a2 ++ a3 ++ a4 ++ a5 ++ a6 ++ a7 ++ a8 ++ a9 ++ a10 in
  field 0 8 img = a1 /\ field 8 4 img = a2 /\ field 12 4 img = a3 /\
  field 16 8 img = a4 /\ field 24 4 img = a5 /\ field 28 4 img = a6 /\
  field 32 8 img = a7 /\ field 40 2 img = a8 /\ field 42 2 img = a9 /\
  field 44 4 img = a10 /\
  zero_crc_field img = a1 ++ a2 ++ a3 ++ a4 ++ a5 ++ a6 ++ repeat NUL 8 ++ a8 ++ a9 ++ a10 /\
  List.length img = 48%nat.
Proof.
  intros H1 H2 H3 H4 H5 H6 H7 H8 H9 H10.
  list_of_length a1 H1. list_of_length a2 H2. list_of_length a3 H3.
  list_of_length a4 H4. list_of_length a5 H5. list_of_length a6 H6.
  list_of_length a7 H7. list_of_length a8 H8. list_of_length a9 H9.
  list_of_length a10 H10.
  repeat split; reflexivity.
Qed.

Lemma to_INT4_range z : - 2 ^ 31 <= to_INT4 z < 2 ^ 31.
Proof.
  unfold to_INT4, UINT4_MOD.
  pose proof (Z.mod_pos_bound z (2 ^ 32) ltac:(lia)).
  destruct (Z.ltb_spec (z mod 2 ^ 32) (2 ^ 31)); lia.
Qed.

Lemma to_INT4_small z : - 2 ^ 31 <= z < 2 ^ 31 -> to_INT4 z = z.
Proof.
  intro H. rewrite <- (le_INT4_le_bytes z H) at 2.
  unfold le_INT4. rewrite le_value_le_bytes. unfold to_INT4, UINT4_MOD.
  change (256 ^ Z.of_nat 4) with (2 ^ 32). now rewrite Z.mod_mod by lia.
Qed.

Lemma to_UINT4_small z : 0 <= z < 2 ^ 32 -> to_UINT4 z = z.
Proof. intro H. unfold to_UINT4, UINT4_MOD. apply Z.mod_small; lia. Qed.

Lemma REAL8_le_bytes_value x : le_value (le_bytes 8 (REAL8_to_bits x)) = REAL8_to_bits x.
Proof.
  rewrite le_value_le_bytes. change (256 ^ Z.of_nat 8) with (2 ^ 64).
  apply Z.mod_small. apply SF_to_bits_range, Prim2SF_valid.
Qed.

Lemma length_pair_field (l : list byte) : List.length (firstn 2 (l ++ [NUL; NUL])) = 2%nat.
Proof. rewrite length_firstn, length_app. cbn [List.length]. lia. Qed.

Lemma firstn_2_pair (a b : byte) l : firstn 2 ([a; b] ++ l) = [a; b].
Proof. reflexivity. Qed.

Definition raw_in_range (h : SFT_header_v2_t) : Prop :=
  - 2 ^ 31 <= raw_gps_sec h < 2 ^ 31 /\
  - 2 ^ 31 <= raw_gps_nsec h < 2 ^ 31 /\
  - 2 ^ 31 <= raw_first_frequency_index h < 2 ^ 31 /\
  - 2 ^ 31 <= raw_nsamples h < 2 ^ 31 /\
  0 <= raw_crc64 h < 2 ^ 64 /\
  List.length (raw_detector h) = 2%nat /\
  List.length (raw_padding h) = 2%nat /\
  - 2 ^ 31 <= raw_comment_length h < 2 ^ 31.

Lemma rawheader_bytes_layout h :
  let img := rawheader_bytes h in
  field 0 8 img = le_bytes 8 (REAL8_to_bits (raw_version h)) /\
  field 8 4 img = le_bytes 4 (raw_gps_sec h) /\
  field 12 4 img = le_bytes 4 (raw_gps_nsec h) /\
  field 16 8 img = le_bytes 8 (REAL8_to_bits (raw_tbase h)) /\
  field 24 4 img = le_bytes 4 (raw_first_frequency_index h) /\
  field 28 4 img = le_bytes 4 (raw_nsamples h) /\
  field 32 8 img = le_bytes 8 (raw_crc64 h) /\
  field 40 2 img = firstn 2 (raw_detector h ++ [NUL; NUL]) /\
  field 42 2 img = firstn 2 (raw_padding h ++ [NUL; NUL]) /\
  field 44 4 img = le_bytes 4 (raw_comment_length h) /\
  zero_crc_field img =
    le_bytes 8 (REAL8_to_bits (raw_version h)) ++ le_bytes 4 (raw_gps_sec h) ++
    le_bytes 4 (raw_gps_nsec h) ++ le_bytes 8 (REAL8_to_bits (raw_tbase h)) ++
    le_bytes 4 (raw_first_frequency_index h) ++ le_bytes 4 (raw_nsamples h) ++
    repeat NUL 8 ++ firstn 2 (raw_detector h ++ [NUL; NUL]) ++
    firstn 2 (raw_padding h ++ [NUL; NUL]) ++ le_bytes 4 (raw_comment_length h) /\
  List.length img = 48%nat.
Proof.
  apply rawheader_layout;
    first [apply length_le_bytes | apply length_pair_field].
Qed.

Lemma length_rawheader_bytes h : List.length (rawheader_bytes h) = 48%nat.
Proof. apply rawheader_bytes_layout. Qed.

Lemma rawheader_of_bytes_bytes h :
  raw_in_range h ->
  rawheader_of_bytes false (rawheader_bytes h) = h.
Proof.
  intros (Hs & Hn & Hf & Hm & Hc & Hd & Hp & Hl).
  destruct (rawheader_bytes_layout h)
    as (E1 & E2 & E3 & E4 & E5 & E6 & E7 & E8 & E9 & E10 & _).
  unfold rawheader_of_bytes.
  rewrite E1, E2, E3, E4, E5, E6, E7, E8, E9, E10.
  rewrite !REAL8_le_bytes_value, !REAL8_of_bits_to_bits.
  rewrite !le_INT4_le_bytes by assumption.
  rewrite le_value_le_bytes. change (256 ^ Z.of_nat 8) with (2 ^ 64).
  rewrite (Z.mod_small (raw_crc64 h)) by assumption.
  destruct h as [v s n t f m c d p l]. cbn [raw_detector raw_padding] in *.
  list_of_length d Hd. list_of_length p Hp. reflexivity.
Qed.

Lemma zero_crc_field_set_crc64 h crc :
  raw_crc64 h = 0 ->
  zero_crc_field (rawheader_bytes (set_crc64 h crc)) = rawheader_bytes h.
Proof.
  intro H0.
  destruct (rawheader_bytes_layout (set_crc64 h crc)) as (_ & _ & _ & _ & _ & _ & _ & _ & _ & _ & E & _).
  rewrite E. unfold rawheader_bytes. destruct h; cbn in *. subst. reflexivity.
Qed.

(* ------------------------------------------------------------------ *)
(** ** C strings *)

Lemma is_NUL_true b : is_NUL b = true <-> b = NUL.
Proof. unfold is_NUL. split; [apply Byte.byte_dec_bl | apply Byte.byte_dec_lb]. Qed.

Lemma is_NUL_false b : b <> NUL -> is_NUL b = false.
Proof.
  intro H. destruct (is_NUL b) eqn:E; [|reflexivity].
  apply is_NUL_true in E. contradiction.
Qed.

Lemma length_chars s : List.length (chars s) = String.length s.
Proof.
  unfold chars, list_byte_of_string.
  rewrite length_map. induction s; cbn; auto.
Qed.

Lemma length_chars0 s : Z.of_nat (List.length (chars0 s)) = strlen s + 1.
Proof. unfold chars0, strlen. rewrite length_app, length_chars. cbn. lia. Qed.

Lemma chars_append s t : chars (s ++ t) = chars s ++ chars t.
Proof.
  unfold chars, list_byte_of_string. rewrite <- map_app. f_equal.
  induction s; cbn; [reflexivity | now rewrite IHs].
Qed.

Lemma cstring_of_chars s : string_of_list_byte (chars s) = s.
Proof. apply string_of_list_byte_of_string. Qed.

Lemma until_NUL_chars0 l rest :
  Forall (fun b => b <> NUL) l -> until_NUL (l ++ NUL :: rest) = l.
Proof.
  induction 1 as [|b l Hb _ IH]; cbn [until_NUL app].
  - reflexivity.
  - now rewrite (is_NUL_false b Hb), IH.
Qed.

Lemma cstring_of_buffer_chars0 s rest :
  no_NUL s -> cstring_of_buffer (chars s ++ NUL :: rest) = s.
Proof.
  intro H. unfold cstring_of_buffer. rewrite until_NUL_chars0 by exact H.
  apply cstring_of_chars.
Qed.

Lemma forallb_is_NUL_repeat n : forallb is_NUL (repeat NUL n) = true.
Proof. induction n; cbn; auto. Qed.

Lemma removelast_repeat {A} (x : A) n : removelast (repeat x (S n)) = repeat x n.
Proof. induction n; cbn in *; [reflexivity|]. now rewrite IHn. Qed.

Lemma only_NUL_after_end_chars0 l n :
  Forall (fun b => b <> NUL) l ->
  only_NUL_after_end (l ++ NUL :: repeat NUL n) = true.
Proof.
  induction 1 as [|b l Hb _ IH]; cbn [only_NUL_after_end app].
  - cbn. destruct n; [reflexivity|]. rewrite removelast_repeat. apply forallb_is_NUL_repeat.
  - now rewrite (is_NUL_false b Hb).
Qed.

Lemma last_chars0 l n : last (l ++ NUL :: repeat NUL n) NUL = NUL.
Proof.
  induction l as [|b l IH].
  - cbn [app]. change (NUL :: repeat NUL n) with (repeat NUL (S n)).
    induction n; [reflexivity|]. cbn [repeat] in *. cbn [last]. exact IHn.
  - cbn [app last]. destruct (l ++ NUL :: repeat NUL n) eqn:E; [|exact IH].
    destruct l; discriminate E.
Qed.

Lemma firstn_repeat {A} (x : A) n m : (n <= m)%nat -> firstn n (repeat x m) = repeat x n.
Proof.
  revert m; induction n; intros m H; [reflexivity|].
  destruct m; [lia|]. cbn. f_equal. apply IHn. lia.
Qed.

Lemma no_NUL_append s t : no_NUL s -> no_NUL t -> no_NUL (s ++ t).
Proof. unfold no_NUL. rewrite chars_append. intros; apply Forall_app; auto. Qed.

Lemma strlen_append s t : strlen (s ++ t) = strlen s + strlen t.
Proof.
  unfold strlen. induction s as [|a s IH]; cbn [String.append String.length].
  - lia.
  - rewrite !Nat2Z.inj_succ. lia.
Qed.

(** A two-character name is exactly its first two characters. *)
Lemma name_of_length_2 s :
  String.length s = 2%nat -> no_NUL s ->
  chars s = [char_at s 0; char_at s 1] /\ char_at s 0 <> NUL /\ char_at s 1 <> NUL.
Proof.
  intros H N. destruct s as [|a [|b [|c s]]]; try discriminate H.
  unfold no_NUL in N. unfold char_at, chars0. cbn in *.
  inversion N as [|x l Ha N']; subst. inversion N' as [|y l' Hb _]; subst.
  auto.
Qed.

(* ------------------------------------------------------------------ *)
(** ** The block a write emits *)

Lemma pad_len_of_spec n :
  0 <= n < 2 ^ 32 ->
  0 <= pad_len_of n <= 7 /\ (n + pad_len_of n) mod 8 = 0.
Proof.
  intro H. unfold pad_len_of.
  pose proof (Z.mod_pos_bound n 8 ltac:(lia)) as Hm.
  rewrite (to_UINT4_small (8 - n mod 8)) by lia.
  pose proof (Z.mod_pos_bound (8 - n mod 8) 8 ltac:(lia)) as Hp.
  rewrite to_UINT4_small by lia.
  split; [lia|].
  rewrite Z.add_mod_idemp_r by lia.
  replace (n + (8 - n mod 8)) with ((n / 8 + 1) * 8)
    by (pose proof (Z.div_mod n 8 ltac:(lia)); lia).
  apply Z.mod_mul; lia.
Qed.

Lemma length_payload_bytes d :
  Z.of_nat (List.length (payload_bytes d)) = 8 * Z.of_nat (List.length d).
Proof.
  unfold payload_bytes. induction d as [|c d IH]; [reflexivity|].
  cbn [flat_map]. rewrite length_app. unfold COMPLEX8_bytes at 1.
  rewrite length_app, !length_le_bytes. cbn [List.length]. lia.
Qed.

Lemma crc_block_loop_payload fuel :
  forall (payload pre post : list byte) (crc : Z),
  Z.of_nat (List.length payload) <= Z.of_nat fuel ->
  crc_block_loop fuel (mkFILE (pre ++ payload ++ post) (Z.of_nat (List.length pre)))
                 (Z.of_nat (List.length payload)) crc
  = Some (crc64_bytes payload crc).
Proof.
  induction fuel as [|fuel IH]; intros payload pre post crc Hf.
  - destruct payload; [reflexivity | cbn [List.length] in Hf; lia].
  - cbn [crc_block_loop].
    destruct (Z.leb_spec (Z.of_nat (List.length payload)) 0) as [E|E].
    { destruct payload; [reflexivity | cbn [List.length] in E; lia]. }
    set (L := Z.of_nat (List.length payload)) in *.
    set (toread := if BLOCKSIZE <? L then BLOCKSIZE else L).
    assert (Ht : 0 < toread <= L).
    { unfold toread, BLOCKSIZE. destruct (Z.ltb_spec (8192 * 8) L); lia. }
    set (block := firstn (Z.to_nat toread) payload).
    set (rest := skipn (Z.to_nat toread) payload).
    assert (Ep : payload = block ++ rest) by (symmetry; apply firstn_skipn).
    assert (Lb : Z.of_nat (List.length block) = toread).
    { unfold block. rewrite length_firstn. unfold L in Ht. lia. }
    assert (Lr : Z.of_nat (List.length rest) = L - toread).
    { unfold rest. rewrite length_skipn. unfold L in *. lia. }
    replace (pre ++ payload ++ post) with (pre ++ block ++ (rest ++ post))
      by (rewrite Ep; now rewrite <- !app_assoc).
    rewrite fread_middle by (symmetry; exact Lb).
    replace (pre ++ block ++ rest ++ post) with ((pre ++ block) ++ rest ++ post)
      by now rewrite <- !app_assoc.
    rewrite <- Lr. rewrite IH by lia.
    rewrite <- Lb, calc_crc64_whole.
    replace (crc64_bytes payload crc) with (crc64_bytes (block ++ rest) crc) by now rewrite <- Ep.
    now rewrite crc64_bytes_app.
Qed.

Section Block.
Context {U : SFTutils}.

Record storable (sft : SFTtype) (data : list COMPLEX8) (SFTcomment : option string) : Prop := {
  st_data : sft_data sft = Some data;
  st_name_length : String.length (sft_name sft) = 2%nat;
  st_name : no_NUL (sft_name sft);
  st_comment : match SFTcomment with Some c => no_NUL c | None => True end;
  st_comment_length : strlen (composed_comment sft SFTcomment) + 8 < 2 ^ 31;
  st_bins : 0 < Z.of_nat (List.length data) < 2 ^ 29;
  st_seconds : 0 <= gpsSeconds (sft_epoch sft) < 2 ^ 31;
  st_nanoseconds : 0 <= gpsNanoSeconds (sft_epoch sft) < 1000000000;
  st_detector : XLALIsValidCWDetector (sft_name sft) = true
}.

Variables (sft : SFTtype) (data : list COMPLEX8) (SFTcomment : option string).
Hypothesis ST : storable sft data SFTcomment.

Let cm := composed_comment sft SFTcomment.
Let clen := strlen cm + 1.
Let plen := pad_len_of clen.
Let H0 := fill_rawheader sft (Z.of_nat (List.length data)) clen plen.

(** The checksum after header, comment and padding, and after the payload. *)
Definition block_header_crc : Z :=
  crc64_bytes (repeat NUL (Z.to_nat plen))
    (crc64_bytes (chars0 cm) (crc64_bytes (rawheader_bytes H0) ALL_ONES)).

Definition block_crc : Z := crc64_bytes (payload_bytes data) block_header_crc.

Lemma comment_len_of_composed : comment_len_of sft SFTcomment = clen.
Proof.
  unfold comment_len_of, clen, cm, composed_comment.
  pose proof (st_comment_length _ _ _ ST) as L. fold cm in L.
  unfold cm, composed_comment in L.
  destruct SFTcomment as [c|].
  - rewrite !strlen_append in *. change (strlen "; ") with 2 in *.
    unfold strlen in *. rewrite to_UINT4_small; lia.
  - unfold strlen in *. rewrite to_UINT4_small; lia.
Qed.

Lemma clen_range : 0 < clen < 2 ^ 31 - 7.
Proof.
  pose proof (st_comment_length _ _ _ ST). unfold clen, cm, strlen in *. lia.
Qed.

Lemma plen_range : 0 <= plen <= 7 /\ (clen + plen) mod 8 = 0.
Proof. apply pad_len_of_spec. pose proof clen_range. lia. Qed.

Lemma no_NUL_composed : no_NUL cm.
Proof.
  unfold cm, composed_comment. pose proof (st_name _ _ _ ST). pose proof (st_comment _ _ _ ST).
  destruct SFTcomment; [|assumption].
  repeat apply no_NUL_append; try assumption.
  unfold no_NUL. cbn. repeat constructor; discriminate.
Qed.

Lemma block_crc_range : 0 <= block_crc < 2 ^ 64.
Proof. unfold block_crc, block_header_crc. repeat apply crc64_bytes_range. unfold ALL_ONES, UINT8_MOD. lia. Qed.

Lemma SFT_block_shape :
  SFT_block sft data SFTcomment =
  rawheader_bytes (set_crc64 H0 block_crc)
    ++ (chars0 cm ++ repeat NUL (Z.to_nat plen))
    ++ payload_bytes data.
Proof.
  unfold SFT_block. rewrite comment_len_of_composed. fold cm plen H0.
  pose proof clen_range as Hc. pose proof plen_range as [Hp _].
  pose proof (st_bins _ _ _ ST) as Hb.
  assert (E1 : calc_crc64 (Some (rawheader_bytes H0)) sizeof_rawheader ALL_ONES
               = crc64_bytes (rawheader_bytes H0) ALL_ONES).
  { rewrite <- calc_crc64_whole. now rewrite length_rawheader_bytes. }
  assert (E2 : forall crc, calc_crc64 (Some (chars0 cm)) clen crc = crc64_bytes (chars0 cm) crc).
  { intro crc. rewrite <- calc_crc64_whole. now rewrite length_chars0. }
  assert (E3 : forall crc, calc_crc64 (Some (repeat NUL 7)) plen crc
                           = crc64_bytes (repeat NUL (Z.to_nat plen)) crc).
  { intro crc. unfold calc_crc64. destruct (Z.eqb_spec plen 0) as [Ez|Ez].
    - rewrite Ez. reflexivity.
    - rewrite firstn_repeat by lia. reflexivity. }
  assert (E4 : forall crc, calc_crc64 (Some (payload_bytes data))
                             (to_UINT4 (Z.of_nat (List.length data) * 8)) crc
                           = crc64_bytes (payload_bytes data) crc).
  { intro crc. rewrite to_UINT4_small by lia. rewrite <- calc_crc64_whole.
    rewrite length_payload_bytes. f_equal. lia. }
  rewrite E1, E2, E3, E4. fold block_header_crc. fold block_crc.
  rewrite <- app_assoc. f_equal. f_equal.
  - apply firstn_all2.
    apply Nat2Z.inj_le. rewrite length_chars0. fold clen. rewrite Z2Nat.id; lia.
  - f_equal. apply firstn_repeat. lia.
Qed.


(** The header the raw fields of a written block decode to. *)
Definition decoded_header : SFTtype :=
  mkSFT (sft_name sft) (sft_epoch sft)
        (REAL8_of_Z (to_INT4 (lround (sft_f0 sft / sft_deltaF sft)%float))
         / TSFTfromDFreq (sft_deltaF sft))%float
        (1 / TSFTfromDFreq (sft_deltaF sft))%float
        None.

Lemma H1_in_range : raw_in_range (set_crc64 H0 block_crc).
Proof.
  pose proof clen_range. pose proof plen_range as [? _].
  pose proof (st_bins _ _ _ ST). pose proof (st_seconds _ _ _ ST).
  pose proof (st_nanoseconds _ _ _ ST). pose proof block_crc_range.
  unfold raw_in_range, set_crc64, H0, fill_rawheader.
  cbn [raw_gps_sec raw_gps_nsec raw_first_frequency_index raw_nsamples raw_crc64
       raw_detector raw_padding raw_comment_length].
  repeat split; try apply to_INT4_range; try lia.
Qed.

Variables pre post : list byte.

Let image := pre ++ SFT_block sft data SFTcomment ++ post.
Let start := Z.of_nat (List.length pre).

Lemma image_split_header :
  image = pre ++ rawheader_bytes (set_crc64 H0 block_crc)
              ++ ((chars0 cm ++ repeat NUL (Z.to_nat plen)) ++ payload_bytes data ++ post).
Proof. unfold image. rewrite SFT_block_shape. now rewrite <- !app_assoc. Qed.

Lemma image_split_comment :
  image = (pre ++ rawheader_bytes (set_crc64 H0 block_crc))
              ++ (chars0 cm ++ repeat NUL (Z.to_nat plen)) ++ (payload_bytes data ++ post).
Proof. rewrite image_split_header. now rewrite <- !app_assoc. Qed.

Lemma image_split_payload :
  image = (pre ++ rawheader_bytes (set_crc64 H0 block_crc)
               ++ chars0 cm ++ repeat NUL (Z.to_nat plen))
              ++ payload_bytes data ++ post.
Proof. rewrite image_split_header. now rewrite <- !app_assoc. Qed.

Lemma image_split_version :
  image = pre ++ le_bytes 8 (REAL8_to_bits 2%float)
              ++ (skipn 8 (rawheader_bytes (set_crc64 H0 block_crc))
                  ++ (chars0 cm ++ repeat NUL (Z.to_nat plen)) ++ payload_bytes data ++ post).
Proof. rewrite image_split_header. unfold rawheader_bytes at 1. now rewrite <- !app_assoc. Qed.

Lemma read_SFTversion_from_fp_block :
  read_SFTversion_from_fp (mkFILE image start) = (Some (2, false), mkFILE image start).
Proof.
  unfold read_SFTversion_from_fp, ftell. cbn [fpos].
  destruct (Z.eqb_spec start (-1)) as [E|_]; [unfold start in E; lia|].
  rewrite image_split_version at 1. unfold start at 1.
  rewrite fread_middle by now rewrite length_le_bytes.
  replace (match_version (le_bytes 8 (REAL8_to_bits 2)) SFT_versions) with (Some (2, false))
    by (vm_compute; reflexivity).
  unfold fseek_SET. cbn [contents].
  destruct (Z.ltb_spec start 0) as [E|_]; [unfold start in E; lia|].
  now rewrite <- image_split_version.
Qed.

Lemma detector_cstring_block :
  detector_cstring (set_crc64 H0 block_crc) = sft_name sft.
Proof.
  destruct (name_of_length_2 (sft_name sft) (st_name_length _ _ _ ST) (st_name _ _ _ ST))
    as (E & N0 & N1).
  unfold detector_cstring, set_crc64, H0, fill_rawheader.
  cbn [raw_detector raw_padding raw_comment_length].
  rewrite !firstn_2_pair. unfold cstring_of_buffer. cbn [app until_NUL].
  rewrite (is_NUL_false _ N0), (is_NUL_false _ N1).
  replace (is_NUL NUL) with true by reflexivity.
  rewrite <- E. apply cstring_of_chars.
Qed.

Lemma decoded_name_block :
  cstring_of_buffer (firstn 2 (raw_detector (set_crc64 H0 block_crc))) = sft_name sft.
Proof.
  destruct (name_of_length_2 (sft_name sft) (st_name_length _ _ _ ST) (st_name _ _ _ ST))
    as (E & N0 & N1).
  unfold set_crc64, H0, fill_rawheader. cbn [raw_detector firstn].
  unfold cstring_of_buffer. cbn [until_NUL].
  rewrite (is_NUL_false _ N0), (is_NUL_false _ N1).
  rewrite <- E. apply cstring_of_chars.
Qed.

Lemma written_fields :
  let H1 := set_crc64 H0 block_crc in
  raw_version H1 = 2%float /\
  raw_gps_sec H1 = gpsSeconds (sft_epoch sft) /\
  raw_gps_nsec H1 = gpsNanoSeconds (sft_epoch sft) /\
  raw_tbase H1 = TSFTfromDFreq (sft_deltaF sft) /\
  raw_first_frequency_index H1 = to_INT4 (lround (sft_f0 sft / sft_deltaF sft)%float) /\
  raw_nsamples H1 = Z.of_nat (List.length data) /\
  raw_crc64 H1 = block_crc /\
  raw_comment_length H1 = clen + plen.
Proof.
  pose proof clen_range as Hc. pose proof plen_range as [Hp _].
  pose proof (st_bins _ _ _ ST) as Hb.
  unfold set_crc64, H0, fill_rawheader.
  cbn [raw_version raw_nsamples raw_comment_length raw_gps_sec raw_gps_nsec raw_tbase
       raw_first_frequency_index raw_crc64].
  rewrite (to_INT4_small (Z.of_nat (List.length data))) by lia.
  rewrite (to_INT4_small (clen + plen)) by lia.
  repeat split; reflexivity.
Qed.

Lemma read_v2_header_from_fp_block :
  read_v2_header_from_fp (mkFILE image start) false =
  (Some (mkV2 decoded_header (Z.of_nat (List.length data)) block_header_crc block_crc
              (Some (chars0 cm ++ repeat NUL (Z.to_nat plen)))),
   mkFILE image (start + sizeof_rawheader + (clen + plen))).
Proof.
  pose proof clen_range as Hc. pose proof plen_range as [Hp Hp8].
  pose proof (st_bins _ _ _ ST) as Hb.
  destruct written_fields as (Fv & Fs & Fn & Ft & Ff & Fm & Fc & Fl).
  unfold read_v2_header_from_fp, ftell. cbn [fpos].
  destruct (Z.eqb_spec start (-1)) as [E|_]; [unfold start in E; lia|].
  rewrite image_split_header at 1. unfold start at 1.
  rewrite fread_middle by now rewrite length_rawheader_bytes.
  rewrite zero_crc_field_set_crc64 by reflexivity.
  rewrite rawheader_of_bytes_bytes by apply H1_in_range.
  rewrite detector_cstring_block, decoded_name_block.
  rewrite (st_detector _ _ _ ST).
  rewrite Fv, Fs, Fn, Ft, Ff, Fm, Fc, Fl.
  replace (negb (2 =? 2)%float) with false by reflexivity.
  destruct (Z.leb_spec (Z.of_nat (List.length data)) 0) as [E|_]; [lia|].
  destruct (Z.ltb_spec (clen + plen) 0) as [E|_]; [lia|].
  rewrite Z.rem_mod_nonneg by lia. rewrite Hp8. cbn [Z.eqb negb].
  destruct (Z.eqb_spec (clen + plen) 0) as [E|_]; [lia|].
  rewrite <- image_split_header.
  rewrite image_split_comment at 1.
  rewrite fread_middle.
  2:{ rewrite length_app, repeat_length, Nat2Z.inj_add, length_chars0, Z2Nat.id by lia.
      reflexivity. }
  rewrite <- image_split_comment.
  assert (Ecm : chars0 cm ++ repeat NUL (Z.to_nat plen)
                = chars cm ++ NUL :: repeat NUL (Z.to_nat plen)).
  { unfold chars0. now rewrite <- app_assoc. }
  assert (El : last (chars0 cm ++ repeat NUL (Z.to_nat plen)) NUL = NUL)
    by (rewrite Ecm; apply last_chars0).
  assert (Eo : only_NUL_after_end (chars0 cm ++ repeat NUL (Z.to_nat plen)) = true)
    by (rewrite Ecm; apply only_NUL_after_end_chars0, no_NUL_composed).
  assert (Eu : until_NUL (chars0 cm ++ repeat NUL (Z.to_nat plen)) = chars cm)
    by (rewrite Ecm; apply until_NUL_chars0, no_NUL_composed).
  rewrite El, Eo, Eu. replace (negb (is_NUL NUL)) with false by reflexivity. cbn [negb].
  rewrite length_chars. fold (strlen cm). fold clen.
  rewrite (to_UINT4_small clen) by lia. fold plen.
  assert (E2 : forall crc, calc_crc64 (Some (chars0 cm ++ repeat NUL (Z.to_nat plen))) clen crc
                           = crc64_bytes (chars0 cm) crc).
  { intro crc. unfold clen. rewrite <- length_chars0. apply calc_crc64_prefix. }
  assert (E3 : forall crc, calc_crc64 (Some (repeat NUL 7)) plen crc
                           = crc64_bytes (repeat NUL (Z.to_nat plen)) crc).
  { intro crc. unfold calc_crc64. destruct (Z.eqb_spec plen 0) as [Ez|Ez].
    - rewrite Ez. reflexivity.
    - rewrite firstn_repeat by lia. reflexivity. }
  rewrite E2, E3.
  assert (E1 : calc_crc64 (Some (rawheader_bytes H0)) sizeof_rawheader ALL_ONES
               = crc64_bytes (rawheader_bytes H0) ALL_ONES).
  { rewrite <- calc_crc64_whole. rewrite length_rawheader_bytes. reflexivity. }
  rewrite E1. fold block_header_crc.
  rewrite (to_UINT4_small (Z.of_nat (List.length data))) by lia.
  unfold decoded_header. f_equal.
  - destruct (sft_epoch sft). reflexivity.
  - f_equal. rewrite !length_app, length_rawheader_bytes, repeat_length.
    unfold start, sizeof_rawheader.
    rewrite !Nat2Z.inj_add, length_chars0, Z2Nat.id by lia. fold clen. lia.
Qed.


Lemma has_valid_v2_crc64_block :
  has_valid_v2_crc64 (Some (mkFILE image start)) = 1.
Proof.
  pose proof (st_bins _ _ _ ST) as Hb.
  unfold has_valid_v2_crc64, ftell. cbn [fpos].
  destruct (Z.eqb_spec start (-1)) as [E|_]; [unfold start in E; lia|].
  rewrite read_SFTversion_from_fp_block. cbn [Z.eqb negb].
  rewrite read_v2_header_from_fp_block. cbn [v2_nsamples v2_header_crc64 v2_ref_crc64].
  rewrite to_UINT4_small by lia.
  replace (Z.of_nat (List.length data) * 8) with (Z.of_nat (List.length (payload_bytes data)))
    by (rewrite length_payload_bytes; lia).
  rewrite image_split_payload.
  replace (start + sizeof_rawheader + (clen + plen))
    with (Z.of_nat (List.length (pre ++ rawheader_bytes (set_crc64 H0 block_crc)
                                      ++ chars0 cm ++ repeat NUL (Z.to_nat plen)))).
  2:{ pose proof clen_range. pose proof plen_range as [? _].
      rewrite !length_app, length_rawheader_bytes, repeat_length.
      unfold start, sizeof_rawheader.
      rewrite !Nat2Z.inj_add, length_chars0, Z2Nat.id by lia. fold clen. lia. }
  rewrite crc_block_loop_payload by (rewrite Nat2Z.id; lia).
  fold block_crc. now rewrite Z.eqb_refl.
Qed.

(** What [read_sft_header_from_fp] returns on a written block, when the
    frequency fields decode to values the reader accepts. *)
Lemma read_sft_header_from_fp_block :
  (sft_deltaF decoded_header <=? 0)%float = false ->
  (sft_f0 decoded_header <? 0)%float = false ->
  read_sft_header_from_fp (mkFILE image start) true =
  (Some (mkHdr decoded_header 2 block_crc false
               (Some (chars0 cm ++ repeat NUL (Z.to_nat plen)))
               (Z.of_nat (List.length data))),
   mkFILE image (start + sizeof_rawheader + (clen + plen))).
Proof.
  intros Hd Hf.
  pose proof (st_seconds _ _ _ ST). pose proof (st_nanoseconds _ _ _ ST).
  unfold read_sft_header_from_fp, ftell. cbn [fpos].
  destruct (Z.eqb_spec start (-1)) as [E|_]; [unfold start in E; lia|].
  rewrite read_SFTversion_from_fp_block. cbn [Z.eqb].
  rewrite read_v2_header_from_fp_block.
  cbn [v2_header_ v2_nsamples v2_ref_crc64 v2_SFTcomment].
  rewrite Hd, Hf.
  replace (sft_epoch decoded_header) with (sft_epoch sft) by reflexivity.
  destruct (Z.ltb_spec (gpsSeconds (sft_epoch sft)) 0); [lia|].
  destruct (Z.ltb_spec (gpsNanoSeconds (sft_epoch sft)) 0); [lia|].
  destruct (Z.leb_spec 1000000000 (gpsNanoSeconds (sft_epoch sft))); [lia|].
  reflexivity.
Qed.

(** The payload follows the comment: reading [8 * numBins] bytes from the
    position the header reader leaves yields the bins as written. *)
Lemma fread_payload_block :
  fst (fread (8 * Z.of_nat (List.length data))
             (mkFILE image (start + sizeof_rawheader + (clen + plen))))
  = Some (payload_bytes data).
Proof.
  rewrite image_split_payload.
  replace (start + sizeof_rawheader + (clen + plen))
    with (Z.of_nat (List.length (pre ++ rawheader_bytes (set_crc64 H0 block_crc)
                                      ++ chars0 cm ++ repeat NUL (Z.to_nat plen)))).
  2:{ pose proof clen_range. pose proof plen_range as [? _].
      rewrite !length_app, length_rawheader_bytes, repeat_length.
      unfold start, sizeof_rawheader.
      rewrite !Nat2Z.inj_add, length_chars0, Z2Nat.id by lia. fold clen. lia. }
  rewrite fread_middle by (now rewrite length_payload_bytes).
  reflexivity.
Qed.

End Block.

Section BlockRefused.
Context {U : SFTutils}.
Variables (sft : SFTtype) (data : list COMPLEX8) (SFTcomment : option string).
Hypothesis ST : storable sft data SFTcomment.
Variables pre post : list byte.

(** A written block whose frequency fields decode to values outside the
    reader's checks is refused, with the stream back at the block. *)
Lemma read_sft_header_from_fp_block_refused :
  (sft_deltaF (decoded_header sft) <=? 0)%float || (sft_f0 (decoded_header sft) <? 0)%float = true ->
  read_sft_header_from_fp
    (mkFILE (pre ++ SFT_block sft data SFTcomment ++ post) (Z.of_nat (List.length pre))) true
  = (None, mkFILE (pre ++ SFT_block sft data SFTcomment ++ post) (Z.of_nat (List.length pre))).
Proof.
  intros Hr.
  pose proof (st_seconds _ _ _ ST). pose proof (st_nanoseconds _ _ _ ST).
  unfold read_sft_header_from_fp, ftell. cbn [fpos].
  destruct (Z.eqb_spec (Z.of_nat (List.length pre)) (-1)) as [E|_]; [lia|].
  rewrite (read_SFTversion_from_fp_block sft data SFTcomment ST pre post). cbn [Z.eqb].
  rewrite (read_v2_header_from_fp_block sft data SFTcomment ST pre post).
  cbn [v2_header_ v2_nsamples v2_ref_crc64 v2_SFTcomment].
  replace (sft_epoch (decoded_header sft)) with (sft_epoch sft) by reflexivity.
  destruct (Z.ltb_spec (gpsSeconds (sft_epoch sft)) 0); [lia|].
  destruct (Z.ltb_spec (gpsNanoSeconds (sft_epoch sft)) 0); [lia|].
  destruct (Z.leb_spec 1000000000 (gpsNanoSeconds (sft_epoch sft))); [lia|].
  cbn [orb].
  assert (R : forall p, restore (mkFILE (pre ++ SFT_block sft data SFTcomment ++ post) p)
                (Z.of_nat (List.length pre))
              = mkFILE (pre ++ SFT_block sft data SFTcomment ++ post) (Z.of_nat (List.length pre))).
  { intro p. unfold restore, fseek_SET. cbn [contents].
    destruct (Z.ltb_spec (Z.of_nat (List.length pre)) 0); [lia | reflexivity]. }
  destruct (sft_deltaF (decoded_header sft) <=? 0)%float.
  - now rewrite R.
  - cbn [orb] in Hr. rewrite Hr. now rewrite R.
Qed.

End BlockRefused.

(* ------------------------------------------------------------------ *)
(** ** Properties of the checksum engine, the writer and the reader *)

(** C9.  The CRC64 engine treats the empty byte range as an identity: for
    every running checksum [crc], [calc_crc64(data, 0, crc) = crc] whatever
    [data] is, and [calc_crc64(NULL, n, crc) = crc] for every length [n];
    accumulating a zero-length chunk never changes the checksum. *)
Theorem calc_crc64_empty_range :
  (forall (data : option (list byte)) (crc : Z), calc_crc64 data 0 crc = crc) /\
  (forall (length : Z) (crc : Z), calc_crc64 None length crc = crc).
Proof.
  split.
  - intros [l|] crc; cbn [calc_crc64 Z.eqb]; reflexivity.
  - intros length crc. reflexivity.
Qed.

Section WriterProperties.
Context {U : SFTutils}.

Lemma XLALWriteSFT2fp_inv sft pre SFTcomment out :
  XLALWriteSFT2fp (Some sft) (Some pre) SFTcomment = XLAL_OK out ->
  exists data,
    sft_data sft = Some data /\
    (sft_deltaF sft <=? 0)%float = false /\
    (sft_f0 sft <? 0)%float = false /\
    0 < Z.of_nat (List.length data) /\
    0 <= gpsSeconds (sft_epoch sft) /\
    0 <= gpsNanoSeconds (sft_epoch sft) < 1000000000 /\
    XLALIsValidCWDetector (sft_name sft) = true /\
    out = pre ++ SFT_block sft data SFTcomment.
Proof.
  unfold XLALWriteSFT2fp. destruct (sft_data sft) as [data|]; [|discriminate].
  destruct (sft_deltaF sft <=? 0)%float eqn:E1; [discriminate|].
  destruct (sft_f0 sft <? 0)%float eqn:E2; [discriminate|].
  destruct (Z.eqb_spec (Z.of_nat (List.length data)) 0) as [E3|E3]; [discriminate|].
  cbn [orb].
  destruct (Z.leb_spec 0 (gpsSeconds (sft_epoch sft))) as [E4|E4]; [|discriminate].
  destruct (Z.leb_spec 0 (gpsNanoSeconds (sft_epoch sft))) as [E5|E5]; [|discriminate].
  cbn [andb negb].
  destruct (Z.ltb_spec (gpsNanoSeconds (sft_epoch sft)) 1000000000) as [E6|E6]; [|discriminate].
  cbn [negb].
  destruct (XLALIsValidCWDetector (sft_name sft)) eqn:E7; [|discriminate].
  cbn [negb]. intro H. injection H as <-.
  exists data. repeat split; try assumption; try lia.
Qed.

Lemma append_empty_r (s : string) : (s ++ "")%string = s.
Proof. induction s as [|a s IH]; cbn; [reflexivity | now rewrite IH]. Qed.

Lemma prefix_append (s t : string) : String.prefix s (s ++ t) = true.
Proof.
  induction s as [|a s IH]; cbn.
  - destruct t; reflexivity.
  - destruct (Ascii.ascii_dec a a); [exact IH | contradiction].
Qed.

(** C10.  For every SFT written by [XLALWriteSFT2fp], the comment field
    stored in the file (the bytes after the 48-byte header, up to the
    payload) is the SFT's detector name, followed by ["; "] and the
    caller's comment when one is given, then the terminator and zero
    padding to a multiple of eight; the stored comment begins with the
    detector name and is never the caller's comment itself. *)
Theorem XLALWriteSFT2fp_comment_field sft pre SFTcomment out :
  XLALWriteSFT2fp (Some sft) (Some pre) SFTcomment = XLAL_OK out ->
  strlen (composed_comment sft SFTcomment) + 1 < UINT4_MOD ->
  let stored := composed_comment sft SFTcomment in
  (exists header pad_len payload,
     out = pre ++ header ++ chars0 stored ++ repeat NUL pad_len ++ payload /\
     List.length header = 48%nat /\
     (pad_len <= 7)%nat /\
     (strlen stored + 1 + Z.of_nat pad_len) mod 8 = 0) /\
  stored = (sft_name sft ++
            match SFTcomment with Some c => "; " ++ c | None => "" end)%string /\
  String.prefix (sft_name sft) stored = true /\
  (forall c, SFTcomment = Some c -> stored <> c).
Proof.
  intros W L stored.
  destruct (XLALWriteSFT2fp_inv _ _ _ _ W) as (data & _ & _ & _ & _ & _ & _ & _ & ->).
  assert (Es : stored = (sft_name sft ++
            match SFTcomment with Some c => "; " ++ c | None => "" end)%string).
  { unfold stored, composed_comment. destruct SFTcomment; [reflexivity|].
    now rewrite append_empty_r. }
  assert (Ec : comment_len_of sft SFTcomment = strlen stored + 1).
  { unfold comment_len_of. rewrite Es. rewrite strlen_append.
    unfold UINT4_MOD in L. fold stored in L. rewrite Es, strlen_append in L.
    destruct SFTcomment as [c|].
    - rewrite strlen_append in *. change (strlen "; ") with 2 in *.
      unfold strlen in *. rewrite to_UINT4_small; lia.
    - change (strlen "") with 0 in *. unfold strlen in *. rewrite to_UINT4_small; lia. }
  assert (Hr : 0 <= strlen stored + 1 < 2 ^ 32).
  { fold stored in L. unfold strlen, UINT4_MOD in *. lia. }
  destruct (pad_len_of_spec _ Hr) as [Hp Hp8].
  split; [|split; [|split]].
  - exists (rawheader_bytes
              (set_crc64 (fill_rawheader sft (Z.of_nat (List.length data))
                                         (comment_len_of sft SFTcomment)
                                         (pad_len_of (comment_len_of sft SFTcomment)))
                 (calc_crc64 (Some (payload_bytes data))
                    (to_UINT4 (Z.of_nat (List.length data) * 8))
                    (calc_crc64 (Some (repeat NUL 7)) (pad_len_of (comment_len_of sft SFTcomment))
                       (calc_crc64 (Some (chars0 stored)) (comment_len_of sft SFTcomment)
                          (calc_crc64
                             (Some (rawheader_bytes
                                      (fill_rawheader sft (Z.of_nat (List.length data))
                                         (comment_len_of sft SFTcomment)
                                         (pad_len_of (comment_len_of sft SFTcomment)))))
                             sizeof_rawheader ALL_ONES)))))),
           (Z.to_nat (pad_len_of (strlen stored + 1))), (payload_bytes data).
    split; [|split; [|split]].
    + unfold SFT_block. fold stored. rewrite Ec. do 2 f_equal.
      f_equal; [|f_equal].
      * apply firstn_all2. apply Nat2Z.inj_le. rewrite length_chars0, Z2Nat.id; lia.
      * apply firstn_repeat. lia.
    + apply length_rawheader_bytes.
    + lia.
    + rewrite Z2Nat.id by lia. exact Hp8.
  - exact Es.
  - rewrite Es. apply prefix_append.
  - intros c -> E. apply (f_equal strlen) in E. rewrite Es in E.
    rewrite !strlen_append in E. change (strlen "; ") with 2 in E. unfold strlen in E. lia.
Qed.


(** The frequency fields of an SFT lie on the bin grid of its stored time
    baseline: they are what the stored [tbase] and [first_frequency_index]
    decode to (as the fields of every decoded header are). *)
Definition on_bin_grid (sft : SFTtype) : Prop :=
  (1 / TSFTfromDFreq (sft_deltaF sft))%float = sft_deltaF sft /\
  (REAL8_of_Z (to_INT4 (lround (sft_f0 sft / sft_deltaF sft)%float))
   / TSFTfromDFreq (sft_deltaF sft))%float = sft_f0 sft.

(** C1 (as amended).  For every storable SFT, the block written by
    [XLALWriteSFT2fp] (anywhere in a stream) carries a checksum that
    validates.  The header reader finds in it the frequency fields the
    stored time baseline and first bin index decode to, [1 / tbase] and
    [first_frequency_index / tbase]: it refuses the block when these are
    not a positive [deltaF] and a non-negative [f0], and otherwise returns
    the same detector and epoch with these two values, version 2, the
    sample count, the checksum the writer computed and the composed
    comment (detector name, then ["; "] and the caller's comment), leaving
    the stream at the payload bytes written.  The header read is the
    header written exactly when the SFT lies on the bin grid. *)
Theorem SFT_write_read_roundtrip sft data SFTcomment pre post out :
  storable sft data SFTcomment ->
  XLALWriteSFT2fp (Some sft) (Some pre) SFTcomment = XLAL_OK out ->
  let fp := mkFILE (out ++ post) (Z.of_nat (List.length pre)) in
  let tbase := TSFTfromDFreq (sft_deltaF sft) in
  let deltaF' := (1 / tbase)%float in
  let f0' := (REAL8_of_Z (to_INT4 (lround (sft_f0 sft / sft_deltaF sft)%float)) / tbase)%float in
  has_valid_v2_crc64 (Some fp) = 1 /\
  ((deltaF' <=? 0)%float || (f0' <? 0)%float = true ->
   read_sft_header_from_fp fp true = (None, fp)) /\
  ((deltaF' <=? 0)%float || (f0' <? 0)%float = false ->
   exists h fp',
     read_sft_header_from_fp fp true = (Some h, fp') /\
     hdr_header h = mkSFT (sft_name sft) (sft_epoch sft) f0' deltaF' None /\
     (hdr_header h = mkSFT (sft_name sft) (sft_epoch sft) (sft_f0 sft) (sft_deltaF sft) None
      <-> on_bin_grid sft) /\
     hdr_version h = 2 /\
     hdr_swapEndian h = false /\
     hdr_numBins h = Z.of_nat (List.length data) /\
     option_map cstring_of_buffer (hdr_SFTcomment h) = Some (composed_comment sft SFTcomment) /\
     hdr_crc64 h = block_crc sft data SFTcomment /\
     fst (fread (8 * hdr_numBins h) fp') = Some (payload_bytes data)).
Proof.
  intros ST W fp tbase deltaF' f0'.
  destruct (XLALWriteSFT2fp_inv _ _ _ _ W) as (data' & Ed & _ & _ & _ & _ & _ & _ & ->).
  rewrite (st_data _ _ _ ST) in Ed. injection Ed as <-.
  assert (Efp : fp = mkFILE (pre ++ SFT_block sft data SFTcomment ++ post)
                            (Z.of_nat (List.length pre))).
  { unfold fp. now rewrite <- app_assoc. }
  rewrite Efp. split; [|split].
  - apply (has_valid_v2_crc64_block sft data SFTcomment ST).
  - intro G. apply (read_sft_header_from_fp_block_refused sft data SFTcomment ST). exact G.
  - intro G. apply orb_false_elim in G. destruct G as [Gd Gf].
    eexists. eexists.
    split; [apply (read_sft_header_from_fp_block sft data SFTcomment ST pre post);
            [exact Gd | exact Gf]|].
    cbn [hdr_header hdr_version hdr_swapEndian hdr_numBins hdr_SFTcomment hdr_crc64 option_map].
    split; [reflexivity|]. split; [|repeat split].
    + unfold decoded_header, on_bin_grid. fold tbase. fold f0'. fold deltaF'. split.
      * intro E. injection E as E1 E2. split; assumption.
      * intros [E1 E2]. now rewrite E1, E2.
    + f_equal. unfold chars0. rewrite <- app_assoc. cbn [app].
      apply cstring_of_buffer_chars0, (no_NUL_composed sft data SFTcomment ST).
    + apply (fread_payload_block sft data SFTcomment ST).
Qed.

(** C6.  Checksum validation reports a mismatch as a result value: for a
    catalog whose (version 2) SFT files can be opened, the status is
    [XLAL_SUCCESS] whether or not the checksums validate, and [crc_check]
    is true exactly when no block fails [has_valid_v2_crc64]. *)
Theorem XLALCheckCRCSFTCatalog_reports_mismatch fs catalog :
  Forall (fun d => desc_version d = 1 \/
                   (desc_version d = 2 /\
                    fopen_SFTLocator fs (Some (desc_locator d)) <> None)) catalog ->
  XLALCheckCRCSFTCatalog fs catalog =
  (XLAL_SUCCESS,
   forallb (fun d => (desc_version d =? 1) ||
                     negb (has_valid_v2_crc64 (fopen_SFTLocator fs (Some (desc_locator d))) =? 0))
           catalog).
Proof.
  unfold XLALCheckCRCSFTCatalog.
  induction 1 as [|d rest Hd _ IH]; [reflexivity|].
  cbn [XLALCheckCRCSFTCatalog_loop forallb].
  destruct Hd as [E1|[E2 Hopen]].
  - rewrite E1. cbn [Z.eqb orb andb]. exact IH.
  - rewrite E2. cbn [Z.eqb orb].
    destruct (fopen_SFTLocator fs (Some (desc_locator d))) as [fp|]; [|contradiction].
    destruct (has_valid_v2_crc64 (Some fp) =? 0); cbn [negb andb]; [reflexivity | exact IH].
Qed.

End WriterProperties.

(** ** Evaluation at sample inputs *)

Lemma sample_SFT_storable :
  storable (U := reference_SFTutils) sample_SFT sample_bins (Some "hello"%string).
Proof.
  constructor; try reflexivity;
    first [ unfold no_NUL; cbn; repeat constructor; discriminate
          | split; reflexivity
          | cbn; lia ].
Defined.

Lemma sample_SFT_on_bin_grid : on_bin_grid (U := reference_SFTutils) sample_SFT.
Proof. split; vm_compute; reflexivity. Defined.

Lemma SFT_write_read_roundtrip_witness :
  exists h fp',
    read_sft_header_from_fp (U := reference_SFTutils)
      (mkFILE (SFT_block (U := reference_SFTutils) sample_SFT sample_bins (Some "hello"%string) ++ [])
              0) true = (Some h, fp') /\
    hdr_header h = mkSFT "H1" (mkGPS 1000000000 0) 10%float (1 / 1800)%float None /\
    option_map cstring_of_buffer (hdr_SFTcomment h) = Some "H1; hello"%string /\
    has_valid_v2_crc64 (U := reference_SFTutils)
      (Some (mkFILE (SFT_block (U := reference_SFTutils) sample_SFT sample_bins (Some "hello"%string) ++ []) 0)) = 1.
Proof.
  destruct (SFT_write_read_roundtrip (U := reference_SFTutils)
              sample_SFT sample_bins (Some "hello"%string) [] []
              (SFT_block (U := reference_SFTutils) sample_SFT sample_bins (Some "hello"%string))
              sample_SFT_storable eq_refl)
    as (V & _ & A).
  destruct (A eq_refl) as (h & fp' & R & Hh & _ & _ & _ & _ & C & _).
  exists h, fp'. repeat split; assumption.
Defined.

(** C1 as stated fails: the comment read back from a written SFT is not
    the caller's comment; a start frequency off the bin grid is read back
    as another number; and an SFT the writer accepts can decode to a
    [deltaF] the reader refuses. *)
Lemma SFT_roundtrip_counterexample :
  (exists out h fp',
    XLALWriteSFT2fp (U := reference_SFTutils) (Some sample_SFT) (Some []) (Some "hello"%string)
      = XLAL_OK out /\
    read_sft_header_from_fp (U := reference_SFTutils) (mkFILE out 0) true = (Some h, fp') /\
    option_map cstring_of_buffer (hdr_SFTcomment h) = Some "H1; hello"%string /\
    option_map cstring_of_buffer (hdr_SFTcomment h) <> Some "hello"%string) /\
  (exists out h fp',
    XLALWriteSFT2fp (U := reference_SFTutils) (Some off_grid_SFT) (Some []) None = XLAL_OK out /\
    read_sft_header_from_fp (U := reference_SFTutils) (mkFILE out 0) true = (Some h, fp') /\
    sft_f0 (hdr_header h) = (18092 / 1800)%float /\
    (sft_f0 off_grid_SFT <? sft_f0 (hdr_header h))%float = true) /\
  (exists out,
    XLALWriteSFT2fp (U := reference_SFTutils) (Some tiny_deltaF_SFT) (Some []) None = XLAL_OK out /\
    read_sft_header_from_fp (U := reference_SFTutils) (mkFILE out 0) true
      = (None, mkFILE out 0)).
Proof.
  split; [|split].
  - eexists. eexists. eexists.
    split; [reflexivity|].
    split; [vm_compute; reflexivity|].
    split; [vm_compute; reflexivity|].
    vm_compute. discriminate.
  - eexists. eexists. eexists.
    split; [reflexivity|].
    split; [vm_compute; reflexivity|].
    split; vm_compute; reflexivity.
  - eexists. split; [reflexivity|]. vm_compute. reflexivity.
Qed.

Lemma XLALWriteSFT2fp_comment_field_witness :
  String.prefix "H1" (composed_comment sample_SFT (Some "hello"%string)) = true /\
  composed_comment sample_SFT (Some "hello"%string) <> "hello"%string.
Proof.
  destruct (XLALWriteSFT2fp_comment_field (U := reference_SFTutils)
              sample_SFT [] (Some "hello"%string)
              (SFT_block (U := reference_SFTutils) sample_SFT sample_bins (Some "hello"%string))
              eq_refl eq_refl) as (_ & _ & P & N).
  split; [exact P | exact (N _ eq_refl)].
Defined.

(* ------------------------------------------------------------------ *)
(** ** Sorting *)

Section Qsort.
Variable A : Type.
Variable compar : A -> A -> Z.

Definition ascending (a b : A) : Prop := compar a b <= 0.

Hypothesis compar_total : forall a b, 0 < compar a b -> compar b a <= 0.

Lemma qsort_insert_perm x l : Permutation (x :: l) (qsort_insert compar x l).
Proof.
  induction l as [|y r IH]; cbn [qsort_insert]; [reflexivity|].
  destruct (compar x y <=? 0); [reflexivity|].
  rewrite perm_swap. now apply perm_skip.
Qed.

Lemma qsort_perm l : Permutation l (qsort compar l).
Proof.
  induction l as [|x l IH]; cbn [qsort fold_right]; [reflexivity|].
  rewrite <- qsort_insert_perm. now apply perm_skip.
Qed.

Lemma qsort_insert_HdRel a x l :
  ascending a x -> HdRel ascending a l -> HdRel ascending a (qsort_insert compar x l).
Proof.
  intros Hax Hal. destruct l as [|y r]; cbn [qsort_insert]; [now constructor|].
  destruct (compar x y <=? 0); constructor; [exact Hax|].
  now inversion Hal.
Qed.

Lemma qsort_insert_sorted x l :
  Sorted ascending l -> Sorted ascending (qsort_insert compar x l).
Proof.
  induction 1 as [|y r Hr IH Hy]; cbn [qsort_insert].
  - repeat constructor.
  - destruct (Z.leb_spec (compar x y) 0) as [Hle|Hgt].
    + constructor; [now constructor | now constructor].
    + constructor; [exact IH|].
      apply qsort_insert_HdRel; [|exact Hy].
      apply compar_total. lia.
Qed.

Lemma qsort_sorted l : Sorted ascending (qsort compar l).
Proof.
  induction l as [|x l IH]; cbn [qsort fold_right]; [constructor|].
  now apply qsort_insert_sorted.
Qed.

End Qsort.

Lemma strcmp_total a b : 0 < strcmp a b -> strcmp b a <= 0.
Proof.
  unfold strcmp. rewrite (String.compare_antisym b a).
  destruct (String.compare a b); cbn; lia.
Qed.

Lemma XLALSortStringVector_sorted v :
  Sorted (ascending string strcmp) (XLALSortStringVector v).
Proof. apply qsort_sorted, strcmp_total. Qed.

Lemma XLALSortStringVector_perm v : Permutation v (XLALSortStringVector v).
Proof. apply qsort_perm. Qed.

Lemma string_compare_le_trans a :
  forall b c, String.compare a b <> Gt -> String.compare b c <> Gt -> String.compare a c <> Gt.
Proof.
  induction a as [|x a IH]; intros [|y b] [|z c]; cbn [String.compare];
    try congruence.
  unfold Ascii.compare.
  destruct (N.compare_spec (N_of_ascii x) (N_of_ascii y)) as [Exy|Lxy|Gxy];
    destruct (N.compare_spec (N_of_ascii y) (N_of_ascii z)) as [Eyz|Lyz|Gyz];
    try congruence; intros H1 H2.
  - rewrite Exy, Eyz, N.compare_refl. now apply (IH b c).
  - rewrite Exy. apply N.compare_lt_iff in Lyz. now rewrite Lyz.
  - rewrite <- Eyz. apply N.compare_lt_iff in Lxy. now rewrite Lxy.
  - assert (L : (N_of_ascii x < N_of_ascii z)%N) by lia.
    apply N.compare_lt_iff in L. now rewrite L.
Qed.

Lemma strcmp_trans a b c : strcmp a b <= 0 -> strcmp b c <= 0 -> strcmp a c <= 0.
Proof.
  unfold strcmp. intros H1 H2.
  pose proof (string_compare_le_trans a b c) as T.
  destruct (String.compare a b); destruct (String.compare b c);
    destruct (String.compare a c); try lia; exfalso; apply T; congruence.
Qed.

Lemma XLALSortStringVector_strongly_sorted v :
  StronglySorted (ascending string strcmp) (XLALSortStringVector v).
Proof.
  apply Sorted_StronglySorted; [|apply XLALSortStringVector_sorted].
  intros a b c. apply strcmp_trans.
Qed.

(* ------------------------------------------------------------------ *)
(** ** The glob matcher always answers *)

Lemma length_skip_stars p : (List.length (skip_stars p) <= List.length p)%nat.
Proof.
  induction p as [|c r IH]; cbn [skip_stars]; [lia|].
  destruct (char_eqb c ch_star); cbn [List.length]; lia.
Qed.

Lemma length_skip_to_rbracket p : (List.length (skip_to_rbracket p) <= List.length p)%nat.
Proof.
  induction p as [|c r IH]; cbn [skip_to_rbracket]; [lia|].
  destruct (char_eqb c ch_rbracket); cbn [List.length]; lia.
Qed.

Lemma cset_loop_unfold s p :
  cset_loop s p =
  match p with
  | [] => Cset_done false []
  | c :: p1 =>
    match p1 with
    | [] => Cset_return_FALSE
    | d :: p2 =>
      if char_eqb d ch_hyphen then
        match p2 with
        | [] => Cset_return_FALSE
        | e :: _ =>
          if negb (char_eqb e ch_rbracket) then
            if char_eqb s c || char_eqb s e || ((schar c <? schar s) && (schar s <? schar e))
            then Cset_done true p2
            else cset_loop s p2
          else Cset_done (schar c <=? schar s) p2
        end
      else
        if negb (char_eqb d ch_rbracket) then
          if char_eqb c s || char_eqb d s then Cset_done true p1
          else cset_loop s p1
        else Cset_done (char_eqb c s) p1
    end
  end.
Proof. destruct p; reflexivity. Qed.

Lemma length_cset_loop_bounded s n : forall p m p',
  (List.length p <= n)%nat ->
  cset_loop s p = Cset_done m p' -> (List.length p' <= List.length p)%nat.
Proof.
  induction n as [|n IHn]; intros p m p' Hn.
  { destruct p; [|cbn in Hn; lia]. cbn. intro H; injection H as <- <-. cbn; lia. }
  assert (IH : forall q, (List.length q < List.length p)%nat ->
                forall m p', cset_loop s q = Cset_done m p' ->
                             (List.length p' <= List.length q)%nat).
  { intros q Hq m0 p0. apply IHn. lia. }
  clear IHn Hn. rewrite cset_loop_unfold.
  destruct p as [|c [|d [|e p3]]];
    repeat match goal with
           | |- context [if ?b then _ else _] => destruct b
           end;
    intro H;
    first [ discriminate H
          | injection H as <- <-; cbn [List.length]; lia
          | apply IH in H; cbn [List.length] in *; lia ].
Qed.

Lemma length_cset_loop s p m p' :
  cset_loop s p = Cset_done m p' -> (List.length p' <= List.length p)%nat.
Proof. apply (length_cset_loop_bounded s (List.length p)). lia. Qed.

Lemma amatch_fuel_total fuel : forall str p,
  (List.length p < fuel)%nat -> exists b, amatch_fuel fuel str p = Some b.
Proof.
  induction fuel as [|fuel IH]; intros str p Hf; [lia|].
  cbn [amatch_fuel]. destruct p as [|c p1]; [eauto|].
  cbn [List.length] in Hf.
  destruct ((match str with [] => true | _ => false end) && negb (char_eqb c ch_star));
    [eauto|].
  destruct (char_eqb c ch_star).
  { pose proof (length_skip_stars p1) as Hs.
    destruct (skip_stars p1) as [|d p2] eqn:Ep; [eauto|].
    set (str1 := if negb (char_eqb d ch_question) && negb (char_eqb d ch_lbracket)
                    && negb (char_eqb d ch_backslash)
                 then skip_to_char d str else str).
    clearbody str1. induction str1 as [|x r IHr]; [eauto|].
    destruct (IH (x :: r) (d :: p2)) as [b Hb]; [lia|].
    rewrite Hb. destruct b; [eauto | exact IHr]. }
  destruct (char_eqb c ch_question).
  { destruct str as [|x str']; [eauto|]. apply IH. lia. }
  destruct (char_eqb c ch_lbracket).
  { set (negate := char_eqb (hd NUL p1) NEGATE).
    set (p2 := if negate then tl p1 else p1).
    assert (H2 : (List.length p2 <= List.length p1)%nat).
    { unfold p2. destruct negate; [|lia]. destruct p1; cbn; lia. }
    destruct (cset_loop (hd NUL str) p2) as [|m p3] eqn:Ec; [eauto|].
    apply length_cset_loop in Ec.
    destruct (Bool.eqb negate m); [eauto|].
    pose proof (length_skip_to_rbracket p3) as H3.
    destruct (skip_to_rbracket p3) as [|y p4]; [eauto|].
    apply IH. cbn [List.length] in H3. lia. }
  destruct (char_eqb c ch_backslash).
  - destruct p1 as [|e r].
    + destruct (negb (char_eqb c (hd NUL str))); [eauto|]. apply IH. cbn; lia.
    + destruct (negb (char_eqb e (hd NUL str))); [eauto|]. apply IH. cbn [List.length] in *; lia.
  - destruct (negb (char_eqb c (hd NUL str))); [eauto|]. apply IH. lia.
Qed.

(** [amatch] is the answer of the fuelled matcher for any sufficient fuel. *)
Lemma amatch_defined str p :
  amatch_fuel (S (List.length (chars p))) (chars str) (chars p) = Some (amatch str p).
Proof.
  unfold amatch.
  destruct (amatch_fuel_total (S (List.length (chars p))) (chars str) (chars p)) as [b ->];
    [lia | reflexivity].
Qed.

(* ------------------------------------------------------------------ *)
(** ** The file resolver *)

Lemma finish_filelist_OK filelist files :
  finish_filelist filelist = XLAL_OK files ->
  StronglySorted (ascending string strcmp) files /\ files <> [] /\
  Permutation filelist files.
Proof.
  unfold finish_filelist. destruct filelist as [|x [|y r]]; intro H.
  - discriminate H.
  - injection H as <-. repeat split; [repeat constructor | discriminate | reflexivity].
  - assert (E : XLALSortStringVector (x :: y :: r) = files) by congruence.
    clear H. rewrite <- E. clear E. repeat split.
    + apply XLALSortStringVector_strongly_sorted.
    + intro E. pose proof (XLALSortStringVector_perm (x :: y :: r)) as P.
      rewrite E in P. apply Permutation_sym, Permutation_nil in P. discriminate P.
    + apply XLALSortStringVector_perm.
Qed.

Lemma XLALFindFiles_rec_OK depth disk globstring files :
  XLALFindFiles_rec depth disk globstring = XLAL_OK files ->
  StronglySorted (ascending string strcmp) files /\ files <> [].
Proof.
  destruct depth as [|depth]; cbn [XLALFindFiles_rec]; [discriminate|].
  intro H.
  assert (F : exists filelist, finish_filelist filelist = XLAL_OK files).
  { destruct (has_char FILE_SEPARATOR globstring).
    - destruct (multi_pattern_loop _ _ _) as [filelist|e]; [eauto | discriminate H].
    - destruct (String.prefix LIST_PREFIX globstring).
      + destruct (disk_list_lines disk _) as [[|t ts]|]; try discriminate H. eauto.
      + destruct (is_pattern globstring); [|eauto].
        destruct (split_last DIR_SEPARATOR globstring) as [[d f]|];
          destruct (disk_readdir disk _); try discriminate H; eauto. }
  destruct F as [filelist F]. apply finish_filelist_OK in F. tauto.
Qed.

(** Patterns cut out at the separator hold no separator. *)
Lemma split_on_no_separator sep s :
  Forall (fun piece => has_char sep piece = false) (split_on sep s).
Proof.
  induction s as [|a r IH]; cbn [split_on].
  - repeat constructor.
  - destruct (Ascii.eqb a sep) eqn:E.
    + constructor; [reflexivity | exact IH].
    + destruct (split_on sep r) as [|x xs].
      * repeat constructor. unfold has_char. cbn. rewrite Ascii.eqb_sym, E. reflexivity.
      * inversion IH as [|? ? Hx Hxs]; subst. constructor; [|exact Hxs].
        unfold has_char in *. cbn. rewrite Ascii.eqb_sym, E. exact Hx.
Qed.

Lemma XLALFindFiles_rec_no_separator n disk s :
  has_char FILE_SEPARATOR s = false ->
  XLALFindFiles_rec (S n) disk s = XLALFindFiles_rec 1 disk s.
Proof. intro H. cbn [XLALFindFiles_rec]. now rewrite H. Qed.

Lemma multi_pattern_loop_ext self1 self2 patterns :
  Forall (fun p => self1 p = self2 p) patterns ->
  forall filelist, multi_pattern_loop self1 patterns filelist
                   = multi_pattern_loop self2 patterns filelist.
Proof.
  induction 1 as [|p rest Hp Hrest IH]; intro filelist; [reflexivity|].
  cbn [multi_pattern_loop]. rewrite Hp. destruct rest as [|q rest'].
  - reflexivity.
  - destruct (self2 p); [apply IH | reflexivity].
Qed.

(** Two levels of calls are all [XLALFindFiles] ever nests: a deeper bound
    gives the same result, so the bound is never what ends a call. *)
Lemma XLALFindFiles_depth n disk globstring :
  XLALFindFiles_rec (S (S n)) disk globstring = XLALFindFiles disk globstring.
Proof.
  unfold XLALFindFiles.
  destruct (has_char FILE_SEPARATOR globstring) eqn:E.
  - cbn [XLALFindFiles_rec]. rewrite E.
    rewrite (multi_pattern_loop_ext (XLALFindFiles_rec (S n) disk) (XLALFindFiles_rec 1 disk)).
    + reflexivity.
    + eapply Forall_impl; [|apply split_on_no_separator].
      intros p Hp. now apply XLALFindFiles_rec_no_separator.
  - rewrite (XLALFindFiles_rec_no_separator (S n) disk globstring E).
    now rewrite (XLALFindFiles_rec_no_separator 1 disk globstring E).
Qed.

(** C4 (as amended).  For every file pattern, a list returned by
    [XLALFindFiles] is sorted (in [strcmp] order, repeated paths kept) and
    is not empty: when no path resolves the call fails with an error. *)
Theorem XLALFindFiles_sorted_nonempty disk globstring files :
  XLALFindFiles disk globstring = XLAL_OK files ->
  StronglySorted (ascending string strcmp) files /\ files <> [].
Proof.
  unfold XLALFindFiles. intro H. split.
  - exact (proj1 (XLALFindFiles_rec_OK 2 disk globstring files H)).
  - exact (proj2 (XLALFindFiles_rec_OK 2 disk globstring files H)).
Qed.

(* ------------------------------------------------------------------ *)
(** ** The catalog builder *)

Lemma fread_Some n fp l fp' :
  fread n fp = (Some l, fp') ->
  0 <= fpos fp /\ fpos fp' = fpos fp + n /\ contents fp' = contents fp /\
  fpos fp + n <= file_length fp.
Proof.
  unfold fread.
  destruct (Z.leb_spec 0 (fpos fp)) as [H0|]; [|discriminate].
  destruct (Z.leb_spec (fpos fp + n) (file_length fp)) as [H1|]; [|discriminate].
  cbn [andb]. intro H. injection H as _ <-. cbn [fpos contents]. auto.
Qed.

Lemma fseek_SET_Some fp off fp' :
  fseek_SET fp off = Some fp' -> fpos fp' = off /\ contents fp' = contents fp /\ 0 <= off.
Proof.
  unfold fseek_SET. destruct (Z.ltb_spec off 0) as [|H0]; [discriminate|].
  intro H. injection H as <-. cbn. auto.
Qed.

Section Advance.
Context {U : SFTutils}.

Lemma read_SFTversion_from_fp_Some fp r fp' :
  read_SFTversion_from_fp fp = (Some r, fp') ->
  fpos fp' = fpos fp /\ contents fp' = contents fp.
Proof.
  unfold read_SFTversion_from_fp, ftell.
  destruct (fpos fp =? -1); [discriminate|].
  destruct (fread 8 fp) as [[ver|] fp1] eqn:R; [|discriminate].
  apply fread_Some in R. destruct R as (_ & _ & C1 & _).
  destruct (match_version ver SFT_versions); [|discriminate].
  destruct (fseek_SET fp1 (fpos fp)) as [fp2|] eqn:S; [|discriminate].
  apply fseek_SET_Some in S. destruct S as (P2 & C2 & _).
  intro H. injection H as _ <-. split; congruence.
Qed.

Lemma read_v2_header_from_fp_Some fp swap r fp' :
  read_v2_header_from_fp fp swap = (Some r, fp') ->
  fpos fp + sizeof_rawheader <= fpos fp' /\ contents fp' = contents fp /\
  0 < v2_nsamples r < 2 ^ 31.
Proof.
  unfold read_v2_header_from_fp, ftell.
  destruct (fpos fp =? -1); [discriminate|].
  destruct (fread sizeof_rawheader fp) as [[img|] fp1] eqn:R; [|discriminate].
  apply fread_Some in R. destruct R as (P0 & P1 & C1 & _).
  set (raw := rawheader_of_bytes swap img).
  destruct (negb (raw_version raw =? 2)%float); [discriminate|].
  destruct (Z.leb_spec (raw_nsamples raw) 0) as [|Hn]; [discriminate|].
  destruct (Z.ltb_spec (raw_comment_length raw) 0) as [|Hc]; [discriminate|].
  destruct (negb (Z.rem (raw_comment_length raw) 8 =? 0)); [discriminate|].
  destruct (negb (XLALIsValidCWDetector (detector_cstring raw))); [discriminate|].
  assert (Hr : 0 < to_UINT4 (raw_nsamples raw) < 2 ^ 31).
  { assert (raw_nsamples raw < 2 ^ 31).
    { unfold raw, rawheader_of_bytes. cbn [raw_nsamples]. apply to_INT4_range. }
    rewrite to_UINT4_small; lia. }
  destruct (Z.eqb_spec (raw_comment_length raw) 0).
  - intro H. injection H as <- <-. cbn [v2_nsamples].
    split; [lia|]. split; [exact C1|]. exact Hr.
  - destruct (fread (raw_comment_length raw) fp1) as [[comm|] fp2] eqn:R2; [|discriminate].
    apply fread_Some in R2. destruct R2 as (_ & P2 & C2 & _).
    destruct (negb (is_NUL (last comm NUL))); [discriminate|].
    destruct (negb (only_NUL_after_end comm)); [discriminate|].
    intro H. injection H as <- <-. cbn [v2_nsamples].
    split; [lia|]. split; [congruence|]. exact Hr.
Qed.

Lemma read_sft_header_from_fp_Some fp want h fp' :
  read_sft_header_from_fp fp want = (Some h, fp') ->
  fpos fp + sizeof_rawheader <= fpos fp' /\ contents fp' = contents fp /\
  hdr_version h = 2 /\ 0 < hdr_numBins h < 2 ^ 31.
Proof.
  unfold read_sft_header_from_fp, ftell.
  destruct (fpos fp =? -1); [discriminate|].
  destruct (read_SFTversion_from_fp fp) as [[[ver swap]|] fp1] eqn:V; [|discriminate].
  apply read_SFTversion_from_fp_Some in V. destruct V as [P1 C1].
  destruct (Z.eqb_spec ver 2) as [->|]; [|discriminate].
  destruct (read_v2_header_from_fp fp1 swap) as [[r|] fp2] eqn:R; [|discriminate].
  apply read_v2_header_from_fp_Some in R. destruct R as (P2 & C2 & N).
  destruct (_ || _); [discriminate|].
  destruct (_ <=? _)%float; [discriminate|].
  destruct (_ <? _)%float; [discriminate|].
  intro H. injection H as <- <-. cbn [hdr_version hdr_numBins].
  split; [lia|]. split; [congruence|]. split; [reflexivity|]. exact N.
Qed.

End Advance.

Lemma compareSFTdesc_total a b : 0 < compareSFTdesc a b -> compareSFTdesc b a <= 0.
Proof.
  unfold compareSFTdesc.
  set (ea := GPS2REAL8 (sft_epoch (desc_header a))).
  set (eb := GPS2REAL8 (sft_epoch (desc_header b))).
  destruct (ea <? eb)%float eqn:E1; [lia|].
  destruct (eb <? ea)%float eqn:E2; [lia|].
  destruct (sft_f0 (desc_header a) <? sft_f0 (desc_header b))%float eqn:E3; [lia|].
  destruct (sft_f0 (desc_header b) <? sft_f0 (desc_header a))%float eqn:E4; lia.
Qed.

(** The order of REAL8 numbers: [x < y] excludes [y <= x] and [y < x]. *)
Lemma SFcompare_Lt_swap (x y : spec_float) :
  SFcompare x y = Some Lt -> SFcompare y x = Some Gt.
Proof.
  destruct x as [sx|sx| |sx mx ex], y as [sy|sy| |sy my ey]; cbn;
    try discriminate; try reflexivity;
    try (destruct sx; discriminate || reflexivity);
    try (destruct sy; discriminate || reflexivity);
    try (destruct sx, sy; discriminate || reflexivity).
  intros H. rewrite (Z.compare_antisym ex ey).
  change (Pos.compare_cont Eq my mx) with (Pos.compare_cont (CompOpp Eq) my mx).
  rewrite <- (Pos.compare_cont_antisym mx my Eq).
  destruct sx, sy; try discriminate; try reflexivity;
    destruct (ex ?= ey); cbn in *; try discriminate; try reflexivity;
    injection H as H; destruct (Pos.compare_cont Eq mx my); cbn in *;
    discriminate || reflexivity.
Qed.

Lemma REAL8_ltb_swap (x y : float) :
  (x <? y)%float = true -> (y <=? x)%float = false /\ (y <? x)%float = false.
Proof.
  rewrite !FloatAxioms.ltb_spec, FloatAxioms.leb_spec. unfold SFltb, SFleb.
  destruct (SFcompare (Prim2SF x) (Prim2SF y)) as [[| |]|] eqn:E; try discriminate.
  intros _. now rewrite (SFcompare_Lt_swap _ _ E).
Qed.

Lemma REAL8_ltb_irrefl (x : float) : (x <? x)%float = false.
Proof.
  destruct (x <? x)%float eqn:E; [|reflexivity].
  destruct (REAL8_ltb_swap x x E) as [_ E']. congruence.
Qed.

(** Neighbours in a list sorted by a relation are related. *)
Lemma Sorted_neighbours {A : Type} (R : A -> A -> Prop) (l : list A) :
  Sorted R l ->
  forall i a b, nth_error l i = Some a -> nth_error l (S i) = Some b -> R a b.
Proof.
  induction 1 as [|x l Hl IH Hx]; intros i a b Ha Hb.
  - destruct i; discriminate.
  - destruct i as [|i].
    + cbn in Ha, Hb. injection Ha as <-.
      destruct l as [|y l]; [discriminate|]. cbn in Hb. injection Hb as <-.
      apply HdRel_inv in Hx. exact Hx.
    + cbn in Ha. exact (IH i a b Ha Hb).
Qed.

(** What [compareSFTdesc(a, b) <= 0] says of the fields compared. *)
Lemma compareSFTdesc_ascending a b :
  compareSFTdesc a b <= 0 ->
  let ea := GPS2REAL8 (sft_epoch (desc_header a)) in
  let eb := GPS2REAL8 (sft_epoch (desc_header b)) in
  (ea <? eb)%float = true \/
  ((ea <? eb)%float = false /\ (eb <? ea)%float = false /\
   (sft_f0 (desc_header b) <? sft_f0 (desc_header a))%float = false).
Proof.
  unfold compareSFTdesc. cbv zeta. intros H.
  set (ea := GPS2REAL8 (sft_epoch (desc_header a))) in *.
  set (eb := GPS2REAL8 (sft_epoch (desc_header b))) in *.
  destruct (ea <? eb)%float; [now left|]. right.
  destruct (eb <? ea)%float; [lia|].
  destruct (sft_f0 (desc_header a) <? sft_f0 (desc_header b))%float eqn:E.
  - split; [reflexivity|]. split; [reflexivity|]. exact (proj2 (REAL8_ltb_swap _ _ E)).
  - destruct (sft_f0 (desc_header b) <? sft_f0 (desc_header a))%float; [lia|]. auto.
Qed.

(** What [consistent_mSFT_header] has checked when it answers TRUE. *)
Lemma consistent_mSFT_header_true header1 version1 nsamples1 header2 version2 nsamples2 :
  consistent_mSFT_header header1 version1 nsamples1 header2 version2 nsamples2 = true ->
  name_char header1 0 = name_char header2 0 /\
  name_char header1 1 = name_char header2 1 /\
  version1 = version2 /\
  (GPS2REAL8 (sft_epoch header2) <=? GPS2REAL8 (sft_epoch header1))%float = false /\
  (sft_deltaF header1 =? sft_deltaF header2)%float = true /\
  (sft_f0 header1 =? sft_f0 header2)%float = true /\
  nsamples1 = nsamples2.
Proof.
  unfold consistent_mSFT_header, char_eqb.
  destruct (Byte.eqb (name_char header1 0) (name_char header2 0)) eqn:N0; [|discriminate].
  destruct (Byte.eqb (name_char header1 1) (name_char header2 1)) eqn:N1; [|discriminate].
  cbn [negb orb].
  destruct (Z.eqb_spec version1 version2) as [V|]; [|discriminate]. cbn [negb].
  destruct (GPS2REAL8 (sft_epoch header2) <=? GPS2REAL8 (sft_epoch header1))%float; [discriminate|].
  destruct (sft_deltaF header1 =? sft_deltaF header2)%float; [|discriminate].
  destruct (sft_f0 header1 =? sft_f0 header2)%float; [|discriminate]. cbn [negb].
  destruct (Z.eqb_spec nsamples1 nsamples2) as [N|]; [|discriminate].
  intros _. apply Byte.byte_dec_bl in N0, N1. auto 10.
Qed.

(** Two names of at most two characters are equal when their first two
    characters are. *)
Lemma short_names_equal (buf1 buf2 : list byte) :
  (List.length buf1 <= 2)%nat -> (List.length buf2 <= 2)%nat ->
  char_at (cstring_of_buffer buf1) 0 = char_at (cstring_of_buffer buf2) 0 ->
  char_at (cstring_of_buffer buf1) 1 = char_at (cstring_of_buffer buf2) 1 ->
  cstring_of_buffer buf1 = cstring_of_buffer buf2.
Proof.
  intros L1 L2.
  unfold char_at, chars0, chars, cstring_of_buffer.
  rewrite !list_byte_of_string_of_list_byte.
  assert (S : forall buf, (List.length buf <= 2)%nat ->
            until_NUL buf = [] \/
            (exists a, a <> NUL /\ until_NUL buf = [a]) \/
            (exists a b, a <> NUL /\ b <> NUL /\ until_NUL buf = [a; b])).
  { intros buf L. destruct buf as [|a [|b [|c r]]]; cbn [until_NUL]; [auto| | |cbn in L; lia].
    - destruct (is_NUL a) eqn:Ea; [auto|]. right. left. exists a. split; [|reflexivity].
      intros ->. discriminate.
    - destruct (is_NUL a) eqn:Ea; [auto|].
      assert (a <> NUL) by (intros ->; discriminate).
      destruct (is_NUL b) eqn:Eb; [right; left; eauto|].
      assert (b <> NUL) by (intros ->; discriminate).
      right. right. exists a, b. auto. }
  destruct (S buf1 L1) as [->|[(a1 & Na1 & ->)|(a1 & b1 & Na1 & Nb1 & ->)]];
    destruct (S buf2 L2) as [->|[(a2 & Na2 & ->)|(a2 & b2 & Na2 & Nb2 & ->)]];
    cbn [app nth]; intros E0 E1; try congruence.
Qed.

(** Two blocks that may follow one another in a merged file. *)
Definition consistent_blocks (b1 b2 : SFTtype * Z * Z) : Prop :=
  let '(header1, version1, nsamples1) := b1 in
  let '(header2, version2, nsamples2) := b2 in
  consistent_mSFT_header header1 version1 nsamples1 header2 version2 nsamples2 = true.

Section Scan.
Context {U : SFTutils}.

Definition with_previous (mprev : option (SFTtype * Z * Z)) (blocks : list (SFTtype * Z * Z)) :=
  match mprev with
  | Some b => b :: blocks
  | None => blocks
  end.

(** The scan never stops for lack of fuel when the fuel exceeds the bytes
    left in the file. *)
Lemma scan_SFT_blocks_total fuel : forall fname constraints fp file_len mprev ret,
  file_len - fpos fp < Z.of_nat fuel ->
  exists r, scan_SFT_blocks fuel fname constraints fp file_len mprev ret = Some r.
Proof.
  induction fuel as [|fuel IH]; intros fname constraints fp file_len mprev ret Hf;
    cbn [scan_SFT_blocks]; unfold ftell;
    destruct (Z.ltb_spec (fpos fp) file_len) as [Hlt|Hge]; cbn [negb]; eauto.
  - lia.
  - destruct (fpos fp =? -1); [eauto|].
    destruct (read_sft_header_from_fp fp true) as [[this|] fp1] eqn:R; [|eauto].
    apply read_sft_header_from_fp_Some in R. destruct R as (P1 & _ & _ & N).
    destruct (match mprev with Some _ => _ | None => false end); [eauto|].
    destruct (file_len <=? fpos fp1 + hdr_numBins this * 8); [eauto|].
    destruct (fseek_CUR fp1 (to_UINT4 (hdr_numBins this * 8))) as [fp2|] eqn:S; [|eauto].
    unfold fseek_CUR in S. apply fseek_SET_Some in S. destruct S as (P2 & _ & _).
    apply IH.
    assert (0 <= to_UINT4 (hdr_numBins this * 8)) by (apply Z.mod_pos_bound; unfold UINT4_MOD; lia).
    unfold sizeof_rawheader in P1. lia.
Qed.

(** A scan that succeeds has met only blocks that are consistent with
    their predecessor in the file. *)
Lemma scan_SFT_blocks_consistent fuel : forall fname constraints fp file_len mprev ret ret',
  scan_SFT_blocks fuel fname constraints fp file_len mprev ret = Some (XLAL_OK ret') ->
  Sorted consistent_blocks (with_previous mprev (SFT_blocks_from fuel fp file_len)).
Proof.
  induction fuel as [|fuel IH]; intros fname constraints fp file_len mprev ret ret';
    cbn [scan_SFT_blocks SFT_blocks_from];
    destruct (negb (ftell fp <? file_len)).
  - intros _. destruct mprev; cbn; repeat constructor.
  - discriminate.
  - intros _. destruct mprev; cbn; repeat constructor.
  - destruct (ftell fp =? -1); [discriminate|].
    destruct (read_sft_header_from_fp fp true) as [[this|] fp1] eqn:R; [|discriminate].
    destruct mprev as [[[ph pv] pn]|]; cbn [with_previous].
    + destruct (consistent_mSFT_header ph pv pn (hdr_header this) (hdr_version this)
                                       (hdr_numBins this)) eqn:C; [|discriminate].
      cbn [negb].
      destruct (file_len <=? ftell fp1 + hdr_numBins this * 8).
      * intros _. repeat constructor. exact C.
      * destruct (fseek_CUR fp1 (to_UINT4 (hdr_numBins this * 8))) as [fp2|]; [|discriminate].
        intro H. apply IH in H. cbn [with_previous] in H.
        constructor; [exact H|]. constructor. exact C.
    + destruct (file_len <=? ftell fp1 + hdr_numBins this * 8).
      * intros _. repeat constructor.
      * destruct (fseek_CUR fp1 (to_UINT4 (hdr_numBins this * 8))) as [fp2|]; [|discriminate].
        intro H. apply IH in H. exact H.
Qed.

(** What a successful scan adds to the descriptors collected so far. *)
Lemma scan_SFT_blocks_appends fuel : forall fname constraints fp file_len mprev ret ret',
  scan_SFT_blocks fuel fname constraints fp file_len mprev ret = Some (XLAL_OK ret') ->
  exists new, ret' = ret ++ new /\
    Forall (fun d => loc_fname (desc_locator d) = fname /\ desc_version d = 2 /\
                     want_this_block constraints (desc_header d) = true) new.
Proof.
  induction fuel as [|fuel IH]; intros fname constraints fp file_len mprev ret ret';
    cbn [scan_SFT_blocks];
    destruct (negb (ftell fp <? file_len)).
  - intro H. injection H as <-. exists []. now rewrite app_nil_r.
  - discriminate.
  - intro H. injection H as <-. exists []. now rewrite app_nil_r.
  - destruct (ftell fp =? -1); [discriminate|].
    destruct (read_sft_header_from_fp fp true) as [[this|] fp1] eqn:R; [|discriminate].
    apply read_sft_header_from_fp_Some in R. destruct R as (_ & _ & V & _).
    destruct (match mprev with Some _ => _ | None => false end); [discriminate|].
    set (d := mkDesc (mkLocator fname (ftell fp) 0) (hdr_header this) (hdr_SFTcomment this)
                     (hdr_numBins this) (hdr_version this) (hdr_crc64 this)).
    assert (Hd : forall rest, Forall (fun d => loc_fname (desc_locator d) = fname /\ desc_version d = 2 /\
                     want_this_block constraints (desc_header d) = true) rest ->
              exists new, (if want_this_block constraints (hdr_header this) then ret ++ [d] else ret) ++ rest
                          = ret ++ new /\
                Forall (fun d => loc_fname (desc_locator d) = fname /\ desc_version d = 2 /\
                     want_this_block constraints (desc_header d) = true) new).
    { intros rest Hrest. destruct (want_this_block constraints (hdr_header this)) eqn:W.
      - exists (d :: rest). split; [now rewrite <- app_assoc|].
        constructor; [|exact Hrest]. cbn. auto.
      - exists rest. auto. }
    destruct (file_len <=? ftell fp1 + hdr_numBins this * 8).
    + intro H. injection H as <-.
      destruct (Hd [] (Forall_nil _)) as (new & E & F). rewrite app_nil_r in E. eauto.
    + destruct (fseek_CUR fp1 (to_UINT4 (hdr_numBins this * 8))) as [fp2|]; [|discriminate].
      intro H. apply IH in H. destruct H as (rest & -> & Hrest).
      exact (Hd rest Hrest).
Qed.

End Scan.

Section BlocksOfFiles.
Context {U : SFTutils}.

Lemma read_v2_header_from_fp_name fp swap r fp' :
  read_v2_header_from_fp fp swap = (Some r, fp') ->
  exists buf, (List.length buf <= 2)%nat /\ sft_name (v2_header_ r) = cstring_of_buffer buf.
Proof.
  unfold read_v2_header_from_fp.
  destruct (ftell fp =? -1); [discriminate|].
  destruct (fread sizeof_rawheader fp) as [[img|] fp1]; [|discriminate].
  set (raw := rawheader_of_bytes swap img).
  destruct (negb (raw_version raw =? 2)%float); [discriminate|].
  destruct (raw_nsamples raw <=? 0); [discriminate|].
  destruct (raw_comment_length raw <? 0); [discriminate|].
  destruct (negb (Z.rem (raw_comment_length raw) 8 =? 0)); [discriminate|].
  destruct (negb (XLALIsValidCWDetector (detector_cstring raw))); [discriminate|].
  assert (L : (List.length (firstn 2 (raw_detector raw)) <= 2)%nat) by apply firstn_le_length.
  destruct (raw_comment_length raw =? 0).
  - intro H. injection H as <- _. cbn [v2_header_ sft_name]. eauto.
  - destruct (fread (raw_comment_length raw) fp1) as [[comm|] fp2]; [|discriminate].
    destruct (negb (is_NUL (last comm NUL))); [discriminate|].
    destruct (negb (only_NUL_after_end comm)); [discriminate|].
    intro H. injection H as <- _. cbn [v2_header_ sft_name]. eauto.
Qed.

Lemma read_sft_header_from_fp_name fp want h fp' :
  read_sft_header_from_fp fp want = (Some h, fp') ->
  exists buf, (List.length buf <= 2)%nat /\ sft_name (hdr_header h) = cstring_of_buffer buf.
Proof.
  unfold read_sft_header_from_fp.
  destruct (ftell fp =? -1); [discriminate|].
  destruct (read_SFTversion_from_fp fp) as [[[ver swap]|] fp1]; [|discriminate].
  destruct (ver =? 2); [|discriminate].
  destruct (read_v2_header_from_fp fp1 swap) as [[r|] fp2] eqn:R; [|discriminate].
  apply read_v2_header_from_fp_name in R.
  destruct (_ || _); [discriminate|].
  destruct (_ <=? _)%float; [discriminate|].
  destruct (_ <? _)%float; [discriminate|].
  intro H. injection H as <- _. exact R.
Qed.

Lemma SFT_blocks_from_names fuel : forall fp file_len,
  Forall (fun b : SFTtype * Z * Z =>
            exists buf, (List.length buf <= 2)%nat /\
                        sft_name (fst (fst b)) = cstring_of_buffer buf)
         (SFT_blocks_from fuel fp file_len).
Proof.
  induction fuel as [|fuel IH]; intros fp file_len; cbn [SFT_blocks_from];
    destruct (negb (ftell fp <? file_len)); try apply Forall_nil.
  destruct (read_sft_header_from_fp fp true) as [[this|] fp1] eqn:R; [|apply Forall_nil].
  apply read_sft_header_from_fp_name in R.
  constructor; [exact R|].
  destruct (file_len <=? ftell fp1 + hdr_numBins this * 8); [apply Forall_nil|].
  destruct (fseek_CUR fp1 (to_UINT4 (hdr_numBins this * 8))); [apply IH | apply Forall_nil].
Qed.

(** The descriptors a successful scan adds are blocks of the file. *)
Lemma scan_SFT_blocks_from_blocks fuel : forall fname constraints fp file_len mprev ret ret',
  scan_SFT_blocks fuel fname constraints fp file_len mprev ret = Some (XLAL_OK ret') ->
  exists new, ret' = ret ++ new /\
    Forall (fun d => loc_fname (desc_locator d) = fname /\
                     In (desc_header d, desc_version d, desc_numBins d)
                        (SFT_blocks_from fuel fp file_len)) new.
Proof.
  induction fuel as [|fuel IH]; intros fname constraints fp file_len mprev ret ret';
    cbn [scan_SFT_blocks SFT_blocks_from];
    destruct (negb (ftell fp <? file_len)).
  - intro H. injection H as <-. exists []. now rewrite app_nil_r.
  - discriminate.
  - intro H. injection H as <-. exists []. now rewrite app_nil_r.
  - destruct (ftell fp =? -1); [discriminate|].
    destruct (read_sft_header_from_fp fp true) as [[this|] fp1] eqn:R; [|discriminate].
    destruct (match mprev with Some _ => _ | None => false end); [discriminate|].
    set (d := mkDesc (mkLocator fname (ftell fp) 0) (hdr_header this) (hdr_SFTcomment this)
                     (hdr_numBins this) (hdr_version this) (hdr_crc64 this)).
    set (b := (hdr_header this, hdr_version this, hdr_numBins this)).
    assert (Hd : forall tail rest,
              Forall (fun d => loc_fname (desc_locator d) = fname /\
                               In (desc_header d, desc_version d, desc_numBins d) tail) rest ->
              exists new, (if want_this_block constraints (hdr_header this)
                           then ret ++ [d] else ret) ++ rest = ret ++ new /\
                Forall (fun d => loc_fname (desc_locator d) = fname /\
                                 In (desc_header d, desc_version d, desc_numBins d) (b :: tail))
                       new).
    { intros tail rest Hrest.
      assert (Hrest' : Forall (fun d => loc_fname (desc_locator d) = fname /\
                                 In (desc_header d, desc_version d, desc_numBins d) (b :: tail))
                              rest).
      { eapply Forall_impl; [|exact Hrest]. intros x [E I]. split; [exact E | now right]. }
      destruct (want_this_block constraints (hdr_header this)).
      - exists (d :: rest). split; [now rewrite <- app_assoc|].
        constructor; [|exact Hrest']. split; [reflexivity | now left].
      - exists rest. auto. }
    destruct (file_len <=? ftell fp1 + hdr_numBins this * 8).
    + intro H. injection H as <-.
      destruct (Hd [] [] (Forall_nil _)) as (new & E & F). rewrite app_nil_r in E. eauto.
    + destruct (fseek_CUR fp1 (to_UINT4 (hdr_numBins this * 8))) as [fp2|]; [|discriminate].
      intro H. apply IH in H. destruct H as (rest & -> & Hrest).
      exact (Hd _ rest Hrest).
Qed.

Lemma scan_SFT_file_from_blocks disk constraints fname ret ret' :
  scan_SFT_file disk constraints fname ret = XLAL_OK ret' ->
  exists new, ret' = ret ++ new /\
    Forall (fun d => loc_fname (desc_locator d) = fname /\
                     In (desc_header d, desc_version d, desc_numBins d)
                        (SFT_blocks_of_file disk fname)) new.
Proof.
  unfold scan_SFT_file, SFT_blocks_of_file.
  destruct (fopen (disk_files disk) fname) as [fp|]; [|discriminate].
  destruct (file_length fp =? 0); [discriminate|].
  destruct (scan_SFT_blocks _ _ _ _ _ _ _) as [[r|e]|] eqn:S; try discriminate.
  intro H. injection H as <-.
  apply scan_SFT_blocks_from_blocks in S. exact S.
Qed.

Lemma scan_SFT_files_from_blocks disk constraints fnames : forall ret ret',
  scan_SFT_files disk constraints fnames ret = XLAL_OK ret' ->
  exists new, ret' = ret ++ new /\
    Forall (fun d => In (loc_fname (desc_locator d)) fnames /\
                     In (desc_header d, desc_version d, desc_numBins d)
                        (SFT_blocks_of_file disk (loc_fname (desc_locator d)))) new.
Proof.
  induction fnames as [|fname rest IH]; intros ret ret'; cbn [scan_SFT_files].
  - intro H. injection H as <-. exists []. now rewrite app_nil_r.
  - destruct (scan_SFT_file disk constraints fname ret) as [ret1|] eqn:S; [|discriminate].
    apply scan_SFT_file_from_blocks in S. destruct S as (new1 & -> & F1).
    intro H. apply IH in H. destruct H as (new2 & -> & F2).
    exists (new1 ++ new2). split; [now rewrite app_assoc|].
    apply Forall_app. split.
    + eapply Forall_impl; [|exact F1]. intros d [E I]. rewrite E. split; [now left | exact I].
    + eapply Forall_impl; [|exact F2]. intros d [E I]. split; [now right | exact I].
Qed.

End BlocksOfFiles.

Section Builder.
Context {U : SFTutils}.

(** Opening a file and scanning it never ends for lack of fuel. *)
Lemma scan_SFT_file_fuel fname constraints bytes ret :
  exists r,
    scan_SFT_blocks (S (Z.to_nat (file_length (mkFILE bytes 0)))) fname constraints
                    (mkFILE bytes 0) (file_length (mkFILE bytes 0)) None ret = Some r.
Proof.
  apply scan_SFT_blocks_total. unfold file_length. cbn [fpos contents].
  rewrite Nat2Z.inj_succ, Z2Nat.id; lia.
Qed.

Definition accepted (constraints : option SFTConstraints) (fnames : list string)
    (d : SFTDescriptor) : Prop :=
  In (loc_fname (desc_locator d)) fnames /\ desc_version d = 2 /\
  want_this_block constraints (desc_header d) = true.

Lemma scan_SFT_file_OK disk constraints fname ret ret' :
  scan_SFT_file disk constraints fname ret = XLAL_OK ret' ->
  Sorted consistent_blocks (SFT_blocks_of_file disk fname) /\
  exists new, ret' = ret ++ new /\ Forall (accepted constraints [fname]) new.
Proof.
  unfold scan_SFT_file, SFT_blocks_of_file.
  destruct (fopen (disk_files disk) fname) as [fp|]; [|discriminate].
  destruct (file_length fp =? 0); [discriminate|].
  destruct (scan_SFT_blocks _ _ _ _ _ _ _) as [[r|e]|] eqn:S; try discriminate.
  intro H. injection H as <-. split.
  - apply scan_SFT_blocks_consistent in S. exact S.
  - apply scan_SFT_blocks_appends in S. destruct S as (new & -> & F).
    exists new. split; [reflexivity|].
    eapply Forall_impl; [|exact F]. intros d (E & V & W).
    unfold accepted. rewrite E. cbn. auto.
Qed.

Lemma accepted_more constraints fnames fnames' d :
  (forall f, In f fnames -> In f fnames') ->
  accepted constraints fnames d -> accepted constraints fnames' d.
Proof. unfold accepted. intuition. Qed.

Lemma scan_SFT_files_OK disk constraints fnames : forall ret ret',
  scan_SFT_files disk constraints fnames ret = XLAL_OK ret' ->
  (forall fname, In fname fnames -> Sorted consistent_blocks (SFT_blocks_of_file disk fname)) /\
  exists new, ret' = ret ++ new /\ Forall (accepted constraints fnames) new.
Proof.
  induction fnames as [|fname rest IH]; intros ret ret'; cbn [scan_SFT_files].
  - intro H. injection H as <-. split; [intros ? []|].
    exists []. now rewrite app_nil_r.
  - destruct (scan_SFT_file disk constraints fname ret) as [ret1|] eqn:S; [|discriminate].
    apply scan_SFT_file_OK in S. destruct S as (C1 & new1 & -> & F1).
    intro H. apply IH in H. destruct H as (C2 & new2 & -> & F2).
    split.
    + intros f [<-|Hin]; auto.
    + exists (new1 ++ new2). split; [now rewrite app_assoc|].
      apply Forall_app. split.
      * eapply Forall_impl; [|exact F1]. intro d. apply accepted_more. cbn. tauto.
      * eapply Forall_impl; [|exact F2]. intro d. apply accepted_more. cbn. tauto.
Qed.

(** What a successful [XLALSFTdataFind] went through. *)
Lemma XLALSFTdataFind_inv disk file_pattern constraints catalog :
  XLALSFTdataFind disk file_pattern constraints = XLAL_OK catalog ->
  exists fnames ret,
    XLALFindFiles disk file_pattern = XLAL_OK fnames /\
    scan_SFT_files disk constraints fnames [] = XLAL_OK ret /\
    (forall c ts, constraints = Some c -> cons_timestamps c = Some ts ->
                  all_timestamps_found c ts ret = true) /\
    identical_deltaF ret = true /\
    catalog = qsort compareSFTdesc ret.
Proof.
  unfold XLALSFTdataFind.
  destruct (match constraints with Some _ => _ | None => false end); [discriminate|].
  destruct (XLALFindFiles disk file_pattern) as [fnames|] eqn:F; [|discriminate].
  destruct (scan_SFT_files disk constraints fnames []) as [ret|] eqn:S; [|discriminate].
  destruct (match constraints with Some _ => _ | None => false end) eqn:T; [discriminate|].
  destruct (identical_deltaF ret) eqn:D; [|discriminate]. cbn [negb].
  intro H. injection H as <-. exists fnames, ret.
  split; [reflexivity|]. split; [exact S|]. split; [|split; [exact D | reflexivity]].
  intros c ts -> Ets. rewrite Ets in T. now destruct (all_timestamps_found c ts ret).
Qed.

(** C2 (as amended).  For every catalog returned by [XLALSFTdataFind],
    neighbouring descriptors are in the order of their epochs as REAL8
    numbers ([GPS2REAL8]) and, where these are equal, of their start
    frequencies; every descriptor is (header, version, number of bins of) a
    block of a matched file; and in each matched file any two consecutive
    blocks have the same detector name, the same version, REAL8 epochs
    that strictly increase, equal [deltaF], equal [f0] and the same number
    of bins: a file that breaks this makes the whole call fail. *)
Theorem XLALSFTdataFind_sorted_and_consistent disk file_pattern constraints catalog :
  XLALSFTdataFind disk file_pattern constraints = XLAL_OK catalog ->
  (forall i d1 d2,
      nth_error catalog i = Some d1 -> nth_error catalog (S i) = Some d2 ->
      let e1 := GPS2REAL8 (sft_epoch (desc_header d1)) in
      let e2 := GPS2REAL8 (sft_epoch (desc_header d2)) in
      (e1 <? e2)%float = true \/
      ((e1 <? e2)%float = false /\ (e2 <? e1)%float = false /\
       (sft_f0 (desc_header d2) <? sft_f0 (desc_header d1))%float = false)) /\
  exists fnames,
    XLALFindFiles disk file_pattern = XLAL_OK fnames /\
    (forall d, In d catalog ->
       In (loc_fname (desc_locator d)) fnames /\
       In (desc_header d, desc_version d, desc_numBins d)
          (SFT_blocks_of_file disk (loc_fname (desc_locator d)))) /\
    (forall fname i header1 version1 nsamples1 header2 version2 nsamples2,
       In fname fnames ->
       nth_error (SFT_blocks_of_file disk fname) i = Some (header1, version1, nsamples1) ->
       nth_error (SFT_blocks_of_file disk fname) (S i) = Some (header2, version2, nsamples2) ->
       sft_name header1 = sft_name header2 /\
       version1 = version2 /\
       (GPS2REAL8 (sft_epoch header2) <=? GPS2REAL8 (sft_epoch header1))%float = false /\
       (sft_deltaF header1 =? sft_deltaF header2)%float = true /\
       (sft_f0 header1 =? sft_f0 header2)%float = true /\
       nsamples1 = nsamples2).
Proof.
  intro H. apply XLALSFTdataFind_inv in H.
  destruct H as (fnames & ret & F & S & _ & _ & ->).
  split.
  - intros i d1 d2 H1 H2. apply compareSFTdesc_ascending.
    exact (Sorted_neighbours _ _ (qsort_sorted _ _ compareSFTdesc_total ret) i d1 d2 H1 H2).
  - exists fnames. split; [exact F|]. split.
    + intros d Hd.
      apply (Permutation_in d (Permutation_sym (qsort_perm _ compareSFTdesc ret))) in Hd.
      destruct (scan_SFT_files_from_blocks _ _ _ _ _ S) as (new & E & Fn).
      cbn [app] in E. subst new. rewrite Forall_forall in Fn. exact (Fn d Hd).
    + intros fname i header1 version1 nsamples1 header2 version2 nsamples2 Hf H1 H2.
      pose proof (proj1 (scan_SFT_files_OK _ _ _ _ _ S) fname Hf) as C.
      pose proof (Sorted_neighbours _ _ C i _ _ H1 H2) as C12.
      cbn [consistent_blocks] in C12. apply consistent_mSFT_header_true in C12.
      destruct C12 as (N0 & N1 & V & E & D & F0 & N).
      split; [|auto].
      assert (B : Forall (fun b : SFTtype * Z * Z =>
                exists buf, (List.length buf <= 2)%nat /\
                            sft_name (fst (fst b)) = cstring_of_buffer buf)
                (SFT_blocks_of_file disk fname)).
      { unfold SFT_blocks_of_file. destruct (fopen (disk_files disk) fname); [|constructor].
        apply SFT_blocks_from_names. }
      rewrite Forall_forall in B.
      destruct (B _ (nth_error_In _ _ H1)) as (buf1 & L1 & E1).
      destruct (B _ (nth_error_In _ _ H2)) as (buf2 & L2 & E2).
      cbn [fst] in E1, E2. unfold name_char in N0, N1. rewrite E1, E2 in *.
      now apply short_names_equal.
Qed.


End Builder.

(* ------------------------------------------------------------------ *)
(** ** Evaluation of the resolver, the builder and the checksum check *)

Lemma XLALFindFiles_sorted_nonempty_witness :
  XLALFindFiles sample_disk "data/*.sft" = XLAL_OK ["data/a.sft"; "data/b.sft"]%string /\
  StronglySorted (ascending string strcmp) ["data/a.sft"; "data/b.sft"]%string.
Proof.
  split; [reflexivity|].
  exact (proj1 (XLALFindFiles_sorted_nonempty sample_disk "data/*.sft"
                  ["data/a.sft"; "data/b.sft"]%string eq_refl)).
Defined.

(** C4 as stated fails: a path named by two patterns is returned twice. *)
Lemma XLALFindFiles_duplicates_counterexample :
  XLALFindFiles sample_disk "data/a.sft;data/*.sft"
    = XLAL_OK ["data/a.sft"; "data/a.sft"; "data/b.sft"]%string /\
  ~ NoDup ["data/a.sft"; "data/a.sft"; "data/b.sft"]%string.
Proof.
  split; [reflexivity|].
  intro H. inversion H as [|x l Hnotin _]; subst. apply Hnotin. left. reflexivity.
Qed.

Lemma XLALSFTdataFind_sorted_and_consistent_witness :
  (forall i d1 d2,
      nth_error sample_catalog i = Some d1 -> nth_error sample_catalog (S i) = Some d2 ->
      (GPS2REAL8 (sft_epoch (desc_header d1)) <? GPS2REAL8 (sft_epoch (desc_header d2)))%float = true \/
      ((GPS2REAL8 (sft_epoch (desc_header d1)) <? GPS2REAL8 (sft_epoch (desc_header d2)))%float = false /\
       (GPS2REAL8 (sft_epoch (desc_header d2)) <? GPS2REAL8 (sft_epoch (desc_header d1)))%float = false /\
       (sft_f0 (desc_header d2) <? sft_f0 (desc_header d1))%float = false)) /\
  (forall i header1 version1 nsamples1 header2 version2 nsamples2,
      nth_error (SFT_blocks_of_file (U := reference_SFTutils) sample_disk "data/a.sft") i
        = Some (header1, version1, nsamples1) ->
      nth_error (SFT_blocks_of_file (U := reference_SFTutils) sample_disk "data/a.sft") (S i)
        = Some (header2, version2, nsamples2) ->
      sft_name header1 = sft_name header2 /\
      version1 = version2 /\
      (GPS2REAL8 (sft_epoch header2) <=? GPS2REAL8 (sft_epoch header1))%float = false /\
      (sft_deltaF header1 =? sft_deltaF header2)%float = true /\
      (sft_f0 header1 =? sft_f0 header2)%float = true /\
      nsamples1 = nsamples2).
Proof.
  destruct (XLALSFTdataFind_sorted_and_consistent (U := reference_SFTutils)
              sample_disk "data/*.sft" None sample_catalog eq_refl)
    as (Srt & fnames & F & _ & C).
  split; [exact Srt|].
  intros i header1 version1 nsamples1 header2 version2 nsamples2. apply C.
  vm_compute in F. injection F as <-. left. reflexivity.
Defined.

(** C2 as stated fails: of two SFTs whose epochs differ by fifty
    nanoseconds, the later one comes first in the catalog, because the
    epochs are equal as REAL8 numbers and its start frequency is lower. *)
Lemma XLALSFTdataFind_order_counterexample :
  exists d1 d2,
    XLALSFTdataFind (U := reference_SFTutils) close_epochs_disk "b.sft;a.sft" None
      = XLAL_OK [d1; d2] /\
    sft_epoch (desc_header d1) = mkGPS 1000000000 50 /\
    sft_f0 (desc_header d1) = 10%float /\
    sft_epoch (desc_header d2) = mkGPS 1000000000 0 /\
    sft_f0 (desc_header d2) = 20%float /\
    compareSFTdesc d1 d2 = -1.
Proof.
  eexists. eexists. split; [vm_compute; reflexivity|].
  repeat split; vm_compute; reflexivity.
Qed.

(** A merged file whose epochs do not increase makes the whole build
    fail, also when other files are in order. *)
Example XLALSFTdataFind_refuses_unordered_file :
  XLALSFTdataFind (U := reference_SFTutils) unordered_disk "good.sft;bad.sft" None
    = XLAL_ERROR XLAL_EDATA /\
  exists catalog,
    XLALSFTdataFind (U := reference_SFTutils) unordered_disk "good.sft" None = XLAL_OK catalog.
Proof. split; [vm_compute; reflexivity|]. eexists. vm_compute. reflexivity. Qed.


(** A requested timestamp that no SFT carries makes the build fail. *)
Example XLALSFTdataFind_missing_timestamp :
  XLALSFTdataFind (U := reference_SFTutils) sample_disk "data/*.sft"
    (Some (mkConstraints None None None (Some [mkGPS 1000000000 0; mkGPS 1000005400 0])))
  = XLAL_ERROR XLAL_EFAILED.
Proof. vm_compute. reflexivity. Qed.

Lemma XLALCheckCRCSFTCatalog_reports_mismatch_witness :
  XLALCheckCRCSFTCatalog (U := reference_SFTutils) (disk_files sample_disk) sample_catalog
    = (XLAL_SUCCESS, true) /\
  XLALCheckCRCSFTCatalog (U := reference_SFTutils) (disk_files sample_disk) damaged_catalog
    = (XLAL_SUCCESS, false).
Proof.
  split.
  - rewrite (XLALCheckCRCSFTCatalog_reports_mismatch (U := reference_SFTutils)).
    + vm_compute. reflexivity.
    + repeat (apply Forall_cons;
              [right; split; [reflexivity | vm_compute; discriminate] |]).
      apply Forall_nil.
  - rewrite (XLALCheckCRCSFTCatalog_reports_mismatch (U := reference_SFTutils)).
    + vm_compute. reflexivity.
    + repeat (apply Forall_cons;
              [right; split; [reflexivity | vm_compute; discriminate] |]).
      apply Forall_nil.
Defined.

(* ------------------------------------------------------------------ *)
(** ** Rounding of frequencies to bins *)

Lemma Zpos_pow2_to_pos (k : Z) : 0 < k -> Z.pos (2 ^ Z.to_pos k) = 2 ^ k.
Proof.
  intros Hk. rewrite Pos2Z.inj_pow. rewrite Z2Pos.id by lia. reflexivity.
Qed.

Lemma SF_floor_Z_is_floor (x : spec_float) (q : Q) (n : Z) :
  SF_to_Q x = Some q -> SF_floor_Z x = Some n -> is_floor_of q n.
Proof.
  destruct x as [s| | |s m e]; cbn [SF_to_Q SF_floor_Z]; try discriminate.
  - intros [= <-] [= <-]. unfold is_floor_of, Qle, Qlt. cbn. lia.
  - intros [= <-] [= <-]. set (v := if s then Z.neg m else Z.pos m).
    destruct (0 <=? e) eqn:E.
    + unfold is_floor_of, Qle, Qlt. cbn. lia.
    + apply Z.leb_gt in E.
      assert (D : 0 < 2 ^ (- e)) by (apply Z.pow_pos_nonneg; lia).
      unfold is_floor_of, Qle, Qlt. cbn [Qnum Qden inject_Z].
      rewrite Zpos_pow2_to_pos by lia.
      pose proof (Z.mul_div_le v (2 ^ (- e)) D).
      pose proof (Z.mul_succ_div_gt v (2 ^ (- e)) D).
      nia.
Qed.

Lemma SF_ceil_Z_is_ceil (x : spec_float) (q : Q) (n : Z) :
  SF_to_Q x = Some q -> SF_ceil_Z x = Some n -> is_ceil_of q n.
Proof.
  destruct x as [s| | |s m e]; cbn [SF_to_Q SF_ceil_Z]; try discriminate.
  - intros [= <-] [= <-]. unfold is_ceil_of, Qle, Qlt. cbn. lia.
  - intros [= <-] [= <-]. set (v := if s then Z.neg m else Z.pos m).
    destruct (0 <=? e) eqn:E.
    + unfold is_ceil_of, Qle, Qlt. cbn. lia.
    + apply Z.leb_gt in E.
      assert (D : 0 < 2 ^ (- e)) by (apply Z.pow_pos_nonneg; lia).
      unfold is_ceil_of, Qle, Qlt. cbn [Qnum Qden inject_Z].
      rewrite Zpos_pow2_to_pos by lia.
      pose proof (Z.mul_div_le (- v) (2 ^ (- e)) D).
      pose proof (Z.mul_succ_div_gt (- v) (2 ^ (- e)) D).
      nia.
Qed.

Lemma is_floor_of_unique (q : Q) (n n' : Z) :
  is_floor_of q n -> is_floor_of q n' -> n = n'.
Proof.
  intros [L U] [L' U'].
  pose proof (Qle_lt_trans _ _ _ L U') as A.
  pose proof (Qle_lt_trans _ _ _ L' U) as B.
  unfold Qlt in A, B. cbn in A, B. lia.
Qed.

Lemma is_ceil_of_unique (q : Q) (n n' : Z) :
  is_ceil_of q n -> is_ceil_of q n' -> n = n'.
Proof.
  intros [L U] [L' U'].
  pose proof (Qlt_le_trans _ _ _ L U') as A.
  pose proof (Qlt_le_trans _ _ _ L' U) as B.
  unfold Qlt in A, B. cbn in A, B. lia.
Qed.

Lemma SF_to_Q_floor_defined (x : spec_float) (q : Q) :
  SF_to_Q x = Some q -> exists n, SF_floor_Z x = Some n.
Proof. destruct x; cbn; try discriminate; eauto. Qed.

Lemma SF_to_Q_ceil_defined (x : spec_float) (q : Q) :
  SF_to_Q x = Some q -> exists n, SF_ceil_Z x = Some n.
Proof. destruct x; cbn; try discriminate; eauto. Qed.

Lemma REAL8_floor_is_floor (x : float) (q : Q) :
  REAL8_to_Q x = Some q -> is_floor_of q (REAL8_floor x).
Proof.
  unfold REAL8_to_Q, REAL8_floor. intros Hq.
  destruct (SF_to_Q_floor_defined _ _ Hq) as [n Hn]. rewrite Hn.
  eapply SF_floor_Z_is_floor; eassumption.
Qed.

Lemma REAL8_ceil_is_ceil (x : float) (q : Q) :
  REAL8_to_Q x = Some q -> is_ceil_of q (REAL8_ceil x).
Proof.
  unfold REAL8_to_Q, REAL8_ceil. intros Hq.
  destruct (SF_to_Q_ceil_defined _ _ Hq) as [n Hn]. rewrite Hn.
  eapply SF_ceil_Z_is_ceil; eassumption.
Qed.

(** The machine epsilon of REAL8 is [2^-52], and the two factors are
    [1 + 10 * 2^-52] and [1 - 10 * 2^-52] exactly. *)
Lemma LAL_REAL8_EPS_value :
  REAL8_denotes LAL_REAL8_EPS (Qmake 1 (2 ^ 52)) /\
  REAL8_denotes fudge_up (Qmake (2 ^ 52 + 10) (2 ^ 52)) /\
  REAL8_denotes fudge_down (Qmake (2 ^ 52 - 10) (2 ^ 52)).
Proof. repeat split; vm_compute; reflexivity. Qed.

(** C7: the lower edge is the floor of [f/df * (1 + 10 eps)] and the upper
    edge the ceiling of [f/df * (1 - 10 eps)], the product being the one the
    REAL8 arithmetic yields, for every [f] and [df] whose bin fits the
    [UINT4] that is returned. *)
Theorem XLALRoundFrequency_to_SFT_bin (freq df : float) :
  (forall (q : Q) (n : Z),
      REAL8_to_Q (freq / df * (1 + 10 * LAL_REAL8_EPS))%float = Some q ->
      is_floor_of q n -> 0 <= n < UINT4_MOD ->
      XLALRoundFrequencyDownToSFTBin freq df = n) /\
  (forall (q : Q) (n : Z),
      REAL8_to_Q (freq / df * (1 - 10 * LAL_REAL8_EPS))%float = Some q ->
      is_ceil_of q n -> 0 <= n < UINT4_MOD ->
      XLALRoundFrequencyUpToSFTBin freq df = n).
Proof.
  split; intros q n Hq Hn Hr.
  - unfold XLALRoundFrequencyDownToSFTBin, REAL8_to_UINT4.
    change fudge_up with (1 + 10 * LAL_REAL8_EPS)%float.
    rewrite (is_floor_of_unique q _ n (REAL8_floor_is_floor _ _ Hq) Hn).
    unfold to_UINT4. apply Z.mod_small. exact Hr.
  - unfold XLALRoundFrequencyUpToSFTBin, REAL8_to_UINT4.
    change fudge_down with (1 - 10 * LAL_REAL8_EPS)%float.
    rewrite (is_ceil_of_unique q _ n (REAL8_ceil_is_ceil _ _ Hq) Hn).
    unfold to_UINT4. apply Z.mod_small. exact Hr.
Qed.

Lemma XLALRoundFrequency_to_SFT_bin_witness :
  XLALRoundFrequencyDownToSFTBin 18000 1 = 18000 /\
  XLALRoundFrequencyUpToSFTBin 18000 1 = 18000.
Proof.
  split.
  - apply (proj1 (XLALRoundFrequency_to_SFT_bin 18000 1) bin_18000_down 18000).
    + vm_compute. reflexivity.
    + unfold is_floor_of, Qle, Qlt. vm_compute. split; [discriminate | reflexivity].
    + unfold UINT4_MOD. lia.
  - apply (proj2 (XLALRoundFrequency_to_SFT_bin 18000 1) bin_18000_up 18000).
    + vm_compute. reflexivity.
    + unfold is_ceil_of, Qle, Qlt. vm_compute. split; [reflexivity | discriminate].
    + unfold UINT4_MOD. lia.
Defined.

(** On a bin boundary, one unit in the last place below it and one above
    it, both roundings give the bin of the boundary. *)
Example XLALRoundFrequency_at_bin_boundary :
  map (fun f => (XLALRoundFrequencyDownToSFTBin f 1, XLALRoundFrequencyUpToSFTBin f 1))
      [next_down 18000; 18000; next_up 18000]%float
  = [(18000, 18000); (18000, 18000); (18000, 18000)].
Proof. vm_compute. reflexivity. Qed.

(* ------------------------------------------------------------------ *)
(** ** Science-mode selection of SFDB records *)

Lemma nth_nth_error {A : Type} (l : list A) (k : nat) (d x : A) :
  nth_error l k = Some x -> nth k l d = x.
Proof. revert k. induction l; intros [|k]; cbn; try discriminate; auto. congruence. Qed.

Section Setup.
Variable XLALReadTimestampsFile : string -> option (list LIGOTimeGPS).

Lemma read_timestamps_files_Some (fnames : list string) :
  Forall (fun f => XLALReadTimestampsFile f <> None) fnames ->
  exists tss, read_timestamps_files XLALReadTimestampsFile fnames = Some tss /\
              List.length tss = List.length fnames.
Proof.
  induction 1 as [|f fnames Hf _ IH]; cbn.
  - eauto.
  - destruct (XLALReadTimestampsFile f); [|congruence].
    destruct IH as (tss & -> & Hl). eexists. split; [reflexivity|]. cbn. congruence.
Qed.

Lemma XLALReadMultiTimestampsFiles_Some (fnames : list string) :
  fnames <> [] ->
  Forall (fun f => XLALReadTimestampsFile f <> None) fnames ->
  exists tss, XLALReadMultiTimestampsFiles XLALReadTimestampsFile fnames = Some tss /\
              List.length tss = List.length fnames.
Proof.
  intros Hne H. unfold XLALReadMultiTimestampsFiles.
  destruct fnames; [congruence|]. apply read_timestamps_files_Some. exact H.
Qed.

Lemma timestamps_files_loop_unknown_name (fnames : list string)
    (sts ets : list (list LIGOTimeGPS)) (X : nat) (detectors : list string) :
  (X + List.length fnames <= List.length sts)%nat ->
  (X + List.length fnames <= List.length ets)%nat ->
  Exists (fun f => detectors_named_in f = []) fnames ->
  timestamps_files_loop fnames (Some sts) (Some ets) X detectors
  = Some (XLAL_ERROR XLAL_EINVAL).
Proof.
  revert X detectors. induction fnames as [|f fnames IH]; intros X detectors Hs He Hex.
  - inversion Hex.
  - cbn [timestamps_files_loop]. cbn [List.length] in Hs, He.
    destruct (detectors_named_in f) as [|d found] eqn:D; [reflexivity|].
    inversion Hex as [? ? H|? ? H]; subst; [congruence|].
    destruct (nth_error sts X) as [s|] eqn:Es;
      [|apply nth_error_None in Es; lia].
    destruct (nth_error ets X) as [e|] eqn:Ee;
      [|apply nth_error_None in Ee; lia].
    destruct (List.length s =? List.length e)%nat; [|reflexivity].
    apply IH; [lia|lia|assumption].
Qed.

End Setup.

(** In lists sorted by start, a window that starts at or before a second
    is reached by the search for that second. *)
Lemma starts_ascending_reached (header : SFDBHeader) (starts : list LIGOTimeGPS) (k : nat) s :
  starts_ascending starts ->
  nth_error starts k = Some s -> gpsSeconds s <= sfdb_gps_sec header ->
  reached_window header starts k.
Proof.
  intros Hs. revert k. induction Hs as [|a l Hl IH Ha]; intros k Hk Hle j s' Hj Hj'.
  - destruct k; discriminate.
  - destruct k as [|k]; [lia|]. cbn in Hk.
    destruct j as [|j]; cbn in Hj'.
    + injection Hj' as <-. rewrite Forall_forall in Ha.
      specialize (Ha s (nth_error_In _ _ Hk)). cbn in Ha. lia.
    + apply (IH k Hk Hle j s'); [lia | exact Hj'].
Qed.

(** When the search answers TRUE. *)
Lemma science_mode_scan_Some_true (gps_sec : Z) (E : float) (starts : list LIGOTimeGPS) :
  forall ends,
  science_mode_scan gps_sec E starts ends = Some true <->
  exists k s e,
    nth_error starts k = Some s /\ nth_error ends k = Some e /\
    gpsSeconds s <= gps_sec /\ (E <? REAL8_of_Z (gpsSeconds e))%float = true /\
    (forall j s', (j < k)%nat -> nth_error starts j = Some s' -> gpsSeconds s' <= gps_sec).
Proof.
  induction starts as [|s starts IH]; intros ends; cbn [science_mode_scan].
  - split; [discriminate|]. intros (k & s & e & Hk & _). destruct k; discriminate.
  - destruct (gps_sec >=? gpsSeconds s) eqn:G.
    + apply Z.geb_le in G. destruct ends as [|e ends].
      * split; [discriminate|]. intros (k & s' & e & _ & Hk & _). destruct k; discriminate.
      * destruct (E <? REAL8_of_Z (gpsSeconds e))%float eqn:T.
        -- split; [intros _|reflexivity].
           exists 0%nat, s, e. repeat split; try assumption. intros j s' Hj. lia.
        -- rewrite (IH ends). split.
           ++ intros (k & s' & e' & H1 & H2 & H3 & H4 & H5).
              exists (S k), s', e'. repeat split; try assumption.
              intros [|j] s'' Hj Hs''; cbn in Hs''.
              ** injection Hs'' as <-. exact G.
              ** apply (H5 j); [lia | exact Hs''].
           ++ intros (k & s' & e' & H1 & H2 & H3 & H4 & H5).
              destruct k as [|k]; cbn in H1, H2.
              ** injection H2 as <-. congruence.
              ** exists k, s', e'. repeat split; try assumption.
                 intros j s'' Hj Hs''. apply (H5 (S j)); [lia | exact Hs''].
    + rewrite Z.geb_leb in G. apply Z.leb_gt in G.
      split; [discriminate|].
      intros (k & s' & e' & H1 & H2 & H3 & H4 & H5). exfalso.
      destruct k as [|k]; cbn in H1.
      * injection H1 as <-. lia.
      * specialize (H5 0%nat s ltac:(lia) eq_refl). lia.
Qed.

(** When the search answers FALSE. *)
Lemma science_mode_scan_Some_false (gps_sec : Z) (E : float) (starts : list LIGOTimeGPS) :
  forall ends,
  List.length starts = List.length ends ->
  science_mode_scan gps_sec E starts ends = Some false <->
  exists k s,
    nth_error starts k = Some s /\ gps_sec < gpsSeconds s /\
    (forall j s', (j < k)%nat -> nth_error starts j = Some s' -> gpsSeconds s' <= gps_sec) /\
    (forall j e', (j < k)%nat -> nth_error ends j = Some e' ->
                  (E <? REAL8_of_Z (gpsSeconds e'))%float = false).
Proof.
  induction starts as [|s starts IH]; intros ends Hl; cbn [science_mode_scan].
  - split; [discriminate|]. intros (k & s & Hk & _). destruct k; discriminate.
  - destruct ends as [|e ends]; [discriminate|]. injection Hl as Hl.
    destruct (gps_sec >=? gpsSeconds s) eqn:G.
    + apply Z.geb_le in G.
      destruct (E <? REAL8_of_Z (gpsSeconds e))%float eqn:T.
      * split; [discriminate|].
        intros (k & s' & H1 & H2 & H3 & H4). exfalso.
        destruct k as [|k]; cbn in H1.
        -- injection H1 as <-. lia.
        -- specialize (H4 0%nat e ltac:(lia) eq_refl). congruence.
      * rewrite (IH ends Hl). split.
        -- intros (k & s' & H1 & H2 & H3 & H4).
           exists (S k), s'. repeat split; try assumption.
           ++ intros [|j] s'' Hj Hs''; cbn in Hs''.
              ** injection Hs'' as <-. exact G.
              ** apply (H3 j); [lia | exact Hs''].
           ++ intros [|j] e'' Hj He''; cbn in He''.
              ** injection He'' as <-. exact T.
              ** apply (H4 j); [lia | exact He''].
        -- intros (k & s' & H1 & H2 & H3 & H4).
           destruct k as [|k]; cbn in H1.
           ++ injection H1 as <-. lia.
           ++ exists k, s'. repeat split; try assumption.
              ** intros j s'' Hj Hs''. apply (H3 (S j)); [lia | exact Hs''].
              ** intros j e'' Hj He''. apply (H4 (S j)); [lia | exact He''].
    + rewrite Z.geb_leb in G. apply Z.leb_gt in G.
      split; [intros _|reflexivity].
      exists 0%nat, s. repeat split; try assumption; intros j ? Hj; lia.
Qed.

(** The selection of a record, by the windows of the two lists it is
    judged by. *)
Lemma science_mode_scan_windows (header : SFDBHeader) (starts ends : list LIGOTimeGPS) :
  List.length starts = List.length ends ->
  let scan := science_mode_scan (sfdb_gps_sec header)
                (REAL8_of_Z (sfdb_gps_sec header) + sfdb_tbase header)%float starts ends in
  (scan = Some true <->
   exists k, admitted_by_window header starts ends k /\ reached_window header starts k) /\
  (scan = Some false <->
   exists k s, nth_error starts k = Some s /\ sfdb_gps_sec header < gpsSeconds s /\
               reached_window header starts k /\
               forall j, (j < k)%nat -> ~ admitted_by_window header starts ends j).
Proof.
  intros Hl scan. unfold scan. split.
  - rewrite science_mode_scan_Some_true. unfold admitted_by_window, reached_window. split.
    + intros (k & s & e & H1 & H2 & H3 & H4 & H5). exists k. split; [|exact H5].
      exists s, e. auto.
    + intros (k & (s & e & H1 & H2 & H3 & H4) & H5). exists k, s, e. auto.
  - rewrite (science_mode_scan_Some_false _ _ _ _ Hl).
    unfold admitted_by_window, reached_window. split.
    + intros (k & s & H1 & H2 & H3 & H4). exists k, s. repeat split; try assumption.
      intros j Hj (s' & e' & A1 & A2 & A3 & A4).
      rewrite (H4 j e' Hj A2) in A4. discriminate.
    + intros (k & s & H1 & H2 & H3 & H4). exists k, s. repeat split; try assumption.
      intros j e' Hj He'.
      destruct (_ <? REAL8_of_Z (gpsSeconds e'))%float eqn:T; [|reflexivity].
      exfalso. apply (H4 j Hj).
      assert (Hjs : (j < List.length starts)%nat).
      { rewrite Hl. apply nth_error_Some. congruence. }
      destruct (nth_error starts j) as [s'|] eqn:Es; [|apply nth_error_None in Es; lia].
      exists s', e'. repeat split; try assumption. exact (H3 j s' Hj Es).
Qed.

Lemma strcmp_eq (a b : string) : (strcmp a b =? 0) = true <-> a = b.
Proof.
  unfold strcmp. split.
  - destruct (String.compare a b) eqn:C; try discriminate.
    intros _. now apply String.compare_eq_iff.
  - intros ->. pose proof (String.compare_antisym b b) as H.
    destruct (String.compare b b); cbn in H; (reflexivity || discriminate).
Qed.

(** With one detector name in the name of every file, the index found for
    a detector is that of the first file that names it. *)
Lemma detector_index_from_first (name : string) (fnames : list string) :
  forall (X n : nat) (f : string),
  Forall (fun f => exists d, detectors_named_in f = [d]) fnames ->
  nth_error fnames X = Some f ->
  detectors_named_in f = [name] ->
  (forall j g, (j < X)%nat -> nth_error fnames j = Some g -> detectors_named_in g <> [name]) ->
  detector_index_from name (flat_map detectors_named_in fnames) n = Some (n + X)%nat.
Proof.
  induction fnames as [|g fnames IH]; intros X n f Hone HX Hf Hfirst.
  - destruct X; discriminate.
  - apply Forall_cons_iff in Hone. destruct Hone as [(d & Hd) Hone].
    cbn [flat_map]. rewrite Hd. cbn [app detector_index_from].
    destruct X as [|X]; cbn in HX.
    + injection HX as ->. rewrite Hd in Hf. injection Hf as ->.
      rewrite (proj2 (strcmp_eq name name) eq_refl). f_equal. lia.
    + destruct (strcmp name d =? 0) eqn:C.
      * apply strcmp_eq in C. subst d. exfalso.
        apply (Hfirst 0%nat g ltac:(lia) eq_refl). exact Hd.
      * rewrite (IH X (S n) f Hone HX Hf).
        -- f_equal. lia.
        -- intros j g' Hj Hg'. apply (Hfirst (S j) g'); [lia | exact Hg'].
Qed.

Section SetupOK.
Variable XLALReadTimestampsFile : string -> option (list LIGOTimeGPS).

Lemma read_timestamps_files_nth (fnames : list string) :
  forall tss i f,
  read_timestamps_files XLALReadTimestampsFile fnames = Some tss ->
  nth_error fnames i = Some f ->
  exists ts, XLALReadTimestampsFile f = Some ts /\ nth_error tss i = Some ts.
Proof.
  induction fnames as [|g fnames IH]; intros tss i f; cbn [read_timestamps_files].
  - intros _ H. destruct i; discriminate.
  - destruct (XLALReadTimestampsFile g) as [ts|] eqn:R; [|discriminate].
    destruct (read_timestamps_files XLALReadTimestampsFile fnames) as [tss'|]; [|discriminate].
    intro H. injection H as <-.
    destruct i as [|i]; cbn [nth_error].
    + intro H. injection H as <-. eauto.
    + intro H. exact (IH tss' i f eq_refl H).
Qed.

Lemma XLALReadMultiTimestampsFiles_nth (fnames : list string) tss i f :
  XLALReadMultiTimestampsFiles XLALReadTimestampsFile fnames = Some tss ->
  nth_error fnames i = Some f ->
  exists ts, XLALReadTimestampsFile f = Some ts /\ nth_error tss i = Some ts.
Proof.
  unfold XLALReadMultiTimestampsFiles. destruct fnames as [|g fnames]; [discriminate|].
  apply read_timestamps_files_nth.
Qed.

(** What a loop over the timestamps files that ends well has seen. *)
Lemma timestamps_files_loop_OK (fnames : list string) (sts ets : list (list LIGOTimeGPS)) :
  forall (X : nat) (detectors result : list string),
  timestamps_files_loop fnames (Some sts) (Some ets) X detectors = Some (XLAL_OK result) ->
  result = detectors ++ flat_map detectors_named_in fnames /\
  forall i, (i < List.length fnames)%nat ->
    exists s e, nth_error sts (X + i) = Some s /\ nth_error ets (X + i) = Some e /\
                List.length s = List.length e.
Proof.
  induction fnames as [|f fnames IH]; intros X detectors result; cbn [timestamps_files_loop].
  - intro H. injection H as <-. split; [now rewrite app_nil_r|]. cbn. intros i Hi. lia.
  - destruct (detectors_named_in f) as [|d found] eqn:D; [discriminate|].
    destruct (nth_error sts X) as [s|] eqn:Es; [|discriminate].
    destruct (nth_error ets X) as [e|] eqn:Ee; [|discriminate].
    destruct (List.length s =? List.length e)%nat eqn:L; [|discriminate].
    apply Nat.eqb_eq in L.
    intro H. apply IH in H. destruct H as [-> Hall]. split.
    + cbn [flat_map]. rewrite D. now rewrite <- app_assoc.
    + intros [|i] Hi.
      * rewrite Nat.add_0_r. eauto.
      * cbn [List.length] in Hi. destruct (Hall i ltac:(lia)) as (s' & e' & H1 & H2 & H3).
        exists s', e'. replace (X + S i)%nat with (S X + i)%nat by lia. auto.
Qed.

(** What a setup that ends well with timestamps files has built. *)
Lemma XLALReadSFDB_setup_OK disk file_pattern starting finishing sci fnamesStartTS fnamesEndTS :
  XLALReadSFDB_setup XLALReadTimestampsFile disk file_pattern (Some starting) (Some finishing)
    = Some (XLAL_OK (Some sci)) ->
  XLALFindFiles disk starting = XLAL_OK fnamesStartTS ->
  XLALFindFiles disk finishing = XLAL_OK fnamesEndTS ->
  XLALReadMultiTimestampsFiles XLALReadTimestampsFile fnamesStartTS = Some (sci_startingTS sci) /\
  XLALReadMultiTimestampsFiles XLALReadTimestampsFile fnamesEndTS = Some (sci_endingTS sci) /\
  sci_detectors sci = flat_map detectors_named_in fnamesStartTS /\
  forall i, (i < List.length fnamesStartTS)%nat ->
    exists s e, nth_error (sci_startingTS sci) i = Some s /\
                nth_error (sci_endingTS sci) i = Some e /\
                List.length s = List.length e.
Proof.
  unfold XLALReadSFDB_setup. intros H FS FE. rewrite FS, FE in H.
  destruct (XLALFindFiles disk file_pattern); [|discriminate].
  destruct (negb (List.length fnamesStartTS =? List.length fnamesEndTS)%nat); [discriminate|].
  destruct (List.length fnamesStartTS =? 0)%nat; [discriminate|].
  destruct (XLALReadMultiTimestampsFiles XLALReadTimestampsFile fnamesStartTS) as [sts|];
    [|destruct (timestamps_files_loop _ _ _ _ _) as [[|]|]; discriminate].
  destruct (XLALReadMultiTimestampsFiles XLALReadTimestampsFile fnamesEndTS) as [ets|];
    [|destruct (timestamps_files_loop _ _ _ _ _) as [[|]|]; discriminate].
  destruct (timestamps_files_loop fnamesStartTS (Some sts) (Some ets) 0 [])
    as [[detectors|]|] eqn:L; try discriminate.
  injection H as <-. cbn [sci_startingTS sci_endingTS sci_detectors].
  apply timestamps_files_loop_OK in L. destruct L as [-> Hall].
  repeat split; try reflexivity. exact Hall.
Qed.

End SetupOK.

(** C8 (amended): with one detector name in the name of every
    start-timestamps file, a record is judged by the lists read from the
    first pair of timestamps files whose start file names the record's
    detector; it is used exactly when the search reaches a window that
    starts at or before the record's second and ends, in whole seconds,
    strictly after the record does; it is reported unused exactly when the
    search first meets a window that starts after the record's second.  A
    start-timestamps file whose name holds none of V1, H1, L1 stops the
    import with XLAL_EINVAL. *)
Theorem SFDB_science_mode_selection :
  (forall (XLALReadTimestampsFile : string -> option (list LIGOTimeGPS))
          (disk : Disk) (file_pattern starting finishing : string)
          (sci : science_segments) (fnamesStartTS fnamesEndTS : list string)
          (header : SFDBHeader) (name : string) (X : nat) (filenameSt filenameEnd : string)
          (starts ends : list LIGOTimeGPS),
      XLALReadSFDB_setup XLALReadTimestampsFile disk file_pattern
                         (Some starting) (Some finishing) = Some (XLAL_OK (Some sci)) ->
      XLALFindFiles disk starting = XLAL_OK fnamesStartTS ->
      XLALFindFiles disk finishing = XLAL_OK fnamesEndTS ->
      Forall (fun f => exists d, detectors_named_in f = [d]) fnamesStartTS ->
      SFDB_detector_names (sfdb_det header) = Some name ->
      nth_error fnamesStartTS X = Some filenameSt ->
      detectors_named_in filenameSt = [name] ->
      (forall j f, (j < X)%nat -> nth_error fnamesStartTS j = Some f ->
                   detectors_named_in f <> [name]) ->
      nth_error fnamesEndTS X = Some filenameEnd ->
      XLALReadTimestampsFile filenameSt = Some starts ->
      XLALReadTimestampsFile filenameEnd = Some ends ->
      (SFDB_is_used (Some sci) header = Some true <->
       exists k, admitted_by_window header starts ends k /\ reached_window header starts k) /\
      (SFDB_is_used (Some sci) header = Some false <->
       exists k s, nth_error starts k = Some s /\ sfdb_gps_sec header < gpsSeconds s /\
                   reached_window header starts k /\
                   forall j, (j < k)%nat -> ~ admitted_by_window header starts ends j) /\
      (starts_ascending starts ->
       (SFDB_is_used (Some sci) header = Some true <->
        exists k, admitted_by_window header starts ends k))) /\
  (forall (XLALReadTimestampsFile : string -> option (list LIGOTimeGPS))
          (disk : Disk) (file_pattern starting finishing : string)
          (fnamesSFDB fnamesStartTS fnamesEndTS : list string),
      XLALFindFiles disk file_pattern = XLAL_OK fnamesSFDB ->
      XLALFindFiles disk starting = XLAL_OK fnamesStartTS ->
      XLALFindFiles disk finishing = XLAL_OK fnamesEndTS ->
      Forall (fun f => XLALReadTimestampsFile f <> None) (fnamesStartTS ++ fnamesEndTS) ->
      Exists (fun f => detectors_named_in f = []) fnamesStartTS ->
      XLALReadSFDB_setup XLALReadTimestampsFile disk file_pattern
                         (Some starting) (Some finishing)
      = Some (XLAL_ERROR XLAL_EINVAL)).
Proof.
  split.
  - intros read disk file_pattern starting finishing sci fnamesStartTS fnamesEndTS
           header name X filenameSt filenameEnd starts ends
           Hsetup HS HE Hone Hn HX Hname Hfirst HXe Rs Re.
    destruct (XLALReadSFDB_setup_OK read _ _ _ _ _ _ _ Hsetup HS HE) as (Ms & Me & Ed & Hall).
    destruct (XLALReadMultiTimestampsFiles_nth read _ _ _ _ Ms HX) as (starts' & Rs' & Ns).
    destruct (XLALReadMultiTimestampsFiles_nth read _ _ _ _ Me HXe) as (ends' & Re' & Ne).
    rewrite Rs in Rs'. injection Rs' as <-. rewrite Re in Re'. injection Re' as <-.
    assert (HXlt : (X < List.length fnamesStartTS)%nat) by (apply nth_error_Some; congruence).
    destruct (Hall X HXlt) as (s0 & e0 & Ns0 & Ne0 & Hl).
    rewrite Ns in Ns0. injection Ns0 as <-. rewrite Ne in Ne0. injection Ne0 as <-.
    assert (Eu : SFDB_is_used (Some sci) header
                 = science_mode_scan (sfdb_gps_sec header)
                     (REAL8_of_Z (sfdb_gps_sec header) + sfdb_tbase header)%float starts ends).
    { unfold SFDB_is_used, CheckIfSFDBInScienceMode. rewrite Hn, Ed.
      rewrite (detector_index_from_first name fnamesStartTS X 0 filenameSt Hone HX Hname Hfirst).
      cbn [Nat.add]. rewrite Ns. now rewrite (nth_nth_error _ _ [] _ Ne). }
    rewrite Eu.
    destruct (science_mode_scan_windows header starts ends Hl) as [T F].
    split; [exact T|]. split; [exact F|].
    intro Hsorted. rewrite T. split.
    + intros (k & A & _). eauto.
    + intros (k & A). exists k. split; [exact A|].
      destruct A as (s & e & A1 & _ & A3 & _).
      exact (starts_ascending_reached header starts k s Hsorted A1 A3).
  - intros read disk file_pattern starting finishing fnamesSFDB fnamesStartTS fnamesEndTS
           HF HS HE Hread Hex.
    unfold XLALReadSFDB_setup. rewrite HF, HS, HE.
    destruct (List.length fnamesStartTS =? List.length fnamesEndTS)%nat eqn:L;
      [|reflexivity].
    apply Nat.eqb_eq in L. cbn [negb].
    destruct (List.length fnamesStartTS =? 0)%nat eqn:Z0; [reflexivity|].
    apply Nat.eqb_neq in Z0.
    apply Forall_app in Hread. destruct Hread as [Hrs Hre].
    destruct (XLALReadMultiTimestampsFiles_Some read fnamesStartTS) as (sts & -> & Ls);
      [intros ->; apply Z0; reflexivity | assumption |].
    destruct (XLALReadMultiTimestampsFiles_Some read fnamesEndTS) as (ets & -> & Le);
      [intros ->; apply Z0; rewrite L; reflexivity | assumption |].
    rewrite (timestamps_files_loop_unknown_name fnamesStartTS sts ets 0 []);
      [reflexivity | cbn; lia | cbn; lia | assumption].
Qed.

Lemma SFDB_science_mode_selection_witness :
  (SFDB_is_used (Some SFDB_science) inner_record = Some true <->
   exists k, admitted_by_window inner_record science_starts science_ends k /\
             reached_window inner_record science_starts k) /\
  XLALReadSFDB_setup SFDB_timestamps SFDB_disk "H1.SFDB09"
                     (Some "segments_start.txt"%string) (Some "H1_end.txt"%string)
  = Some (XLAL_ERROR XLAL_EINVAL).
Proof.
  split.
  - apply (proj1 SFDB_science_mode_selection SFDB_timestamps SFDB_disk "H1.SFDB09"%string
                 "H1_start.txt"%string "H1_end.txt"%string SFDB_science
                 ["H1_start.txt"%string] ["H1_end.txt"%string] inner_record "H1"%string 0%nat
                 "H1_start.txt"%string "H1_end.txt"%string science_starts science_ends);
      try reflexivity.
    + apply Forall_cons; [|apply Forall_nil]. exists "H1"%string. reflexivity.
    + intros j f Hj. lia.
  - apply (proj2 SFDB_science_mode_selection SFDB_timestamps SFDB_disk "H1.SFDB09"%string
                 "segments_start.txt"%string "H1_end.txt"%string
                 ["H1.SFDB09"%string] ["segments_start.txt"%string] ["H1_end.txt"%string]);
      try reflexivity.
    + repeat (apply Forall_cons; [vm_compute; discriminate|]). apply Forall_nil.
    + apply Exists_cons_hd. reflexivity.
Defined.

(** C8 as stated fails.  A record that fills a science segment exactly
    lies inside that window, and is not used; a record that starts half a
    second before a window does not lie inside it, and is used; a record
    inside the second window of lists that are not sorted is not used; for
    a record after the last window the search runs past the end of the
    lists; with two detector names in the name of one start file, a
    record of L1 outside the windows of its own file is used, by the
    windows of V1; and an end-timestamps file whose name holds no
    detector name is accepted. *)
Lemma SFDB_science_mode_counterexample :
  (interval_inside_a_window filling_record science_starts science_ends = true /\
   CheckIfSFDBInScienceMode filling_record ["H1"%string] [science_starts] [science_ends]
   = Some false) /\
  (interval_inside_a_window inner_record half_second_starts science_ends = false /\
   CheckIfSFDBInScienceMode inner_record ["H1"%string] [half_second_starts] [science_ends]
   = Some true) /\
  (interval_inside_a_window inner_record (rev science_starts) (rev science_ends) = true /\
   CheckIfSFDBInScienceMode inner_record ["H1"%string] [rev science_starts] [rev science_ends]
   = Some false) /\
  (interval_inside_a_window late_record science_starts science_ends = false /\
   CheckIfSFDBInScienceMode late_record ["H1"%string] [science_starts] [science_ends] = None) /\
  (XLALReadSFDB_setup shared_timestamps SFDB_disk "H1.SFDB09"
     (Some "H1L1_start.txt;V1_start.txt"%string) (Some "H1L1_end.txt;V1_end.txt"%string)
   = Some (XLAL_OK (Some shared_science)) /\
   interval_inside_a_window L1_record science_starts science_ends = false /\
   interval_inside_a_window L1_record V1_starts V1_ends = true /\
   SFDB_is_used (Some shared_science) L1_record = Some true) /\
  XLALReadSFDB_setup shared_timestamps SFDB_disk "H1.SFDB09"
    (Some "H1_start.txt"%string) (Some "segments_end.txt"%string)
  = Some (XLAL_OK (Some SFDB_science)).
Proof. repeat split; vm_compute; reflexivity. Qed.

(* ------------------------------------------------------------------ *)
(** ** Segment loader *)

Lemma length_store_bins (dst : list (option COMPLEX8)) (at_ : nat) (src : list COMPLEX8) :
  List.length (store_bins dst at_ src) = List.length dst.
Proof.
  revert at_ src. induction dst as [|cell dst IH]; intros at_ src; [reflexivity|].
  destruct at_ as [|k]; cbn [store_bins].
  - destruct src; cbn; [reflexivity|]. now rewrite IH.
  - cbn. now rewrite IH.
Qed.

Lemma nth_error_store_bins_before (dst : list (option COMPLEX8)) (at_ : nat)
    (src : list COMPLEX8) (i : nat) :
  (i < at_)%nat -> nth_error (store_bins dst at_ src) i = nth_error dst i.
Proof.
  revert at_ i. induction dst as [|cell dst IH]; intros at_ i Hi; [reflexivity|].
  destruct at_ as [|k]; [lia|]. cbn [store_bins].
  destruct i as [|i]; [reflexivity|]. cbn. apply IH. lia.
Qed.

Lemma nth_error_store_bins_within (dst : list (option COMPLEX8)) (at_ : nat)
    (src : list COMPLEX8) (i : nat) :
  (at_ <= i < at_ + List.length src)%nat -> (i < List.length dst)%nat ->
  exists c, nth_error (store_bins dst at_ src) i = Some (Some c).
Proof.
  revert at_ src i. induction dst as [|cell dst IH]; intros at_ src i Hi Hd; [cbn in Hd; lia|].
  destruct at_ as [|k]; cbn [store_bins].
  - destruct src as [|c src]; [cbn in Hi; lia|].
    destruct i as [|i]; [cbn; eauto|].
    cbn [nth_error]. apply IH; cbn in *; lia.
  - destruct i as [|i]; [lia|]. cbn [nth_error]. apply IH; cbn in *; lia.
Qed.

Lemma length_bins_of_bytes (swap : bool) (n : nat) (b : list byte) :
  List.length (bins_of_bytes swap n b) = n.
Proof. revert b. induction n; intros b; cbn; [reflexivity|]. now rewrite IHn. Qed.

Lemma to_UINT4_range (z : Z) : 0 <= to_UINT4 z < UINT4_MOD.
Proof. unfold to_UINT4. apply Z.mod_pos_bound. reflexivity. Qed.

Section LoaderFacts.
Context {U : SFTutils}.

(** What a read that returns a last bin has read lies inside the
    requested range, and fills the buffer with as many bins. *)
Lemma read_sft_bins_from_fp_range (ret : SFTtype) (L firstbin lastbin : Z) (fp : FILE)
    (r : bins_read) (fp' : FILE) :
  read_sft_bins_from_fp ret L firstbin lastbin fp = (r, fp') ->
  br_lastBinRead r <> 0 ->
  firstbin <= br_firstBinRead r <= br_lastBinRead r /\
  br_lastBinRead r <= lastbin /\
  List.length (br_bins r)
  = Z.to_nat (to_UINT4 (br_lastBinRead r - br_firstBinRead r + 1)).
Proof.
  unfold read_sft_bins_from_fp.
  destruct (lastbin <? firstbin) eqn:E0; [intros [= <- <-]; cbn [br_lastBinRead]; congruence|].
  destruct (read_sft_header_from_fp fp false) as [[h|] fp1];
    [|intros [= <- <-]; cbn [br_lastBinRead]; congruence].
  cbv zeta.
  set (firstSFTbin := to_UINT4 (lround _)).
  set (lastSFTbin := to_UINT4 (firstSFTbin + _ - 1)).
  set (f2 := if firstbin <? firstSFTbin then firstSFTbin else firstbin).
  set (l2 := if lastSFTbin <? lastbin then lastSFTbin else lastbin).
  pose proof (to_UINT4_range (lround (sft_f0 (hdr_header h) / sft_deltaF (hdr_header h)))) as R1.
  fold firstSFTbin in R1.
  assert (Hf : firstbin <= f2 /\ (f2 = firstbin \/ f2 = firstSFTbin)).
  { subst f2. destruct (firstbin <? firstSFTbin) eqn:E; [apply Z.ltb_lt in E|]; lia. }
  assert (Hl : l2 <= lastbin).
  { subst l2. destruct (lastSFTbin <? lastbin) eqn:E; [apply Z.ltb_lt in E|]; lia. }
  destruct (l2 <? f2) eqn:E1; [intros [= <- <-]; cbn [br_lastBinRead]; congruence|].
  apply Z.ltb_ge in E1.
  destruct (L <? _); [intros [= <- <-]; cbn [br_lastBinRead]; congruence|].
  destruct (fseek_CUR _ _) as [fp2|]; [|intros [= <- <-]; cbn [br_lastBinRead]; congruence].
  destruct (fread _ fp2) as [[bytes|] fp3]; [|intros [= <- <-]; cbn [br_lastBinRead]; congruence].
  intros [= <- <-] _. cbn [br_lastBinRead br_firstBinRead br_bins].
  rewrite length_bins_of_bytes. repeat split; lia.
Qed.

Lemma fetch_segment_range (fs : FileSystem) (deltaF : float) (firstbin lastbin : Z)
    (st : load_state) (desc : SFTDescriptor) (got : fetched) :
  sft_data (desc_header desc) = None ->
  fetch_segment fs deltaF firstbin lastbin st desc = inl got ->
  f_lastBinRead got <> 0 ->
  firstbin <= f_firstBinRead got <= f_lastBinRead got /\
  f_lastBinRead got <= lastbin /\
  List.length (f_bins got)
  = Z.to_nat (to_UINT4 (f_lastBinRead got - f_firstBinRead got + 1)).
Proof.
  intros Hd. unfold fetch_segment. rewrite Hd. cbv zeta.
  destruct (_ && _); [discriminate|].
  match goal with |- match ?s with _ => _ end = _ -> _ => destruct s as [[fp|]|] end;
    [| intros [= <-]; cbn [f_lastBinRead]; congruence | discriminate].
  destruct (read_sft_bins_from_fp _ _ _ _ _) as [r fp'] eqn:R.
  intros [= <-]. cbn [f_lastBinRead f_firstBinRead f_bins].
  eapply read_sft_bins_from_fp_range; eassumption.
Qed.

End LoaderFacts.

Lemma Forall2_set_nth {A B : Type} (R : A -> B -> Prop) (i : nat) (x : A) (y : B)
    (d1 : A) (d2 : B) (l1 : list A) (l2 : list B) :
  Forall2 R l1 l2 ->
  (R (nth i l1 d1) (nth i l2 d2) -> R x y) ->
  Forall2 R (set_nth i x l1) (set_nth i y l2).
Proof.
  intros H. revert i. induction H as [|a b l1 l2 Hab H IH]; intros i Hxy.
  - destruct i; constructor.
  - destruct i as [|i]; cbn [set_nth].
    + constructor; [apply Hxy; exact Hab | exact H].
    + constructor; [exact Hab | apply IH; exact Hxy].
Qed.

Lemma Forall2_set_nth_l {A B : Type} (R : A -> B -> Prop) (i : nat) (x : A)
    (d1 : A) (d2 : B) (l1 : list A) (l2 : list B) :
  Forall2 R l1 l2 ->
  (R (nth i l1 d1) (nth i l2 d2) -> R x (nth i l2 d2)) ->
  Forall2 R (set_nth i x l1) l2.
Proof.
  intros H. revert i. induction H as [|a b l1 l2 Hab H IH]; intros i Hxy.
  - destruct i; constructor.
  - destruct i as [|i]; cbn [set_nth].
    + constructor; [apply Hxy; exact Hab | exact H].
    + constructor; [exact Hab | apply IH; exact Hxy].
Qed.

Lemma add_segment_invariant (deltaF : float) (firstbin lastbin : Z)
    (st st' : load_state) (desc : SFTDescriptor) (got : fetched) :
  0 <= firstbin -> lastbin < UINT4_MOD ->
  (f_lastBinRead got <> 0 ->
   firstbin <= f_firstBinRead got <= f_lastBinRead got /\
   f_lastBinRead got <= lastbin /\
    List.length (f_bins got)
   = Z.to_nat (to_UINT4 (f_lastBinRead got - f_firstBinRead got + 1))) ->
  loader_invariant firstbin lastbin st ->
  add_segment deltaF firstbin lastbin st desc got = inl st' ->
  loader_invariant firstbin lastbin st'.
Proof.
  intros H0 HM Hrange Hinv. unfold add_segment. cbv zeta.
  set (isft := loc_isft (desc_locator desc)).
  destruct (f_lastBinRead got =? 0) eqn:EL; cbn [negb].
  - (* nothing was read *)
    destruct (f_firstBinRead got =? 0); [|discriminate].
    assert (Keep : forall e lf,
      Forall2 (segment_filled firstbin lastbin)
        (set_nth (Z.to_nat isft)
           (mkSegment (seg_first (segment_at st isft)) (seg_last (segment_at st isft)) e lf)
           (segments st))
        (sftVector st)).
    { intros e lf.
      apply (Forall2_set_nth_l _ _ _ zero_segment empty_loaded_SFT); [exact Hinv|].
      unfold segment_at. intros [Hlen Hfill]. split; [exact Hlen|exact Hfill]. }
    destruct (GPSZERO _).
    + intros [= <-]. apply Keep.
    + destruct (negb _); [discriminate|]. intros [= <-]. exact Hinv.
  - apply Z.eqb_neq in EL. destruct (Hrange EL) as (Hf & Hl & Hn).
    set (seg := segment_at st isft).
    set (chk := if seg_last seg =? 0 then _ else _).
    destruct chk as [seg1|e] eqn:Echk; [|discriminate].
    destruct (negb (_ =? _)%float); [discriminate|].
    destruct (negb (GPSEQUAL _ _)); [discriminate|].
    intros [= <-]. unfold loader_invariant. cbn [segments sftVector].
    apply (Forall2_set_nth _ _ _ _ zero_segment empty_loaded_SFT); [exact Hinv|].
    fold (segment_at st isft). fold seg.
    intros [Hlen Hfill].
    set (old := nth (Z.to_nat isft) (sftVector st) empty_loaded_SFT) in *.
    split; cbn [ld_data seg_last].
    + rewrite length_store_bins. exact Hlen.
    + intros _. split; [lia|].
      rewrite length_store_bins. intros i Hi Hilen.
      (* the requested range is not the whole of the 32-bit range *)
      assert (Hsize : lastbin + 1 - firstbin < UINT4_MOD).
      { destruct (Z_lt_ge_dec (lastbin + 1 - firstbin) UINT4_MOD) as [|Hge]; [assumption|].
        exfalso. assert (lastbin + 1 - firstbin = UINT4_MOD) by lia.
        rewrite Hlen in Hilen.
        replace (lastbin + 1 - firstbin) with UINT4_MOD in Hilen by lia.
        vm_compute in Hilen. lia. }
      assert (Eoff : to_UINT4 (f_firstBinRead got - firstbin) = f_firstBinRead got - firstbin).
      { unfold to_UINT4. apply Z.mod_small. lia. }
      assert (En : to_UINT4 (f_lastBinRead got - f_firstBinRead got + 1)
                   = f_lastBinRead got - f_firstBinRead got + 1).
      { unfold to_UINT4. apply Z.mod_small. lia. }
      rewrite Eoff, En. rewrite En in Hn.
      assert (Hsrc : List.length (firstn (Z.to_nat (f_lastBinRead got - f_firstBinRead got + 1))
                                         (f_bins got))
                     = Z.to_nat (f_lastBinRead got - f_firstBinRead got + 1)).
      { rewrite length_firstn, Hn. lia. }
      destruct (Z_lt_ge_dec (Z.of_nat i) (f_firstBinRead got - firstbin)) as [Hb|Hb].
      * rewrite nth_error_store_bins_before by lia.
        subst chk. destruct (seg_last seg =? 0) eqn:E0.
        -- destruct (negb (_ =? firstbin)) eqn:E1; [discriminate|].
           apply negb_false_iff, Z.eqb_eq in E1. lia.
        -- apply Z.eqb_neq in E0.
           destruct (negb (_ =? to_UINT4 _)) eqn:E1; [discriminate|].
           apply negb_false_iff, Z.eqb_eq in E1.
           destruct (Hfill E0) as [Hr Hcells].
           assert (Hnext : to_UINT4 (seg_last seg + 1) = seg_last seg + 1).
           { destruct (Z.eq_dec (seg_last seg + 1) UINT4_MOD) as [Ew|Ew].
             - exfalso. rewrite Ew in E1. change (to_UINT4 UINT4_MOD) with 0 in E1. lia.
             - unfold to_UINT4. apply Z.mod_small. lia. }
           apply Hcells; [lia|assumption].
      * apply nth_error_store_bins_within; [|exact Hilen].
        rewrite Hsrc. lia.
Qed.

Section LoaderLoop.
Context {U : SFTutils}.
Variable fs : FileSystem.
Variable deltaF : float.
Variables firstbin lastbin : Z.
Hypothesis firstbin_nonneg : 0 <= firstbin.
Hypothesis lastbin_UINT4 : lastbin < UINT4_MOD.

Lemma load_one_invariant (st st' : load_state) (desc : SFTDescriptor) :
  read_from_file desc ->
  loader_invariant firstbin lastbin st ->
  load_one fs deltaF firstbin lastbin st desc = inl st' ->
  loader_invariant firstbin lastbin st'.
Proof.
  intros Hd Hinv. unfold load_one.
  destruct (fetch_segment fs deltaF firstbin lastbin st desc) as [got|e] eqn:F;
    [|discriminate].
  apply add_segment_invariant; try assumption.
  intros Hne. eapply fetch_segment_range; eassumption.
Qed.

Lemma load_all_invariant (locatalog : list SFTDescriptor) (st st' : load_state) :
  Forall read_from_file locatalog ->
  loader_invariant firstbin lastbin st ->
  load_all fs deltaF firstbin lastbin st locatalog = inl st' ->
  loader_invariant firstbin lastbin st'.
Proof.
  intros Hall. revert st. induction Hall as [|desc locatalog Hd _ IH]; intros st Hinv.
  - cbn. intros [= <-]. exact Hinv.
  - cbn [load_all].
    destruct (load_one fs deltaF firstbin lastbin st desc) as [st1|e] eqn:L1; [|discriminate].
    apply IH. eapply load_one_invariant; eassumption.
Qed.

Lemma complete_SFTs_filled (isft : Z) (segs : list SFTReadSegment) (sfts v : list loaded_SFT) :
  lastbin <> 0 ->
  Forall2 (segment_filled firstbin lastbin) segs sfts ->
  complete_SFTs deltaF firstbin lastbin isft segs sfts = Loaded v ->
  Forall (fun sft => completely_filled (ld_data sft)) v.
Proof.
  intros Hne H. revert isft v.
  induction H as [|seg sft segs sfts [Hlen Hfill] _ IH]; intros isft v.
  - cbn. intros [= <-]. constructor.
  - cbn [complete_SFTs].
    destruct (seg_last seg =? lastbin) eqn:E.
    + apply Z.eqb_eq in E.
      destruct (complete_SFTs deltaF firstbin lastbin (isft + 1) segs sfts) as [rest|]
        eqn:C; [|discriminate].
      intros [= <-]. constructor; [|eapply IH; eassumption].
      cbn [ld_data]. unfold completely_filled. apply Forall_forall.
      intros cell Hin. apply In_nth_error in Hin. destruct Hin as [i Hi].
      destruct (Hfill ltac:(lia)) as [Hr Hcells].
      assert (Hilen : (i < List.length (ld_data sft))%nat).
      { apply nth_error_Some. congruence. }
      destruct (Hcells i) as [c Hc]; [|exact Hilen|congruence].
      rewrite Hlen in Hilen.
      pose proof (Z.mod_le (lastbin + 1 - firstbin) UINT4_MOD ltac:(lia) ltac:(reflexivity)).
      unfold to_UINT4 in Hilen. lia.
    + destruct (negb _); discriminate.
Qed.

Lemma load_range_filled (nSFTs : Z) (catalog : list SFTDescriptor) (v : list loaded_SFT) :
  lastbin <> 0 ->
  Forall read_from_file catalog ->
  load_range fs deltaF nSFTs firstbin lastbin catalog = Loaded v ->
  Forall (fun sft => completely_filled (ld_data sft)) v.
Proof.
  intros Hne Hall. unfold load_range. cbv zeta.
  destruct (load_all _ _ _ _ _ _) as [st|[e m]] eqn:L; [|discriminate].
  apply complete_SFTs_filled; [exact Hne|].
  eapply load_all_invariant; [| |exact L].
  - eapply Permutation_Forall; [apply qsort_perm|exact Hall].
  - unfold loader_invariant. cbn [segments sftVector]. clear L.
    induction (Z.to_nat nSFTs) as [|n IH]; cbn [repeat]; [constructor|].
    constructor; [|exact IH].
    split; cbn [ld_data seg_last zero_segment].
    + apply repeat_length.
    + congruence.
Qed.

End LoaderLoop.

Section LoaderTop.
Context {U : SFTutils}.

Lemma index_catalog_headers (deltaF : float) (catalog : list SFTDescriptor)
    (epoch : LIGOTimeGPS) (nSFTs minbin maxbin : Z) :
  map desc_header (fst (index_catalog deltaF catalog epoch nSFTs minbin maxbin))
  = map desc_header catalog.
Proof.
  revert epoch nSFTs minbin maxbin.
  induction catalog as [|d rest IH]; intros epoch nSFTs minbin maxbin; [reflexivity|].
  cbn [index_catalog]. cbv zeta.
  match goal with |- context [index_catalog deltaF rest ?e ?n ?a ?b] =>
    specialize (IH e n a b); destruct (index_catalog deltaF rest e n a b) as [rest' r] end.
  cbn [fst map desc_header] in *. now rewrite IH.
Qed.

Lemma index_catalog_bins (deltaF : float) (catalog : list SFTDescriptor)
    (epoch : LIGOTimeGPS) (nSFTs minbin maxbin : Z) :
  0 <= minbin -> maxbin < UINT4_MOD ->
  0 <= snd (fst (snd (index_catalog deltaF catalog epoch nSFTs minbin maxbin))) /\
  snd (snd (index_catalog deltaF catalog epoch nSFTs minbin maxbin)) < UINT4_MOD.
Proof.
  revert epoch nSFTs minbin maxbin.
  induction catalog as [|d rest IH]; intros epoch nSFTs minbin maxbin H0 HM.
  - cbn [index_catalog fst snd]. split; assumption.
  - cbn [index_catalog]. cbv zeta.
    match goal with |- context [index_catalog deltaF rest ?e ?n ?a ?b] =>
      specialize (IH e n a b); destruct (index_catalog deltaF rest e n a b) as [rest' r] end.
    cbn [fst snd] in *. apply IH.
    + match goal with |- 0 <= (if ?c then _ else _) => destruct c end;
        [apply to_UINT4_range | exact H0].
    + match goal with |- (if ?c then _ else _) < _ => destruct c end;
        [apply to_UINT4_range | exact HM].
Qed.

Lemma catalog_survey_facts (catalog : SFTCatalog) (sv : survey) :
  catalog_survey catalog = Some sv ->
  map desc_header (sv_catalog sv) = map desc_header catalog /\
  0 <= sv_minbin sv /\ sv_maxbin sv < UINT4_MOD.
Proof.
  unfold catalog_survey. destruct catalog as [|d0 rest]; [discriminate|]. cbv zeta.
  match goal with |- context [index_catalog ?f rest ?e ?n ?a ?b] =>
    pose proof (index_catalog_headers f rest e n a b) as Hh;
    pose proof (index_catalog_bins f rest e n a b) as Hb;
    destruct (index_catalog f rest e n a b) as [rest' [[nSFTs minbin] maxbin]] end.
  intros [= <-]. cbn [fst snd sv_catalog sv_minbin sv_maxbin map desc_header] in *.
  split; [now rewrite Hh|].
  apply Hb; apply to_UINT4_range.
Qed.

(** Away from the last bin 0, every SFT that [XLALLoadSFTs] returns from
    the files of a catalog has all its cells filled. *)
Lemma XLALLoadSFTs_filled (fs : FileSystem) (catalog : SFTCatalog) (fMin fMax : float)
    (sv : survey) (v : list loaded_SFT) :
  catalog_survey catalog = Some sv ->
  Forall read_from_file catalog ->
  requested_lastbin (sv_deltaF sv) (sv_maxbin sv) fMax <> 0 ->
  XLALLoadSFTs fs catalog fMin fMax = Loaded v ->
  Forall (fun sft => completely_filled (ld_data sft)) v.
Proof.
  intros Hsv Hall Hne. unfold XLALLoadSFTs. rewrite Hsv. cbv zeta.
  destruct (catalog_survey_facts _ _ Hsv) as (Hh & Hmin & Hmax).
  destruct (_ && _); [discriminate|].
  apply load_range_filled.
  - unfold requested_firstbin. destruct (fMin <? 0)%float; [exact Hmin|].
    apply to_UINT4_range.
  - unfold requested_lastbin. destruct (fMax <? 0)%float; [exact Hmax|].
    apply to_UINT4_range.
  - exact Hne.
  - unfold read_from_file in *.
    assert (Hm : Forall (fun h => sft_data h = None) (map desc_header (sv_catalog sv))).
    { rewrite Hh. apply Forall_map. exact Hall. }
    apply Forall_map in Hm. exact Hm.
Qed.

(** A read that brings bins which do not follow the last bin recorded for
    the same SFT stops the load with the error that names both files. *)
Lemma load_all_gap_or_overlap (fs : FileSystem) (deltaF : float) (firstbin lastbin : Z)
    (st st' : load_state) (before after : list SFTDescriptor) (desc : SFTDescriptor)
    (got : fetched) :
  load_all fs deltaF firstbin lastbin st before = inl st' ->
  fetch_segment fs deltaF firstbin lastbin st' desc = inl got ->
  let seg := segment_at st' (loc_isft (desc_locator desc)) in
  f_lastBinRead got <> 0 ->
  seg_last seg <> 0 ->
  f_firstBinRead got <> to_UINT4 (seg_last seg + 1) ->
  load_all fs deltaF firstbin lastbin st (before ++ desc :: after)
  = inr (XLAL_EIO,
         gap_or_overlap (loc_isft (desc_locator desc)) (seg_last seg) (lastfrom_fname seg)
                        (f_firstBinRead got) (f_fname got)).
Proof.
  revert st. induction before as [|d before IH]; intros st Hb Hf seg Hl Hs Hg.
  - cbn in Hb. injection Hb as ->. cbn [app load_all]. unfold load_one. rewrite Hf.
    unfold add_segment. cbv zeta. fold seg.
    apply Z.eqb_neq in Hl, Hs, Hg. rewrite Hl, Hs, Hg. reflexivity.
  - cbn [app load_all] in *.
    destruct (load_one fs deltaF firstbin lastbin st d) as [st1|e]; [|discriminate].
    apply IH; assumption.
Qed.

End LoaderTop.

(** C3: the catalog of a file holding the single bin 0 is loaded
    "successfully", and the bin of the SFT returned was never copied from
    the file.  The read delivers the bin and returns 0, the number of the
    last bin read; the loader takes this 0 for "nothing read", and the
    completeness check compares the recorded last bin, still 0, with the
    requested last bin 0. *)
Theorem XLALLoadSFTs_returns_unfilled_bin_0 :
  let r := fst (read_sft_bins_from_fp (U := reference_SFTutils) zero_SFT 1 0 0
                                      (mkFILE DC_file 0)) in
  (br_lastBinRead r, br_firstBinRead r, br_bins r) = (0, 0, [mkC8 1065353216 1073741824]) /\
  requested_firstbin (sft_deltaF sample_SFT) 0 (-1) = 0 /\
  requested_lastbin (sft_deltaF sample_SFT) 0 (-1) = 0 /\
  XLALLoadSFTs (U := reference_SFTutils) (disk_files DC_disk) DC_catalog (-1) (-1)
  = Loaded [mkLoaded "" (mkGPS 1000000000 0) 0 (sft_deltaF sample_SFT) [None]] /\
  ~ completely_filled [@None COMPLEX8].
Proof.
  cbv zeta. repeat split; try (vm_compute; reflexivity).
  intros H. inversion H as [|? ? Hcell _]. apply Hcell. reflexivity.
Qed.

(** The loader on the samples: the SFTs of the sample catalog are loaded
    with all their cells filled, and the two files that leave a bin out are
    refused with the error that names both. *)
Example XLALLoadSFTs_sample_filled :
  exists v,
    XLALLoadSFTs (U := reference_SFTutils) (disk_files sample_disk) sample_catalog (-1) (-1)
    = Loaded v /\
    Forall (fun sft => completely_filled (ld_data sft)) v.
Proof.
  eexists. split; [vm_compute; reflexivity|].
  eapply (XLALLoadSFTs_filled (U := reference_SFTutils) (disk_files sample_disk)
                              sample_catalog (-1) (-1)).
  - vm_compute. reflexivity.
  - repeat (apply Forall_cons; [reflexivity|]). apply Forall_nil.
  - vm_compute. discriminate.
  - vm_compute. reflexivity.
Qed.

Example XLALLoadSFTs_sample_gap :
  XLALLoadSFTs (U := reference_SFTutils) (disk_files gap_disk) gap_catalog (-1) (-1)
  = Load_failed XLAL_EIO (gap_or_overlap 0 18001 "gap_lo.sft" 18003 "gap_hi.sft").
Proof. vm_compute. reflexivity. Qed.

(* ------------------------------------------------------------------ *)
(** * Further properties of the module *)

(* ------------------------------------------------------------------ *)
(** ** The checksum engine: chunks and error detection *)

(** The checksum of data handed over in contiguous chunks, each call
    started from the value the call before returned, is the checksum of
    the whole. *)
Theorem calc_crc64_chunks (chunks : list (list byte)) (crc : Z) :
  fold_left (fun c chunk => calc_crc64 (Some chunk) (Z.of_nat (List.length chunk)) c)
            chunks crc
  = calc_crc64 (Some (List.concat chunks)) (Z.of_nat (List.length (List.concat chunks))) crc.
Proof.
  rewrite calc_crc64_whole. revert crc.
  induction chunks as [|chunk chunks IH]; intros crc; cbn [fold_left List.concat].
  - reflexivity.
  - rewrite IH, calc_crc64_whole, crc64_bytes_app. reflexivity.
Qed.

Lemma table_top_injective_upto :
  forallb (fun i => forallb (fun j => (i =? j)%nat
                                      || negb (table_top (Z.of_nat i) =? table_top (Z.of_nat j)))
                            (seq 0 256))
          (seq 0 256) = true.
Proof. vm_compute. reflexivity. Qed.

Lemma table_top_injective (i j : Z) :
  0 <= i < 256 -> 0 <= j < 256 -> table_top i = table_top j -> i = j.
Proof.
  intros Hi Hj E.
  pose proof table_top_injective_upto as H.
  rewrite forallb_forall in H.
  specialize (H (Z.to_nat i)). rewrite forallb_forall in H.
  specialize (H ltac:(apply in_seq; lia) (Z.to_nat j) ltac:(apply in_seq; lia)).
  rewrite !Z2Nat.id in H by lia.
  apply orb_true_iff in H. destruct H as [H|H].
  - apply Nat.eqb_eq in H. lia.
  - rewrite E, Z.eqb_refl in H. discriminate.
Qed.

Lemma lxor_cancel_r (a b x : Z) : Z.lxor a x = Z.lxor b x -> a = b.
Proof.
  intros H. rewrite <- (Z.lxor_0_r a), <- (Z.lxor_0_r b), <- (Z.lxor_nilpotent x).
  rewrite <- !Z.lxor_assoc. now rewrite H.
Qed.

Lemma land_lxor_distr (a b c : Z) :
  Z.land (Z.lxor a b) c = Z.lxor (Z.land a c) (Z.land b c).
Proof.
  apply Z.bits_inj'. intros n Hn.
  rewrite Z.lxor_spec, !Z.land_spec, Z.lxor_spec.
  destruct (Z.testbit a n), (Z.testbit b n), (Z.testbit c n); reflexivity.
Qed.

Lemma land_255_range (a : Z) : 0 <= Z.land a 0xff < 256.
Proof.
  change 0xff with (Z.ones 8). rewrite Z.land_ones by lia.
  apply Z.mod_pos_bound. reflexivity.
Qed.

Lemma crc64_step_top (crc : Z) (d : byte) :
  0 <= crc < 2 ^ 64 ->
  Z.shiftr (crc64_step crc d) 56
  = table_top (Z.land (Z.lxor crc (CHAR_to_UINT8 d)) 0xff).
Proof.
  intros Hc. unfold crc64_step, table_top. cbv zeta.
  rewrite Z.shiftr_lxor, Z.shiftr_shiftr by lia.
  replace (Z.shiftr crc (8 + 56)) with 0; [apply Z.lxor_0_l|].
  rewrite Z.shiftr_div_pow2 by lia. symmetry. apply Z.div_small. exact Hc.
Qed.

Lemma split_low_byte (c : Z) : c = 256 * Z.shiftr c 8 + Z.land c 0xff.
Proof.
  change 0xff with (Z.ones 8). rewrite Z.land_ones, Z.shiftr_div_pow2 by lia.
  apply Z.div_mod. discriminate.
Qed.

(** For a given byte, the step is one-to-one on running checksums. *)
Lemma crc64_step_injective (c1 c2 : Z) (d : byte) :
  0 <= c1 < 2 ^ 64 -> 0 <= c2 < 2 ^ 64 ->
  crc64_step c1 d = crc64_step c2 d -> c1 = c2.
Proof.
  intros H1 H2 E.
  assert (Ei : Z.land (Z.lxor c1 (CHAR_to_UINT8 d)) 0xff
               = Z.land (Z.lxor c2 (CHAR_to_UINT8 d)) 0xff).
  { apply table_top_injective; try apply land_255_range.
    rewrite <- !crc64_step_top by assumption. now rewrite E. }
  unfold crc64_step in E. cbv zeta in E. rewrite Ei in E.
  apply lxor_cancel_r in E.
  rewrite !land_lxor_distr in Ei. apply lxor_cancel_r in Ei.
  rewrite (split_low_byte c1), (split_low_byte c2), E, Ei. reflexivity.
Qed.

Lemma CHAR_to_UINT8_low (d : byte) : Z.land (CHAR_to_UINT8 d) 0xff = Z_of_byte d.
Proof.
  pose proof (Z_of_byte_range d) as R.
  change 0xff with (Z.ones 8). rewrite Z.land_ones by lia.
  unfold CHAR_to_UINT8. cbv zeta.
  destruct (Z_of_byte d <? 128) eqn:E.
  - apply Z.mod_small. lia.
  - apply Z.ltb_ge in E. unfold to_UINT8, UINT8_MOD.
    rewrite Z.mod_mod_divide by (exists (2 ^ 56); reflexivity).
    replace (Z_of_byte d - 256) with (Z_of_byte d + (-1) * 2 ^ 8) by lia.
    rewrite Z.mod_add by discriminate. apply Z.mod_small. lia.
Qed.

Lemma Z_of_byte_injective (a b : byte) : Z_of_byte a = Z_of_byte b -> a = b.
Proof. intros E. rewrite <- (byte_of_Z_of_byte a), <- (byte_of_Z_of_byte b). now rewrite E. Qed.

(** For a given running checksum, different bytes give different values. *)
Lemma crc64_step_separates (c : Z) (d1 d2 : byte) :
  0 <= c < 2 ^ 64 -> crc64_step c d1 = crc64_step c d2 -> d1 = d2.
Proof.
  intros Hc E.
  assert (Ei : Z.land (Z.lxor c (CHAR_to_UINT8 d1)) 0xff
               = Z.land (Z.lxor c (CHAR_to_UINT8 d2)) 0xff).
  { apply table_top_injective; try apply land_255_range.
    rewrite <- !crc64_step_top by assumption. now rewrite E. }
  rewrite !land_lxor_distr, !CHAR_to_UINT8_low in Ei.
  rewrite (Z.lxor_comm _ (Z_of_byte d1)), (Z.lxor_comm _ (Z_of_byte d2)) in Ei.
  apply lxor_cancel_r in Ei. now apply Z_of_byte_injective.
Qed.

Lemma crc64_bytes_injective (l : list byte) (c1 c2 : Z) :
  0 <= c1 < 2 ^ 64 -> 0 <= c2 < 2 ^ 64 ->
  crc64_bytes l c1 = crc64_bytes l c2 -> c1 = c2.
Proof.
  revert c1 c2. induction l as [|d l IH]; intros c1 c2 H1 H2 E; [exact E|].
  cbn [crc64_bytes fold_left] in E.
  apply (crc64_step_injective c1 c2 d H1 H2).
  apply IH; [now apply crc64_step_range | now apply crc64_step_range | exact E].
Qed.

(** Two buffers that differ in one byte never have the same checksum,
    whatever 64-bit value the checksum is started from. *)
Theorem calc_crc64_detects_one_wrong_byte (before after : list byte) (good bad : byte)
    (crc : Z) :
  0 <= crc < 2 ^ 64 ->
  good <> bad ->
  let length := Z.of_nat (List.length (before ++ good :: after)) in
  calc_crc64 (Some (before ++ good :: after)) length crc
  <> calc_crc64 (Some (before ++ bad :: after)) length crc.
Proof.
  intros Hc Hd length E. subst length.
  rewrite calc_crc64_whole in E.
  replace (List.length (before ++ good :: after))
    with (List.length (before ++ bad :: after)) in E
    by (rewrite !length_app; reflexivity).
  rewrite calc_crc64_whole, !crc64_bytes_app in E.
  cbn [crc64_bytes fold_left] in E.
  pose proof (crc64_bytes_range before crc Hc) as Hb.
  apply crc64_bytes_injective in E; try (apply crc64_step_range; exact Hb).
  apply crc64_step_separates in E; [|exact Hb]. contradiction.
Qed.

Lemma calc_crc64_detects_one_wrong_byte_witness :
  0 <= ALL_ONES < 2 ^ 64 /\
  calc_crc64 (Some (chars "H1; hello")) 9 ALL_ONES
  <> calc_crc64 (Some (chars "H1; hallo")) 9 ALL_ONES.
Proof.
  split; [vm_compute; split; [discriminate|reflexivity]|].
  apply (calc_crc64_detects_one_wrong_byte (chars "H1; h") (chars "llo") "e"%byte "a"%byte ALL_ONES).
  - vm_compute. split; [discriminate|reflexivity].
  - discriminate.
Defined.

(* ------------------------------------------------------------------ *)
(** ** The header readers and the file position *)

Lemma fread_contents (n : Z) (fp : FILE) : contents (snd (fread n fp)) = contents fp.
Proof. unfold fread. destruct (_ && _); reflexivity. Qed.

Lemma restore_initial (f fp : FILE) :
  contents f = contents fp -> 0 <= fpos fp -> restore f (fpos fp) = fp.
Proof.
  intros Hc Hp. unfold restore, fseek_SET.
  destruct (fpos fp <? 0) eqn:E; [apply Z.ltb_lt in E; lia|].
  rewrite Hc. destruct fp; reflexivity.
Qed.

Lemma bytes_eqb_eq (a b : list byte) : bytes_eqb a b = true <-> a = b.
Proof. unfold bytes_eqb. destruct (list_eq_dec _ a b); split; congruence. Qed.

Section Readers.
Context {U : SFTutils}.

Lemma read_SFTversion_from_fp_same (fp : FILE) :
  0 <= fpos fp -> snd (read_SFTversion_from_fp fp) = fp.
Proof.
  intros Hp. unfold read_SFTversion_from_fp, ftell. cbv zeta.
  destruct (fpos fp =? -1) eqn:E; [apply Z.eqb_eq in E; lia|].
  pose proof (fread_contents 8 fp) as Hc.
  destruct (fread 8 fp) as [[ver|] fp1]; cbn [snd] in *.
  - destruct (match_version ver SFT_versions) as [r|].
    + unfold fseek_SET. destruct (fpos fp <? 0) eqn:E1; [apply Z.ltb_lt in E1; lia|].
      cbn [snd]. rewrite Hc. destruct fp; reflexivity.
    + cbn [snd]. now apply restore_initial.
  - now apply restore_initial.
Qed.

(** The version reader never moves the stream, and accepts exactly the
    version number 2.0, stored in the byte order of the host or in the
    other one. *)
Theorem read_SFTversion_from_fp_accepts (fp : FILE) :
  0 <= fpos fp ->
  exists r, read_SFTversion_from_fp fp = (r, fp) /\
    match r with
    | Some (version, need_swap) =>
        version = 2 /\
        fst (fread 8 fp)
        = Some (if need_swap then endian_swap version_2_image else version_2_image)
    | None =>
        fst (fread 8 fp) <> Some version_2_image /\
        fst (fread 8 fp) <> Some (endian_swap version_2_image)
    end.
Proof.
  intros Hp. exists (fst (read_SFTversion_from_fp fp)). split.
  - rewrite <- (read_SFTversion_from_fp_same fp Hp) at 3. apply surjective_pairing.
  - unfold read_SFTversion_from_fp, ftell. cbv zeta.
    destruct (fpos fp =? -1) eqn:E; [apply Z.eqb_eq in E; lia|].
    destruct (fread 8 fp) as [[ver|] fp1]; cbn [fst]; [|split; discriminate].
    change SFT_versions with [2]. cbn [match_version].
    change (le_bytes 8 (REAL8_to_bits (REAL8_of_Z 2))) with version_2_image.
    destruct (bytes_eqb ver version_2_image) eqn:E1.
    + apply bytes_eqb_eq in E1. subst ver.
      unfold fseek_SET. destruct (fpos fp <? 0) eqn:E2; [apply Z.ltb_lt in E2; lia|].
      cbn [fst]. split; reflexivity.
    + destruct (bytes_eqb ver (endian_swap version_2_image)) eqn:E2.
      * apply bytes_eqb_eq in E2. subst ver.
        unfold fseek_SET. destruct (fpos fp <? 0) eqn:E3; [apply Z.ltb_lt in E3; lia|].
        cbn [fst]. split; reflexivity.
      * cbn [fst]. split; intros [= ->].
        -- rewrite (proj2 (bytes_eqb_eq _ _) eq_refl) in E1. discriminate.
        -- rewrite (proj2 (bytes_eqb_eq _ _) eq_refl) in E2. discriminate.
Qed.

Lemma read_v2_header_from_fp_None (fp : FILE) (swapEndian : bool) (fp' : FILE) :
  0 <= fpos fp ->
  read_v2_header_from_fp fp swapEndian = (None, fp') -> fp' = fp.
Proof.
  intros Hp. unfold read_v2_header_from_fp, ftell. cbv zeta.
  destruct (fpos fp =? -1) eqn:E; [apply Z.eqb_eq in E; lia|].
  pose proof (fread_contents sizeof_rawheader fp) as Hc.
  destruct (fread sizeof_rawheader fp) as [[img|] fp1]; cbn [snd] in Hc;
    [|intros [= <-]; now apply restore_initial].
  repeat match goal with
         | |- (if ?c then _ else _) = _ -> _ =>
             destruct c; [try (intros [= <-]; now apply restore_initial); try discriminate|]
         end.
  pose proof (fread_contents (raw_comment_length (rawheader_of_bytes swapEndian img)) fp1) as Hc2.
  destruct (fread _ fp1) as [[comm|] fp2]; cbn [snd] in Hc2;
    [|intros [= <-]; apply restore_initial; congruence].
  repeat match goal with
         | |- (if ?c then _ else _) = _ -> _ =>
             destruct c; [try (intros [= <-]; apply restore_initial; congruence); try discriminate|]
         end.
  discriminate.
Qed.

(** A header reader that fails leaves the stream where it was. *)
Theorem header_readers_restore_position (fp : FILE) :
  0 <= fpos fp ->
  (forall swapEndian fp', read_v2_header_from_fp fp swapEndian = (None, fp') -> fp' = fp) /\
  (forall want_comment fp', read_sft_header_from_fp fp want_comment = (None, fp') -> fp' = fp).
Proof.
  intros Hp. split.
  - intros swapEndian fp'. now apply read_v2_header_from_fp_None.
  - intros want fp'. unfold read_sft_header_from_fp, ftell. cbv zeta.
    destruct (fpos fp =? -1) eqn:E; [apply Z.eqb_eq in E; lia|].
    pose proof (read_SFTversion_from_fp_same fp Hp) as Hv.
    destruct (read_SFTversion_from_fp fp) as [[[ver need_swap]|] fp1]; cbn [snd] in Hv; subst fp1;
      [|now intros [= <-]].
    destruct (ver =? 2); [|intros [= <-]; now apply restore_initial].
    destruct (read_v2_header_from_fp fp need_swap) as [[r|] fp2] eqn:R.
    + apply read_v2_header_from_fp_Some in R. destruct R as (_ & Hc & _).
      repeat match goal with
             | |- (if ?c then _ else _) = _ -> _ =>
                 destruct c; [try (intros [= <-]; now apply restore_initial); try discriminate|]
             end.
      discriminate.
    + apply read_v2_header_from_fp_None in R; [|exact Hp]. subst fp2.
      intros [= <-]. now apply restore_initial.
Qed.

End Readers.

Lemma read_SFTversion_from_fp_accepts_witness :
  exists r, read_SFTversion_from_fp (mkFILE merged_file 0) = (r, mkFILE merged_file 0) /\
    match r with
    | Some (version, need_swap) =>
        version = 2 /\
        fst (fread 8 (mkFILE merged_file 0))
        = Some (if need_swap then endian_swap version_2_image else version_2_image)
    | None =>
        fst (fread 8 (mkFILE merged_file 0)) <> Some version_2_image /\
        fst (fread 8 (mkFILE merged_file 0)) <> Some (endian_swap version_2_image)
    end.
Proof. apply (read_SFTversion_from_fp_accepts (mkFILE merged_file 0)). cbn. lia. Defined.

Lemma header_readers_restore_position_witness :
  ((forall swapEndian fp',
       read_v2_header_from_fp (U := reference_SFTutils) (mkFILE truncated_file 0) swapEndian
       = (None, fp') -> fp' = mkFILE truncated_file 0) /\
   (forall want_comment fp',
       read_sft_header_from_fp (U := reference_SFTutils) (mkFILE truncated_file 0) want_comment
       = (None, fp') -> fp' = mkFILE truncated_file 0)) /\
  read_sft_header_from_fp (U := reference_SFTutils) (mkFILE truncated_file 0) true
  = (None, mkFILE truncated_file 0).
Proof.
  split.
  - apply (header_readers_restore_position (U := reference_SFTutils) (mkFILE truncated_file 0)).
    cbn. lia.
  - vm_compute. reflexivity.
Defined.
Lemma length_until_NUL (l : list byte) : (List.length (until_NUL l) <= List.length l)%nat.
Proof. induction l as [|b l IH]; cbn; [lia|]. destruct (is_NUL b); cbn; lia. Qed.

Lemma length_string_of_list_byte (l : list byte) :
  String.length (string_of_list_byte l) = List.length l.
Proof.
  rewrite <- length_chars. unfold chars. now rewrite list_byte_of_string_of_list_byte.
Qed.

Lemma length_cstring_of_buffer (l : list byte) :
  (String.length (cstring_of_buffer l) <= List.length l)%nat.
Proof. unfold cstring_of_buffer. rewrite length_string_of_list_byte. apply length_until_NUL. Qed.

Lemma fread_Some_length (n : Z) (fp : FILE) (l : list byte) (fp' : FILE) :
  0 <= n -> fread n fp = (Some l, fp') -> Z.of_nat (List.length l) = n.
Proof.
  intros Hn. unfold fread.
  destruct (_ && _) eqn:E; [|discriminate]. intros [= <- _].
  apply andb_true_iff in E. destruct E as [E1 E2].
  apply Z.leb_le in E1, E2. unfold file_length in E2.
  rewrite length_firstn, length_skipn. lia.
Qed.

Section Accepts.
Context {U : SFTutils}.

Lemma read_v2_header_from_fp_position (fp : FILE) (swapEndian : bool) (r : v2_header)
    (fp' : FILE) :
  read_v2_header_from_fp fp swapEndian = (Some r, fp') ->
  exists comment_length,
    0 <= comment_length /\ comment_length mod 8 = 0 /\
    fpos fp' = fpos fp + sizeof_rawheader + comment_length /\
    fpos fp' <= file_length fp /\
    match v2_SFTcomment r with
    | Some comm => Z.of_nat (List.length comm) = comment_length /\ 0 < comment_length /\
                   last comm NUL = NUL
    | None => comment_length = 0
    end /\
    (String.length (sft_name (v2_header_ r)) <= 2)%nat /\
    sft_data (v2_header_ r) = None /\
    sft_epoch (v2_header_ r) = sft_epoch (v2_header_ r).
Proof.
  unfold read_v2_header_from_fp, ftell. cbv zeta.
  destruct (fpos fp =? -1); [discriminate|].
  destruct (fread sizeof_rawheader fp) as [[img|] fp1] eqn:F1; [|discriminate].
  apply fread_Some in F1. destruct F1 as (Hp0 & Hp1 & Hc1 & Hl1).
  set (raw := rawheader_of_bytes swapEndian img).
  destruct (negb (raw_version raw =? 2)%float); [discriminate|].
  destruct (raw_nsamples raw <=? 0); [discriminate|].
  destruct (raw_comment_length raw <? 0) eqn:E1; [discriminate|]. apply Z.ltb_ge in E1.
  destruct (negb (Z.rem (raw_comment_length raw) 8 =? 0)) eqn:E2; [discriminate|].
  apply negb_false_iff, Z.eqb_eq in E2. rewrite Z.rem_mod_nonneg in E2 by lia.
  destruct (negb (XLALIsValidCWDetector _)); [discriminate|].
  assert (Hname : forall l : list byte,
             (String.length (cstring_of_buffer (firstn 2 l)) <= 2)%nat).
  { intros l. etransitivity; [apply length_cstring_of_buffer|]. apply firstn_le_length. }
  destruct (raw_comment_length raw =? 0) eqn:E3.
  - apply Z.eqb_eq in E3. intros [= <- <-]. exists 0. cbn [v2_SFTcomment v2_header_ sft_name sft_data].
    repeat split; try lia; try reflexivity. apply Hname.
  - apply Z.eqb_neq in E3.
    destruct (fread (raw_comment_length raw) fp1) as [[comm|] fp2] eqn:F2; [|discriminate].
    pose proof (fread_Some_length _ _ _ _ E1 F2) as Hlen.
    apply fread_Some in F2. destruct F2 as (_ & Hp2 & Hc2 & Hl2).
    destruct (negb (is_NUL (last comm NUL))) eqn:E4; [discriminate|].
    apply negb_false_iff, is_NUL_true in E4.
    destruct (negb (only_NUL_after_end comm)); [discriminate|].
    intros [= <- <-]. exists (raw_comment_length raw).
    cbn [v2_SFTcomment v2_header_ sft_name sft_data].
    unfold file_length in *. rewrite Hc1 in Hl2.
    repeat split; try lia; try reflexivity; try assumption. apply Hname.
Qed.

Lemma read_sft_header_from_fp_valid_header (fp : FILE) (want_comment : bool)
    (h : sft_header) (fp' : FILE) :
  read_sft_header_from_fp fp want_comment = (Some h, fp') -> valid_header h.
Proof.
  intros H. pose proof (read_sft_header_from_fp_Some _ _ _ _ H) as (_ & _ & Hv & Hn).
  revert H. unfold read_sft_header_from_fp, ftell. cbv zeta.
  destruct (fpos fp =? -1); [discriminate|].
  destruct (read_SFTversion_from_fp fp) as [[[ver need_swap]|] fp1]; [|discriminate].
  destruct (ver =? 2); [|discriminate].
  destruct (read_v2_header_from_fp fp1 need_swap) as [[r|] fp2] eqn:R; [|discriminate].
  apply read_v2_header_from_fp_position in R.
  destruct R as (clen & _ & _ & _ & _ & _ & Cn & Cd & _).
  destruct (_ || _) eqn:E1; [discriminate|].
  apply orb_false_iff in E1. destruct E1 as [E1 E3].
  apply orb_false_iff in E1. destruct E1 as [E1 E2].
  apply Z.ltb_ge in E1, E2. apply Z.leb_gt in E3.
  destruct (sft_deltaF (v2_header_ r) <=? 0)%float eqn:E4; [discriminate|].
  destruct (sft_f0 (v2_header_ r) <? 0)%float eqn:E5; [discriminate|].
  intros [= <- <-].
  constructor; cbn [hdr_version hdr_numBins hdr_header] in *; try assumption; lia.
Qed.

(** Every header the reader accepts is a version-2 header with a positive
    number of bins, a valid epoch, a frequency spacing that is not
    negative or zero, a start frequency that is not negative and a name of
    at most two characters; the stream then stands behind the header and
    its comment, whose length is a multiple of 8, inside the file. *)
Theorem read_sft_header_from_fp_accepts (fp : FILE) (want_comment : bool)
    (h : sft_header) (fp' : FILE) :
  read_sft_header_from_fp fp want_comment = (Some h, fp') ->
  valid_header h /\
  contents fp' = contents fp /\
  exists comment_length,
    0 <= comment_length /\ comment_length mod 8 = 0 /\
    fpos fp' = fpos fp + sizeof_rawheader + comment_length /\
    fpos fp' <= file_length fp /\
    match hdr_SFTcomment h with
    | Some comm => want_comment = true /\
                   Z.of_nat (List.length comm) = comment_length /\ 0 < comment_length /\
                   last comm NUL = NUL
    | None => want_comment = false \/ comment_length = 0
    end.
Proof.
  intros H. split; [exact (read_sft_header_from_fp_valid_header _ _ _ _ H)|].
  pose proof (read_sft_header_from_fp_Some _ _ _ _ H) as (_ & Hc & _ & _).
  split; [exact Hc|].
  revert H. unfold read_sft_header_from_fp, ftell. cbv zeta.
  destruct (fpos fp =? -1); [discriminate|].
  destruct (read_SFTversion_from_fp fp) as [[[ver need_swap]|] fp1] eqn:V; [|discriminate].
  apply read_SFTversion_from_fp_Some in V. destruct V as [Vp Vc].
  destruct (ver =? 2); [|discriminate].
  destruct (read_v2_header_from_fp fp1 need_swap) as [[r|] fp2] eqn:R; [|discriminate].
  apply read_v2_header_from_fp_position in R.
  destruct R as (clen & C0 & C8 & Cp & Cl & Cc & _).
  destruct (_ || _); [discriminate|].
  destruct (sft_deltaF (v2_header_ r) <=? 0)%float; [discriminate|].
  destruct (sft_f0 (v2_header_ r) <? 0)%float; [discriminate|].
  intros [= <- <-]. exists clen. cbn [hdr_SFTcomment].
  unfold file_length in *. rewrite Vc in Cl. rewrite Vp in Cp.
  repeat split; try assumption.
  destruct want_comment.
  - destruct (v2_SFTcomment r); [tauto|now right].
  - now left.
Qed.

End Accepts.

Lemma read_sft_header_from_fp_accepts_witness :
  valid_header merged_first_header /\
  contents (snd merged_first_read) = contents (mkFILE merged_file 0) /\
  exists comment_length,
    0 <= comment_length /\ comment_length mod 8 = 0 /\
    fpos (snd merged_first_read) = fpos (mkFILE merged_file 0) + sizeof_rawheader + comment_length /\
    fpos (snd merged_first_read) <= file_length (mkFILE merged_file 0) /\
    match hdr_SFTcomment merged_first_header with
    | Some comm => true = true /\
                   Z.of_nat (List.length comm) = comment_length /\ 0 < comment_length /\
                   last comm NUL = NUL
    | None => true = false \/ comment_length = 0
    end.
Proof.
  apply (read_sft_header_from_fp_accepts (U := reference_SFTutils) (mkFILE merged_file 0) true
           merged_first_header (snd merged_first_read)).
  vm_compute. reflexivity.
Defined.

(* ------------------------------------------------------------------ *)
(** ** The catalog builder: what a catalog holds *)

Section CatalogFacts.
Context {U : SFTutils}.

Lemma FILE_eta (fp : FILE) : mkFILE (contents fp) (fpos fp) = fp.
Proof. destruct fp; reflexivity. Qed.

Lemma scan_SFT_blocks_describes fuel :
  forall fname constraints fp file_len mprev ret ret',
  0 <= fpos fp ->
  scan_SFT_blocks fuel fname constraints fp file_len mprev ret = Some (XLAL_OK ret') ->
  exists new, ret' = ret ++ new /\ Forall (describes_block (contents fp)) new.
Proof.
  induction fuel as [|fuel IH]; intros fname constraints fp file_len mprev ret ret' Hp;
    cbn [scan_SFT_blocks];
    destruct (negb (ftell fp <? file_len)).
  - intros [= <-]. exists []. now rewrite app_nil_r.
  - discriminate.
  - intros [= <-]. exists []. now rewrite app_nil_r.
  - destruct (ftell fp =? -1); [discriminate|].
    destruct (read_sft_header_from_fp fp true) as [[this|] fp1] eqn:R; [|discriminate].
    pose proof (read_sft_header_from_fp_Some _ _ _ _ R) as (P1 & C1 & _ & N).
    destruct (match mprev with Some _ => _ | None => false end); [discriminate|].
    set (d := mkDesc (mkLocator fname (ftell fp) 0) (hdr_header this) (hdr_SFTcomment this)
                     (hdr_numBins this) (hdr_version this) (hdr_crc64 this)).
    assert (Hd : describes_block (contents fp) d).
    { unfold describes_block, d, ftell. cbn [desc_locator loc_offset loc_isft desc_header
        desc_comment desc_numBins desc_version desc_crc64].
      split; [exact Hp|]. split; [reflexivity|].
      exists this, fp1. rewrite FILE_eta. auto 10. }
    assert (Hnew : forall rest, Forall (describes_block (contents fp)) rest ->
              exists new, (if want_this_block constraints (hdr_header this)
                           then ret ++ [d] else ret) ++ rest = ret ++ new /\
                          Forall (describes_block (contents fp)) new).
    { intros rest Hrest. destruct (want_this_block constraints (hdr_header this)).
      - exists (d :: rest). split; [now rewrite <- app_assoc|]. now constructor.
      - exists rest. auto. }
    destruct (file_len <=? ftell fp1 + hdr_numBins this * 8).
    + intros [= <-]. destruct (Hnew [] (Forall_nil _)) as (new & E & F).
      rewrite app_nil_r in E. eauto.
    + destruct (fseek_CUR fp1 (to_UINT4 (hdr_numBins this * 8))) as [fp2|] eqn:S;
        [|discriminate].
      unfold fseek_CUR in S. apply fseek_SET_Some in S. destruct S as (P2 & C2 & P3).
      intro H. apply IH in H; [|lia]. destruct H as (rest & -> & Hrest).
      rewrite C2, C1 in Hrest. exact (Hnew rest Hrest).
Qed.

Lemma scan_SFT_file_describes disk constraints fname ret ret' :
  scan_SFT_file disk constraints fname ret = XLAL_OK ret' ->
  exists new, ret' = ret ++ new /\
    Forall (fun d => loc_fname (desc_locator d) = fname /\ catalogued disk d) new.
Proof.
  unfold scan_SFT_file, fopen.
  destruct (disk_files disk fname) as [bytes|] eqn:F; [|discriminate].
  destruct (file_length (mkFILE bytes 0) =? 0); [discriminate|].
  destruct (scan_SFT_blocks _ _ _ _ _ _ _) as [r|] eqn:S; [|discriminate].
  intros ->.
  pose proof (scan_SFT_blocks_appends _ _ _ _ _ _ _ _ S) as (new' & E' & F').
  apply scan_SFT_blocks_describes in S; [|cbn; lia].
  destruct S as (new & -> & Hnew). apply app_inv_head in E'. subst new'.
  exists new. split; [reflexivity|].
  rewrite Forall_forall in *. intros d Hd.
  destruct (F' d Hd) as (Hf & _). split; [exact Hf|].
  exists bytes. rewrite Hf. split; [exact F|]. exact (Hnew d Hd).
Qed.

Lemma scan_SFT_files_describes disk constraints fnames : forall ret ret',
  scan_SFT_files disk constraints fnames ret = XLAL_OK ret' ->
  exists new, ret' = ret ++ new /\ Forall (catalogued disk) new.
Proof.
  induction fnames as [|fname rest IH]; intros ret ret'; cbn [scan_SFT_files].
  - intros [= <-]. exists []. now rewrite app_nil_r.
  - destruct (scan_SFT_file disk constraints fname ret) as [ret1|] eqn:S; [|discriminate].
    apply scan_SFT_file_describes in S. destruct S as (new1 & -> & F1).
    intro H. apply IH in H. destruct H as (new2 & -> & F2).
    exists (new1 ++ new2). split; [now rewrite app_assoc|].
    apply Forall_app. split; [|exact F2].
    eapply Forall_impl; [|exact F1]. intros d [_ Hd]. exact Hd.
Qed.

(** Every descriptor of a catalog names an existing file and an offset at
    which the header reader decodes exactly the header, comment, number
    of bins, version and checksum the descriptor holds: opening the
    locator and reading the header gives the descriptor back. *)
Theorem XLALSFTdataFind_locators_decode disk file_pattern constraints catalog :
  XLALSFTdataFind disk file_pattern constraints = XLAL_OK catalog ->
  forall d, In d catalog ->
    exists fp this fp',
      fopen_SFTLocator (disk_files disk) (Some (desc_locator d)) = Some fp /\
      read_sft_header_from_fp fp true = (Some this, fp') /\
      d = mkDesc (mkLocator (loc_fname (desc_locator d)) (fpos fp) 0)
                 (hdr_header this) (hdr_SFTcomment this) (hdr_numBins this)
                 (hdr_version this) (hdr_crc64 this).
Proof.
  intros H d Hd. apply XLALSFTdataFind_inv in H.
  destruct H as (fnames & ret & _ & S & _ & _ & ->).
  apply scan_SFT_files_describes in S. destruct S as (new & E & F). cbn [app] in E. subst new.
  assert (Hin : In d ret).
  { eapply Permutation_in; [apply Permutation_sym, qsort_perm|exact Hd]. }
  rewrite Forall_forall in F. destruct (F d Hin) as (bytes & Hf & Hoff & Hisft & this & fp' & R & E).
  exists (mkFILE bytes (loc_offset (desc_locator d))), this, fp'.
  split; [|split; [exact R|]].
  - unfold fopen_SFTLocator, fopen. rewrite Hf. unfold fseek_SET.
    destruct (loc_offset (desc_locator d) <? 0) eqn:L; [apply Z.ltb_lt in L; lia|reflexivity].
  - destruct E as (E1 & E2 & E3 & E4 & E5). cbn [fpos].
    destruct d as [[fname off isft] hd cm nb ver crc]. cbn in *. congruence.
Qed.

(** What the constraints ask of a header, one by one. *)
Lemma want_this_block_true (c : SFTConstraints) (h : SFTtype) :
  want_this_block (Some c) h = true ->
  (forall det, cons_detector c = Some det -> strncmp_equal det (sft_name h) 2 = true) /\
  XLALCWGPSinRange (sft_epoch h) (cons_minStartTime c) (cons_maxStartTime c) = 0 /\
  (forall ts, cons_timestamps c = Some ts -> timestamp_in_list (sft_epoch h) ts = true).
Proof.
  unfold want_this_block. intros H.
  apply andb_true_iff in H. destruct H as [H H3].
  apply andb_true_iff in H. destruct H as [H1 H2].
  apply Z.eqb_eq in H2. repeat split.
  - intros det E. now rewrite E in H1.
  - exact H2.
  - intros ts E. now rewrite E in H3.
Qed.

(** No descriptor of a catalog violates a constraint: the detector of
    each begins with the two characters asked for, its epoch lies in the
    range of start times, and it is one of the timestamps asked for. *)
Theorem XLALSFTdataFind_respects_constraints disk file_pattern c catalog :
  XLALSFTdataFind disk file_pattern (Some c) = XLAL_OK catalog ->
  forall d, In d catalog ->
    (forall det, cons_detector c = Some det ->
                 substring 0 2 det = substring 0 2 (sft_name (desc_header d))) /\
    XLALCWGPSinRange (sft_epoch (desc_header d))
                     (cons_minStartTime c) (cons_maxStartTime c) = 0 /\
    (forall ts, cons_timestamps c = Some ts ->
                exists t, In t ts /\ t = sft_epoch (desc_header d)).
Proof.
  intros H d Hd. apply XLALSFTdataFind_inv in H.
  destruct H as (fnames & ret & _ & S & _ & _ & ->).
  apply scan_SFT_files_OK in S. destruct S as (_ & new & E & F). cbn [app] in E. subst new.
  assert (Hin : In d ret).
  { eapply Permutation_in; [apply Permutation_sym, qsort_perm|exact Hd]. }
  rewrite Forall_forall in F. destruct (F d Hin) as (_ & _ & W).
  apply want_this_block_true in W. destruct W as (W1 & W2 & W3).
  repeat split.
  - intros det E. apply W1 in E. unfold strncmp_equal in E. now apply String.eqb_eq in E.
  - exact W2.
  - intros ts E. apply W3 in E. unfold timestamp_in_list in E.
    apply existsb_exists in E. destruct E as (t & Ht & Eq).
    apply andb_true_iff in Eq. destruct Eq as [E1 E2]. apply Z.eqb_eq in E1, E2.
    exists t. split; [exact Ht|].
    destruct t, (sft_epoch (desc_header d)). cbn in *. congruence.
Qed.

End CatalogFacts.

Lemma XLALSFTdataFind_locators_decode_witness :
  exists fp this fp',
    fopen_SFTLocator (disk_files sample_disk) (Some (desc_locator second_sample_descriptor))
    = Some fp /\
    read_sft_header_from_fp (U := reference_SFTutils) fp true = (Some this, fp') /\
    second_sample_descriptor
    = mkDesc (mkLocator (loc_fname (desc_locator second_sample_descriptor)) (fpos fp) 0)
             (hdr_header this) (hdr_SFTcomment this) (hdr_numBins this)
             (hdr_version this) (hdr_crc64 this).
Proof.
  apply (XLALSFTdataFind_locators_decode (U := reference_SFTutils) sample_disk
           "data/*.sft" None sample_catalog).
  - vm_compute. reflexivity.
  - vm_compute. tauto.
Defined.

Lemma XLALSFTdataFind_respects_constraints_witness :
  (forall det, cons_detector narrow_constraints = Some det ->
               substring 0 2 det = substring 0 2 (sft_name (desc_header narrow_descriptor))) /\
  XLALCWGPSinRange (sft_epoch (desc_header narrow_descriptor))
                   (cons_minStartTime narrow_constraints)
                   (cons_maxStartTime narrow_constraints) = 0 /\
  (forall ts, cons_timestamps narrow_constraints = Some ts ->
              exists t, In t ts /\ t = sft_epoch (desc_header narrow_descriptor)).
Proof.
  apply (XLALSFTdataFind_respects_constraints (U := reference_SFTutils) sample_disk
           "data/*.sft" narrow_constraints narrow_catalog).
  - vm_compute. reflexivity.
  - vm_compute. tauto.
Defined.

(* ------------------------------------------------------------------ *)
(** ** The loader: what it returns *)

Lemma length_set_nth {A : Type} (i : nat) (x : A) (l : list A) :
  List.length (set_nth i x l) = List.length l.
Proof.
  revert i. induction l as [|y l IH]; intros [|i]; cbn; try reflexivity. now rewrite IH.
Qed.

Lemma Forall_set_nth {A : Type} (P : A -> Prop) (i : nat) (x d : A) (l : list A) :
  Forall P l -> (P (nth i l d) -> P x) -> Forall P (set_nth i x l).
Proof.
  intros H. revert i. induction H as [|y l Hy H IH]; intros i Hx.
  - destruct i; constructor.
  - destruct i as [|i]; cbn [set_nth]; constructor; auto.
Qed.

Section LoaderShape.
Context {U : SFTutils}.
Variable fs : FileSystem.
Variable deltaF : float.
Variables firstbin lastbin : Z.

Lemma add_segment_sized n L st st' desc got :
  sized n L st ->
  add_segment deltaF firstbin lastbin st desc got = inl st' -> sized n L st'.
Proof.
  intros (H1 & H2 & H3). unfold add_segment. cbv zeta.
  destruct (negb (f_lastBinRead got =? 0)).
  - match goal with |- match ?c with _ => _ end = _ -> _ => destruct c as [seg|e] end;
      [|discriminate].
    destruct (negb (_ =? _)%float); [discriminate|].
    destruct (negb (GPSEQUAL _ _)); [discriminate|].
    intros [= <-]. unfold sized. cbn [segments sftVector].
    rewrite !length_set_nth. repeat split; try assumption.
    apply (Forall_set_nth _ _ _ empty_loaded_SFT); [exact H3|].
    cbn [ld_data]. rewrite length_store_bins. auto.
  - destruct (f_firstBinRead got =? 0); [|discriminate].
    destruct (GPSZERO _).
    + intros [= <-]. unfold sized. cbn [segments sftVector].
      rewrite length_set_nth. auto.
    + destruct (negb _); [discriminate|]. intros [= <-]. unfold sized. auto.
Qed.

Lemma load_all_sized n L locatalog : forall st st',
  sized n L st ->
  load_all fs deltaF firstbin lastbin st locatalog = inl st' -> sized n L st'.
Proof.
  induction locatalog as [|desc locatalog IH]; intros st st' Hs; cbn [load_all].
  - now intros [= <-].
  - unfold load_one.
    destruct (fetch_segment fs deltaF firstbin lastbin st desc) as [got|e]; [|discriminate].
    destruct (add_segment deltaF firstbin lastbin st desc got) as [st1|e] eqn:A;
      [|discriminate].
    apply IH. eapply add_segment_sized; eassumption.
Qed.

Lemma complete_SFTs_shape (L : nat) : forall isft segs sfts v,
  List.length segs = List.length sfts ->
  Forall (fun sft => List.length (ld_data sft) = L) sfts ->
  complete_SFTs deltaF firstbin lastbin isft segs sfts = Loaded v ->
  List.length v = List.length sfts /\
  Forall (fun sft => ld_f0 sft = (1 * REAL8_of_Z firstbin * deltaF)%float /\
                     ld_deltaF sft = deltaF /\
                     List.length (ld_data sft) = L) v.
Proof.
  intros isft segs. revert isft.
  induction segs as [|seg segs IH]; intros isft [|sft sfts] v Hl HL; try discriminate.
  - cbn. intros [= <-]. auto.
  - cbn [complete_SFTs]. injection Hl as Hl. inversion HL as [|? ? HL1 HL2]; subst.
    destruct (seg_last seg =? lastbin); [|destruct (negb _); discriminate].
    destruct (complete_SFTs deltaF firstbin lastbin (isft + 1) segs sfts) as [rest|] eqn:C;
      [|discriminate].
    intros [= <-]. destruct (IH _ _ _ Hl HL2 C) as [IH1 IH2].
    split; [cbn; now rewrite IH1|].
    constructor; [cbn; auto|exact IH2].
Qed.

End LoaderShape.

Section LoaderCount.
Context {U : SFTutils}.

Lemma index_catalog_nSFTs (deltaF : float) (catalog : list SFTDescriptor) :
  forall (epoch : LIGOTimeGPS) (nSFTs minbin maxbin : Z),
  0 <= nSFTs ->
  nSFTs + Z.of_nat (List.length catalog) < UINT4_MOD ->
  fst (fst (snd (index_catalog deltaF catalog epoch nSFTs minbin maxbin)))
  = nSFTs + Z.of_nat (List.length
                        (epoch_runs epoch (map (fun d => sft_epoch (desc_header d)) catalog))).
Proof.
  induction catalog as [|d rest IH]; intros epoch nSFTs minbin maxbin H0 HM.
  - cbn. lia.
  - cbn [index_catalog map epoch_runs]. cbv zeta. cbn [List.length] in HM.
    match goal with |- context [index_catalog deltaF rest ?e ?n ?a ?b] =>
      specialize (IH e n a b); destruct (index_catalog deltaF rest e n a b) as [rest' r] end.
    cbn [fst snd] in *.
    destruct (GPSEQUAL epoch (sft_epoch (desc_header d))); cbn [negb] in *.
    + apply IH; lia.
    + assert (E : to_UINT4 (nSFTs + 1) = nSFTs + 1).
      { unfold to_UINT4. apply Z.mod_small. lia. }
      rewrite E in IH. rewrite IH by lia. cbn [List.length]. lia.
Qed.

Lemma catalog_survey_nSFTs (catalog : SFTCatalog) (sv : survey) :
  Z.of_nat (List.length catalog) < UINT4_MOD ->
  catalog_survey catalog = Some sv ->
  Z.to_nat (sv_nSFTs sv) = number_of_epochs catalog.
Proof.
  unfold catalog_survey, number_of_epochs. destruct catalog as [|d0 rest]; [discriminate|].
  intros HM. cbv zeta. cbn [List.length] in HM.
  match goal with |- context [index_catalog ?f rest ?e ?n ?a ?b] =>
    pose proof (index_catalog_nSFTs f rest e n a b ltac:(lia) ltac:(lia)) as Hn;
    destruct (index_catalog f rest e n a b) as [rest' [[nSFTs minbin] maxbin]] end.
  intros [= <-]. cbn [fst snd sv_nSFTs] in *. rewrite Hn. lia.
Qed.

(** A successful load returns one SFT for the first epoch of the catalog
    and one for every change of epoch after it; each has the frequency
    spacing of the first descriptor, starts at the first requested bin,
    and has as many bins as were requested. *)
Theorem XLALLoadSFTs_shape (fs : FileSystem) (catalog : SFTCatalog) (fMin fMax : float)
    (sv : survey) (v : list loaded_SFT) :
  Z.of_nat (List.length catalog) < UINT4_MOD ->
  catalog_survey catalog = Some sv ->
  XLALLoadSFTs fs catalog fMin fMax = Loaded v ->
  let firstbin := requested_firstbin (sv_deltaF sv) (sv_minbin sv) fMin in
  let lastbin := requested_lastbin (sv_deltaF sv) (sv_maxbin sv) fMax in
  List.length v = number_of_epochs catalog /\
  Forall (fun sft =>
            ld_f0 sft = (1 * REAL8_of_Z firstbin * sv_deltaF sv)%float /\
            ld_deltaF sft = sv_deltaF sv /\
            Z.of_nat (List.length (ld_data sft)) = to_UINT4 (lastbin + 1 - firstbin)) v.
Proof.
  intros HM Hsv. unfold XLALLoadSFTs. rewrite Hsv. cbv zeta.
  destruct (_ && _); [discriminate|].
  unfold load_range. cbv zeta.
  set (firstbin := requested_firstbin _ _ _). set (lastbin := requested_lastbin _ _ _).
  set (L := Z.to_nat (to_UINT4 (lastbin + 1 - firstbin))).
  destruct (load_all _ _ _ _ _ _) as [st|[e m]] eqn:LA; [|discriminate].
  intros C.
  apply (load_all_sized _ _ _ _ (Z.to_nat (sv_nSFTs sv)) L) in LA.
  - destruct LA as (S1 & S2 & S3).
    apply (complete_SFTs_shape _ _ _ L) in C; [|congruence|exact S3].
    destruct C as [C1 C2]. split.
    + rewrite C1, S2. now apply catalog_survey_nSFTs.
    + eapply Forall_impl; [|exact C2]. intros sft (F1 & F2 & F3).
      repeat split; try assumption. rewrite F3. subst L.
      apply Z2Nat.id. apply to_UINT4_range.
  - unfold sized. cbn [segments sftVector]. rewrite !repeat_length.
    repeat split. apply Forall_forall. intros sft Hin.
    apply repeat_spec in Hin. subst sft. cbn [ld_data]. apply repeat_length.
Qed.

(** Find, then load: away from the last bin 0, every SFT loaded from a
    catalog that [XLALSFTdataFind] returned has all its bins filled from
    the files. *)
Theorem XLALSFTdataFind_catalog_loads_filled (disk : Disk) (file_pattern : string)
    (constraints : option SFTConstraints) (catalog : SFTCatalog) (fMin fMax : float)
    (sv : survey) (v : list loaded_SFT) :
  XLALSFTdataFind disk file_pattern constraints = XLAL_OK catalog ->
  catalog_survey catalog = Some sv ->
  requested_lastbin (sv_deltaF sv) (sv_maxbin sv) fMax <> 0 ->
  XLALLoadSFTs (disk_files disk) catalog fMin fMax = Loaded v ->
  Forall (fun sft => completely_filled (ld_data sft)) v.
Proof.
  intros HF Hsv Hne HL.
  apply (XLALLoadSFTs_filled (disk_files disk) catalog fMin fMax sv v Hsv); try assumption.
  apply XLALSFTdataFind_inv in HF.
  destruct HF as (fnames & ret & _ & S & _ & _ & ->).
  apply scan_SFT_files_describes in S. destruct S as (new & E & F). cbn [app] in E. subst new.
  eapply Permutation_Forall; [apply qsort_perm|].
  eapply Forall_impl; [|exact F].
  intros d (bytes & _ & _ & _ & this & fp' & R & E & _).
  unfold read_from_file. rewrite E.
  apply read_sft_header_from_fp_valid_header in R. apply (vh_data _ R).
Qed.

End LoaderCount.

Lemma XLALLoadSFTs_shape_witness :
  List.length sample_loaded = number_of_epochs sample_catalog /\
  Forall (fun sft =>
            ld_f0 sft = (1 * REAL8_of_Z 18000 * sv_deltaF sample_survey)%float /\
            ld_deltaF sft = sv_deltaF sample_survey /\
            Z.of_nat (List.length (ld_data sft)) = to_UINT4 (18001 + 1 - 18000))
         sample_loaded.
Proof.
  apply (XLALLoadSFTs_shape (U := reference_SFTutils) (disk_files sample_disk)
           sample_catalog (-1) (-1) sample_survey sample_loaded).
  - vm_compute. reflexivity.
  - vm_compute. reflexivity.
  - vm_compute. reflexivity.
Defined.

Lemma XLALSFTdataFind_catalog_loads_filled_witness :
  Forall (fun sft => completely_filled (ld_data sft)) sample_loaded.
Proof.
  apply (XLALSFTdataFind_catalog_loads_filled (U := reference_SFTutils) sample_disk
           "data/*.sft" None sample_catalog (-1) (-1) sample_survey sample_loaded).
  - vm_compute. reflexivity.
  - vm_compute. reflexivity.
  - vm_compute. discriminate.
  - vm_compute. reflexivity.
Defined.

Lemma load_all_gap_or_overlap_witness :
  load_all (U := reference_SFTutils) (disk_files gap_disk) (sft_deltaF sample_SFT)
           18000 18004 gap_state_0 ([gap_first] ++ gap_second :: [])
  = inr (XLAL_EIO, gap_or_overlap 0 18001 "gap_lo.sft" 18003 "gap_hi.sft").
Proof.
  apply (load_all_gap_or_overlap (U := reference_SFTutils) (disk_files gap_disk)
           (sft_deltaF sample_SFT) 18000 18004 gap_state_0 gap_state_1
           [gap_first] [] gap_second gap_fetched).
  - vm_compute. reflexivity.
  - vm_compute. reflexivity.
  - vm_compute. discriminate.
  - vm_compute. discriminate.
  - vm_compute. discriminate.
Defined.

(* ------------------------------------------------------------------ *)
(** ** Reading the bins of a written block *)

Lemma payload_bytes_app (d1 d2 : list COMPLEX8) :
  payload_bytes (d1 ++ d2) = payload_bytes d1 ++ payload_bytes d2.
Proof. unfold payload_bytes. apply flat_map_app. Qed.

Lemma COMPLEX8_of_bytes_bytes (c : COMPLEX8) :
  COMPLEX8_in_range c -> COMPLEX8_of_bytes false (COMPLEX8_bytes c) = c.
Proof.
  intros [Hr Hi]. unfold COMPLEX8_of_bytes, COMPLEX8_bytes.
  rewrite firstn_app, (firstn_all2 (n := 4)) by (rewrite length_le_bytes; lia).
  rewrite length_le_bytes. change (4 - 4)%nat with 0%nat. rewrite firstn_O, app_nil_r.
  rewrite skipn_app, (skipn_all2 (n := 4)) by (rewrite length_le_bytes; lia).
  rewrite length_le_bytes. change (4 - 4)%nat with 0%nat. cbn [skipn app].
  rewrite firstn_all2 by (rewrite length_le_bytes; lia).
  rewrite !le_value_le_bytes. change (256 ^ Z.of_nat 4) with (2 ^ 32).
  rewrite !Z.mod_small by assumption. now destruct c.
Qed.

Lemma bins_of_bytes_payload (d : list COMPLEX8) :
  Forall COMPLEX8_in_range d ->
  bins_of_bytes false (List.length d) (payload_bytes d) = d.
Proof.
  induction 1 as [|c d Hc _ IH]; [reflexivity|].
  cbn [List.length bins_of_bytes]. unfold payload_bytes. cbn [flat_map].
  assert (L : List.length (COMPLEX8_bytes c) = 8%nat).
  { unfold COMPLEX8_bytes. now rewrite length_app, !length_le_bytes. }
  rewrite firstn_app, L. change (8 - 8)%nat with 0%nat. rewrite firstn_O, app_nil_r.
  rewrite firstn_all2 by lia.
  rewrite skipn_app, L. change (8 - 8)%nat with 0%nat.
  rewrite skipn_O, skipn_all2 by lia. cbn [app].
  rewrite COMPLEX8_of_bytes_bytes by assumption. f_equal. exact IH.
Qed.

(** Reading [m] bins that lie [off] bins into a payload. *)
Lemma fread_payload_middle (A post : list byte) (d : list COMPLEX8) (off m : Z) :
  0 <= off -> 0 <= m -> off + m <= Z.of_nat (List.length d) ->
  fread (8 * m) (mkFILE (A ++ payload_bytes d ++ post) (Z.of_nat (List.length A) + 8 * off))
  = (Some (payload_bytes (firstn (Z.to_nat m) (skipn (Z.to_nat off) d))),
     mkFILE (A ++ payload_bytes d ++ post) (Z.of_nat (List.length A) + 8 * off + 8 * m)).
Proof.
  intros Ho Hm Hl.
  set (d1 := firstn (Z.to_nat off) d).
  set (d2 := firstn (Z.to_nat m) (skipn (Z.to_nat off) d)).
  set (d3 := skipn (Z.to_nat m) (skipn (Z.to_nat off) d)).
  assert (Ed : d = d1 ++ d2 ++ d3).
  { unfold d1, d2, d3. now rewrite !firstn_skipn. }
  assert (L1 : Z.of_nat (List.length d1) = off).
  { unfold d1. rewrite length_firstn. lia. }
  assert (L2 : Z.of_nat (List.length d2) = m).
  { unfold d2. rewrite length_firstn, length_skipn. lia. }
  assert (Ei : A ++ payload_bytes d ++ post
               = (A ++ payload_bytes d1) ++ payload_bytes d2 ++ (payload_bytes d3 ++ post)).
  { rewrite Ed at 1. rewrite !payload_bytes_app, <- !app_assoc. reflexivity. }
  rewrite Ei.
  replace (Z.of_nat (List.length A) + 8 * off)
    with (Z.of_nat (List.length (A ++ payload_bytes d1)))
    by (rewrite length_app, Nat2Z.inj_add, length_payload_bytes; lia).
  rewrite fread_middle by (rewrite length_payload_bytes; lia).
  f_equal. f_equal.
  rewrite !length_app, !Nat2Z.inj_add, !length_payload_bytes. lia.
Qed.

(** Without a place for the comment the header reader returns the same
    header, and leaves the stream at the same position. *)
Lemma read_sft_header_from_fp_no_comment {U : SFTutils} (fp : FILE) :
  read_sft_header_from_fp fp false
  = (option_map (fun h => mkHdr (hdr_header h) (hdr_version h) (hdr_crc64 h)
                                (hdr_swapEndian h) None (hdr_numBins h))
                (fst (read_sft_header_from_fp fp true)),
     snd (read_sft_header_from_fp fp true)).
Proof.
  unfold read_sft_header_from_fp.
  destruct (ftell fp =? -1); [reflexivity|].
  destruct (read_SFTversion_from_fp fp) as [[[ver swap]|] fp1]; [|reflexivity].
  destruct (ver =? 2); [|reflexivity].
  destruct (read_v2_header_from_fp fp1 swap) as [[r|] fp2]; [|reflexivity].
  repeat match goal with |- context [if ?b then _ else _] => destruct b end; reflexivity.
Qed.

Lemma Forall_sublist {A} (P : A -> Prop) (n m : nat) (l : list A) :
  Forall P l -> Forall P (firstn n (skipn m l)).
Proof.
  intros H. rewrite <- (firstn_skipn m l) in H. apply Forall_app in H as [_ H].
  rewrite <- (firstn_skipn n (skipn m l)) in H. now apply Forall_app in H.
Qed.

Section WrittenBlock.
Context {U : SFTutils}.
Variables (sft : SFTtype) (data : list COMPLEX8) (SFTcomment : option string).
Hypothesis ST : storable sft data SFTcomment.
Hypothesis GRID : on_bin_grid sft.
Hypothesis RNG : Forall COMPLEX8_in_range data.
Hypothesis Hd : (sft_deltaF sft <=? 0)%float = false.
Hypothesis Hf : (sft_f0 sft <? 0)%float = false.

Let n := Z.of_nat (List.length data).
Let k := lround (sft_f0 sft / sft_deltaF sft)%float.
Hypothesis Hk : 0 <= k /\ k + n <= 2 ^ 32.

Lemma decoded_header_on_grid :
  decoded_header sft = mkSFT (sft_name sft) (sft_epoch sft) (sft_f0 sft) (sft_deltaF sft) None.
Proof. destruct GRID as [Gd Gf]. unfold decoded_header. now rewrite Gd, Gf. Qed.

Lemma read_sft_header_from_fp_written (pre post : list byte) (want_comment : bool) :
  read_sft_header_from_fp (mkFILE (pre ++ SFT_block sft data SFTcomment ++ post)
                                  (Z.of_nat (List.length pre))) want_comment
  = (Some (mkHdr (mkSFT (sft_name sft) (sft_epoch sft) (sft_f0 sft) (sft_deltaF sft) None)
                 2 (block_crc sft data SFTcomment) false
                 (if want_comment
                  then Some (chars0 (composed_comment sft SFTcomment)
                             ++ repeat NUL (Z.to_nat (pad_len_of
                                  (strlen (composed_comment sft SFTcomment) + 1))))
                  else None)
                 n),
     mkFILE (pre ++ SFT_block sft data SFTcomment ++ post)
            (Z.of_nat (List.length pre) + sizeof_rawheader
             + (strlen (composed_comment sft SFTcomment) + 1
                + pad_len_of (strlen (composed_comment sft SFTcomment) + 1)))).
Proof.
  assert (E : read_sft_header_from_fp (mkFILE (pre ++ SFT_block sft data SFTcomment ++ post)
                                              (Z.of_nat (List.length pre))) true = _)
    by (apply (read_sft_header_from_fp_block sft data SFTcomment ST pre post);
        rewrite decoded_header_on_grid; assumption).
  destruct want_comment.
  - rewrite E, decoded_header_on_grid. reflexivity.
  - rewrite read_sft_header_from_fp_no_comment, E, decoded_header_on_grid. reflexivity.
Qed.

(** The bins [a .. b] requested from a written block are the bins of the
    block in that range, clamped to the bins the block holds. *)
Lemma read_sft_bins_from_fp_written (ret : SFTtype) (len a b : Z) (pre post : list byte) :
  a <= b -> Z.max a k <= Z.min b (k + n - 1) ->
  Z.min b (k + n - 1) - Z.max a k + 1 <= len ->
  fst (read_sft_bins_from_fp ret len a b
         (mkFILE (pre ++ SFT_block sft data SFTcomment ++ post) (Z.of_nat (List.length pre))))
  = mkBinsRead (Z.min b (k + n - 1)) (Z.max a k)
               (mkSFT (sft_name sft) (sft_epoch sft)
                      (1 * REAL8_of_Z (Z.max a k) * sft_deltaF sft)%float (sft_deltaF sft) None)
               (firstn (Z.to_nat (Z.min b (k + n - 1) - Z.max a k + 1))
                       (skipn (Z.to_nat (Z.max a k - k)) data)).
Proof.
  intros Hab Hc Hlen.
  pose proof (st_bins _ _ _ ST) as Hb. fold n in Hb.
  pose proof (clen_range _ _ _ ST) as Hcl. pose proof (plen_range _ _ _ ST) as [Hp _].
  unfold read_sft_bins_from_fp.
  destruct (Z.ltb_spec b a) as [|_]; [lia|].
  rewrite read_sft_header_from_fp_written.
  cbn [hdr_header hdr_numBins hdr_swapEndian sft_f0 sft_deltaF sft_name sft_epoch sft_data].
  fold k.
  rewrite (to_UINT4_small k) by lia.
  rewrite (to_UINT4_small (k + n - 1)) by lia.
  replace (if a <? k then k else a) with (Z.max a k)
    by (destruct (Z.ltb_spec a k); lia).
  replace (if k + n - 1 <? b then k + n - 1 else b) with (Z.min b (k + n - 1))
    by (destruct (Z.ltb_spec (k + n - 1) b); lia).
  set (a' := Z.max a k) in *. set (b' := Z.min b (k + n - 1)) in *.
  assert (Ha' : k <= a') by (unfold a'; lia).
  assert (Hb' : b' <= k + n - 1) by (unfold b'; lia).
  destruct (Z.ltb_spec b' a') as [|_]; [lia|].
  rewrite (to_INT4_small (a' - k)) by lia.
  rewrite (to_UINT4_small (b' - a' + 1)) by lia.
  destruct (Z.ltb_spec len (b' - a' + 1)) as [|_]; [lia|].
  unfold fseek_CUR, fseek_SET. cbn [fpos contents].
  match goal with |- context [if ?p <? 0 then _ else _] =>
    destruct (Z.ltb_spec p 0) as [|_]; [unfold sizeof_rawheader in *; lia|] end.
  rewrite (image_split_payload sft data SFTcomment ST pre post).
  match goal with |- context [fread _ (mkFILE (?A ++ _ ++ _) ?p)] =>
    replace p with (Z.of_nat (List.length A) + 8 * (a' - k)) end.
  2:{ rewrite !length_app, length_rawheader_bytes, repeat_length.
      unfold sizeof_rawheader.
      rewrite !Nat2Z.inj_add, length_chars0, Z2Nat.id by lia. lia. }
  rewrite fread_payload_middle by (fold n; lia).
  cbn [fst br_lastBinRead].
  f_equal.
  set (sub := firstn (Z.to_nat (b' - a' + 1)) (skipn (Z.to_nat (a' - k)) data)).
  assert (Ls : Z.to_nat (b' - a' + 1) = List.length sub).
  { unfold sub. rewrite length_firstn, length_skipn. fold n in Hb. lia. }
  rewrite Ls. apply bins_of_bytes_payload.
  unfold sub. apply Forall_sublist, RNG.
Qed.

End WrittenBlock.
Lemma store_bins_whole (src : list COMPLEX8) :
  store_bins (repeat None (List.length src)) 0 src = map Some src.
Proof. induction src as [|c src IH]; [reflexivity|]. cbn. now rewrite IH. Qed.

Lemma strcmp_empty_l (s : string) : s <> ""%string -> (strcmp "" s =? 0) = false.
Proof. destruct s; [congruence|reflexivity]. Qed.

Lemma XLALFindFiles_plain (disk : Disk) (fname : string) :
  plain_file_name fname -> XLALFindFiles disk fname = XLAL_OK [fname].
Proof.
  intros (_ & H1 & H2 & H3). unfold XLALFindFiles. cbn [XLALFindFiles_rec].
  now rewrite H1, H2, H3.
Qed.

Section WrittenFile.
Context {U : SFTutils}.
Variables (sft : SFTtype) (data : list COMPLEX8) (SFTcomment : option string).
Hypothesis ST : storable sft data SFTcomment.
Hypothesis GRID : on_bin_grid sft.
Hypothesis RNG : Forall COMPLEX8_in_range data.
Hypothesis Hd : (sft_deltaF sft <=? 0)%float = false.
Hypothesis Hf : (sft_f0 sft <? 0)%float = false.
Hypothesis NUM : (sft_deltaF sft =? sft_deltaF sft)%float = true.

Let n := Z.of_nat (List.length data).
Let k := lround (sft_f0 sft / sft_deltaF sft)%float.
Hypothesis Hk : 0 <= k /\ k + n <= 2 ^ 32.

Variables (disk : Disk) (fname : string).
Hypothesis PLAIN : plain_file_name fname.
Hypothesis FILE_ : disk_files disk fname = Some (SFT_block sft data SFTcomment).

(** The descriptor of the only block of the file. *)
Let d : SFTDescriptor :=
  mkDesc (mkLocator fname 0 0)
         (mkSFT (sft_name sft) (sft_epoch sft) (sft_f0 sft) (sft_deltaF sft) None)
         (Some (chars0 (composed_comment sft SFTcomment)
                ++ repeat NUL (Z.to_nat (pad_len_of (strlen (composed_comment sft SFTcomment) + 1)))))
         n 2 (block_crc sft data SFTcomment).

Lemma length_SFT_block :
  Z.of_nat (List.length (SFT_block sft data SFTcomment))
  = sizeof_rawheader
    + (strlen (composed_comment sft SFTcomment) + 1
       + pad_len_of (strlen (composed_comment sft SFTcomment) + 1))
    + 8 * n.
Proof.
  pose proof (clen_range _ _ _ ST) as Hcl. pose proof (plen_range _ _ _ ST) as [Hp _].
  rewrite (SFT_block_shape sft data SFTcomment ST).
  rewrite !length_app, length_rawheader_bytes, repeat_length, !Nat2Z.inj_add.
  rewrite length_chars0, length_payload_bytes, Z2Nat.id by lia.
  unfold sizeof_rawheader, n. lia.
Qed.

Lemma scan_SFT_file_written :
  scan_SFT_file disk None fname [] = XLAL_OK [d].
Proof.
  pose proof (clen_range _ _ _ ST) as Hcl. pose proof (plen_range _ _ _ ST) as [Hp _].
  pose proof (st_bins _ _ _ ST) as Hb. fold n in Hb.
  pose proof length_SFT_block as L.
  unfold scan_SFT_file, fopen. rewrite FILE_.
  unfold file_length. cbn [contents].
  destruct (Z.eqb_spec (Z.of_nat (List.length (SFT_block sft data SFTcomment))) 0) as [E|_];
    [unfold sizeof_rawheader in L; lia|].
  cbn [scan_SFT_blocks]. unfold ftell at 1 2 3. cbn [fpos].
  destruct (Z.ltb_spec 0 (Z.of_nat (List.length (SFT_block sft data SFTcomment)))) as [_|E];
    [|unfold sizeof_rawheader in L; lia].
  cbn [negb Z.eqb].
  pose proof (read_sft_header_from_fp_written sft data SFTcomment ST GRID Hd Hf [] [] true) as R.
  cbn [app List.length Z.of_nat] in R. rewrite app_nil_r in R. rewrite R.
  cbn [hdr_header hdr_version hdr_numBins hdr_SFTcomment hdr_crc64 want_this_block app].
  unfold ftell. cbn [fpos]. rewrite L. fold n.
  destruct (Z.leb_spec (sizeof_rawheader
    + (strlen (composed_comment sft SFTcomment) + 1
       + pad_len_of (strlen (composed_comment sft SFTcomment) + 1))
    + 8 * n) (0 + sizeof_rawheader + (strlen (composed_comment sft SFTcomment) + 1
       + pad_len_of (strlen (composed_comment sft SFTcomment) + 1)) + n * 8)) as [_|E]; [|lia].
  reflexivity.
Qed.

Lemma XLALSFTdataFind_written :
  XLALSFTdataFind disk fname None = XLAL_OK [d].
Proof.
  unfold XLALSFTdataFind. rewrite (XLALFindFiles_plain disk fname PLAIN).
  cbn [scan_SFT_files]. rewrite scan_SFT_file_written.
  unfold identical_deltaF, d. cbn [forallb desc_header sft_deltaF].
  rewrite NUM. reflexivity.
Qed.

Variables (fMin fMax : float).
Let fb := requested_firstbin (sft_deltaF sft) k fMin.
Let lb := requested_lastbin (sft_deltaF sft) (k + n - 1) fMax.
Hypothesis BAND : k <= fb /\ fb <= lb /\ lb <= k + n - 1 /\ lb <> 0.

Lemma XLALLoadSFTs_written :
  XLALLoadSFTs (disk_files disk) [d] fMin fMax
  = Loaded [mkLoaded (sft_name sft) (sft_epoch sft)
                     (1 * REAL8_of_Z fb * sft_deltaF sft)%float (sft_deltaF sft)
                     (map Some (firstn (Z.to_nat (lb - fb + 1))
                                       (skipn (Z.to_nat (fb - k)) data)))].
Proof.
  pose proof (st_bins _ _ _ ST) as Hb. fold n in Hb.
  destruct BAND as (B1 & B2 & B3 & B4).
  unfold XLALLoadSFTs, catalog_survey, d.
  cbn [desc_header desc_locator desc_numBins desc_comment desc_version desc_crc64
       loc_fname loc_offset sft_f0 sft_deltaF sft_epoch index_catalog
       sv_deltaF sv_minbin sv_maxbin sv_nSFTs sv_catalog].
  fold k. rewrite (to_UINT4_small k) by lia. rewrite (to_UINT4_small (k + n - 1)) by lia.
  fold fb lb.
  destruct (Z.eqb_spec lb 0) as [|_]; [contradiction|].
  rewrite andb_false_r. cbn [andb].
  unfold load_range, load_all, load_one, fetch_segment.
  rewrite !(to_UINT4_small (lb + 1 - fb)) by lia.
  change (Z.to_nat 1) with 1%nat.
  cbn [qsort fold_right qsort_insert repeat].
  cbn [desc_header desc_locator sft_data cur_fname cur_fp loc_fname loc_offset thisSFT].
  rewrite (strcmp_empty_l fname) by apply PLAIN. cbn [negb].
  unfold fopen. rewrite FILE_. cbn [andb Z.eqb].
  rewrite !(to_UINT4_small (lb + 1 - fb)) by lia.
  pose proof (read_sft_bins_from_fp_written sft data SFTcomment ST GRID RNG Hd Hf Hk
                zero_SFT (lb + 1 - fb) fb lb [] []) as R.
  cbn [app List.length Z.of_nat] in R. rewrite app_nil_r in R.
  fold n k in R.
  rewrite Z.max_l, Z.min_l in R by lia.
  specialize (R ltac:(lia) ltac:(lia) ltac:(lia)).
  destruct (read_sft_bins_from_fp zero_SFT (lb + 1 - fb) fb lb
              (mkFILE (SFT_block sft data SFTcomment) 0)) as [r fp'].
  cbn [fst] in R. subst r.
  unfold add_segment.
  cbn [f_lastBinRead f_firstBinRead f_thisSFT f_bins f_fname f_fp br_lastBinRead
       br_firstBinRead br_header br_bins desc_locator loc_isft desc_header
       segment_at segments sftVector Z.to_nat nth seg_last seg_first seg_epoch seg_lastfrom
       sft_deltaF sft_epoch sft_name].
  destruct (Z.eqb_spec lb 0) as [|_]; [contradiction|]. cbn [negb Z.eqb].
  rewrite Z.eqb_refl. cbn [negb seg_last seg_first seg_epoch seg_lastfrom].
  rewrite NUM. cbn [negb].
  rewrite (Z.eqb_refl fb). cbn [negb seg_epoch seg_first].
  unfold GPSEQUAL.
  rewrite (Z.eqb_refl (gpsSeconds (sft_epoch sft))), (Z.eqb_refl (gpsNanoSeconds (sft_epoch sft))).
  cbn [andb negb set_nth].
  cbn [complete_SFTs segments sftVector seg_last seg_epoch ld_name ld_data ld_epoch ld_f0 ld_deltaF
       nth empty_loaded_SFT].
  rewrite (Z.eqb_refl lb).
  rewrite Z.sub_diag. change (to_UINT4 0) with 0. change (Z.to_nat 0) with 0%nat.
  rewrite (to_UINT4_small (lb - fb + 1)) by lia.
  set (sub := firstn (Z.to_nat (lb - fb + 1)) (skipn (Z.to_nat (fb - k)) data)).
  assert (Ls : Z.to_nat (lb + 1 - fb) = List.length sub).
  { unfold sub. rewrite length_firstn, length_skipn. fold n in Hb. lia. }
  rewrite Ls.
  rewrite (firstn_all2 (n := Z.to_nat (lb - fb + 1))).
  2:{ replace (lb - fb + 1) with (lb + 1 - fb) by lia. rewrite Ls. lia. }
  rewrite store_bins_whole. reflexivity.
Qed.

End WrittenFile.

Lemma XLALWriteSFT2file_inv {U : SFTutils} creatable fs sft fname SFTcomment fs' :
  XLALWriteSFT2file creatable fs (Some sft) (Some fname) SFTcomment = XLAL_OK fs' ->
  exists stream,
    XLALWriteSFT2fp (Some sft) (Some []) SFTcomment = XLAL_OK stream /\
    fs' = store_file fs fname stream.
Proof.
  unfold XLALWriteSFT2file.
  destruct (sft_data sft); [|discriminate].
  destruct (negb (XLALIsValidCWDetector (sft_name sft))); [discriminate|].
  destruct (negb (creatable fname)); [discriminate|].
  destruct (XLALWriteSFT2fp (Some sft) (Some []) SFTcomment) as [stream|]; [|discriminate].
  intros [= <-]. now exists stream.
Qed.

(** Write, find, load: an SFT written to a file of its own by
    [XLALWriteSFT2file] is found by [XLALSFTdataFind] as a catalog of one
    descriptor (at offset 0 of that file), and [XLALLoadSFTs] of this
    catalog returns one SFT with the detector and epoch written, whose
    bins are exactly the bins [firstbin .. lastbin] of the data written,
    for every requested band that the SFT covers. *)
Theorem XLALWriteSFT2file_find_load {U : SFTutils} (creatable : string -> bool)
    (fs fs' : FileSystem) (disk : Disk) (sft : SFTtype) (data : list COMPLEX8)
    (SFTcomment : option string) (fname : string) (fMin fMax : float) :
  let n := Z.of_nat (List.length data) in
  let k := lround (sft_f0 sft / sft_deltaF sft)%float in
  let firstbin := requested_firstbin (sft_deltaF sft) k fMin in
  let lastbin := requested_lastbin (sft_deltaF sft) (k + n - 1) fMax in
  storable sft data SFTcomment ->
  on_bin_grid sft ->
  Forall COMPLEX8_in_range data ->
  (sft_deltaF sft =? sft_deltaF sft)%float = true ->
  0 <= k /\ k + n <= 2 ^ 32 ->
  plain_file_name fname ->
  XLALWriteSFT2file creatable fs (Some sft) (Some fname) SFTcomment = XLAL_OK fs' ->
  disk_files disk = fs' ->
  k <= firstbin /\ firstbin <= lastbin /\ lastbin <= k + n - 1 /\ lastbin <> 0 ->
  exists d,
    XLALSFTdataFind disk fname None = XLAL_OK [d] /\
    desc_locator d = mkLocator fname 0 0 /\
    XLALLoadSFTs (disk_files disk) [d] fMin fMax
    = Loaded [mkLoaded (sft_name sft) (sft_epoch sft)
                       (1 * REAL8_of_Z firstbin * sft_deltaF sft)%float (sft_deltaF sft)
                       (map Some (firstn (Z.to_nat (lastbin - firstbin + 1))
                                         (skipn (Z.to_nat (firstbin - k)) data)))].
Proof.
  intros n k firstbin lastbin ST GRID RNG NUM Hk PLAIN W FS BAND.
  destruct (XLALWriteSFT2file_inv _ _ _ _ _ _ W) as (stream & W' & ->).
  destruct (XLALWriteSFT2fp_inv _ _ _ _ W') as (data' & Ed & Hd & Hf & _ & _ & _ & _ & ->).
  rewrite (st_data _ _ _ ST) in Ed. injection Ed as <-.
  assert (FILE_ : disk_files disk fname = Some (SFT_block sft data SFTcomment)).
  { rewrite FS. unfold store_file. now rewrite String.eqb_refl. }
  eexists. split; [|split].
  - apply (XLALSFTdataFind_written sft data SFTcomment ST GRID Hd Hf NUM disk fname PLAIN FILE_).
  - reflexivity.
  - apply (XLALLoadSFTs_written sft data SFTcomment ST GRID RNG Hd Hf NUM Hk disk fname
             PLAIN FILE_ fMin fMax BAND).
Qed.

Lemma XLALWriteSFT2file_find_load_witness :
  exists d,
    XLALSFTdataFind (U := reference_SFTutils) written_disk
                    "H-1_H1_1800SFT-1000000000-1800.sft" None = XLAL_OK [d] /\
    XLALLoadSFTs (U := reference_SFTutils) (disk_files written_disk) [d] (-1) (-1)
    = Loaded [mkLoaded "H1" (sft_epoch sample_SFT)
                       (1 * REAL8_of_Z 18000 * sft_deltaF sample_SFT)%float
                       (sft_deltaF sample_SFT) (map Some sample_bins)].
Proof.
  destruct (XLALWriteSFT2file_find_load (U := reference_SFTutils) (fun _ => true)
              (fun _ => None) (disk_files written_disk) written_disk sample_SFT sample_bins
              (Some "hello"%string) "H-1_H1_1800SFT-1000000000-1800.sft" (-1) (-1)
              sample_SFT_storable sample_SFT_on_bin_grid)
    as (d & F & _ & L).
  - repeat constructor; vm_compute; intuition discriminate.
  - reflexivity.
  - vm_compute. intuition discriminate.
  - repeat split; try reflexivity. discriminate.
  - reflexivity.
  - reflexivity.
  - vm_compute. intuition discriminate.
  - exists d. split; [exact F | exact L].
Defined.

(* ------------------------------------------------------------------ *)
(** ** Merged SFT files: write, find, load *)

(** [qsort] leaves alone an array whose neighbours are in order. *)
Lemma qsort_in_order {A : Type} (compar : A -> A -> Z) (l : list A) :
  Sorted (fun x y => compar x y <= 0) l -> qsort compar l = l.
Proof.
  induction 1 as [|x l S IH H]; [reflexivity|].
  unfold qsort in *. cbn [fold_right]. rewrite IH.
  destruct H as [|y r H]; [reflexivity|].
  cbn [qsort_insert]. destruct (Z.leb_spec (compar x y) 0); [reflexivity|lia].
Qed.

(** An SFT of a vector that can be merged into one file: detector [name],
    start frequency [f0], spacing [deltaF] and [n] bins. *)
Definition mergeable {U : SFTutils} (name : string) (f0 deltaF : float) (n : Z)
    (SFTcomment : option string) (s : SFTtype) : Prop :=
  sft_name s = name /\ sft_f0 s = f0 /\ sft_deltaF s = deltaF /\
  Z.of_nat (List.length (data_of s)) = n /\
  storable s (data_of s) SFTcomment /\ on_bin_grid s /\
  Forall COMPLEX8_in_range (data_of s).

(** The descriptors of the blocks of a merged file, the first at [off]. *)
Fixpoint merged_catalog {U : SFTutils} (fname : string) (off : Z) (sfts : list SFTtype)
    (SFTcomment : option string) : list SFTDescriptor :=
  match sfts with
  | [] => []
  | s :: rest =>
      mkDesc (mkLocator fname off 0)
             (mkSFT (sft_name s) (sft_epoch s) (sft_f0 s) (sft_deltaF s) None)
             (Some (chars0 (composed_comment s SFTcomment)
                    ++ repeat NUL (Z.to_nat (pad_len_of (strlen (composed_comment s SFTcomment) + 1)))))
             (Z.of_nat (List.length (data_of s))) 2 (block_crc s (data_of s) SFTcomment)
      :: merged_catalog fname (off + Z.of_nat (List.length (SFT_block s (data_of s) SFTcomment)))
                        rest SFTcomment
  end.

Lemma char_eqb_refl (b : byte) : char_eqb b b = true.
Proof. destruct b; reflexivity. Qed.

(** Reading bins from a written block leaves the file as it is. *)
Lemma read_sft_bins_from_fp_written_stream {U : SFTutils} (sft : SFTtype)
    (data : list COMPLEX8) (SFTcomment : option string) (ret : SFTtype) (len a b : Z)
    (pre post : list byte) :
  storable sft data SFTcomment -> on_bin_grid sft ->
  (sft_deltaF sft <=? 0)%float = false -> (sft_f0 sft <? 0)%float = false ->
  contents (snd (read_sft_bins_from_fp ret len a b
                   (mkFILE (pre ++ SFT_block sft data SFTcomment ++ post)
                           (Z.of_nat (List.length pre)))))
  = pre ++ SFT_block sft data SFTcomment ++ post.
Proof.
  intros ST GRID Hd Hf. unfold read_sft_bins_from_fp.
  destruct (b <? a); [reflexivity|].
  rewrite (read_sft_header_from_fp_written sft data SFTcomment ST GRID Hd Hf).
  cbv zeta.
  match goal with |- context [if ?c then _ else _] => destruct c; [reflexivity|] end.
  match goal with |- context [if ?c then _ else _] => destruct c; [reflexivity|] end.
  unfold fseek_CUR, fseek_SET.
  match goal with |- context [if ?c then _ else _] => destruct c; [reflexivity|] end.
  match goal with |- context [fread ?m ?f] =>
    pose proof (fread_contents m f) as C; destruct (fread m f) as [[bytes|] fp3] end;
    exact C.
Qed.

Section Merged.
Context {U : SFTutils}.
Variables (name : string) (f0 deltaF : float) (n : Z) (SFTcomment : option string).
Hypothesis Hd : (deltaF <=? 0)%float = false.
Hypothesis Hf : (f0 <? 0)%float = false.
Hypothesis NUMd : (deltaF =? deltaF)%float = true.
Hypothesis NUMf : (f0 =? f0)%float = true.

Let k := lround (f0 / deltaF)%float.
Hypothesis Hk : 0 <= k /\ k + n <= 2 ^ 32.

Variable (fname : string).


Lemma length_block (s : SFTtype) :
  mergeable name f0 deltaF n SFTcomment s ->
  Z.of_nat (List.length (SFT_block s (data_of s) SFTcomment))
  = sizeof_rawheader
    + (strlen (composed_comment s SFTcomment) + 1
       + pad_len_of (strlen (composed_comment s SFTcomment) + 1))
    + 8 * n /\ 0 < n < 2 ^ 29 /\
  0 < strlen (composed_comment s SFTcomment) + 1 /\
  0 <= pad_len_of (strlen (composed_comment s SFTcomment) + 1).
Proof.
  intros (_ & _ & _ & En & ST & _ & _).
  pose proof (clen_range _ _ _ ST) as Hcl. pose proof (plen_range _ _ _ ST) as [Hp _].
  pose proof (st_bins _ _ _ ST) as Hb.
  rewrite (length_SFT_block s (data_of s) SFTcomment ST). rewrite En in *. lia.
Qed.

Lemma consistent_members (p s : SFTtype) :
  mergeable name f0 deltaF n SFTcomment p -> mergeable name f0 deltaF n SFTcomment s ->
  (GPS2REAL8 (sft_epoch p) <? GPS2REAL8 (sft_epoch s))%float = true ->
  consistent_mSFT_header
    (mkSFT (sft_name p) (sft_epoch p) (sft_f0 p) (sft_deltaF p) None) 2 n
    (mkSFT (sft_name s) (sft_epoch s) (sft_f0 s) (sft_deltaF s) None) 2 n = true.
Proof.
  intros (Np & Fp & Dp & _) (Ns & Fs & Ds & _) E.
  unfold consistent_mSFT_header, name_char. cbn [sft_name sft_epoch sft_f0 sft_deltaF].
  rewrite Np, Ns, Fp, Fs, Dp, Ds, !char_eqb_refl, NUMd, NUMf.
  destruct (REAL8_ltb_swap _ _ E) as [-> _]. cbn [negb orb]. rewrite (Z.eqb_refl n). reflexivity.
Qed.

Lemma scan_SFT_blocks_merged (sfts : list SFTtype) :
  forall (pre : list byte) (p : option SFTtype) (ret : list SFTDescriptor) (fuel : nat),
  sfts <> [] ->
  Forall (mergeable name f0 deltaF n SFTcomment) sfts ->
  epochs_ascend sfts ->
  match p with
  | Some p => mergeable name f0 deltaF n SFTcomment p /\
              (GPS2REAL8 (sft_epoch p) <? GPS2REAL8 (sft_epoch (hd p sfts)))%float = true
  | None => True
  end ->
  (List.length sfts <= fuel)%nat ->
  scan_SFT_blocks fuel fname None
    (mkFILE (pre ++ merged_image sfts SFTcomment) (Z.of_nat (List.length pre)))
    (Z.of_nat (List.length (pre ++ merged_image sfts SFTcomment)))
    (option_map (fun p => (mkSFT (sft_name p) (sft_epoch p) (sft_f0 p) (sft_deltaF p) None, 2, n)) p)
    ret
  = Some (XLAL_OK (ret ++ merged_catalog fname (Z.of_nat (List.length pre)) sfts SFTcomment)).
Proof.
  induction sfts as [|s rest IH]; intros pre p ret fuel NE M A P F; [congruence|].
  apply Forall_cons_iff in M as [Ms Mrest].
  destruct (length_block s Ms) as (Lb & Hn & Hcl & Hp).
  pose proof Ms as (Ns & Fs & Ds & En & ST & GRID & _).
  destruct fuel as [|fuel]; [cbn [List.length] in F; lia|].
  unfold merged_image. cbn [map List.concat]. fold (merged_image rest SFTcomment).
  cbn [scan_SFT_blocks]. unfold ftell at 1 2 3. cbn [fpos].
  rewrite !length_app.
  destruct (Z.ltb_spec (Z.of_nat (List.length pre))
              (Z.of_nat (List.length pre + (List.length (SFT_block s (data_of s) SFTcomment)
                                            + List.length (merged_image rest SFTcomment)))))
    as [_|E]; [|unfold sizeof_rawheader in Lb; lia].
  cbn [negb].
  destruct (Z.eqb_spec (Z.of_nat (List.length pre)) (-1)) as [E|_]; [lia|].
  rewrite (read_sft_header_from_fp_written s (data_of s) SFTcomment ST GRID) by congruence.
  cbn [hdr_header hdr_version hdr_numBins hdr_SFTcomment hdr_crc64 want_this_block].
  rewrite En.
  assert (C : match option_map (fun p => (mkSFT (sft_name p) (sft_epoch p) (sft_f0 p)
                                                (sft_deltaF p) None, 2, n)) p with
              | Some (mprev_header, mprev_version, mprev_nsamples) =>
                  negb (consistent_mSFT_header mprev_header mprev_version mprev_nsamples
                          (mkSFT (sft_name s) (sft_epoch s) (sft_f0 s) (sft_deltaF s) None) 2 n)
              | None => false
              end = false).
  { destruct p as [p|]; [|reflexivity]. cbn [option_map hd] in *.
    destruct P as [Mp E]. now rewrite (consistent_members p s Mp Ms E). }
  rewrite C. clear C.
  unfold ftell. cbn [fpos].
  cbn [merged_catalog]. rewrite En.
  destruct rest as [|s' rest'].
  - unfold merged_image. cbn [map List.concat List.length]. 
    destruct (Z.leb_spec (Z.of_nat (List.length pre + (List.length (SFT_block s (data_of s) SFTcomment) + 0)))
                (Z.of_nat (List.length pre) + sizeof_rawheader
                 + (strlen (composed_comment s SFTcomment) + 1
                    + pad_len_of (strlen (composed_comment s SFTcomment) + 1)) + n * 8))
      as [_|E]; [|lia].
    reflexivity.
  - pose proof (Forall_inv Mrest) as Ms'.
    destruct (length_block s' Ms') as (Lb' & _ & Hcl' & Hp').
    assert (Lr : Z.of_nat (List.length (SFT_block s' (data_of s') SFTcomment)) <=
                 Z.of_nat (List.length (merged_image (s' :: rest') SFTcomment))).
    { unfold merged_image. cbn [map List.concat]. rewrite length_app. lia. }
    destruct (Z.leb_spec (Z.of_nat (List.length pre + (List.length (SFT_block s (data_of s) SFTcomment)
                                      + List.length (merged_image (s' :: rest') SFTcomment))))
                (Z.of_nat (List.length pre) + sizeof_rawheader
                 + (strlen (composed_comment s SFTcomment) + 1
                    + pad_len_of (strlen (composed_comment s SFTcomment) + 1)) + n * 8))
      as [E|_]; [unfold sizeof_rawheader in *; lia|].
    rewrite (to_UINT4_small (n * 8)) by lia.
    unfold fseek_CUR, fseek_SET. cbn [fpos contents].
    match goal with |- context [if ?q <? 0 then _ else _] =>
      destruct (Z.ltb_spec q 0) as [E|_]; [unfold sizeof_rawheader in *; lia|] end.
    apply Sorted_inv in A as [A' HA]. apply HdRel_inv in HA as E'.
    specialize (IH (pre ++ SFT_block s (data_of s) SFTcomment) (Some s)
                   (ret ++ [mkDesc (mkLocator fname (Z.of_nat (List.length pre)) 0)
                              (mkSFT (sft_name s) (sft_epoch s) (sft_f0 s) (sft_deltaF s) None)
                              (Some (chars0 (composed_comment s SFTcomment)
                                     ++ repeat NUL (Z.to_nat (pad_len_of
                                          (strlen (composed_comment s SFTcomment) + 1)))))
                              n 2 (block_crc s (data_of s) SFTcomment)])
                   fuel ltac:(discriminate) Mrest A' (conj Ms E') ltac:(cbn [List.length] in *; lia)).
    cbn [option_map] in IH.
    rewrite <- !app_assoc in IH. rewrite !length_app in IH.
    replace (Z.of_nat (List.length pre) + sizeof_rawheader
             + (strlen (composed_comment s SFTcomment) + 1
                + pad_len_of (strlen (composed_comment s SFTcomment) + 1)) + n * 8)
      with (Z.of_nat (List.length pre + List.length (SFT_block s (data_of s) SFTcomment))) by lia.
    rewrite IH. rewrite Nat2Z.inj_add. reflexivity.
Qed.

Lemma length_merged_image (sfts : list SFTtype) :
  Forall (mergeable name f0 deltaF n SFTcomment) sfts ->
  Z.of_nat (List.length sfts) <= Z.of_nat (List.length (merged_image sfts SFTcomment)).
Proof.
  induction 1 as [|s rest Ms _ IH]; [reflexivity|].
  destruct (length_block s Ms) as (Lb & Hn & Hcl & Hp).
  unfold merged_image in *. cbn [map List.concat List.length].
  rewrite length_app. unfold sizeof_rawheader in Lb. lia.
Qed.

Lemma merged_catalog_deltaF (sfts : list SFTtype) : forall off,
  Forall (mergeable name f0 deltaF n SFTcomment) sfts ->
  forallb (fun d => (sft_deltaF (desc_header d) =? deltaF)%float)
          (merged_catalog fname off sfts SFTcomment) = true.
Proof.
  induction sfts as [|s rest IH]; intros off M; [reflexivity|].
  apply Forall_cons_iff in M as [Ms Mrest].
  cbn [merged_catalog forallb desc_header sft_deltaF].
  destruct Ms as (_ & _ & -> & _). rewrite NUMd. now apply IH.
Qed.

Lemma merged_catalog_hd (sfts : list SFTtype) (off : Z) (R : SFTDescriptor -> SFTDescriptor -> Prop)
    (Q : SFTtype -> SFTtype -> Prop) (s : SFTtype) (d : SFTDescriptor) :
  (forall s' off', Q s s' -> R d (hd d (merged_catalog fname off' (s' :: nil) SFTcomment))) ->
  HdRel Q s sfts -> HdRel R d (merged_catalog fname off sfts SFTcomment).
Proof.
  intros H [|s' rest Hq]; cbn [merged_catalog]; constructor.
  apply (H s' off Hq).
Qed.

Lemma merged_catalog_in_order (sfts : list SFTtype) : forall off,
  epochs_ascend sfts ->
  Sorted (fun x y => compareSFTdesc x y <= 0) (merged_catalog fname off sfts SFTcomment).
Proof.
  induction sfts as [|s rest IH]; intros off A; [constructor|].
  apply Sorted_inv in A as [A' HA].
  cbn [merged_catalog]. constructor; [now apply IH|].
  eapply merged_catalog_hd; [|exact HA].
  intros s' off' E. cbn [merged_catalog hd]. unfold compareSFTdesc.
  cbn [desc_header sft_epoch]. rewrite E. lia.
Qed.

Variable disk : Disk.
Hypothesis PLAIN : plain_file_name fname.

Lemma XLALSFTdataFind_merged (sfts : list SFTtype) :
  sfts <> [] ->
  Forall (mergeable name f0 deltaF n SFTcomment) sfts ->
  epochs_ascend sfts ->
  disk_files disk fname = Some (merged_image sfts SFTcomment) ->
  XLALSFTdataFind disk fname None = XLAL_OK (merged_catalog fname 0 sfts SFTcomment).
Proof.
  intros NE M A FILE_.
  pose proof (length_merged_image sfts M) as L.
  assert (L0 : 0 < Z.of_nat (List.length sfts)) by (destruct sfts; [congruence|cbn; lia]).
  unfold XLALSFTdataFind. rewrite (XLALFindFiles_plain disk fname PLAIN).
  cbn [scan_SFT_files]. unfold scan_SFT_file, fopen. rewrite FILE_.
  unfold file_length. cbn [contents].
  destruct (Z.eqb_spec (Z.of_nat (List.length (merged_image sfts SFTcomment))) 0) as [E|_]; [lia|].
  pose proof (scan_SFT_blocks_merged sfts [] None []
                (S (Z.to_nat (Z.of_nat (List.length (merged_image sfts SFTcomment)))))
                NE M A I ltac:(lia)) as S.
  cbn [app List.length Z.of_nat option_map] in S. rewrite S.
  assert (ID : identical_deltaF (merged_catalog fname 0 sfts SFTcomment) = true).
  { destruct sfts as [|s rest]; [congruence|].
    pose proof (merged_catalog_deltaF (s :: rest) 0 M) as D.
    unfold identical_deltaF. cbn [merged_catalog] in D |- *.
    cbn [desc_header sft_deltaF].
    destruct (Forall_inv M) as (_ & _ & Ds & _). rewrite Ds in D |- *. exact D. }
  rewrite ID. cbn [negb].
  now rewrite (qsort_in_order _ _ (merged_catalog_in_order sfts 0 A)).
Qed.

End Merged.

(** The descriptor [d] with the index [i] of its SFT in the locator. *)
Definition set_isft (d : SFTDescriptor) (i : Z) : SFTDescriptor :=
  mkDesc (mkLocator (loc_fname (desc_locator d)) (loc_offset (desc_locator d)) i)
         (desc_header d) (desc_comment d) (desc_numBins d) (desc_version d) (desc_crc64 d).

(** A catalog whose descriptors are numbered [i], [i + 1], ... *)
Fixpoint renumber (i : Z) (catalog : list SFTDescriptor) : list SFTDescriptor :=
  match catalog with
  | [] => []
  | d :: rest => set_isft d i :: renumber (i + 1) rest
  end.

Lemma GPSEQUAL_false (e1 e2 : LIGOTimeGPS) :
  (GPS2REAL8 e1 <? GPS2REAL8 e2)%float = true -> GPSEQUAL e1 e2 = false.
Proof.
  intros L. destruct (GPSEQUAL e1 e2) eqn:E; [|reflexivity].
  unfold GPSEQUAL in E. apply andb_true_iff in E as [E1 E2].
  apply Z.eqb_eq in E1, E2. destruct e1, e2. cbn in E1, E2. subst.
  rewrite REAL8_ltb_irrefl in L. discriminate.
Qed.

Lemma strcmp_refl (s : string) : strcmp s s = 0.
Proof.
  unfold strcmp. pose proof (String.compare_antisym s s) as H.
  destruct (String.compare s s); cbn in H; congruence.
Qed.

Lemma set_nth_app {A : Type} (j : nat) (l1 : list A) (x y : A) (l2 : list A) :
  List.length l1 = j -> set_nth j x (l1 ++ y :: l2) = l1 ++ x :: l2.
Proof. intros <-. induction l1 as [|a l1 IH]; [reflexivity|]. cbn. now rewrite IH. Qed.

Lemma nth_app_head {A : Type} (j : nat) (l1 : list A) (y : A) (l2 : list A) (dflt : A) :
  List.length l1 = j -> nth j (l1 ++ y :: l2) dflt = y.
Proof. intros <-. induction l1 as [|a l1 IH]; [reflexivity|]. exact IH. Qed.

Section MergedLoad.
Context {U : SFTutils}.
Variables (name : string) (f0 deltaF : float) (n : Z) (SFTcomment : option string).
Hypothesis Hd : (deltaF <=? 0)%float = false.
Hypothesis Hf : (f0 <? 0)%float = false.
Hypothesis NUMd : (deltaF =? deltaF)%float = true.
Variable k : Z.
Hypothesis Ek : k = lround (f0 / deltaF)%float.
Hypothesis Hk : 0 <= k /\ k + n <= 2 ^ 32.
Variable (fname : string).
Hypothesis PLAIN : plain_file_name fname.

Lemma index_catalog_merged (rest : list SFTtype) : forall (off : Z) (p : SFTtype) (i : Z),
  Forall (mergeable name f0 deltaF n SFTcomment) rest ->
  HdRel (fun s1 s2 => (GPS2REAL8 (sft_epoch s1) <? GPS2REAL8 (sft_epoch s2))%float = true) p rest ->
  epochs_ascend rest ->
  0 < i -> i + Z.of_nat (List.length rest) < 2 ^ 32 ->
  index_catalog deltaF (merged_catalog fname off rest SFTcomment) (sft_epoch p) i k (k + n - 1)
  = (renumber i (merged_catalog fname off rest SFTcomment),
     (i + Z.of_nat (List.length rest), k, k + n - 1)).
Proof.
  induction rest as [|s rest IH]; intros off p i M H A Hi Hl.
  - cbn. now rewrite Z.add_0_r.
  - apply Forall_cons_iff in M as [Ms Mrest].
    apply HdRel_inv in H. apply Sorted_inv in A as [A' HA].
    pose proof Ms as (Ns & Fs & Ds & En & ST & _).
    pose proof (st_bins _ _ _ ST) as Hb. rewrite En in Hb.
    cbn [merged_catalog index_catalog renumber desc_header desc_locator desc_numBins
         desc_comment desc_version desc_crc64 loc_fname loc_offset sft_f0 sft_epoch].
    rewrite Fs, <- Ek, En.
    rewrite (to_UINT4_small k) by lia. rewrite (to_UINT4_small (k + n - 1)) by lia.
    rewrite !Z.ltb_irrefl. rewrite (GPSEQUAL_false _ _ H). cbn [negb].
    cbn [List.length] in Hl. rewrite Nat2Z.inj_succ in Hl.
    rewrite (to_UINT4_small (i + 1)) by lia.
    replace (i + 1 - 1) with i by lia. rewrite (to_UINT4_small i) by lia.
    rewrite (IH _ s (i + 1) Mrest HA A') by lia.
    unfold set_isft. cbn [desc_header desc_locator desc_numBins
         desc_comment desc_version desc_crc64 loc_fname loc_offset].
    do 3 f_equal. cbn [List.length]. lia.
Qed.

Lemma catalog_survey_merged (s0 : SFTtype) (rest : list SFTtype) :
  Forall (mergeable name f0 deltaF n SFTcomment) (s0 :: rest) ->
  epochs_ascend (s0 :: rest) ->
  Z.of_nat (List.length (s0 :: rest)) < 2 ^ 32 ->
  catalog_survey (merged_catalog fname 0 (s0 :: rest) SFTcomment)
  = Some (mkSurvey deltaF (renumber 0 (merged_catalog fname 0 (s0 :: rest) SFTcomment))
                   (Z.of_nat (List.length (s0 :: rest))) k (k + n - 1)).
Proof.
  intros M A L.
  apply Forall_cons_iff in M as [Ms Mrest]. apply Sorted_inv in A as [A' HA].
  pose proof Ms as (Ns & Fs & Ds & En & ST & _).
  pose proof (st_bins _ _ _ ST) as Hb. rewrite En in Hb.
  cbn [List.length] in L. rewrite Nat2Z.inj_succ in L.
  unfold catalog_survey.
  cbn [merged_catalog renumber desc_header desc_locator desc_numBins
       desc_comment desc_version desc_crc64 loc_fname loc_offset sft_f0 sft_epoch sft_deltaF].
  rewrite Fs, Ds, <- Ek, En.
  rewrite (to_UINT4_small k) by lia. rewrite (to_UINT4_small (k + n - 1)) by lia.
  rewrite (index_catalog_merged rest _ s0 1 Mrest HA A') by lia.
  unfold set_isft. cbn [desc_header desc_locator desc_numBins
       desc_comment desc_version desc_crc64 loc_fname loc_offset].
  do 2 f_equal. cbn [List.length]. lia.
Qed.

Lemma renumber_hd (sfts : list SFTtype) (off i : Z) (R : SFTDescriptor -> SFTDescriptor -> Prop)
    (d : SFTDescriptor) :
  (forall s' off' i', In s' sfts -> off <= off' ->
     R d (hd d (renumber i' (merged_catalog fname off' (s' :: nil) SFTcomment)))) ->
  HdRel R d (renumber i (merged_catalog fname off sfts SFTcomment)).
Proof.
  intros H. destruct sfts as [|s' rest]; cbn [merged_catalog renumber]; constructor.
  apply (H s' off i); [now left|lia].
Qed.

Lemma merged_catalog_loc_order (sfts : list SFTtype) : forall off i,
  Forall (mergeable name f0 deltaF n SFTcomment) sfts ->
  Sorted (fun x y => compareSFTloc x y <= 0)
         (renumber i (merged_catalog fname off sfts SFTcomment)).
Proof.
  induction sfts as [|s rest IH]; intros off i M; [constructor|].
  apply Forall_cons_iff in M as [Ms Mrest].
  cbn [merged_catalog renumber]. constructor; [now apply IH|].
  destruct (length_block name f0 deltaF n SFTcomment s Ms) as (Lb & Hn & Hcl & Hp).
  apply renumber_hd. intros s' off' i' I O.
  rewrite Forall_forall in Mrest. pose proof (Mrest s' I) as (_ & Fs' & _).
  destruct Ms as (_ & Fs & _).
  cbn [merged_catalog renumber hd]. unfold compareSFTloc, set_isft.
  cbn [desc_header desc_locator loc_fname loc_offset sft_f0].
  rewrite Fs, Fs', REAL8_ltb_irrefl, strcmp_refl. cbn [Z.eqb].
  destruct (Z.ltb_spec off off'); [lia|unfold sizeof_rawheader in *; lia].
Qed.

Variables (fb lb : Z).
Hypothesis BAND : k <= fb /\ fb <= lb /\ lb <= k + n - 1 /\ lb <> 0.

(** The bins [fb .. lb] of an SFT of the vector. *)
Let band (s : SFTtype) : list COMPLEX8 :=
  firstn (Z.to_nat (lb - fb + 1)) (skipn (Z.to_nat (fb - k)) (data_of s)).

Let seg_done (d : SFTDescriptor) : SFTReadSegment :=
  mkSegment fb lb (sft_epoch (desc_header d)) (Some (desc_locator d)).

Let vec_done (s : SFTtype) : loaded_SFT :=
  mkLoaded (sft_name s) (mkGPS 0 0) 0%float 0%float (map Some (band s)).

Let vec_init : loaded_SFT :=
  mkLoaded "" (mkGPS 0 0) 0%float 0%float (repeat None (Z.to_nat (lb + 1 - fb))).

Variables (fs : FileSystem) (image : list byte).
Hypothesis FILE_ : fs fname = Some image.

Lemma load_one_merged (s : SFTtype) (pre post : list byte) (st : load_state)
    (segs : list SFTReadSegment) (vecs : list loaded_SFT) (r : nat) :
  mergeable name f0 deltaF n SFTcomment s ->
  image = pre ++ SFT_block s (data_of s) SFTcomment ++ post ->
  List.length vecs = List.length segs ->
  segments st = segs ++ zero_segment :: repeat zero_segment r ->
  sftVector st = vecs ++ vec_init :: repeat vec_init r ->
  (pre = [] /\ cur_fname st = ""%string) \/
  (pre <> [] /\ cur_fname st = fname /\ exists pos, cur_fp st = Some (mkFILE image pos)) ->
  let d := set_isft (mkDesc (mkLocator fname (Z.of_nat (List.length pre)) 0)
                       (mkSFT (sft_name s) (sft_epoch s) (sft_f0 s) (sft_deltaF s) None)
                       (Some (chars0 (composed_comment s SFTcomment)
                              ++ repeat NUL (Z.to_nat (pad_len_of
                                   (strlen (composed_comment s SFTcomment) + 1)))))
                       (Z.of_nat (List.length (data_of s))) 2
                       (block_crc s (data_of s) SFTcomment))
                    (Z.of_nat (List.length segs)) in
  exists st',
    load_one fs deltaF fb lb st d = inl st' /\
    segments st' = (segs ++ [seg_done d]) ++ repeat zero_segment r /\
    sftVector st' = (vecs ++ [vec_done s]) ++ repeat vec_init r /\
    cur_fname st' = fname /\ exists pos, cur_fp st' = Some (mkFILE image pos).
Proof.
  intros Ms Ei Lv Es Ev Hfile d.
  pose proof Ms as (Ns & Fs & Ds & En & ST & GRID & RNG).
  pose proof (st_bins _ _ _ ST) as Hb. rewrite En in Hb.
  destruct BAND as (B1 & B2 & B3 & B4).
  assert (HdS : (sft_deltaF s <=? 0)%float = false) by now rewrite Ds.
  assert (HfS : (sft_f0 s <? 0)%float = false) by now rewrite Fs.
  assert (HkS : 0 <= lround (sft_f0 s / sft_deltaF s)%float /\
                lround (sft_f0 s / sft_deltaF s)%float
                + Z.of_nat (List.length (data_of s)) <= 2 ^ 32).
  { rewrite Fs, Ds, En, <- Ek. exact Hk. }
  (* the stream the bins are read from *)
  assert (Hstream :
    fetch_segment fs deltaF fb lb st d
    = let '(rd, fp') := read_sft_bins_from_fp (thisSFT st) (lb + 1 - fb) fb lb
                          (mkFILE image (Z.of_nat (List.length pre))) in
      inl (mkFetched (br_lastBinRead rd) (br_firstBinRead rd) (br_header rd) (br_bins rd)
                     fname (Some fp'))).
  { unfold fetch_segment, d, set_isft.
    cbn [desc_header desc_locator sft_data loc_fname loc_offset].
    rewrite (to_UINT4_small (lb + 1 - fb)) by lia.
    destruct Hfile as [[-> Ec]|(NE & Ec & pos & Ep)]; rewrite Ec.
    - rewrite (strcmp_empty_l fname) by apply PLAIN. cbn [negb].
      unfold fopen. rewrite FILE_. cbn [andb List.length Z.of_nat Z.eqb]. reflexivity.
    - rewrite strcmp_refl. cbn [Z.eqb negb andb]. rewrite Ep.
      destruct (Z.eqb_spec (Z.of_nat (List.length pre)) 0) as [E0|_];
        [destruct pre; [congruence|discriminate]|].
      unfold fseek_SET. cbn [contents].
      destruct (Z.ltb_spec (Z.of_nat (List.length pre)) 0) as [|_]; [lia|]. reflexivity. }
  unfold load_one. rewrite Hstream. clear Hstream.
  pose proof (read_sft_bins_from_fp_written s (data_of s) SFTcomment ST GRID RNG HdS HfS HkS
                (thisSFT st) (lb + 1 - fb) fb lb pre post) as R.
  pose proof (read_sft_bins_from_fp_written_stream s (data_of s) SFTcomment
                (thisSFT st) (lb + 1 - fb) fb lb pre post ST GRID HdS HfS) as C.
  rewrite <- Ei in R, C. rewrite Fs, Ds, En, <- Ek in R.
  rewrite Z.max_l, Z.min_l in R by lia.
  specialize (R ltac:(lia) ltac:(lia) ltac:(lia)).
  destruct (read_sft_bins_from_fp (thisSFT st) (lb + 1 - fb) fb lb
              (mkFILE image (Z.of_nat (List.length pre)))) as [rd fp'].
  cbn [fst snd] in R, C. subst rd.
  unfold add_segment, d, set_isft.
  cbn [f_lastBinRead f_firstBinRead f_thisSFT f_bins f_fname f_fp
       br_lastBinRead br_firstBinRead br_header br_bins
       desc_locator loc_isft loc_fname loc_offset desc_header
       sft_deltaF sft_epoch sft_name].
  unfold segment_at. rewrite Nat2Z.id, Es, Ev, !nth_app_head by (assumption || reflexivity).
  destruct (Z.eqb_spec lb 0) as [|_]; [contradiction|]. cbn [negb].
  cbn [seg_last zero_segment Z.eqb].
  rewrite (Z.eqb_refl fb). cbn [negb seg_epoch seg_first seg_last seg_lastfrom].
  rewrite NUMd. cbn [negb].
  unfold GPSEQUAL.
  rewrite (Z.eqb_refl (gpsSeconds (sft_epoch s))), (Z.eqb_refl (gpsNanoSeconds (sft_epoch s))).
  cbn [andb negb].
  eexists. split; [reflexivity|].
  cbn [segments sftVector cur_fname cur_fp].
  rewrite !set_nth_app, <- !app_assoc by (assumption || reflexivity). cbn [app].
  split; [reflexivity|]. split.
  - f_equal. f_equal. unfold vec_done, vec_init. cbn [ld_epoch ld_f0 ld_deltaF ld_data].
    f_equal.
    rewrite Z.sub_diag. change (to_UINT4 0) with 0. change (Z.to_nat 0) with 0%nat.
    rewrite (to_UINT4_small (lb - fb + 1)) by lia.
    fold (band s).
    assert (Ls : Z.to_nat (lb + 1 - fb) = List.length (band s)).
    { unfold band. rewrite length_firstn, length_skipn. lia. }
    rewrite Ls.
    rewrite (firstn_all2 (n := Z.to_nat (lb - fb + 1))).
    2:{ replace (lb - fb + 1) with (lb + 1 - fb) by lia. rewrite Ls. lia. }
    apply store_bins_whole.
  - split; [reflexivity|]. exists (fpos fp'). rewrite <- C. now rewrite FILE_eta.
Qed.

Lemma load_all_merged (rest : list SFTtype) :
  forall (pre : list byte) (st : load_state) (segs : list SFTReadSegment)
         (vecs : list loaded_SFT),
  Forall (mergeable name f0 deltaF n SFTcomment) rest ->
  image = pre ++ merged_image rest SFTcomment ->
  List.length vecs = List.length segs ->
  segments st = segs ++ repeat zero_segment (List.length rest) ->
  sftVector st = vecs ++ repeat vec_init (List.length rest) ->
  (pre = [] /\ cur_fname st = ""%string) \/
  (pre <> [] /\ cur_fname st = fname /\ exists pos, cur_fp st = Some (mkFILE image pos)) ->
  exists st',
    load_all fs deltaF fb lb st
      (renumber (Z.of_nat (List.length segs))
                (merged_catalog fname (Z.of_nat (List.length pre)) rest SFTcomment))
    = inl st' /\
    segments st'
    = segs ++ map seg_done (renumber (Z.of_nat (List.length segs))
                              (merged_catalog fname (Z.of_nat (List.length pre)) rest SFTcomment)) /\
    sftVector st' = vecs ++ map vec_done rest.
Proof.
  induction rest as [|s rest IH]; intros pre st segs vecs M Ei Lv Es Ev Hfile.
  - exists st. cbn [List.length repeat] in Es, Ev. cbn [merged_catalog renumber load_all map].
    auto.
  - apply Forall_cons_iff in M as [Ms Mrest].
    destruct (length_block name f0 deltaF n SFTcomment s Ms) as (Lb & Hn & Hcl & Hp).
    assert (Ei' : image = pre ++ SFT_block s (data_of s) SFTcomment
                              ++ merged_image rest SFTcomment) by exact Ei.
    cbn [List.length repeat] in Es, Ev.
    destruct (load_one_merged s pre (merged_image rest SFTcomment) st segs vecs
                (List.length rest) Ms Ei' Lv Es Ev Hfile)
      as (st1 & L1 & S1 & V1 & F1 & P1).
    cbn [merged_catalog renumber load_all]. unfold set_isft in L1 |- *.
    cbn [desc_header desc_locator desc_numBins desc_comment desc_version desc_crc64
         loc_fname loc_offset] in L1 |- *.
    rewrite L1.
    assert (Ei2 : image = (pre ++ SFT_block s (data_of s) SFTcomment)
                              ++ merged_image rest SFTcomment)
      by (rewrite <- app_assoc; exact Ei').
    assert (Lv2 : List.length (vecs ++ [vec_done s])
                  = List.length (segs ++ [seg_done
                      (mkDesc (mkLocator fname (Z.of_nat (List.length pre))
                                         (Z.of_nat (List.length segs)))
                              (mkSFT (sft_name s) (sft_epoch s) (sft_f0 s) (sft_deltaF s) None)
                              (Some (chars0 (composed_comment s SFTcomment)
                                     ++ repeat NUL (Z.to_nat (pad_len_of
                                          (strlen (composed_comment s SFTcomment) + 1)))))
                              (Z.of_nat (List.length (data_of s))) 2
                              (block_crc s (data_of s) SFTcomment))]))
      by (rewrite !length_app; cbn [List.length]; lia).
    specialize (IH (pre ++ SFT_block s (data_of s) SFTcomment) st1 _ _ Mrest Ei2 Lv2 S1 V1).
    destruct IH as (st' & L' & S' & V').
    { right. split; [|now split].
      intros E. apply (f_equal (@List.length byte)) in E. rewrite length_app in E.
      cbn [List.length] in E. unfold sizeof_rawheader in Lb. lia. }
    rewrite !length_app, !Nat2Z.inj_add in L', S'. cbn [List.length Z.of_nat Pos.of_succ_nat] in L', S'.
    exists st'. split; [exact L'|]. split.
    + rewrite S', <- app_assoc. reflexivity.
    + rewrite V', <- app_assoc. reflexivity.
Qed.

Lemma complete_SFTs_merged (rest : list SFTtype) : forall off i isft,
  complete_SFTs deltaF fb lb isft
    (map seg_done (renumber i (merged_catalog fname off rest SFTcomment)))
    (map vec_done rest)
  = Loaded (map (fun s => mkLoaded (sft_name s) (sft_epoch s)
                                   (1 * REAL8_of_Z fb * deltaF)%float deltaF
                                   (map Some (band s))) rest).
Proof.
  induction rest as [|s rest IH]; intros off i isft; [reflexivity|].
  cbn [merged_catalog renumber map complete_SFTs seg_done seg_last].
  rewrite Z.eqb_refl, IH. reflexivity.
Qed.

Lemma XLALLoadSFTs_merged (sfts : list SFTtype) (fMin fMax : float) :
  sfts <> [] ->
  Forall (mergeable name f0 deltaF n SFTcomment) sfts ->
  epochs_ascend sfts ->
  Z.of_nat (List.length sfts) < 2 ^ 32 ->
  image = merged_image sfts SFTcomment ->
  fb = requested_firstbin deltaF k fMin ->
  lb = requested_lastbin deltaF (k + n - 1) fMax ->
  XLALLoadSFTs fs (merged_catalog fname 0 sfts SFTcomment) fMin fMax
  = Loaded (map (fun s => mkLoaded (sft_name s) (sft_epoch s)
                                   (1 * REAL8_of_Z fb * deltaF)%float deltaF
                                   (map Some (band s))) sfts).
Proof.
  intros NE M A L Ei Efb Elb.
  destruct BAND as (B1 & B2 & B3 & B4).
  destruct sfts as [|s0 rest]; [congruence|].
  unfold XLALLoadSFTs. rewrite (catalog_survey_merged s0 rest M A L).
  cbn [sv_deltaF sv_minbin sv_maxbin sv_nSFTs sv_catalog].
  rewrite <- Efb, <- Elb.
  destruct (Z.eqb_spec lb 0) as [|_]; [contradiction|].
  rewrite andb_false_r. cbn [andb].
  unfold load_range.
  rewrite (qsort_in_order _ _ (merged_catalog_loc_order (s0 :: rest) 0 0 M)).
  pose proof (Forall_inv M) as (_ & _ & _ & En & ST & _).
  pose proof (st_bins _ _ _ ST) as Hb. rewrite En in Hb.
  rewrite (to_UINT4_small (lb + 1 - fb)) by lia.
  rewrite Nat2Z.id. fold vec_init.
  destruct (load_all_merged (s0 :: rest) []
              (mkLoadState "" None zero_SFT (repeat zero_segment (List.length (s0 :: rest)))
                           (repeat vec_init (List.length (s0 :: rest))))
              [] [] M Ei eq_refl eq_refl eq_refl (or_introl (conj eq_refl eq_refl)))
    as (st' & L' & S' & V').
  cbn [List.length Z.of_nat app] in L', S', V' |- *.
  rewrite L', S', V'. apply complete_SFTs_merged.
Qed.

End MergedLoad.

Lemma write_SFT_blocks_inv {U : SFTutils} (sfts : list SFTtype) (SFTcomment : option string) :
  forall stream out,
  write_SFT_blocks sfts stream SFTcomment = XLAL_OK out ->
  out = stream ++ merged_image sfts SFTcomment /\
  Forall (fun s => (sft_deltaF s <=? 0)%float = false /\ (sft_f0 s <? 0)%float = false) sfts.
Proof.
  induction sfts as [|s rest IH]; intros stream out W; cbn [write_SFT_blocks] in W.
  - injection W as <-. unfold merged_image. cbn [map List.concat]. now rewrite app_nil_r.
  - destruct (XLALWriteSFT2fp (Some s) (Some stream) SFTcomment) as [stream'|] eqn:W1;
      [|discriminate].
    destruct (XLALWriteSFT2fp_inv _ _ _ _ W1) as (data & Ed & Hd & Hf & _ & _ & _ & _ & ->).
    destruct (IH _ _ W) as [-> F].
    split; [|now constructor].
    unfold merged_image, data_of. cbn [map List.concat]. rewrite Ed.
    now rewrite <- app_assoc.
Qed.

Lemma merged_catalog_epochs {U : SFTutils} (fname : string) (SFTcomment : option string)
    (sfts : list SFTtype) : forall off,
  map (fun d => (loc_fname (desc_locator d), sft_epoch (desc_header d)))
      (merged_catalog fname off sfts SFTcomment)
  = map (fun s => (fname, sft_epoch s)) sfts.
Proof.
  induction sfts as [|s rest IH]; intros off; [reflexivity|].
  cbn [merged_catalog map desc_header desc_locator loc_fname sft_epoch]. now rewrite IH.
Qed.

(** Write, find, load, for a merged file: a vector of SFTs of one detector,
    frequency band and spacing, with ascending epochs, that
    [XLALWriteSFTVector2NamedFile] wrote into one file is found by
    [XLALSFTdataFind] as a catalog with one descriptor per SFT, in the
    order written; [XLALLoadSFTs] of this catalog returns the SFTs in the
    order written, each with its own detector name and epoch and with
    exactly the bins [firstbin .. lastbin] of its own data, for every
    requested band that the SFTs cover. *)
Theorem XLALWriteSFTVector2NamedFile_find_load {U : SFTutils} (creatable : string -> bool)
    (fs fs' : FileSystem) (disk : Disk) (sfts : list SFTtype) (SFTcomment : option string)
    (fname name : string) (f0 deltaF : float) (n : Z) (fMin fMax : float) :
  let k := lround (f0 / deltaF)%float in
  let firstbin := requested_firstbin deltaF k fMin in
  let lastbin := requested_lastbin deltaF (k + n - 1) fMax in
  Forall (mergeable name f0 deltaF n SFTcomment) sfts ->
  epochs_ascend sfts ->
  Z.of_nat (List.length sfts) < 2 ^ 32 ->
  (deltaF =? deltaF)%float = true ->
  (f0 =? f0)%float = true ->
  0 <= k /\ k + n <= 2 ^ 32 ->
  plain_file_name fname ->
  XLALWriteSFTVector2NamedFile creatable fs (Some sfts) (Some fname) SFTcomment = XLAL_OK fs' ->
  disk_files disk = fs' ->
  k <= firstbin /\ firstbin <= lastbin /\ lastbin <= k + n - 1 /\ lastbin <> 0 ->
  exists catalog,
    XLALSFTdataFind disk fname None = XLAL_OK catalog /\
    map (fun d => (loc_fname (desc_locator d), sft_epoch (desc_header d))) catalog
    = map (fun s => (fname, sft_epoch s)) sfts /\
    XLALLoadSFTs (disk_files disk) catalog fMin fMax
    = Loaded (map (fun s => mkLoaded (sft_name s) (sft_epoch s)
                                     (1 * REAL8_of_Z firstbin * deltaF)%float deltaF
                                     (map Some (firstn (Z.to_nat (lastbin - firstbin + 1))
                                                  (skipn (Z.to_nat (firstbin - k))
                                                         (data_of s)))))
                  sfts).
Proof.
  intros k firstbin lastbin M A L NUMd NUMf Hk PLAIN W FS BAND.
  unfold XLALWriteSFTVector2NamedFile in W.
  destruct sfts as [|s0 rest]; [discriminate|].
  destruct (negb (creatable fname)); [discriminate|].
  destruct (write_SFT_blocks (s0 :: rest) [] SFTcomment) as [stream|] eqn:W1; [|discriminate].
  injection W as <-.
  destruct (write_SFT_blocks_inv _ _ _ _ W1) as [-> F]. cbn [app] in *.
  destruct (Forall_inv F) as [Hd Hf].
  destruct (Forall_inv M) as (_ & Fs & Ds & _). rewrite Fs in Hf. rewrite Ds in Hd.
  assert (FILE_ : disk_files disk fname = Some (merged_image (s0 :: rest) SFTcomment)).
  { rewrite FS. unfold store_file. now rewrite String.eqb_refl. }
  exists (merged_catalog fname 0 (s0 :: rest) SFTcomment). split; [|split].
  - apply (XLALSFTdataFind_merged name f0 deltaF n SFTcomment Hd Hf NUMd NUMf fname disk PLAIN
             (s0 :: rest) ltac:(discriminate) M A FILE_).
  - apply merged_catalog_epochs.
  - apply (XLALLoadSFTs_merged name f0 deltaF n SFTcomment Hd Hf NUMd k eq_refl Hk fname PLAIN
             firstbin lastbin BAND (disk_files disk) _ FILE_ (s0 :: rest) fMin fMax
             ltac:(discriminate) M A L eq_refl eq_refl eq_refl).
Qed.

Lemma sample_SFTs_mergeable :
  Forall (mergeable (U := reference_SFTutils) "H1" 10%float (1 / 1800)%float 2 None)
         [sample_SFT; later_SFT].
Proof.
  repeat constructor; try reflexivity;
    first [ unfold no_NUL; cbn; repeat constructor; discriminate
          | cbn; lia
          | vm_compute; reflexivity
          | vm_compute; intuition discriminate ].
Qed.

Lemma XLALWriteSFTVector2NamedFile_find_load_witness :
  exists catalog,
    XLALSFTdataFind (U := reference_SFTutils) two_SFT_disk "merged.sft" None
    = XLAL_OK catalog /\
    XLALLoadSFTs (U := reference_SFTutils) (disk_files two_SFT_disk) catalog (-1) (-1)
    = Loaded [mkLoaded "H1" (mkGPS 1000000000 0)
                       (1 * REAL8_of_Z 18000 * (1 / 1800))%float (1 / 1800)%float
                       (map Some sample_bins);
              mkLoaded "H1" (mkGPS 1000001800 0)
                       (1 * REAL8_of_Z 18000 * (1 / 1800))%float (1 / 1800)%float
                       (map Some later_bins)].
Proof.
  destruct (XLALWriteSFTVector2NamedFile_find_load (U := reference_SFTutils) (fun _ => true)
              (fun _ => None) (disk_files two_SFT_disk) two_SFT_disk [sample_SFT; later_SFT]
              None "merged.sft" "H1" 10%float (1 / 1800)%float 2 (-1) (-1)
              sample_SFTs_mergeable)
    as (catalog & F & _ & L).
  - repeat constructor.
  - cbn. lia.
  - reflexivity.
  - reflexivity.
  - vm_compute. intuition discriminate.
  - repeat split; try reflexivity. discriminate.
  - reflexivity.
  - reflexivity.
  - vm_compute. intuition discriminate.
  - exists catalog. split; [exact F | exact L].
Defined.

(* ------------------------------------------------------------------ *)
(** ** Checksum validation of written and of damaged files *)

Lemma XLALCheckCRCSFTCatalog_loop_merged {U : SFTutils} (name : string) (f0 deltaF : float)
    (n : Z) (SFTcomment : option string) (fname : string) (fs : FileSystem)
    (image : list byte) (rest : list SFTtype) :
  fs fname = Some image ->
  forall pre,
  Forall (mergeable name f0 deltaF n SFTcomment) rest ->
  image = pre ++ merged_image rest SFTcomment ->
  XLALCheckCRCSFTCatalog_loop fs
    (merged_catalog fname (Z.of_nat (List.length pre)) rest SFTcomment) true
  = (XLAL_SUCCESS, true).
Proof.
  intros FILE_. induction rest as [|s rest IH]; intros pre M Ei; [reflexivity|].
  apply Forall_cons_iff in M as [Ms Mrest].
  pose proof Ms as (_ & _ & _ & _ & ST & _).
  cbn [merged_catalog XLALCheckCRCSFTCatalog_loop desc_version desc_locator Z.eqb].
  unfold fopen_SFTLocator, fopen. cbn [loc_fname loc_offset]. rewrite FILE_.
  unfold fseek_SET. cbn [contents].
  destruct (Z.ltb_spec (Z.of_nat (List.length pre)) 0) as [|_]; [lia|].
  assert (Ei' : image = pre ++ SFT_block s (data_of s) SFTcomment
                            ++ merged_image rest SFTcomment) by exact Ei.
  rewrite Ei' at 1.
  rewrite (has_valid_v2_crc64_block s (data_of s) SFTcomment ST). cbn [Z.eqb negb].
  rewrite <- Nat2Z.inj_add, <- length_app.
  apply IH; [exact Mrest|]. now rewrite <- app_assoc.
Qed.

(** Write, find, validate: every block of a merged file written by
    [XLALWriteSFTVector2NamedFile] passes the checksum validation of
    [XLALCheckCRCSFTCatalog]. *)
Theorem XLALWriteSFTVector2NamedFile_passes_CRC {U : SFTutils} (creatable : string -> bool)
    (fs fs' : FileSystem) (disk : Disk) (sfts : list SFTtype) (SFTcomment : option string)
    (fname name : string) (f0 deltaF : float) (n : Z) :
  Forall (mergeable name f0 deltaF n SFTcomment) sfts ->
  epochs_ascend sfts ->
  (deltaF =? deltaF)%float = true ->
  (f0 =? f0)%float = true ->
  plain_file_name fname ->
  XLALWriteSFTVector2NamedFile creatable fs (Some sfts) (Some fname) SFTcomment = XLAL_OK fs' ->
  disk_files disk = fs' ->
  exists catalog,
    XLALSFTdataFind disk fname None = XLAL_OK catalog /\
    List.length catalog = List.length sfts /\
    XLALCheckCRCSFTCatalog (disk_files disk) catalog = (XLAL_SUCCESS, true).
Proof.
  intros M A NUMd NUMf PLAIN W FS.
  unfold XLALWriteSFTVector2NamedFile in W.
  destruct sfts as [|s0 rest]; [discriminate|].
  destruct (negb (creatable fname)); [discriminate|].
  destruct (write_SFT_blocks (s0 :: rest) [] SFTcomment) as [stream|] eqn:W1; [|discriminate].
  injection W as <-.
  destruct (write_SFT_blocks_inv _ _ _ _ W1) as [-> F]. cbn [app] in *.
  destruct (Forall_inv F) as [Hd Hf].
  destruct (Forall_inv M) as (_ & Fs & Ds & _). rewrite Fs in Hf. rewrite Ds in Hd.
  assert (FILE_ : disk_files disk fname = Some (merged_image (s0 :: rest) SFTcomment)).
  { rewrite FS. unfold store_file. now rewrite String.eqb_refl. }
  exists (merged_catalog fname 0 (s0 :: rest) SFTcomment). split; [|split].
  - apply (XLALSFTdataFind_merged name f0 deltaF n SFTcomment Hd Hf NUMd NUMf fname disk PLAIN
             (s0 :: rest) ltac:(discriminate) M A FILE_).
  - pose proof (f_equal (@List.length _) (merged_catalog_epochs fname SFTcomment (s0 :: rest) 0)) as L.
    now rewrite !length_map in L.
  - unfold XLALCheckCRCSFTCatalog.
    apply (XLALCheckCRCSFTCatalog_loop_merged name f0 deltaF n SFTcomment fname
             (disk_files disk) _ (s0 :: rest) FILE_ [] M eq_refl).
Qed.

Lemma XLALWriteSFTVector2NamedFile_passes_CRC_witness :
  exists catalog,
    XLALSFTdataFind (U := reference_SFTutils) two_SFT_disk "merged.sft" None
    = XLAL_OK catalog /\
    List.length catalog = 2%nat /\
    XLALCheckCRCSFTCatalog (U := reference_SFTutils) (disk_files two_SFT_disk) catalog
    = (XLAL_SUCCESS, true).
Proof.
  apply (XLALWriteSFTVector2NamedFile_passes_CRC (U := reference_SFTutils) (fun _ => true)
           (fun _ => None) (disk_files two_SFT_disk) two_SFT_disk [sample_SFT; later_SFT]
           None "merged.sft" "H1" 10%float (1 / 1800)%float 2 sample_SFTs_mergeable).
  - repeat constructor.
  - reflexivity.
  - reflexivity.
  - repeat split; try reflexivity. discriminate.
  - reflexivity.
  - reflexivity.
Defined.

(** Two files of the same length that agree on their first [N] bytes give
    the same result to a read that ends at or before byte [N]. *)
Lemma fread_agree (c1 c2 : list byte) (N p m : Z) (x : list byte) (f' : FILE) :
  List.length c1 = List.length c2 ->
  firstn (Z.to_nat N) c1 = firstn (Z.to_nat N) c2 ->
  0 <= m -> p + m <= N ->
  fread m (mkFILE c1 p) = (Some x, f') ->
  fread m (mkFILE c2 p) = (Some x, mkFILE c2 (p + m)) /\ f' = mkFILE c1 (p + m).
Proof.
  intros L A Hm Hp. unfold fread, file_length. cbn [fpos contents]. rewrite <- L.
  destruct ((0 <=? p) && (p + m <=? Z.of_nat (List.length c1))) eqn:E; [|discriminate].
  intros [= <- <-]. split; [|reflexivity]. do 2 f_equal.
  apply andb_true_iff in E as [E1 E2]. apply Z.leb_le in E1, E2.
  assert (S : forall c : list byte,
            firstn (Z.to_nat m) (skipn (Z.to_nat p) c)
            = firstn (Z.to_nat m) (skipn (Z.to_nat p) (firstn (Z.to_nat N) c))).
  { intros c. rewrite skipn_firstn_comm, firstn_firstn. f_equal. lia. }
  now rewrite (S c1), (S c2), A.
Qed.

Section SamePrefix.
Context {U : SFTutils}.
Variables (c1 c2 : list byte) (N : Z).
Hypothesis SAME_LENGTH : List.length c1 = List.length c2.
Hypothesis AGREE : firstn (Z.to_nat N) c1 = firstn (Z.to_nat N) c2.

Lemma read_SFTversion_from_fp_agree (p : Z) (r : Z * bool) (f' : FILE) :
  p + 8 <= N ->
  read_SFTversion_from_fp (mkFILE c1 p) = (Some r, f') ->
  read_SFTversion_from_fp (mkFILE c2 p) = (Some r, mkFILE c2 p) /\ f' = mkFILE c1 p.
Proof.
  intros Hp. unfold read_SFTversion_from_fp, ftell. cbn [fpos].
  destruct (p =? -1); [discriminate|].
  destruct (fread 8 (mkFILE c1 p)) as [[ver|] f1] eqn:R; [|discriminate].
  destruct (fread_agree c1 c2 N p 8 ver f1 SAME_LENGTH AGREE ltac:(lia) Hp R) as [-> ->].
  destruct (match_version ver SFT_versions) as [r'|]; [|discriminate].
  unfold fseek_SET. cbn [contents]. destruct (p <? 0); [discriminate|].
  intros [= <- <-]. split; reflexivity.
Qed.

Lemma read_v2_header_from_fp_agree (p : Z) (swap : bool) (r : v2_header) (f' : FILE) :
  fpos f' <= N ->
  read_v2_header_from_fp (mkFILE c1 p) swap = (Some r, f') ->
  read_v2_header_from_fp (mkFILE c2 p) swap = (Some r, mkFILE c2 (fpos f')) /\
  f' = mkFILE c1 (fpos f').
Proof.
  intros Hq H.
  pose proof (read_v2_header_from_fp_Some _ _ _ _ H) as (P & _ & _). cbn [fpos] in P.
  revert H. unfold read_v2_header_from_fp, ftell. cbn [fpos].
  destruct (p =? -1); [discriminate|].
  destruct (fread sizeof_rawheader (mkFILE c1 p)) as [[img|] f1] eqn:R; [|discriminate].
  destruct (fread_agree c1 c2 N p sizeof_rawheader img f1 SAME_LENGTH AGREE
              ltac:(unfold sizeof_rawheader; lia) ltac:(lia) R) as [-> ->].
  set (raw := rawheader_of_bytes swap img).
  destruct (negb (raw_version raw =? 2)%float); [discriminate|].
  destruct (raw_nsamples raw <=? 0); [discriminate|].
  destruct (Z.ltb_spec (raw_comment_length raw) 0) as [|Hc]; [discriminate|].
  destruct (negb (Z.rem (raw_comment_length raw) 8 =? 0)); [discriminate|].
  destruct (negb (XLALIsValidCWDetector (detector_cstring raw))); [discriminate|].
  destruct (raw_comment_length raw =? 0).
  - intros [= <- <-]. cbn [fpos]. split; reflexivity.
  - destruct (fread (raw_comment_length raw) (mkFILE c1 (p + sizeof_rawheader)))
      as [[comm|] f2] eqn:R2; [|discriminate].
    pose proof (fread_Some _ _ _ _ R2) as (_ & P2 & _ & _). cbn [fpos] in P2.
    destruct (negb (is_NUL (last comm NUL))) eqn:E1; [discriminate|].
    destruct (negb (only_NUL_after_end comm)) eqn:E2; [discriminate|].
    intros [= <- <-].
    destruct (fread_agree c1 c2 N (p + sizeof_rawheader) (raw_comment_length raw) comm f2
                SAME_LENGTH AGREE Hc ltac:(lia) R2) as [-> ->].
    rewrite E1, E2. cbn [fpos]. split; reflexivity.
Qed.

End SamePrefix.

Lemma firstn_length_app {A : Type} (a b : list A) : firstn (List.length a) (a ++ b) = a.
Proof. rewrite firstn_app, Nat.sub_diag, firstn_all, firstn_O. apply app_nil_r. Qed.

Lemma crc64_bytes_one_wrong_byte (before after : list byte) (good bad : byte) (crc : Z) :
  0 <= crc < 2 ^ 64 -> good <> bad ->
  crc64_bytes (before ++ good :: after) crc <> crc64_bytes (before ++ bad :: after) crc.
Proof.
  intros Hc Hd E. rewrite !crc64_bytes_app in E. cbn [crc64_bytes fold_left] in E.
  pose proof (crc64_bytes_range before crc Hc) as Hb.
  apply crc64_bytes_injective in E; try (apply crc64_step_range; exact Hb).
  apply crc64_step_separates in E; [|exact Hb]. contradiction.
Qed.

Lemma block_header_crc_range {U : SFTutils} sft data SFTcomment :
  0 <= block_header_crc sft data SFTcomment < 2 ^ 64.
Proof.
  unfold block_header_crc. repeat apply crc64_bytes_range.
  vm_compute. split; [discriminate|reflexivity].
Qed.

Lemma has_valid_v2_crc64_damaged {U : SFTutils} (sft : SFTtype) (data : list COMPLEX8)
    (SFTcomment : option string) (pre post head before after : list byte) (good bad : byte) :
  storable sft data SFTcomment ->
  SFT_block sft data SFTcomment = head ++ payload_bytes data ->
  payload_bytes data = before ++ good :: after ->
  good <> bad ->
  has_valid_v2_crc64
    (Some (mkFILE (pre ++ (head ++ before ++ bad :: after) ++ post)
                  (Z.of_nat (List.length pre)))) = 0.
Proof.
  intros ST Eb Ep Hne.
  pose proof (clen_range _ _ _ ST) as Hcl. pose proof (plen_range _ _ _ ST) as [Hp _].
  pose proof (st_bins _ _ _ ST) as Hbins.
  pose proof (length_SFT_block sft data SFTcomment ST) as Lb.
  pose proof (length_payload_bytes data) as Lp.
  rewrite Eb, length_app, Nat2Z.inj_add, Lp in Lb.
  set (c1 := pre ++ SFT_block sft data SFTcomment ++ post).
  set (c2 := pre ++ (head ++ before ++ bad :: after) ++ post).
  set (N := Z.of_nat (List.length (pre ++ head))).
  assert (E1 : c1 = (pre ++ head) ++ payload_bytes data ++ post).
  { unfold c1. rewrite Eb, <- !app_assoc. reflexivity. }
  assert (E2 : c2 = (pre ++ head) ++ (before ++ bad :: after) ++ post).
  { unfold c2. rewrite <- !app_assoc. reflexivity. }
  assert (SL : List.length c1 = List.length c2).
  { rewrite E1, E2, Ep, !length_app. cbn [List.length]. reflexivity. }
  assert (AG : firstn (Z.to_nat N) c1 = firstn (Z.to_nat N) c2).
  { unfold N. rewrite Nat2Z.id, E1, E2, !firstn_length_app. reflexivity. }
  assert (HN : N = Z.of_nat (List.length pre) + sizeof_rawheader
                   + (strlen (composed_comment sft SFTcomment) + 1
                      + pad_len_of (strlen (composed_comment sft SFTcomment) + 1))).
  { unfold N. rewrite length_app, Nat2Z.inj_add. lia. }
  pose proof (read_SFTversion_from_fp_block sft data SFTcomment ST pre post) as V.
  fold c1 in V.
  apply (read_SFTversion_from_fp_agree c1 c2 N SL AG) in V;
    [|unfold sizeof_rawheader in HN; lia].
  destruct V as [V _].
  pose proof (read_v2_header_from_fp_block sft data SFTcomment ST pre post) as R.
  fold c1 in R.
  apply (read_v2_header_from_fp_agree c1 c2 N SL AG) in R; [|cbn [fpos]; lia].
  destruct R as [R _]. cbn [fpos] in R.
  unfold has_valid_v2_crc64, ftell. cbn [fpos].
  destruct (Z.eqb_spec (Z.of_nat (List.length pre)) (-1)) as [|_]; [lia|].
  rewrite V. cbn [Z.eqb negb]. rewrite R.
  cbn [v2_nsamples v2_header_crc64 v2_ref_crc64].
  rewrite to_UINT4_small by lia.
  rewrite <- HN. unfold N. rewrite E2.
  replace (Z.of_nat (List.length data) * 8)
    with (Z.of_nat (List.length (before ++ bad :: after))).
  2:{ rewrite Z.mul_comm, <- Lp, Ep, !length_app. cbn [List.length]. reflexivity. }
  rewrite crc_block_loop_payload by (rewrite Nat2Z.id; lia).
  unfold block_crc. rewrite Ep.
  destruct (Z.eqb_spec (crc64_bytes (before ++ bad :: after)
                          (block_header_crc sft data SFTcomment))
                       (crc64_bytes (before ++ good :: after)
                          (block_header_crc sft data SFTcomment))) as [E|_];
    [|reflexivity].
  exfalso. symmetry in E. revert E.
  apply crc64_bytes_one_wrong_byte; [apply block_header_crc_range | exact Hne].
Qed.

Lemma split_at_nth {A : Type} (l : list A) (j : nat) (dflt : A) :
  (j < List.length l)%nat -> l = firstn j l ++ nth j l dflt :: skipn (S j) l.
Proof.
  revert j. induction l as [|a l IH]; intros [|j] H; cbn [List.length] in H; try lia.
  - reflexivity.
  - cbn [firstn nth skipn app]. f_equal. apply IH. lia.
Qed.

(** A damaged bin is reported: when one byte of the bins of a written block
    has been replaced by a different byte, [XLALCheckCRCSFTCatalog] of a
    catalog that starts with the descriptor of this block returns
    [XLAL_SUCCESS] with [crc_check] false, whatever follows in the
    catalog. *)
Theorem XLALCheckCRCSFTCatalog_reports_damaged_bins {U : SFTutils} (fs : FileSystem)
    (fname : string) (sft : SFTtype) (data : list COMPLEX8) (SFTcomment : option string)
    (pre post : list byte) (i : nat) (bad : byte) (d : SFTDescriptor) (rest : SFTCatalog) :
  let block := SFT_block sft data SFTcomment in
  storable sft data SFTcomment ->
  (List.length block - 8 * List.length data <= i < List.length block)%nat ->
  nth i block bad <> bad ->
  fs fname = Some (pre ++ (firstn i block ++ bad :: skipn (S i) block) ++ post) ->
  desc_version d = 2 ->
  loc_fname (desc_locator d) = fname ->
  loc_offset (desc_locator d) = Z.of_nat (List.length pre) ->
  XLALCheckCRCSFTCatalog fs (d :: rest) = (XLAL_SUCCESS, false).
Proof.
  intros block ST Hi Hne FILE_ Ev En Eo.
  pose proof (SFT_block_shape sft data SFTcomment ST) as Eb. rewrite app_assoc in Eb.
  fold block in Eb.
  set (head := rawheader_bytes _ ++ _) in Eb.
  pose proof (length_payload_bytes data) as Lp.
  assert (Lh : (List.length block = List.length head + 8 * List.length data)%nat).
  { rewrite Eb, length_app. lia. }
  set (j := (i - List.length head)%nat).
  assert (Hj : (j < List.length (payload_bytes data))%nat) by (unfold j; lia).
  assert (F : firstn i block = head ++ firstn j (payload_bytes data)).
  { rewrite Eb, firstn_app, firstn_all2 by lia. reflexivity. }
  assert (Sk : skipn (S i) block = skipn (S j) (payload_bytes data)).
  { rewrite Eb, skipn_app, skipn_all2 by lia. cbn [app]. f_equal. unfold j. lia. }
  assert (Nn : nth i block bad = nth j (payload_bytes data) bad).
  { rewrite Eb, app_nth2 by lia. reflexivity. }
  rewrite F, Sk in FILE_. rewrite Nn in Hne.
  replace ((head ++ firstn j (payload_bytes data)) ++ bad :: skipn (S j) (payload_bytes data))
    with (head ++ firstn j (payload_bytes data) ++ bad :: skipn (S j) (payload_bytes data))
    in FILE_ by apply app_assoc.
  pose proof (has_valid_v2_crc64_damaged sft data SFTcomment pre post head
                (firstn j (payload_bytes data)) (skipn (S j) (payload_bytes data))
                (nth j (payload_bytes data) bad) bad ST Eb
                (split_at_nth _ j bad Hj) Hne) as V.
  unfold XLALCheckCRCSFTCatalog. cbn [XLALCheckCRCSFTCatalog_loop].
  rewrite Ev. cbn [Z.eqb].
  unfold fopen_SFTLocator, fopen. rewrite En, Eo, FILE_.
  unfold fseek_SET. cbn [contents].
  destruct (Z.ltb_spec (Z.of_nat (List.length pre)) 0) as [|_]; [lia|].
  rewrite V. reflexivity.
Qed.

Lemma XLALCheckCRCSFTCatalog_reports_damaged_bins_witness :
  XLALCheckCRCSFTCatalog (U := reference_SFTutils) (disk_files sample_disk)
    [mkDesc (mkLocator "damaged.sft" 0 0)
            (mkSFT "H1" (mkGPS 1000003600 0) 10%float (1 / 1800)%float None) None 2 2 0]
  = (XLAL_SUCCESS, false).
Proof.
  apply (XLALCheckCRCSFTCatalog_reports_damaged_bins (U := reference_SFTutils)
           (disk_files sample_disk) "damaged.sft" sample_SFT_3 sample_bins None [] [] 71
           x01).
  - constructor; try reflexivity;
      first [ unfold no_NUL; cbn; repeat constructor; discriminate
            | split; reflexivity
            | cbn; lia
            | exact I ].
  - vm_compute. lia.
  - vm_compute. discriminate.
  - vm_compute. reflexivity.
  - reflexivity.
  - reflexivity.
  - reflexivity.
Defined.

(* ------------------------------------------------------------------ *)
(** ** The glob matcher on literal text and on [*suffix] patterns *)

Lemma bytes_eqb_cons (s c : byte) (r p : list byte) :
  bytes_eqb (s :: r) (c :: p) = char_eqb c s && bytes_eqb r p.
Proof.
  unfold bytes_eqb, char_eqb.
  destruct (list_eq_dec Byte.byte_eq_dec (s :: r) (c :: p)) as [E|E].
  - injection E as -> ->. rewrite (byte_dec_lb (eq_refl c)).
    destruct (list_eq_dec Byte.byte_eq_dec p p); [reflexivity|congruence].
  - destruct (Byte.eqb c s) eqn:B; [|reflexivity].
    apply byte_dec_bl in B. subst.
    destruct (list_eq_dec Byte.byte_eq_dec r p); [congruence|reflexivity].
Qed.

Lemma amatch_fuel_literal (lit : list byte) :
  forallb plain_char lit = true ->
  forall (str : list byte) (fuel : nat),
  (List.length lit < fuel)%nat ->
  amatch_fuel fuel str lit = Some (bytes_eqb str lit).
Proof.
  induction lit as [|c p1 IH]; intros L str fuel F; (destruct fuel as [|fuel]; [lia|]);
    cbn [amatch_fuel].
  - destruct str; reflexivity.
  - cbn [forallb] in L. apply andb_true_iff in L as [Lc L1].
    unfold plain_char in Lc. apply negb_true_iff in Lc.
    apply orb_false_iff in Lc as [Lc Eb]. apply orb_false_iff in Lc as [Lc El].
    apply orb_false_iff in Lc as [Es Eq].
    rewrite Es, Eq, El, Eb. cbn [negb].
    destruct str as [|s r]; cbn [andb hd tl]; [reflexivity|].
    rewrite bytes_eqb_cons.
    destruct (char_eqb c s); cbn [negb andb]; [|reflexivity].
    apply IH; [exact L1 | cbn [List.length] in F; lia].
Qed.

(** Does [l] end with [lit]?  (The empty text ends nothing here: the
    matcher is never asked to find it.) *)
Fixpoint ends_with (lit l : list byte) : bool :=
  match l with
  | [] => false
  | _ :: r => bytes_eqb l lit || ends_with lit r
  end.

Lemma ends_with_spec (lit l : list byte) :
  lit <> [] -> (ends_with lit l = true <-> exists a, l = a ++ lit).
Proof.
  intros NE. induction l as [|s r IH]; cbn [ends_with].
  - split; [discriminate|]. intros [a E]. destruct a; destruct lit; cbn in E; congruence.
  - rewrite orb_true_iff, IH, bytes_eqb_eq. split.
    + intros [->|[a ->]]; [now exists [] | now exists (s :: a)].
    + intros [[|x a] E]; cbn [app] in E; [now left|].
      injection E as -> ->. right. now exists a.
Qed.

Lemma ends_with_skip_to_char (d : byte) (lit' str : list byte) :
  ends_with (d :: lit') (skip_to_char d str) = ends_with (d :: lit') str.
Proof.
  induction str as [|s r IH]; [reflexivity|].
  cbn [skip_to_char]. destruct (char_eqb d s) eqn:E; [reflexivity|].
  cbn [ends_with]. rewrite bytes_eqb_cons, E. cbn [andb orb]. exact IH.
Qed.

Lemma amatch_fuel_star_literal (lit str : list byte) (fuel : nat) :
  forallb plain_char lit = true -> lit <> [] ->
  (S (List.length lit) < fuel)%nat ->
  amatch_fuel fuel str (ch_star :: lit) = Some (ends_with lit str).
Proof.
  intros L NE F. destruct fuel as [|fuel]; [lia|].
  destruct lit as [|d lit']; [congruence|].
  pose proof L as L0. cbn [forallb] in L0. apply andb_true_iff in L0 as [Ld _].
  unfold plain_char in Ld. apply negb_true_iff in Ld.
  apply orb_false_iff in Ld as [Ld Eb]. apply orb_false_iff in Ld as [Ld El].
  apply orb_false_iff in Ld as [Es Eq].
  cbn [amatch_fuel]. rewrite (char_eqb_refl ch_star). cbn [negb]. rewrite andb_false_r.
  cbn [skip_stars]. rewrite Es, Eq, El, Eb. cbn [negb andb].
  rewrite <- (ends_with_skip_to_char d lit' str).
  induction (skip_to_char d str) as [|s r IH]; [reflexivity|].
  rewrite amatch_fuel_literal by (assumption || (cbn [List.length] in *; lia)).
  cbn [ends_with]. destruct (bytes_eqb (s :: r) (d :: lit')); [reflexivity|exact IH].
Qed.

Lemma chars_injective (s t : string) : chars s = chars t -> s = t.
Proof. intros E. rewrite <- (cstring_of_chars s), <- (cstring_of_chars t). now rewrite E. Qed.

Lemma string_suffix_chars (s lit : string) :
  (exists a, chars s = a ++ chars lit) <-> (exists a, s = (a ++ lit)%string).
Proof.
  split.
  - intros [a E]. exists (string_of_list_byte a). apply chars_injective.
    rewrite E, chars_append. f_equal. unfold chars.
    now rewrite list_byte_of_string_of_list_byte.
  - intros [a ->]. exists (chars a). apply chars_append.
Qed.

Lemma amatch_literal_text (str lit : string) :
  literal lit -> amatch str lit = bytes_eqb (chars str) (chars lit).
Proof.
  intros L. unfold amatch. now rewrite amatch_fuel_literal by (assumption || lia).
Qed.

Lemma amatch_star_text (str lit : string) :
  literal lit ->
  amatch str ("*" ++ lit)
  = match chars lit with [] => true | _ => ends_with (chars lit) (chars str) end.
Proof.
  intros L. unfold amatch.
  rewrite chars_append. change (chars "*") with [ch_star]. cbn [app List.length].
  unfold literal in L.
  destruct (chars lit) as [|d lit'] eqn:E.
  - cbn [amatch_fuel]. rewrite (char_eqb_refl ch_star). cbn [negb skip_stars].
    now rewrite andb_false_r.
  - now rewrite amatch_fuel_star_literal by (assumption || discriminate || lia).
Qed.

Lemma amatch_star_text_spec (str lit : string) :
  literal lit ->
  (amatch str ("*" ++ lit) = true <-> exists a, str = (a ++ lit)%string).
Proof.
  intros L. rewrite <- string_suffix_chars, (amatch_star_text str lit L).
  destruct (chars lit) as [|d lit'] eqn:E.
  - split; [|reflexivity]. intros _. exists (chars str). now rewrite app_nil_r.
  - apply ends_with_spec. discriminate.
Qed.

(** Text without glob characters matches exactly itself, and the pattern
    [*text] matches exactly the strings that end with [text]. *)
Theorem amatch_text_and_star_suffix (str lit : string) :
  literal lit ->
  (amatch str lit = true <-> str = lit) /\
  (amatch str ("*" ++ lit) = true <-> exists a, str = (a ++ lit)%string).
Proof.
  intros L. split; [|now apply amatch_star_text_spec].
  rewrite (amatch_literal_text str lit L), bytes_eqb_eq.
  split; [apply chars_injective | now intros ->].
Qed.

Lemma amatch_text_and_star_suffix_witness :
  literal ".sft" /\
  (amatch "data.sft" ".sft" = true <-> "data.sft"%string = ".sft"%string) /\
  (amatch "data.sft" ("*" ++ ".sft") = true
   <-> exists a, "data.sft"%string = (a ++ ".sft")%string).
Proof.
  split; [reflexivity|].
  apply (amatch_text_and_star_suffix "data.sft" ".sft"). reflexivity.
Defined.

(* ------------------------------------------------------------------ *)
(** ** Listing a directory by suffix *)

Lemma split_last_absent (c : ascii) (s : string) :
  has_char c s = false -> split_last c s = None.
Proof.
  unfold has_char. induction s as [|a r IH]; [reflexivity|].
  cbn [list_ascii_of_string existsb split_last]. intros H.
  apply orb_false_iff in H as [H1 H2]. rewrite (IH H2).
  rewrite Ascii.eqb_sym in H1. now rewrite H1.
Qed.

Lemma split_last_at (c : ascii) (d r : string) :
  has_char c r = false -> split_last c (d ++ String c r) = Some (d, r).
Proof.
  intros H. induction d as [|a d IH]; cbn [String.append split_last].
  - rewrite (split_last_absent c r H). now rewrite Ascii.eqb_refl.
  - now rewrite IH.
Qed.

Lemma is_pattern_star (d r : string) : is_pattern (d ++ "/" ++ "*" ++ r) = true.
Proof.
  unfold is_pattern. rewrite !chars_append, !existsb_app.
  change (chars "*") with [ch_star]. cbn [existsb]. rewrite (char_eqb_refl ch_star).
  cbn [orb]. now rewrite !orb_true_r.
Qed.

(** [XLALFindFiles] on [dir/*text], for [text] without glob characters and
    without a directory separator: the files returned are exactly the
    entries of the directory [dir] that end with [text], each prefixed
    with [dir/]; the entries [.] and [..] are never returned. *)
Theorem XLALFindFiles_directory_suffix (disk : Disk) (dname lit : string)
    (entries : list string) (f : string) :
  let pattern := (dname ++ "/" ++ "*" ++ lit)%string in
  literal lit ->
  has_char DIR_SEPARATOR lit = false ->
  has_char FILE_SEPARATOR pattern = false ->
  String.prefix LIST_PREFIX pattern = false ->
  disk_readdir disk dname = Some entries ->
  (exists files, XLALFindFiles disk pattern = XLAL_OK files /\ In f files) <->
  (exists e, In e entries /\ f = (dname ++ "/" ++ e)%string /\
             (exists a, e = (a ++ lit)%string) /\ e <> "."%string /\ e <> ".."%string).
Proof.
  intros pattern L Hs Hf Hl Hr.
  assert (E : XLALFindFiles disk pattern
              = finish_filelist
                  (map (fun e => (dname ++ String DIR_SEPARATOR e)%string)
                       (filter (fun e => amatch e ("*" ++ lit)
                                         && negb (String.eqb e ".")
                                         && negb (String.eqb e ".."))
                               entries))).
  { unfold XLALFindFiles. cbn [XLALFindFiles_rec]. rewrite Hf, Hl.
    unfold pattern. rewrite is_pattern_star.
    change ("/" ++ "*" ++ lit)%string with (String DIR_SEPARATOR ("*" ++ lit)).
    rewrite split_last_at.
    2:{ unfold has_char in *. cbn [String.append list_ascii_of_string existsb].
        now rewrite Hs. }
    now rewrite Hr. }
  rewrite E. clear E.
  set (listed := map _ (filter _ entries)).
  assert (M : In f listed <->
              exists e, In e entries /\ f = (dname ++ "/" ++ e)%string /\
                        (exists a, e = (a ++ lit)%string) /\
                        e <> "."%string /\ e <> ".."%string).
  { unfold listed. rewrite in_map_iff. split.
    - intros (e & <- & I). apply filter_In in I as [I C].
      apply andb_true_iff in C as [C C3]. apply andb_true_iff in C as [C1 C2].
      apply negb_true_iff in C2, C3. apply String.eqb_neq in C2, C3.
      exists e. repeat split; try assumption. now apply amatch_star_text_spec.
    - intros (e & I & -> & S & N1 & N2). exists e. split; [reflexivity|].
      apply filter_In. split; [exact I|].
      apply (amatch_star_text_spec e lit L) in S. rewrite S. cbn [andb].
      apply String.eqb_neq in N1, N2. now rewrite N1, N2. }
  rewrite <- M. split.
  - intros (files & F & I). apply finish_filelist_OK in F as (_ & _ & P).
    apply (Permutation_in f (Permutation_sym P) I).
  - intros I. destruct listed as [|x [|y r]] eqn:El; [contradiction| |].
    + exists [x]. split; [reflexivity|exact I].
    + exists (XLALSortStringVector (x :: y :: r)). split; [reflexivity|].
      apply (Permutation_in f (XLALSortStringVector_perm _) I).
Qed.

Lemma XLALFindFiles_directory_suffix_witness :
  literal ".sft" /\
  ((exists files, XLALFindFiles listing_disk "data/*.sft" = XLAL_OK files
                  /\ In "data/a.sft"%string files) <->
   (exists e, In e ["."; ".."; "b.sft"; "notes.txt"; "a.sft"]%string /\
              "data/a.sft"%string = ("data" ++ "/" ++ e)%string /\
              (exists a, e = (a ++ ".sft")%string) /\ e <> "."%string /\ e <> ".."%string)).
Proof.
  split; [reflexivity|].
  apply (XLALFindFiles_directory_suffix listing_disk "data" ".sft"
           ["."; ".."; "b.sft"; "notes.txt"; "a.sft"]%string "data/a.sft");
    reflexivity.
Defined.

(* ------------------------------------------------------------------ *)
(** ** The multi-detector view of a catalog *)

Lemma substring_prefix_idem (n : nat) (s : string) :
  substring 0 n (substring 0 n s) = substring 0 n s.
Proof.
  revert s. induction n as [|n IH]; intros [|a s]; cbn; try reflexivity. now rewrite IH.
Qed.

Lemma of_ifo_key (ifo : string) (d : SFTDescriptor) :
  substring 0 3 ifo = ifo ->
  of_ifo ifo d = true <-> substring 0 3 (sft_name (desc_header d)) = ifo.
Proof.
  intros K. unfold of_ifo, strncmp_equal. rewrite K. apply String.eqb_eq.
Qed.

Lemma filter_none {A : Type} (f : A -> bool) (l : list A) :
  (forall x, In x l -> f x = false) -> filter f l = [].
Proof.
  induction l as [|a l IH]; intros H; [reflexivity|].
  cbn [filter]. rewrite (H a (or_introl eq_refl)). apply IH.
  intros x I. apply H. now right.
Qed.

Section View.
Variable c : list SFTDescriptor.

(** What the loop has stored after the first [k] SFTs of the catalog. *)
Definition located (k : nat) (groups : list (string * list nat)) : Prop :=
  Forall (fun g => substring 0 3 (fst g) = fst g /\ snd g <> [] /\
                   map (fun location => nth location c null_descriptor) (snd g)
                   = filter (of_ifo (fst g)) (firstn k c)) groups /\
  NoDup (map fst groups) /\
  (forall d, In d (firstn k c) ->
             In (substring 0 3 (sft_name (desc_header d))) (map fst groups)).

Lemma firstn_S_nth (k : nat) (d : SFTDescriptor) (rest : list SFTDescriptor) :
  c = firstn k c ++ d :: rest ->
  firstn (S k) c = firstn k c ++ [d] /\ nth k c null_descriptor = d.
Proof.
  intros E.
  assert (L : List.length (firstn k c) = k).
  { pose proof (f_equal (@List.length _) E) as E'.
    rewrite length_app, length_firstn in E'. cbn [List.length] in E'.
    rewrite length_firstn. lia. }
  split.
  - rewrite E at 1. rewrite <- L at 1.
    replace (S (List.length (firstn k c))) with (List.length (firstn k c ++ [d]))
      by (rewrite length_app; cbn; lia).
    change (d :: rest) with ([d] ++ rest). rewrite app_assoc. apply firstn_length_app.
  - rewrite E. rewrite app_nth2 by lia. now rewrite L, Nat.sub_diag.
Qed.

Lemma add_location_spec (name : string) (k : nat) (groups : list (string * list nat)) :
  (exists g1 ifo locs g2,
     groups = g1 ++ (ifo, locs) :: g2 /\ strncmp_equal name ifo 3 = true /\
     add_location name k groups = g1 ++ (ifo, locs ++ [k]) :: g2) \/
  (Forall (fun g => strncmp_equal name (fst g) 3 = false) groups /\
   add_location name k groups = groups ++ [(substring 0 3 name, [k])]).
Proof.
  induction groups as [|[ifo locs] gs IH]; cbn [add_location].
  - right. split; [constructor|reflexivity].
  - destruct (strncmp_equal name ifo 3) eqn:E.
    + left. exists [], ifo, locs, gs. auto.
    + destruct IH as [(g1 & ifo' & locs' & g2 & -> & E' & ->)|[F ->]].
      * left. exists ((ifo, locs) :: g1), ifo', locs', g2. auto.
      * right. split; [now constructor|reflexivity].
Qed.

Lemma add_location_located (k : nat) (d : SFTDescriptor) (rest : list SFTDescriptor)
    (groups : list (string * list nat)) :
  c = firstn k c ++ d :: rest ->
  located k groups ->
  located (S k) (add_location (sft_name (desc_header d)) k groups).
Proof.
  intros E (G & N & A). destruct (firstn_S_nth k d rest E) as [F Nk].
  set (key := substring 0 3 (sft_name (desc_header d))).
  assert (Kd : of_ifo key d = true)
    by (apply of_ifo_key; [apply substring_prefix_idem | reflexivity]).
  (* a group of another name is not changed by [d] *)
  assert (Keep : forall g,
            (substring 0 3 (fst g) = fst g /\ snd g <> [] /\
             map (fun location => nth location c null_descriptor) (snd g)
             = filter (of_ifo (fst g)) (firstn k c)) ->
            fst g <> key ->
            (substring 0 3 (fst g) = fst g /\ snd g <> [] /\
             map (fun location => nth location c null_descriptor) (snd g)
             = filter (of_ifo (fst g)) (firstn (S k) c))).
  { intros g (K & NE & M) Hne. repeat split; try assumption.
    rewrite F, filter_app. cbn [filter].
    destruct (of_ifo (fst g) d) eqn:O; [|now rewrite app_nil_r].
    apply (of_ifo_key _ _ K) in O. now contradiction Hne. }
  destruct (add_location_spec (sft_name (desc_header d)) k groups)
    as [(g1 & ifo & locs & g2 & -> & Ef & ->)|[Fn ->]].
  - (* an IFO met before *)
    rewrite map_app in N. cbn [map fst] in N.
    pose proof (NoDup_remove_2 _ _ _ N) as NI.
    apply Forall_app in G as [G1 G2]. apply Forall_cons_iff in G2 as [(K & NE & M) G2].
    cbn [fst snd] in K, NE, M.
    assert (Ek : ifo = key).
    { fold (of_ifo ifo d) in Ef. now apply (of_ifo_key _ _ K) in Ef. }
    repeat split.
    + apply Forall_app. split; [|constructor].
      * rewrite Forall_forall in *. intros g I. apply Keep; [now apply G1|].
        intros Eg. apply NI, in_or_app. left. rewrite Ek, <- Eg. now apply in_map.
      * cbn [fst snd]. repeat split; [exact K | now destruct locs |].
        rewrite map_app, M, F, filter_app. cbn [map filter]. rewrite Nk, Ek, Kd. reflexivity.
      * rewrite Forall_forall in *. intros g I. apply Keep; [now apply G2|].
        intros Eg. apply NI, in_or_app. right. rewrite Ek, <- Eg. now apply in_map.
    + rewrite map_app. exact N.
    + intros d' I. rewrite F in I. apply in_app_or in I as [I|[<-|[]]].
      * rewrite map_app in *. cbn [map fst] in *. now apply A.
      * fold key. rewrite map_app. cbn [map fst]. rewrite <- Ek.
        apply in_or_app. right. now left.
  - (* a new IFO *)
    assert (NI : ~ In key (map fst groups)).
    { intros I. apply in_map_iff in I as (g & Eg & I).
      rewrite Forall_forall in Fn, G. specialize (Fn g I). destruct (G g I) as (K & _).
      fold (of_ifo (fst g) d) in Fn. rewrite Eg in *. congruence. }
    repeat split.
    + apply Forall_app. split; [|constructor; [|constructor]].
      * rewrite Forall_forall in *. intros g I. apply Keep; [now apply G|].
        intros Eg. apply NI. rewrite <- Eg. now apply in_map.
      * cbn [fst snd]. fold key.
        repeat split; [apply substring_prefix_idem | discriminate |].
        cbn [map]. rewrite Nk, F, filter_app. cbn [filter]. rewrite Kd.
        replace (filter (of_ifo key) (firstn k c)) with (@nil SFTDescriptor); [reflexivity|].
        symmetry. apply filter_none. intros d' I.
        destruct (of_ifo key d') eqn:O; [|reflexivity].
        apply of_ifo_key in O; [|apply substring_prefix_idem].
        exfalso. apply NI. rewrite <- O. now apply A.
    + rewrite map_app. cbn [map fst].
      apply (Permutation_NoDup (Permutation_cons_append _ _)). now constructor.
    + intros d' I. rewrite F in I. rewrite map_app. apply in_or_app.
      apply in_app_or in I as [I|[<-|[]]]; [left; now apply A | right; now left].
Qed.

End View.

Lemma locate_SFTs_located (c rest : list SFTDescriptor) :
  forall (k : nat) (groups : list (string * list nat)),
  c = firstn k c ++ rest ->
  located c k groups ->
  located c (List.length c) (locate_SFTs rest k groups).
Proof.
  induction rest as [|d rest IH]; intros k groups E L; cbn [locate_SFTs].
  - rewrite app_nil_r in E. unfold located in *. rewrite firstn_all. now rewrite <- E in L.
  - destruct (firstn_S_nth c k d rest E) as [F _].
    apply IH; [|now apply (add_location_located c k d rest)].
    rewrite F, <- app_assoc. exact E.
Qed.

Lemma compareDetNameCatalogs_total (a b : SFTCatalog) :
  0 < compareDetNameCatalogs a b -> compareDetNameCatalogs b a <= 0.
Proof.
  unfold compareDetNameCatalogs.
  repeat match goal with |- context [if ?x <? ?y then _ else _] =>
    destruct (Z.ltb_spec x y) end; lia.
Qed.

(** The view of a catalog is its partition by detector: the single-IFO
    catalogs are sorted by the first two characters of their detector
    name, no two of them are filed under the same name, each one is not
    empty and holds exactly the descriptors of the catalog with its name,
    in the order of the catalog, and every descriptor of the catalog is in
    one of them. *)
Theorem XLALGetMultiSFTCatalogView_partition (zero_size_calloc : bool) (c : SFTCatalog)
    (view : list SFTCatalog) :
  XLALGetMultiSFTCatalogView zero_size_calloc (Some c) = XLAL_OK view ->
  Sorted (fun g1 g2 => compareDetNameCatalogs g1 g2 <= 0) view /\
  NoDup (map ifo_of view) /\
  (forall g, In g view -> g <> [] /\ g = filter (of_ifo (ifo_of g)) c) /\
  (forall d, In d c -> exists g, In g view /\ In d g).
Proof.
  intros H.
  assert (E : view = qsort compareDetNameCatalogs
                       (map (fun g => map (fun location => nth location c null_descriptor) (snd g))
                            (locate_SFTs c 0 []))).
  { unfold XLALGetMultiSFTCatalogView in H. destruct c as [|d0 c'].
    - destruct zero_size_calloc; [|discriminate]. now injection H as <-.
    - now injection H as <-. }
  clear H.
  destruct (locate_SFTs_located c c 0 [] eq_refl) as (G & N & A).
  { repeat split; [constructor | constructor | intros d []]. }
  rewrite firstn_all in G, A.
  set (groups := locate_SFTs c 0 []) in *.
  set (realize := fun g : string * list nat =>
                    map (fun location => nth location c null_descriptor) (snd g)) in *.
  assert (R : forall g, In g groups ->
                realize g <> [] /\ ifo_of (realize g) = fst g /\
                realize g = filter (of_ifo (fst g)) c).
  { intros g I. rewrite Forall_forall in G. destruct (G g I) as (K & NE & M).
    fold (realize g) in M.
    assert (NE' : realize g <> []).
    { unfold realize. destruct (snd g); [congruence|discriminate]. }
    repeat split; [exact NE' | | exact M].
    destruct (realize g) as [|d r] eqn:Er; [congruence|].
    unfold ifo_of. cbn [hd].
    assert (I' : In d (filter (of_ifo (fst g)) c)) by (rewrite <- M; now left).
    apply filter_In in I' as [_ O]. now apply (of_ifo_key _ _ K). }
  assert (P : Permutation (map realize groups) view)
    by (rewrite E; apply qsort_perm).
  repeat split.
  - rewrite E. apply (qsort_sorted _ _ compareDetNameCatalogs_total).
  - apply (Permutation_NoDup (Permutation_map ifo_of P)).
    rewrite map_map.
    replace (map (fun x => ifo_of (realize x)) groups) with (map fst groups); [exact N|].
    apply map_ext_in. intros g I. symmetry. apply R, I.
  - apply (Permutation_in g (Permutation_sym P)) in H.
    apply in_map_iff in H as (x & <- & I). apply R, I.
  - apply (Permutation_in g (Permutation_sym P)) in H.
    apply in_map_iff in H as (x & <- & I). destruct (R x I) as (_ & -> & M). exact M.
  - intros d I. pose proof (A d I) as Ik.
    apply in_map_iff in Ik as (x & Ex & Ix).
    exists (realize x). split.
    + apply (Permutation_in _ P). now apply in_map.
    + destruct (R x Ix) as (_ & _ & ->). apply filter_In. split; [exact I|].
      rewrite Forall_forall in G. destruct (G x Ix) as (K & _).
      now apply (of_ifo_key _ _ K).
Qed.

Lemma XLALGetMultiSFTCatalogView_partition_witness :
  exists view,
    XLALGetMultiSFTCatalogView true (Some two_IFO_catalog) = XLAL_OK view /\
    map ifo_of view = ["H1"; "L1"]%string /\
    forall g, In g view -> g <> [] /\ g = filter (of_ifo (ifo_of g)) two_IFO_catalog.
Proof.
  eexists. split; [reflexivity|]. split; [reflexivity|].
  apply (XLALGetMultiSFTCatalogView_partition true two_IFO_catalog _ eq_refl).
Defined.

(* ------------------------------------------------------------------ *)
(** ** Loading the SFTs of several detectors *)

Lemma filter_all {A : Type} (f : A -> bool) (l : list A) :
  (forall x, In x l -> f x = true) -> filter f l = l.
Proof.
  induction l as [|a l IH]; intros H; [reflexivity|].
  cbn [filter]. rewrite (H a (or_introl eq_refl)). f_equal. apply IH.
  intros x I. apply H. now right.
Qed.

(** The view of a catalog of one detector is the catalog itself. *)
Lemma XLALGetMultiSFTCatalogView_one_IFO (z : bool) (d0 : SFTDescriptor) (c : SFTCatalog) :
  (forall d, In d c ->
     substring 0 3 (sft_name (desc_header d)) = substring 0 3 (sft_name (desc_header d0))) ->
  XLALGetMultiSFTCatalogView z (Some (d0 :: c)) = XLAL_OK [d0 :: c].
Proof.
  intros Same. set (key := substring 0 3 (sft_name (desc_header d0))) in *.
  assert (All : forall d, In d (d0 :: c) -> substring 0 3 (sft_name (desc_header d)) = key).
  { intros d [<-|I]; [reflexivity|now apply Same]. }
  unfold XLALGetMultiSFTCatalogView.
  destruct (locate_SFTs_located (d0 :: c) (d0 :: c) 0 [] eq_refl) as (G & N & A).
  { repeat split; [constructor | constructor | intros d []]. }
  rewrite firstn_all in G, A.
  set (groups := locate_SFTs (d0 :: c) 0 []) in *.
  assert (K : forall g, In g groups -> fst g = key /\
                map (fun location => nth location (d0 :: c) null_descriptor) (snd g) = d0 :: c).
  { intros g I. rewrite Forall_forall in G. destruct (G g I) as (Kg & NE & M).
    assert (Ek : fst g = key).
    { destruct (snd g) as [|l ls]; [congruence|]. cbn [map] in M.
      assert (I' : In (nth l (d0 :: c) null_descriptor)
                      (filter (of_ifo (fst g)) (d0 :: c))) by (rewrite <- M; now left).
      apply filter_In in I' as [I1 O]. apply (of_ifo_key _ _ Kg) in O.
      rewrite <- O. now apply All. }
    split; [exact Ek|]. rewrite M. apply filter_all.
    intros d I'. apply (of_ifo_key _ _ Kg). rewrite Ek. now apply All. }
  assert (Eg : exists g, groups = [g]).
  { destruct groups as [|g [|g' gs]].
    - specialize (A d0 (or_introl eq_refl)). contradiction.
    - now exists g.
    - exfalso. cbn [map] in N. apply NoDup_cons_iff in N as [N _]. apply N.
      destruct (K g (or_introl eq_refl)) as [-> _].
      destruct (K g' (or_intror (or_introl eq_refl))) as [<- _]. now left. }
  destruct Eg as [g Eg]. rewrite Eg in *. cbn [map qsort fold_right qsort_insert].
  destruct (K g (or_introl eq_refl)) as [_ ->]. reflexivity.
Qed.

(** For a catalog of one detector [XLALLoadMultiSFTs] does what
    [XLALLoadSFTs] does: it returns the one vector that [XLALLoadSFTs]
    returns for the catalog, and fails (with [XLAL_EFUNC]) exactly when
    [XLALLoadSFTs] fails. *)
Theorem XLALLoadMultiSFTs_one_IFO {U : SFTutils} (z : bool) (fs : FileSystem)
    (d0 : SFTDescriptor) (c : SFTCatalog) (fMin fMax : float) :
  (forall d, In d c ->
     substring 0 3 (sft_name (desc_header d)) = substring 0 3 (sft_name (desc_header d0))) ->
  XLALLoadMultiSFTs z fs (Some (d0 :: c)) fMin fMax
  = match XLALLoadSFTs fs (d0 :: c) fMin fMax with
    | Loaded sfts => XLAL_OK [sfts]
    | Load_failed _ _ => XLAL_ERROR XLAL_EFUNC
    end.
Proof.
  intros Same. unfold XLALLoadMultiSFTs.
  pose proof (XLALGetMultiSFTCatalogView_one_IFO z d0 c Same) as V.
  match goal with |- context [XLALGetMultiSFTCatalogView ?a ?b] =>
    replace (XLALGetMultiSFTCatalogView a b) with (@XLAL_OK (list SFTCatalog) [d0 :: c])
      by (symmetry; exact V) end.
  unfold XLALLoadMultiSFTsFromView. cbn [load_views].
  destruct (XLALLoadSFTs fs (d0 :: c) fMin fMax); reflexivity.
Qed.

Lemma XLALLoadMultiSFTs_one_IFO_witness :
  XLALLoadMultiSFTs (U := reference_SFTutils) true (disk_files sample_disk)
                    (Some sample_catalog) (-1) (-1)
  = match XLALLoadSFTs (U := reference_SFTutils) (disk_files sample_disk) sample_catalog
                       (-1) (-1) with
    | Loaded sfts => XLAL_OK [sfts]
    | Load_failed _ _ => XLAL_ERROR XLAL_EFUNC
    end.
Proof.
  apply (XLALLoadMultiSFTs_one_IFO (U := reference_SFTutils) true (disk_files sample_disk)
           (hd null_descriptor sample_catalog) (tl sample_catalog) (-1) (-1)).
  intros d I. cbn [sample_catalog tl In] in I.
  repeat (destruct I as [<-|I]; [reflexivity|]). contradiction.
Defined.

(* ------------------------------------------------------------------ *)
(** ** Files of the other byte order *)

Ltac bytes_48 img H :=
  do 48 (destruct img as [|? img]; [discriminate H|]);
  destruct img; [|discriminate H].

Lemma rawheader_of_bytes_other_endian (img : list byte) :
  List.length img = 48%nat ->
  rawheader_of_bytes true (other_endian_header img) = rawheader_of_bytes false img.
Proof. intros H. bytes_48 img H. reflexivity. Qed.

Lemma zero_crc_field_other_endian (img : list byte) :
  List.length img = 48%nat ->
  zero_crc_field (other_endian_header img) = other_endian_header (zero_crc_field img).
Proof. intros H. bytes_48 img H. reflexivity. Qed.

Lemma length_other_endian_header (img : list byte) :
  List.length img = 48%nat -> List.length (other_endian_header img) = 48%nat.
Proof. intros H. bytes_48 img H. reflexivity. Qed.

Lemma other_endian_header_version (img : list byte) :
  List.length img = 48%nat ->
  other_endian_header img = rev (field 0 8 img) ++ skipn 8 (other_endian_header img).
Proof. intros H. bytes_48 img H. reflexivity. Qed.

Lemma length_other_endian_bins (d : list COMPLEX8) :
  Z.of_nat (List.length (other_endian_bins d)) = 8 * Z.of_nat (List.length d).
Proof.
  unfold other_endian_bins. induction d as [|c d IH]; [reflexivity|].
  cbn [flat_map]. rewrite !length_app, !length_rev, !length_le_bytes.
  cbn [List.length]. lia.
Qed.

Lemma other_endian_bins_app (d1 d2 : list COMPLEX8) :
  other_endian_bins (d1 ++ d2) = other_endian_bins d1 ++ other_endian_bins d2.
Proof. unfold other_endian_bins. apply flat_map_app. Qed.

Lemma bins_of_bytes_other_endian (d : list COMPLEX8) :
  Forall COMPLEX8_in_range d ->
  bins_of_bytes true (List.length d) (other_endian_bins d) = d.
Proof.
  induction 1 as [|c d Hc _ IH]; [reflexivity|].
  cbn [List.length bins_of_bytes]. unfold other_endian_bins. cbn [flat_map].
  fold (other_endian_bins d).
  set (r := le_bytes 4 (re_bits c)). set (i := le_bytes 4 (im_bits c)).
  assert (Lr : List.length (rev r) = 4%nat) by (unfold r; now rewrite length_rev, length_le_bytes).
  assert (Li : List.length (rev i) = 4%nat) by (unfold i; now rewrite length_rev, length_le_bytes).
  assert (L : List.length (rev r ++ rev i) = 8%nat) by (rewrite length_app; lia).
  rewrite firstn_app, L. change (8 - 8)%nat with 0%nat. rewrite firstn_O, app_nil_r.
  rewrite (firstn_all2 (n := 8)) by lia.
  rewrite skipn_app, L. change (8 - 8)%nat with 0%nat.
  rewrite skipn_O, (skipn_all2 (n := 8)) by lia. cbn [app].
  rewrite IH. f_equal.
  unfold COMPLEX8_of_bytes.
  rewrite firstn_app, Lr. change (4 - 4)%nat with 0%nat. rewrite firstn_O, app_nil_r.
  rewrite (firstn_all2 (n := 4)) by lia.
  rewrite skipn_app, Lr. change (4 - 4)%nat with 0%nat.
  rewrite skipn_O, (skipn_all2 (n := 4)) by lia. cbn [app].
  rewrite (firstn_all2 (n := 4)) by lia.
  unfold endian_swap. rewrite !rev_involutive. unfold r, i.
  rewrite !le_value_le_bytes. change (256 ^ Z.of_nat 4) with (2 ^ 32).
  destruct Hc as [Hr Hi]. rewrite !Z.mod_small by assumption. now destruct c.
Qed.

Lemma fread_other_endian_middle (A post : list byte) (d : list COMPLEX8) (off m : Z) :
  0 <= off -> 0 <= m -> off + m <= Z.of_nat (List.length d) ->
  fread (8 * m) (mkFILE (A ++ other_endian_bins d ++ post) (Z.of_nat (List.length A) + 8 * off))
  = (Some (other_endian_bins (firstn (Z.to_nat m) (skipn (Z.to_nat off) d))),
     mkFILE (A ++ other_endian_bins d ++ post) (Z.of_nat (List.length A) + 8 * off + 8 * m)).
Proof.
  intros Ho Hm Hl.
  set (d1 := firstn (Z.to_nat off) d).
  set (d2 := firstn (Z.to_nat m) (skipn (Z.to_nat off) d)).
  set (d3 := skipn (Z.to_nat m) (skipn (Z.to_nat off) d)).
  assert (Ed : d = d1 ++ d2 ++ d3).
  { unfold d1, d2, d3. now rewrite !firstn_skipn. }
  assert (L1 : Z.of_nat (List.length d1) = off).
  { unfold d1. rewrite length_firstn. lia. }
  assert (L2 : Z.of_nat (List.length d2) = m).
  { unfold d2. rewrite length_firstn, length_skipn. lia. }
  assert (Ei : A ++ other_endian_bins d ++ post
               = (A ++ other_endian_bins d1) ++ other_endian_bins d2
                 ++ (other_endian_bins d3 ++ post)).
  { rewrite Ed at 1. rewrite !other_endian_bins_app, <- !app_assoc. reflexivity. }
  rewrite Ei.
  replace (Z.of_nat (List.length A) + 8 * off)
    with (Z.of_nat (List.length (A ++ other_endian_bins d1)))
    by (rewrite length_app, Nat2Z.inj_add, length_other_endian_bins; lia).
  rewrite fread_middle by (rewrite length_other_endian_bins; lia).
  f_equal. f_equal.
  rewrite !length_app, !Nat2Z.inj_add, !length_other_endian_bins. lia.
Qed.

(** The fields of a raw header other than its checksum do not depend on
    the checksum stored in it. *)
Lemma set_crc64_other_fields (h : SFT_header_v2_t) (c1 c2 : Z) :
  detector_cstring (set_crc64 h c1) = detector_cstring (set_crc64 h c2) /\
  raw_detector (set_crc64 h c1) = raw_detector (set_crc64 h c2) /\
  raw_version (set_crc64 h c1) = raw_version (set_crc64 h c2) /\
  raw_nsamples (set_crc64 h c1) = raw_nsamples (set_crc64 h c2) /\
  raw_comment_length (set_crc64 h c1) = raw_comment_length (set_crc64 h c2) /\
  raw_gps_sec (set_crc64 h c1) = raw_gps_sec (set_crc64 h c2) /\
  raw_gps_nsec (set_crc64 h c1) = raw_gps_nsec (set_crc64 h c2) /\
  raw_tbase (set_crc64 h c1) = raw_tbase (set_crc64 h c2) /\
  raw_first_frequency_index (set_crc64 h c1) = raw_first_frequency_index (set_crc64 h c2) /\
  raw_crc64 (set_crc64 h c1) = c1.
Proof. repeat split; reflexivity. Qed.

Section OtherEndian.
Context {U : SFTutils}.
Variables (sft : SFTtype) (data : list COMPLEX8) (SFTcomment : option string).
Hypothesis ST : storable sft data SFTcomment.

Let cm := composed_comment sft SFTcomment.
Let clen := strlen cm + 1.
Let plen := pad_len_of clen.
Let H0 := fill_rawheader sft (Z.of_nat (List.length data)) clen plen.

(** The checksum of such a block after header, comment and padding, and
    after the payload. *)
Definition other_endian_header_crc : Z :=
  crc64_bytes (repeat NUL (Z.to_nat plen))
    (crc64_bytes (chars0 cm)
       (crc64_bytes (other_endian_header (rawheader_bytes H0)) ALL_ONES)).

Definition other_endian_crc : Z :=
  crc64_bytes (other_endian_bins data) other_endian_header_crc.

Lemma other_endian_crc_range : 0 <= other_endian_crc < 2 ^ 64.
Proof.
  unfold other_endian_crc, other_endian_header_crc. repeat apply crc64_bytes_range.
  vm_compute. split; [discriminate|reflexivity].
Qed.

Lemma SFT_block_other_endian_shape :
  SFT_block_other_endian sft data SFTcomment =
  other_endian_header (rawheader_bytes (set_crc64 H0 other_endian_crc))
    ++ (chars0 cm ++ repeat NUL (Z.to_nat plen))
    ++ other_endian_bins data.
Proof.
  unfold SFT_block_other_endian.
  rewrite (comment_len_of_composed sft data SFTcomment ST). fold cm clen plen H0.
  pose proof (clen_range sft data SFTcomment ST) as Hc.
  pose proof (plen_range sft data SFTcomment ST) as [Hp _].
  fold cm clen plen in Hc, Hp.
  pose proof (st_bins _ _ _ ST) as Hb.
  assert (E1 : calc_crc64 (Some (other_endian_header (rawheader_bytes H0)))
                          sizeof_rawheader ALL_ONES
               = crc64_bytes (other_endian_header (rawheader_bytes H0)) ALL_ONES).
  { rewrite <- calc_crc64_whole.
    now rewrite length_other_endian_header by apply length_rawheader_bytes. }
  assert (E2 : forall crc, calc_crc64 (Some (chars0 cm)) clen crc = crc64_bytes (chars0 cm) crc).
  { intro crc. rewrite <- calc_crc64_whole. now rewrite length_chars0. }
  assert (E3 : forall crc, calc_crc64 (Some (repeat NUL 7)) plen crc
                           = crc64_bytes (repeat NUL (Z.to_nat plen)) crc).
  { intro crc. unfold calc_crc64. destruct (Z.eqb_spec plen 0) as [Ez|Ez].
    - rewrite Ez. reflexivity.
    - rewrite firstn_repeat by lia. reflexivity. }
  assert (E4 : forall crc, calc_crc64 (Some (other_endian_bins data))
                             (to_UINT4 (Z.of_nat (List.length data) * 8)) crc
                           = crc64_bytes (other_endian_bins data) crc).
  { intro crc. rewrite to_UINT4_small by lia. rewrite <- calc_crc64_whole.
    rewrite length_other_endian_bins. f_equal. lia. }
  rewrite E1, E2, E3, E4. fold other_endian_header_crc. fold other_endian_crc.
  rewrite <- app_assoc. f_equal. f_equal.
  - apply firstn_all2.
    apply Nat2Z.inj_le. rewrite length_chars0. fold cm clen. rewrite Z2Nat.id; lia.
  - f_equal. apply firstn_repeat. lia.
Qed.

Lemma other_endian_in_range : raw_in_range (set_crc64 H0 other_endian_crc).
Proof.
  pose proof (clen_range sft data SFTcomment ST) as Hc.
  pose proof (plen_range sft data SFTcomment ST) as [Hp _].
  fold cm clen plen in Hc, Hp.
  pose proof (st_bins _ _ _ ST). pose proof (st_seconds _ _ _ ST).
  pose proof (st_nanoseconds _ _ _ ST). pose proof other_endian_crc_range.
  unfold raw_in_range, set_crc64, H0, fill_rawheader.
  cbn [raw_gps_sec raw_gps_nsec raw_first_frequency_index raw_nsamples raw_crc64
       raw_detector raw_padding raw_comment_length].
  repeat split; try apply to_INT4_range; try lia.
Qed.

Variables pre post : list byte.

Let image := pre ++ SFT_block_other_endian sft data SFTcomment ++ post.
Let start := Z.of_nat (List.length pre).
Let hdr := other_endian_header (rawheader_bytes (set_crc64 H0 other_endian_crc)).
Let comment := chars0 cm ++ repeat NUL (Z.to_nat plen).

Lemma length_hdr : List.length hdr = 48%nat.
Proof. apply length_other_endian_header, length_rawheader_bytes. Qed.

Lemma length_comment : Z.of_nat (List.length comment) = clen + plen.
Proof.
  pose proof (plen_range sft data SFTcomment ST) as [Hp _]. fold cm clen plen in Hp.
  unfold comment. rewrite length_app, repeat_length, Nat2Z.inj_add, length_chars0.
  fold cm clen. rewrite Z2Nat.id by lia. reflexivity.
Qed.

Lemma other_endian_image_header :
  image = pre ++ hdr ++ (comment ++ other_endian_bins data ++ post).
Proof.
  unfold image, hdr, comment. rewrite SFT_block_other_endian_shape.
  now rewrite <- !app_assoc.
Qed.

Lemma other_endian_image_comment :
  image = (pre ++ hdr) ++ comment ++ (other_endian_bins data ++ post).
Proof. rewrite other_endian_image_header. unfold comment. now rewrite <- !app_assoc. Qed.

Lemma other_endian_image_payload :
  image = (pre ++ hdr ++ comment) ++ other_endian_bins data ++ post.
Proof. rewrite other_endian_image_header. unfold comment. now rewrite <- !app_assoc. Qed.

Lemma other_endian_image_version :
  image = pre ++ rev (le_bytes 8 (REAL8_to_bits 2%float))
              ++ (skipn 8 hdr ++ comment ++ other_endian_bins data ++ post).
Proof.
  rewrite other_endian_image_header. unfold hdr at 1.
  rewrite other_endian_header_version by apply length_rawheader_bytes.
  destruct (rawheader_bytes_layout (set_crc64 H0 other_endian_crc)) as (E & _).
  rewrite E. fold hdr. cbn [set_crc64 raw_version H0 fill_rawheader].
  now rewrite <- !app_assoc.
Qed.

Lemma read_SFTversion_from_fp_other_endian :
  read_SFTversion_from_fp (mkFILE image start) = (Some (2, true), mkFILE image start).
Proof.
  unfold read_SFTversion_from_fp, ftell. cbn [fpos].
  destruct (Z.eqb_spec start (-1)) as [E|_]; [unfold start in E; lia|].
  rewrite other_endian_image_version at 1. unfold start at 1.
  rewrite fread_middle by now rewrite length_rev, length_le_bytes.
  replace (match_version (rev (le_bytes 8 (REAL8_to_bits 2))) SFT_versions)
    with (Some (2, true)) by (vm_compute; reflexivity).
  unfold fseek_SET. cbn [contents].
  destruct (Z.ltb_spec start 0) as [E|_]; [unfold start in E; lia|].
  now rewrite <- other_endian_image_version.
Qed.

Lemma read_v2_header_from_fp_other_endian :
  read_v2_header_from_fp (mkFILE image start) true =
  (Some (mkV2 (decoded_header sft) (Z.of_nat (List.length data)) other_endian_header_crc
              other_endian_crc (Some comment)),
   mkFILE image (start + sizeof_rawheader + (clen + plen))).
Proof.
  pose proof (clen_range sft data SFTcomment ST) as Hc.
  pose proof (plen_range sft data SFTcomment ST) as [Hp Hp8].
  fold cm clen plen in Hc, Hp, Hp8.
  pose proof (st_bins _ _ _ ST) as Hb.
  pose proof (written_fields sft data SFTcomment ST []) as W. cbv zeta in W.
  destruct W as (Fv & Fs & Fn & Ft & Ff & Fm & _ & Fl).
  fold cm clen plen H0 in Fv, Fs, Fn, Ft, Ff, Fm, Fl.
  pose proof (detector_cstring_block sft data SFTcomment ST) as Dc.
  pose proof (decoded_name_block sft data SFTcomment ST) as Dn.
  fold cm clen plen H0 in Dc, Dn.
  unfold read_v2_header_from_fp, ftell. cbn [fpos].
  destruct (Z.eqb_spec start (-1)) as [E|_]; [unfold start in E; lia|].
  rewrite other_endian_image_header at 1. unfold start at 1.
  rewrite fread_middle by now rewrite length_hdr.
  change (zero_crc_field hdr)
    with (zero_crc_field (other_endian_header (rawheader_bytes (set_crc64 H0 other_endian_crc)))).
  change (rawheader_of_bytes true hdr)
    with (rawheader_of_bytes true
            (other_endian_header (rawheader_bytes (set_crc64 H0 other_endian_crc)))).
  rewrite zero_crc_field_other_endian by apply length_rawheader_bytes.
  rewrite zero_crc_field_set_crc64 by reflexivity.
  rewrite rawheader_of_bytes_other_endian by apply length_rawheader_bytes.
  rewrite rawheader_of_bytes_bytes by apply other_endian_in_range.
  destruct (set_crc64_other_fields H0 other_endian_crc (block_crc sft data SFTcomment))
    as (Gc & Gd & Gv & Gm & Gl & Gs & Gn & Gt & Gf & Gr).
  rewrite Gc, Gd, Dc, Dn. rewrite (st_detector _ _ _ ST).
  rewrite Gv, Gm, Gl, Gs, Gn, Gt, Gf, Gr, Fv.
  rewrite Fs, Fn, Ft, Ff, Fm, Fl.
  replace (negb (2 =? 2)%float) with false by reflexivity.
  destruct (Z.leb_spec (Z.of_nat (List.length data)) 0) as [E|_]; [lia|].
  destruct (Z.ltb_spec (clen + plen) 0) as [E|_]; [lia|].
  rewrite Z.rem_mod_nonneg by lia. rewrite Hp8. cbn [Z.eqb negb].
  destruct (Z.eqb_spec (clen + plen) 0) as [E|_]; [lia|].
  rewrite <- other_endian_image_header.
  rewrite other_endian_image_comment at 1.
  rewrite fread_middle by (now rewrite length_comment).
  rewrite <- other_endian_image_comment.
  assert (Ecm : comment = chars cm ++ NUL :: repeat NUL (Z.to_nat plen)).
  { unfold comment, chars0. now rewrite <- app_assoc. }
  assert (El : last comment NUL = NUL) by (rewrite Ecm; apply last_chars0).
  assert (Eo : only_NUL_after_end comment = true)
    by (rewrite Ecm; apply only_NUL_after_end_chars0, (no_NUL_composed sft data SFTcomment ST)).
  assert (Eu : until_NUL comment = chars cm)
    by (rewrite Ecm; apply until_NUL_chars0, (no_NUL_composed sft data SFTcomment ST)).
  rewrite El, Eo, Eu. replace (negb (is_NUL NUL)) with false by reflexivity. cbn [negb].
  rewrite length_chars. fold (strlen cm). fold clen.
  rewrite (to_UINT4_small clen) by lia. fold plen.
  assert (E2 : forall crc, calc_crc64 (Some comment) clen crc = crc64_bytes (chars0 cm) crc).
  { intro crc. unfold clen, comment. rewrite <- length_chars0. apply calc_crc64_prefix. }
  assert (E3 : forall crc, calc_crc64 (Some (repeat NUL 7)) plen crc
                           = crc64_bytes (repeat NUL (Z.to_nat plen)) crc).
  { intro crc. unfold calc_crc64. destruct (Z.eqb_spec plen 0) as [Ez|Ez].
    - rewrite Ez. reflexivity.
    - rewrite firstn_repeat by lia. reflexivity. }
  rewrite E2, E3.
  assert (E1 : calc_crc64 (Some (other_endian_header (rawheader_bytes H0)))
                          sizeof_rawheader ALL_ONES
               = crc64_bytes (other_endian_header (rawheader_bytes H0)) ALL_ONES).
  { rewrite <- calc_crc64_whole.
    now rewrite length_other_endian_header by apply length_rawheader_bytes. }
  rewrite E1. fold other_endian_header_crc.
  rewrite (to_UINT4_small (Z.of_nat (List.length data))) by lia.
  unfold decoded_header. f_equal.
  - destruct (sft_epoch sft). reflexivity.
  - f_equal. rewrite !length_app, length_hdr. rewrite Nat2Z.inj_add, Nat2Z.inj_add, length_comment.
    unfold start, sizeof_rawheader. lia.
Qed.

Lemma has_valid_v2_crc64_other_endian :
  has_valid_v2_crc64 (Some (mkFILE image start)) = 1.
Proof.
  pose proof (st_bins _ _ _ ST) as Hb.
  unfold has_valid_v2_crc64, ftell. cbn [fpos].
  destruct (Z.eqb_spec start (-1)) as [E|_]; [unfold start in E; lia|].
  rewrite read_SFTversion_from_fp_other_endian. cbn [Z.eqb negb].
  rewrite read_v2_header_from_fp_other_endian.
  cbn [v2_nsamples v2_header_crc64 v2_ref_crc64].
  rewrite to_UINT4_small by lia.
  replace (Z.of_nat (List.length data) * 8)
    with (Z.of_nat (List.length (other_endian_bins data)))
    by (rewrite length_other_endian_bins; lia).
  rewrite other_endian_image_payload.
  replace (start + sizeof_rawheader + (clen + plen))
    with (Z.of_nat (List.length (pre ++ hdr ++ comment))).
  2:{ rewrite !length_app, length_hdr, !Nat2Z.inj_add, length_comment.
      unfold start, sizeof_rawheader. lia. }
  rewrite crc_block_loop_payload by (rewrite Nat2Z.id; lia).
  fold other_endian_crc. now rewrite Z.eqb_refl.
Qed.

Hypothesis GRID : on_bin_grid sft.
Hypothesis Hd : (sft_deltaF sft <=? 0)%float = false.
Hypothesis Hf : (sft_f0 sft <? 0)%float = false.

Lemma read_sft_header_from_fp_other_endian (want_comment : bool) :
  read_sft_header_from_fp (mkFILE image start) want_comment
  = (Some (mkHdr (mkSFT (sft_name sft) (sft_epoch sft) (sft_f0 sft) (sft_deltaF sft) None)
                 2 other_endian_crc true
                 (if want_comment then Some comment else None)
                 (Z.of_nat (List.length data))),
     mkFILE image (start + sizeof_rawheader + (clen + plen))).
Proof.
  pose proof (st_seconds _ _ _ ST). pose proof (st_nanoseconds _ _ _ ST).
  unfold read_sft_header_from_fp, ftell. cbn [fpos].
  destruct (Z.eqb_spec start (-1)) as [E|_]; [unfold start in E; lia|].
  rewrite read_SFTversion_from_fp_other_endian. cbn [Z.eqb].
  rewrite read_v2_header_from_fp_other_endian.
  cbn [v2_header_ v2_nsamples v2_ref_crc64 v2_SFTcomment].
  rewrite (decoded_header_on_grid sft GRID).
  cbn [sft_epoch sft_deltaF sft_f0]. rewrite Hd, Hf.
  destruct (Z.ltb_spec (gpsSeconds (sft_epoch sft)) 0); [lia|].
  destruct (Z.ltb_spec (gpsNanoSeconds (sft_epoch sft)) 0); [lia|].
  destruct (Z.leb_spec 1000000000 (gpsNanoSeconds (sft_epoch sft))); [lia|].
  reflexivity.
Qed.

Hypothesis RNG : Forall COMPLEX8_in_range data.
Let n := Z.of_nat (List.length data).
Let k := lround (sft_f0 sft / sft_deltaF sft)%float.
Hypothesis Hk : 0 <= k /\ k + n <= 2 ^ 32.

Lemma read_sft_bins_from_fp_other_endian (ret : SFTtype) (len a b : Z) :
  a <= b -> Z.max a k <= Z.min b (k + n - 1) ->
  Z.min b (k + n - 1) - Z.max a k + 1 <= len ->
  fst (read_sft_bins_from_fp ret len a b (mkFILE image start))
  = mkBinsRead (Z.min b (k + n - 1)) (Z.max a k)
               (mkSFT (sft_name sft) (sft_epoch sft)
                      (1 * REAL8_of_Z (Z.max a k) * sft_deltaF sft)%float (sft_deltaF sft) None)
               (firstn (Z.to_nat (Z.min b (k + n - 1) - Z.max a k + 1))
                       (skipn (Z.to_nat (Z.max a k - k)) data)).
Proof.
  intros Hab Hc Hlen.
  pose proof (st_bins _ _ _ ST) as Hb. fold n in Hb.
  pose proof (clen_range _ _ _ ST) as Hcl. pose proof (plen_range _ _ _ ST) as [Hp _].
  fold cm clen plen in Hcl, Hp.
  unfold read_sft_bins_from_fp.
  destruct (Z.ltb_spec b a) as [|_]; [lia|].
  rewrite read_sft_header_from_fp_other_endian.
  cbn [hdr_header hdr_numBins hdr_swapEndian sft_f0 sft_deltaF sft_name sft_epoch sft_data].
  fold k n.
  rewrite (to_UINT4_small k) by lia.
  rewrite (to_UINT4_small (k + n - 1)) by lia.
  replace (if a <? k then k else a) with (Z.max a k)
    by (destruct (Z.ltb_spec a k); lia).
  replace (if k + n - 1 <? b then k + n - 1 else b) with (Z.min b (k + n - 1))
    by (destruct (Z.ltb_spec (k + n - 1) b); lia).
  set (a' := Z.max a k) in *. set (b' := Z.min b (k + n - 1)) in *.
  assert (Ha' : k <= a') by (unfold a'; lia).
  assert (Hb' : b' <= k + n - 1) by (unfold b'; lia).
  destruct (Z.ltb_spec b' a') as [|_]; [lia|].
  rewrite (to_INT4_small (a' - k)) by lia.
  rewrite (to_UINT4_small (b' - a' + 1)) by lia.
  destruct (Z.ltb_spec len (b' - a' + 1)) as [|_]; [lia|].
  unfold fseek_CUR, fseek_SET. cbn [fpos contents].
  match goal with |- context [if ?p <? 0 then _ else _] =>
    destruct (Z.ltb_spec p 0) as [|_]; [unfold start, sizeof_rawheader in *; lia|] end.
  rewrite other_endian_image_payload.
  match goal with |- context [fread _ (mkFILE (?A ++ _ ++ _) ?p)] =>
    replace p with (Z.of_nat (List.length A) + 8 * (a' - k)) end.
  2:{ rewrite !length_app, length_hdr, !Nat2Z.inj_add, length_comment.
      unfold start, sizeof_rawheader. lia. }
  rewrite fread_other_endian_middle by (fold n; lia).
  cbn [fst br_lastBinRead].
  f_equal.
  set (sub := firstn (Z.to_nat (b' - a' + 1)) (skipn (Z.to_nat (a' - k)) data)).
  assert (Ls : Z.to_nat (b' - a' + 1) = List.length sub).
  { unfold sub. rewrite length_firstn, length_skipn. fold n. lia. }
  rewrite Ls. apply bins_of_bytes_other_endian.
  unfold sub. apply Forall_sublist, RNG.
Qed.

End OtherEndian.

(** A block of the other byte order is read like the native one: the
    version detection reports that the bytes must be swapped; the header
    decodes to the detector, epoch, [f0], [deltaF], version 2 and sample
    count of the SFT and to the composed comment; the checksum stored by
    the writer of the other byte order validates; and the bins read are
    the bins of the SFT. *)
Theorem other_endian_SFT_is_read_alike {U : SFTutils} (sft : SFTtype) (data : list COMPLEX8)
    (SFTcomment : option string) (pre post : list byte) (ret : SFTtype) :
  let n := Z.of_nat (List.length data) in
  let k := lround (sft_f0 sft / sft_deltaF sft)%float in
  let other := mkFILE (pre ++ SFT_block_other_endian sft data SFTcomment ++ post)
                      (Z.of_nat (List.length pre)) in
  storable sft data SFTcomment ->
  on_bin_grid sft ->
  Forall COMPLEX8_in_range data ->
  (sft_deltaF sft <=? 0)%float = false ->
  (sft_f0 sft <? 0)%float = false ->
  0 <= k /\ k + n <= 2 ^ 32 ->
  (exists h fp',
     read_sft_header_from_fp other true = (Some h, fp') /\
     hdr_header h = mkSFT (sft_name sft) (sft_epoch sft) (sft_f0 sft) (sft_deltaF sft) None /\
     hdr_version h = 2 /\ hdr_numBins h = n /\ hdr_swapEndian h = true /\
     option_map cstring_of_buffer (hdr_SFTcomment h) = Some (composed_comment sft SFTcomment)) /\
  has_valid_v2_crc64 (Some other) = 1 /\
  fst (read_sft_bins_from_fp ret n k (k + n - 1) other)
  = mkBinsRead (k + n - 1) k
               (mkSFT (sft_name sft) (sft_epoch sft)
                      (1 * REAL8_of_Z k * sft_deltaF sft)%float (sft_deltaF sft) None)
               data.
Proof.
  intros n k other ST GRID RNG Hd Hf Hk.
  pose proof (st_bins _ _ _ ST) as Hb. fold n in Hb.
  split; [|split].
  - eexists. eexists.
    split; [apply (read_sft_header_from_fp_other_endian sft data SFTcomment ST pre post
                     GRID Hd Hf true)|].
    cbn [hdr_header hdr_version hdr_numBins hdr_swapEndian hdr_SFTcomment option_map].
    repeat split. f_equal. unfold chars0. rewrite <- app_assoc. cbn [app].
    apply cstring_of_buffer_chars0, (no_NUL_composed sft data SFTcomment ST).
  - apply (has_valid_v2_crc64_other_endian sft data SFTcomment ST).
  - pose proof (read_sft_bins_from_fp_other_endian sft data SFTcomment ST pre post
                  GRID Hd Hf RNG Hk ret n k (k + n - 1)) as R.
    fold n k in R. rewrite Z.max_id, Z.min_id in R.
    replace (k + n - 1 - k + 1) with n in R by lia.
    rewrite Z.sub_diag in R. change (Z.to_nat 0) with 0%nat in R. rewrite skipn_O in R.
    assert (En : Z.to_nat n = List.length data) by (unfold n; apply Nat2Z.id).
    rewrite En, firstn_all in R.
    apply R; lia.
Qed.

Lemma other_endian_SFT_is_read_alike_witness :
  (exists h fp',
     read_sft_header_from_fp (U := reference_SFTutils)
       (mkFILE ([] ++ SFT_block_other_endian (U := reference_SFTutils) sample_SFT sample_bins
                        (Some "hello"%string) ++ []) 0) true = (Some h, fp') /\
     hdr_swapEndian h = true /\
     option_map cstring_of_buffer (hdr_SFTcomment h) = Some "H1; hello"%string) /\
  has_valid_v2_crc64 (U := reference_SFTutils)
    (Some (mkFILE ([] ++ SFT_block_other_endian (U := reference_SFTutils) sample_SFT sample_bins
                           (Some "hello"%string) ++ []) 0)) = 1.
Proof.
  destruct (other_endian_SFT_is_read_alike (U := reference_SFTutils) sample_SFT sample_bins
              (Some "hello"%string) [] [] zero_SFT sample_SFT_storable sample_SFT_on_bin_grid)
    as ((h & fp' & R & _ & _ & _ & S & C) & V & _).
  - repeat constructor; vm_compute; intuition discriminate.
  - reflexivity.
  - reflexivity.
  - vm_compute. intuition discriminate.
  - split; [|exact V]. exists h, fp'. repeat split; assumption.
Defined.
